(* ===== verification/_CoqProject ===== *)
-Q . S2P
Prelude.v
Bigary.v
Alloc.v
Slab.v
Critnib.v
CritnibTree.v
CritnibCorrect.v
CritnibRead.v
CritnibRemove.v
CritnibIter.v
CritnibSpec.v
Wre.v
WreTree.v
WreHeap.v
WrePut.v
WreRemove.v
WreWeight.v
WreSpec.v
Queue.v
QueueSafe.v
QueueInv.v
QueueSpec.v
Events.v
Float.v
FloatSpec.v
Counters.v
CountersSpec.v
Index.v
Tachanka.v
TachankaSpec.v
TachankaDemo.v
Memtier.v
CString.v
MemtierBuilder.v
MemtierAlloc.v
MemtierSpec.v
MemtierPolicy.v
MemtierBooks.v
MemtierRun.v
Ctl.v
CtlSafe.v
CtlSpec.v
Registry.v
RegistrySpec.v
Pmem.v
PmemSpec.v
Arena.v
ArenaSpec.v
ArenaLaws.v
ArenaInit.v
ArenaRun.v
ArenaDemo.v
Extent.v
Interpose.v
Bthash.v
BthashSpec.v
Hbw.v
HbwSpec.v
Numa.v
NumaSpec.v
NumaDemo.v
Controller.v
Ranking.v
RankingSpec.v
RankingDemo.v
RankingBooks.v
RankingRun.v
Pebs.v
PebsSpec.v
PebsDemo.v
Hugetlb.v
HugetlbSpec.v
KindMmap.v
ArenaStats.v
