(* ===== verification/Prelude.v ===== *)
(** * Verification of memkind with data-hotness tiering

    ** The program

    memkind allocates memory of different kinds: DRAM, high-bandwidth memory,
    persistent memory used as nodes or as files.  On top of it the memtier layer
    spreads the allocations of a program over several kinds by a policy: fixed
    ratios, size thresholds that adapt, or how hot the data is.  The parts and
    their interaction, from the outside in:

    - [tiering/memtier.c] replaces [malloc] and its family in a program.  Its
      constructor reads a configuration text ([tiering/ctl.c]) and builds a
      tiered memory; every call is then forwarded to it.
    - [src/memkind_memtier.c] holds the policies, the builders that validate a
      configuration, the counters of the bytes used in each kind, and the calls
      [memtier_malloc] and so on, which pick a kind and forward to memkind.
    - [src/memkind.c] keeps the registry of kinds and dispatches to a kind's
      operations; [src/memkind_arena.c] gives each kind its jemalloc arenas;
      [src/memkind_pmem.c] backs a kind by a file; [src/memkind_default.c] maps
      and binds memory, [src/memkind_hugetlb.c] and [src/memkind_gbtlb.c] know
      about huge pages; [src/memkind_bitmask.c],
      [src/memkind_hbw.c], [src/memkind_capacity.c] and
      [src/memkind_mem_attributes.c] choose the NUMA nodes of a kind;
      [src/hbwmalloc.c] is an older interface over the same kinds.
    - For the hotness policy each call hashes its call stack ([src/bthash.c])
      and posts an event to a bounded queue ([src/lockless_srmw_queue.c],
      [src/ranking_queue.c]).  A background thread ([src/pebs.c]) takes the
      events and the samples of the processor and updates the blocks and types
      of [src/tachanka.c], which are indexed by two critnib trees
      ([src/critnib.c]) and ranked by hotness ([src/ranking.cpp]) in a weighted
      AVL tree ([src/wre_avl_tree.c]).  Trees and blocks take their nodes from
      slab allocators ([src/slab_allocator.c]) over growable arrays in reserved
      address space ([src/bigary.c]).  [src/ranking_controller.c] corrects the
      share of DRAM that the ranking aims at.

    ** Conventions of the model

    A [size_t] or pointer is a [Z] in [[0, 2^64)] and every operation that can
    wrap is written with its reduction ([u64], [u32], [i64], [i32]).  A
    computation that can go wrong returns an [outcome]: a value, or the reason
    it stopped ([BadDeref], [OutOfBounds], [AssertFailed], [Exited],
    [Undefined], [OutOfFuel]); sequencing is [let! x := m in k].  Errors the
    code reports are values.  State is passed explicitly; shared objects live in
    stores (finite maps from addresses), and a pointer is the address.  [float]
    and [double] are the executable binary32 and binary64 of [SpecFloat].
    The program is modelled as it is built by default: no [USE_MUTEX], no
    thread-local storage for arenas, no decorators, the arena heap manager, a
    stack range that is not searched.

    What the code calls outside its sources is an argument or a class with its
    documented behaviour as laws: the kernel's memory mapping ([OS]), jemalloc
    ([QueueMalloc], [Jemalloc] and [JemallocLaws]), libnuma, hwloc, libpfm,
    sysfs and [pow].  Between components of the program the classes
    [NodeAlloc]/[NodeAllocLaws], [AddrIndex]/[AddrIndexLaws],
    [Ranking]/[RankingLaws], the promise [mmap_law],
    [MemkindAPI]/[MemkindLaws], [Policy] and [CtlEnv] state what one part
    promises to another; the files named below discharge them.

    ** The files

    - [Prelude]: machine integers, outcomes, sums over lists and maps, tactics.
      [CString]: the string functions of C that the parsers use.
    - [Bigary], [Alloc], [Slab]: growing arrays (a prefix of the reservation is
      mapped), the interface of a node allocator, and the slab allocator that
      discharges it; an allocation never overlaps a live element.  [Slab] also
      cuts the lock-free free list at its atomic accesses and shows that a pop
      can hand out a live element (ABA).
    - [Critnib] is the radix tree as the code has it, nodes in a store, tagged
      pointers, path and shift.  [CritnibTree] gives its meaning as a tree and a
      map, [CritnibCorrect], [CritnibRead], [CritnibRemove] and [CritnibIter] the
      operations, and [CritnibSpec] the refinement of a finite map by any run.
    - [Wre] is the AVL tree with parent pointers and subtree weights; [WreTree]
      and [WreHeap] relate the store to a tree, [WrePut], [WreRemove] and
      [WreWeight] prove the operations, and [WreSpec] the refinement of a sorted
      list by any run, and the inputs on which the interpolation fails.
    - [Queue] has the calls of the lockless queue and their cut into atomic
      steps; [QueueSafe] and [QueueInv] the invariant under every interleaving
      of many writers and one reader; [QueueSpec] safety, first-in first-out
      order and the refinement of a bounded queue.  [Events] adds the wrappers
      and the copy of an event as bytes.
    - [Float] and [FloatSpec]: arithmetic and its monotonicity.  [Counters] and
      [CountersSpec]: the per-kind counters with their thread-local buffers, and
      conservation under every interleaving.
    - [Index] is the interface of the two trees of addresses, with the instance
      for critnib; [Tachanka] the types, blocks and hotness with the event
      handler; [TachankaSpec] its invariant; [TachankaDemo] concrete runs.
    - [Controller]: the controller of the DRAM share.  [Ranking] is the ranking
      of types over the AVL tree and a slab allocator, [RankingSpec] its
      refinement of a table from hotness to size, [RankingDemo] concrete runs;
      [RankingBooks] discharges [RankingLaws] and shows that the ranking follows
      the types of tachanka, [RankingRun] that a lost event breaks this.
    - [Pebs]: the cycle of the background thread, its clock, its start and end;
      [PebsSpec] what a cycle does while the kernel fills the ring buffer;
      [PebsDemo] runs and defects.
    - [Memtier], [MemtierBuilder], [MemtierAlloc]: policies, builders and calls
      of memtier; [MemtierSpec] and [MemtierPolicy] the choices of the policies
      and the validation of the builders; [MemtierBooks] and [MemtierRun] the
      invariant that each counter is the live bytes of its kind, proved against
      [MemkindLaws].
    - [Ctl], [CtlSafe], [CtlSpec]: the parser of the configuration; it ends and
      stays in its buffers for every text, and reads back every configuration
      printed in the documented syntax.
    - [Registry], [RegistrySpec]: the registry of kinds as a bounded map.
      [Pmem], [PmemSpec]: file-backed kinds, their descriptors and quota.
    - [Arena] is the dispatch and the arenas of a kind over jemalloc, [ArenaSpec]
      the packing of flags, [ArenaInit] the first use of a kind, [ArenaLaws] the
      instance of [MemkindLaws] from [JemallocLaws], [ArenaRun] the calls of
      memkind and of memtier down to jemalloc, [ArenaDemo] a concrete jemalloc
      and the defects.  [Extent]: the extent hook that aligns a mapping, proved
      from [mmap_law], which [KindMmap] discharges for the kinds that map with
      [memkind_default_mmap].  [ArenaStats]: the statistics of a kind.
    - [Hugetlb], [HugetlbSpec]: reading the huge page configuration from sysfs,
      freeing it, and the availability of kinds with huge pages.
    - [Interpose]: the replaced [malloc] family.  [Bthash], [BthashSpec]: the
      memory regions and the hash of the call stack.  [Hbw], [HbwSpec]: hbwmalloc.
    - [Numa], [NumaSpec], [NumaDemo]: the choice of NUMA nodes.

    ** What the theorems show

    Refinements: critnib is a map, the AVL tree a sorted list, the queue a
    bounded queue, the registry a bounded map of kinds, memkind's calls a map
    from blocks to kinds, the ranking a table of sizes.  Invariants: the books of
    memtier, of tachanka, of the ranking and of the file quota, conservation of the counters, balance and metadata of the
    AVL tree, the intervals of the thresholds.  Safety and termination: the
    queue under every interleaving, the configuration parser on every text, the
    verification of a region, aligned extents, the huge page configuration and
    its destructor.  Round trips: configurations, flags of jemalloc, options of
    the statistics, start and end of the registry.
    Choices: policies, weighted search, nearest and best nodes.  The theorem
    [memtier_over_arenas] composes memtier, the dispatch, the arenas and
    jemalloc; [pebs_cycle_ok] composes the queue, the event handler and the
    samples; [ranking_follows_types] the event handler, the ranking and its tree.  Where the code does not do what it means to, a theorem evaluates
    the model on an input that shows it.

    ** Bounds and fuel

    Loops over data are structural recursions on that data.  The others take
    fuel, and the theorems show that it is enough:
    [PATH_FUEL] is 18 because a path of critnib consumes one nibble of 64 bits
    per node; [READ_FUEL] is 4 because a lookup that runs alone never retries;
    [WRE_FUEL] is 160, above twice the height of an AVL tree of [WRE_MAX] (2^32)
    entries; the loops of the parser take the length of the text plus one, the
    binary searches the number of regions, the verification one round per 64
    pages, the arena loops the number of arenas, the sample loop one round more
    than there are records.
    Interleavings are sequentially consistent.

    ** Not modelled, and why

    jemalloc, libnuma, hwloc, daxctl and TBB are other programs; logging, the
    heat map ([heatmap.cpp]) and the printed tables only print; the heap manager
    of TBB is loaded at run time; the AVX-512 and libunwind builds of [bthash.c]
    are left out; tables of operations of the kinds, and the kinds that
    [memkind_local.c], [memkind_dax_kmem.c] and [memkind_regular.c] define by them,
    only name functions.  [memtier_builder_delete],
    [memtier_delete_memtier_memory], [tachanka_destroy] and [ranking_destroy]
    free what the process no longer uses.  Weak memory orders and concurrent writers of the trees
    (which the code serialises by a mutex) are not modelled. *)
From Stdlib Require Export ZArith Lia.
From stdpp Require Export base numbers gmap list_numbers list.

#[global] Open Scope Z_scope.

(** ** Machine integers

    A [size_t], [uint64_t] or pointer is a [Z] in [[0, 2^64)]; every source
    operation that can wrap is written with its reduction. *)
Definition u64 (z : Z) : Z := z mod 2 ^ 64.
Definition u32 (z : Z) : Z := z mod 2 ^ 32.
Definition u8 (z : Z) : Z := z mod 2 ^ 8.

(** Two's complement reading of a 64-bit pattern ([long long], [int64_t]). *)
Definition i64 (z : Z) : Z := (z + 2 ^ 63) mod 2 ^ 64 - 2 ^ 63.
Definition i32 (z : Z) : Z := (z + 2 ^ 31) mod 2 ^ 32 - 2 ^ 31.

Definition is_u64 (z : Z) : Prop := 0 <= z < 2 ^ 64.

(** The null pointer. *)
Abbreviation NULL := 0%Z (only parsing).

Lemma u64_range z : is_u64 (u64 z).
Proof. unfold is_u64, u64. apply Z.mod_pos_bound. lia. Qed.

Lemma u64_small z : is_u64 z → u64 z = z.
Proof. unfold is_u64, u64. intros. by apply Z.mod_small. Qed.

Lemma u64_idemp z : u64 (u64 z) = u64 z.
Proof. apply u64_small, u64_range. Qed.

Lemma u64_add_l a b : u64 (u64 a + b) = u64 (a + b).
Proof. unfold u64. rewrite Zplus_mod_idemp_l. done. Qed.

Lemma u64_add_r a b : u64 (a + u64 b) = u64 (a + b).
Proof. unfold u64. rewrite Zplus_mod_idemp_r. done. Qed.

Lemma i64_range z : - 2 ^ 63 <= i64 z < 2 ^ 63.
Proof.
  unfold i64. pose proof (Z.mod_pos_bound (z + 2 ^ 63) (2 ^ 64) ltac:(lia)). lia.
Qed.

Lemma i64_small z : - 2 ^ 63 <= z < 2 ^ 63 → i64 z = z.
Proof. intros. unfold i64. rewrite Z.mod_small; lia. Qed.

Lemma i32_small z : - 2 ^ 31 <= z < 2 ^ 31 → i32 z = z.
Proof. intros. unfold i32. rewrite Z.mod_small; lia. Qed.

(** ** Outcomes

    A C function either returns or stops the process: a dereference of a null
    or unmapped address, a write past an array, a failed [assert], a call of
    [exit]/[abort]/[die], or (in the model only) a loop that ran out of the fuel it was given. *)
Inductive fault :=
  | BadDeref      (** null or dangling pointer dereferenced *)
  | AssertFailed  (** assert(...) with a false argument *)
  | Exited        (** exit(), abort() or die() *)
  | OutOfBounds   (** a write past the end of an array *)
  | Undefined     (** an operation that C leaves undefined, other than an access *)
  | OutOfFuel.    (** the model's loop bound was reached *)

#[global] Instance fault_eq_dec : EqDecision fault.
Proof. solve_decision. Defined.

Inductive outcome (A : Type) :=
  | Ret (a : A)
  | Stop (f : fault).
Arguments Ret {A} a.
Arguments Stop {A} f.

Definition obind {A B} (m : outcome A) (k : A → outcome B) : outcome B :=
  match m with
  | Ret a => k a
  | Stop f => Stop f
  end.

Declare Scope c_scope.
Delimit Scope c_scope with C.
#[global] Open Scope c_scope.

Notation "'let!' x := m 'in' k" := (obind m (λ x, k))
  (at level 10, x pattern, m at level 100, k at level 200,
   format "'[hv' 'let!'  x  :=  m  'in'  '//' k ']'") : c_scope.

(** [deref o] reads through a pointer whose lookup in a store is [o]. *)
Definition deref {A} (o : option A) : outcome A :=
  match o with
  | Some a => Ret a
  | None => Stop BadDeref
  end.

(** [assert(b)]. *)
Definition c_assert (b : bool) : outcome unit :=
  if b then Ret () else Stop AssertFailed.

Lemma obind_ret {A B} (a : A) (k : A → outcome B) : obind (Ret a) k = k a.
Proof. done. Qed.

Lemma obind_Ret_inv {A B} (m : outcome A) (k : A → outcome B) b :
  obind m k = Ret b → ∃ a, m = Ret a ∧ k a = Ret b.
Proof. destruct m; naive_solver. Qed.

Lemma deref_Ret {A} (o : option A) a : deref o = Ret a ↔ o = Some a.
Proof. destruct o; naive_solver. Qed.

(** ** Automation *)
Create HintDb memkind discriminated.
#[export] Hint Resolve u64_range : memkind.
Create Rewrite HintDb memkind_rw.
#[export] Hint Rewrite u64_idemp u64_add_l u64_add_r @obind_ret : memkind_rw.

(** [run_inv]: decompose every hypothesis [obind m k = Ret _]. *)
Ltac run_inv :=
  repeat match goal with
  | H : obind _ _ = Ret _ |- _ =>
      let a := fresh "a" in let Ha := fresh "Ha" in
      apply obind_Ret_inv in H as (a & Ha & H)
  | H : Ret _ = Ret _ |- _ => injection H as H; subst
  | H : Stop _ = Ret _ |- _ => discriminate H
  | H : deref _ = Ret _ |- _ => apply deref_Ret in H
  | p : (_ * _)%type |- _ => destruct p
  | p : unit |- _ => destruct p
  end.

(** [zb]: turn boolean integer tests in the context into propositions. *)
Ltac zb :=
  repeat match goal with
  | H : (_ =? _) = true |- _ => apply Z.eqb_eq in H
  | H : (_ =? _) = false |- _ => apply Z.eqb_neq in H
  | H : (_ <? _) = true |- _ => apply Z.ltb_lt in H
  | H : (_ <? _) = false |- _ => apply Z.ltb_ge in H
  | H : (_ <=? _) = true |- _ => apply Z.leb_le in H
  | H : (_ <=? _) = false |- _ => apply Z.leb_gt in H
  end.

(** [case_if]: split on the first [if] of the goal, keeping the test. *)
Ltac case_if :=
  match goal with
  | |- context [if ?b then _ else _] => let E := fresh "E" in destruct b eqn:E
  end; zb.

(** ** Sums over a list *)
Definition zsum {A} (f : A → Z) (l : list A) : Z := foldr (λ x a, f x + a) 0 l.

Lemma zsum_insert {A} (f : A → Z) l i x y :
  l !! i = Some x → zsum f (<[i := y]> l) = zsum f l - f x + f y.
Proof.
  revert i. induction l as [|z l IH]; intros [|i] Hl; simplify_eq/=; [lia|].
  rewrite (IH i) by done. lia.
Qed.

Lemma zsum_bound {A} (f : A → Z) l :
  (∀ x, 0 <= f x <= 1) → 0 <= zsum f l <= Z.of_nat (length l).
Proof. intros Hf. induction l as [|z l IH]; simpl; [lia|]. specialize (Hf z). lia. Qed.

Lemma zsum_pos {A} (f : A → Z) l i x :
  (∀ y, 0 <= f y <= 1) → l !! i = Some x → f x <= zsum f l.
Proof.
  intros Hf. revert i. induction l as [|z l IH]; intros [|i] Hl; simplify_eq/=.
  - pose proof (zsum_bound f l Hf). lia.
  - specialize (IH _ Hl). specialize (Hf z). lia.
Qed.

Lemma zsum_app {A} (f : A → Z) l l' : zsum f (l ++ l') = zsum f l + zsum f l'.
Proof. induction l as [|x l IH]; simpl; lia. Qed.

Lemma zsum_ext {A} (f g : A → Z) l : (∀ x, x ∈ l → f x = g x) → zsum f l = zsum g l.
Proof.
  induction l as [|x l IH]; simpl; intros Hfg; [done|].
  rewrite IH, Hfg; [done|left|]. intros y Hy. apply Hfg. by right.
Qed.

Lemma zsum_zero {A} (f : A → Z) l : (∀ x, x ∈ l → f x = 0) → zsum f l = 0.
Proof. intros Hf. rewrite (zsum_ext f (λ _, 0)) by done. clear. induction l; simpl; lia. Qed.

(** Changing a function at one argument of a list without repetitions. *)
Lemma zsum_update {A} `{EqDecision A} (f g : A → Z) l x :
  NoDup l → x ∈ l → (∀ y, y ≠ x → g y = f y) → zsum g l = zsum f l - f x + g x.
Proof.
  induction 1 as [|y l Hy Hl IH]; intros Hx Hfg; [by apply elem_of_nil in Hx|]. simpl.
  apply elem_of_cons in Hx as [->|Hx].
  - rewrite (zsum_ext g f); [lia|]. intros z Hz. apply Hfg. by intros ->.
  - rewrite IH by done. rewrite (Hfg y); [lia|]. by intros ->.
Qed.

(** Sums over the values of a map. *)
Definition msum {V} (f : V → Z) (m : gmap Z V) : Z := map_fold (λ _ x a, f x + a) 0 m.

Lemma msum_insert {V} (f : V → Z) m i x : m !! i = None → msum f (<[i := x]> m) = f x + msum f m.
Proof. intros Hi. apply (map_fold_insert_L (λ _ x a, f x + a)); [intros; lia|done]. Qed.

Lemma msum_delete {V} (f : V → Z) m i x : m !! i = Some x → msum f (delete i m) = msum f m - f x.
Proof.
  intros Hi. rewrite <- (insert_delete_id m i x Hi) at 2.
  rewrite msum_insert by apply lookup_delete_eq. lia.
Qed.

Lemma msum_mono {V} (f g : V → Z) m : (∀ i x, m !! i = Some x → f x <= g x) → msum f m <= msum g m.
Proof.
  induction m as [|i x m Hi IH] using map_ind; intros Hle; [done|]. rewrite !msum_insert by done.
  pose proof (Hle i x (lookup_insert_eq _ _ _)). assert (msum f m <= msum g m); [|lia].
  apply IH. intros j y Hj. apply (Hle j). rewrite lookup_insert_ne; [done|]. congruence.
Qed.

Lemma msum_zero {V} (f : V → Z) m : (∀ i x, m !! i = Some x → f x = 0) → msum f m = 0.
Proof.
  induction m as [|i x m Hi IH] using map_ind; intros Hf; [done|]. rewrite msum_insert by done.
  rewrite (Hf i x) by apply lookup_insert_eq. rewrite IH; [done|].
  intros j y Hj. apply (Hf j). rewrite lookup_insert_ne; [done|]. congruence.
Qed.

(** ** Congruence modulo the machine word *)
Lemma u64_eqm x : ∃ z, u64 x = x + z * 2 ^ 64.
Proof. exists (- (x / 2 ^ 64)). unfold u64. pose proof (Z.div_mod x (2 ^ 64) ltac:(lia)). lia. Qed.

Lemma i64_eqm x : ∃ z, i64 x = x + z * 2 ^ 64.
Proof.
  exists (- ((x + 2 ^ 63) / 2 ^ 64)). unfold i64.
  pose proof (Z.div_mod (x + 2 ^ 63) (2 ^ 64) ltac:(lia)). lia.
Qed.

Lemma u64_unique x y z : is_u64 x → x = y + z * 2 ^ 64 → x = u64 y.
Proof.
  intros Hx Hz. rewrite <- (u64_small x Hx). subst x. unfold u64. apply Z_mod_plus_full.
Qed.

(** ** Bit masks *)
Lemma Z_testbit_small x n i :
  0 <= x < 2 ^ n → n <= i → Z.testbit x i = false.
Proof.
  intros Hx Hi. destruct (decide (0 <= n)) as [Hn|Hn].
  - rewrite <- (Z.mod_small x (2 ^ n)) by done. by apply Z.mod_pow2_bits_high.
  - rewrite Z.pow_neg_r in Hx by lia. lia.
Qed.

(** Clearing the low [k] bits of an [n]-bit word with the mask [2^n - 2^k]. *)
Lemma land_high_mask x n k :
  0 <= k <= n → 0 <= x < 2 ^ n →
  Z.land x (2 ^ n - 2 ^ k) = x / 2 ^ k * 2 ^ k.
Proof.
  intros Hk Hx.
  replace (2 ^ n - 2 ^ k) with (Z.shiftl (Z.ones (n - k)) k).
  2:{ rewrite Z.shiftl_mul_pow2, Z.ones_equiv by lia.
      replace (2 ^ n) with (2 ^ (n - k) * 2 ^ k); [nia|].
      rewrite <- Z.pow_add_r by lia. f_equal. lia. }
  rewrite <- Z.shiftr_div_pow2, <- Z.shiftl_mul_pow2 by lia.
  apply Z.bits_inj'. intros i Hi.
  rewrite Z.land_spec, !Z.shiftl_spec by done.
  destruct (decide (i < k)).
  { rewrite !(Z.testbit_neg_r _ (i - k)) by lia. by rewrite andb_false_r. }
  rewrite Z.shiftr_spec, Z.sub_add by lia.
  destruct (decide (i < n)).
  - rewrite Z.ones_spec_low by lia. apply andb_true_r.
  - by rewrite (Z_testbit_small x n i) by lia.
Qed.

(** Rounding up to a multiple of [p]. *)
Lemma round_up_spec t p :
  0 < p → t <= (t + p - 1) / p * p < t + p.
Proof.
  intros Hp. pose proof (Z.div_mod (t + p - 1) p ltac:(lia)).
  pose proof (Z.mod_pos_bound (t + p - 1) p Hp). lia.
Qed.
