(* ===== verification/Bigary.v ===== *)
(** * Growable array in reserved address space ([src/bigary.c]) *)
From S2P Require Import Prelude.

(** The operating system calls that the allocators make.  They are not part of
    the repository: an instance says whether each call succeeds and where the
    kernel puts a mapping. *)
Class OS := {
  os_mmap : Z → option Z;         (** [mmap(0, len, PROT_NONE, ...)], [None] is [MAP_FAILED] *)
  os_mmap_fixed : Z → Z → bool;   (** [mmap(addr, len, ..., MAP_FIXED|...)] succeeds *)
  os_mutex_init : Z;              (** result of [pthread_mutex_init] *)
  os_mutex_destroy : Z;           (** result of [pthread_mutex_destroy] *)
  os_munmap : Z → Z → Z;          (** result of [munmap(addr, len)] *)
}.

Definition BIGARY_DEFAULT_MAX : Z := 16 * 1024 * 1024 * 1024.
Definition BIGARY_PAGESIZE : Z := 2097152.

(** [struct bigary]; the mutex [enlargement] is held for the duration of the
    growing branch of [bigary_alloc] and has no field here. *)
Record bigary := Bigary {
  area : Z;
  declared : Z;
  top : Z;
  fd : Z;
  flags : Z;
}.

Section bigary.
Context `{OS}.

Definition bigary_init (fd flags max : Z) : outcome bigary :=
  let max := if max =? 0 then BIGARY_DEFAULT_MAX else max in
  let last_page_size := max mod BIGARY_PAGESIZE in
  let max :=
    if negb (last_page_size =? 0) then
      let pages := u64 (max / BIGARY_PAGESIZE + 1) in
      u64 (pages * BIGARY_PAGESIZE)
    else max in
  if negb (os_mutex_init =? 0) then Stop Exited else
  match os_mmap max with
  | None => Stop Exited
  | Some area =>
      if os_mmap_fixed area BIGARY_PAGESIZE then
        Ret (Bigary area max BIGARY_PAGESIZE fd flags)
      else Stop Exited
  end.

Definition bigary_alloc (ba : bigary) (top_ : Z) : outcome bigary :=
  if top_ <=? top ba then Ret ba else
  let top_ := Z.land (u64 (top_ + BIGARY_PAGESIZE - 1))
                     (u64 (Z.lnot (BIGARY_PAGESIZE - 1))) in
  if declared ba <? top_ then Stop Exited else
  if os_mmap_fixed (u64 (area ba + top ba)) (u64 (top_ - top ba)) then
    Ret (Bigary (area ba) (declared ba) top_ (fd ba) (flags ba))
  else Stop Exited.

(** The mapping is gone before the results are checked. *)
Definition bigary_destroy (ba : bigary) : outcome unit :=
  let ret1 := os_mutex_destroy in
  let ret2 := os_munmap (area ba) (declared ba) in
  let! _ := c_assert (ret1 =? 0) in
  c_assert (ret2 =? 0).

End bigary.

(** ** Properties *)

(** What every operation keeps: whole pages, inside the reservation, and the
    reservation itself below the user-space limit. *)
Record bigary_wf (ba : bigary) : Prop := {
  wf_area : 0 < area ba;
  wf_area_page : area ba mod 4096 = 0;
  wf_limit : area ba + declared ba < 2 ^ 63;
  wf_declared_page : declared ba mod BIGARY_PAGESIZE = 0;
  wf_top : 0 <= top ba <= declared ba;
}.

Lemma bigary_align_up t :
  0 <= t → t + BIGARY_PAGESIZE - 1 < 2 ^ 64 →
  Z.land (u64 (t + BIGARY_PAGESIZE - 1)) (u64 (Z.lnot (BIGARY_PAGESIZE - 1)))
  = (t + BIGARY_PAGESIZE - 1) / BIGARY_PAGESIZE * BIGARY_PAGESIZE.
Proof.
  intros. rewrite u64_small by (unfold is_u64, BIGARY_PAGESIZE in *; lia).
  replace (u64 (Z.lnot (BIGARY_PAGESIZE - 1))) with (2 ^ 64 - 2 ^ 21) by done.
  apply (land_high_mask _ 64 21); unfold BIGARY_PAGESIZE in *; lia.
Qed.

(** The two ways the code rounds a size up to whole pages agree. *)
Definition pages_up (sz : Z) : Z :=
  (sz + BIGARY_PAGESIZE - 1) / BIGARY_PAGESIZE * BIGARY_PAGESIZE.

Lemma pages_up_branches sz :
  0 < sz < 2 ^ 62 →
  (if negb (sz mod BIGARY_PAGESIZE =? 0)
   then u64 (u64 (sz / BIGARY_PAGESIZE + 1) * BIGARY_PAGESIZE) else sz) = pages_up sz.
Proof.
  intros Hsz. unfold pages_up, BIGARY_PAGESIZE.
  pose proof (Z.div_mod sz 2097152 ltac:(done)).
  pose proof (Z.mod_pos_bound sz 2097152 ltac:(done)).
  assert (0 <= sz / 2097152) by (apply Z.div_pos; lia).
  rewrite (u64_small (sz / 2097152 + 1)) by (unfold is_u64; lia).
  rewrite (u64_small (_ * _)) by (unfold is_u64; lia).
  case_if; [apply negb_true_iff in E|apply negb_false_iff in E]; zb.
  - f_equal. apply Z.div_unique with (r := sz mod 2097152 - 1); lia.
  - assert ((sz + 2097152 - 1) / 2097152 = sz / 2097152); [|lia].
    symmetry. apply Z.div_unique with (r := 2097151); lia.
Qed.

Lemma pages_up_bounds sz :
  0 < sz → sz <= pages_up sz < sz + BIGARY_PAGESIZE ∧ BIGARY_PAGESIZE <= pages_up sz ∧
  pages_up sz mod BIGARY_PAGESIZE = 0.
Proof.
  intros Hsz. unfold pages_up. split; [by apply round_up_spec|]. split.
  - assert (1 <= (sz + BIGARY_PAGESIZE - 1) / BIGARY_PAGESIZE).
    { apply Z.div_le_lower_bound; unfold BIGARY_PAGESIZE; lia. }
    unfold BIGARY_PAGESIZE in *. lia.
  - apply Z_mod_mult.
Qed.

Section props.
Context `{OS}.

(** A reservation the kernel grants at [base] is well formed, with its first
    page usable. *)
Lemma bigary_init_ok fd_ flags_ max base :
  let sz := if max =? 0 then BIGARY_DEFAULT_MAX else max in
  os_mutex_init = 0 → (∀ a n, os_mmap_fixed a n = true) →
  0 < sz < 2 ^ 62 → os_mmap (pages_up sz) = Some base →
  0 < base → base mod 4096 = 0 → base + pages_up sz < 2 ^ 63 →
  bigary_init fd_ flags_ max
    = Ret (Bigary base (pages_up sz) BIGARY_PAGESIZE fd_ flags_) ∧
  bigary_wf (Bigary base (pages_up sz) BIGARY_PAGESIZE fd_ flags_).
Proof.
  intros sz Hmu Hfix Hsz Hmap ? ? ?. split.
  - unfold bigary_init. fold sz. rewrite Hmu. cbn [negb Z.eqb].
    rewrite pages_up_branches by done. by rewrite Hmap, Hfix.
  - pose proof (pages_up_bounds sz ltac:(lia)). split; cbn; try done; lia.
Qed.

(** When the kernel grants the pages, growing to any size inside the
    reservation succeeds, covers the request and keeps the layout. *)
Lemma bigary_alloc_ok ba t :
  (∀ a n, os_mmap_fixed a n = true) →
  bigary_wf ba → 0 <= t <= declared ba →
  ∃ ba', bigary_alloc ba t = Ret ba' ∧ bigary_wf ba' ∧
    area ba' = area ba ∧ declared ba' = declared ba ∧
    t <= top ba' ∧ top ba <= top ba'.
Proof.
  intros Hos Hwf Ht. unfold bigary_alloc.
  destruct (t <=? top ba) eqn:E; zb.
  { exists ba. split_and!; try done; lia. }
  pose proof Hwf as [? ? ? ? ?].
  rewrite bigary_align_up by (unfold BIGARY_PAGESIZE; lia).
  pose proof (round_up_spec t BIGARY_PAGESIZE ltac:(done)) as Hr.
  set (t' := _ / _ * _) in *.
  assert (t' <= declared ba).
  { subst t'. pose proof (Z.div_mod (declared ba) BIGARY_PAGESIZE ltac:(done)).
    pose proof (Z.div_le_mono (t + BIGARY_PAGESIZE - 1)
      (declared ba + BIGARY_PAGESIZE - 1) BIGARY_PAGESIZE ltac:(done) ltac:(lia)).
    assert ((declared ba + BIGARY_PAGESIZE - 1) / BIGARY_PAGESIZE
            = declared ba / BIGARY_PAGESIZE) as Hd.
    { symmetry. apply Z.div_unique with (r := BIGARY_PAGESIZE - 1);
        unfold BIGARY_PAGESIZE in *; lia. }
    rewrite Hd in *. unfold BIGARY_PAGESIZE in *; lia. }
  case_if; [lia|]. rewrite Hos. eexists. split; [done|]. cbn.
  split_and!; try lia. split; cbn; try done; lia.
Qed.

(** A request beyond the reservation ends the process; no mapping is made. *)
Lemma bigary_alloc_overflow ba t :
  bigary_wf ba → declared ba < t → t + BIGARY_PAGESIZE - 1 < 2 ^ 64 →
  bigary_alloc ba t = Stop Exited.
Proof.
  intros [? ? ? ? ?] ? ?. unfold bigary_alloc. case_if; [lia|].
  rewrite bigary_align_up by lia.
  pose proof (round_up_spec t BIGARY_PAGESIZE ltac:(done)).
  case_if; [done|lia].
Qed.

End props.
