(* ===== verification/Alloc.v ===== *)
(** * The allocator interface the containers are proved against

    [critnib] and the weighted tree take their nodes from slab allocators.
    Their theorems use only the laws below; [Slab] discharges them. *)
From S2P Require Import Prelude.

(** The two entry points, over a world [W] that holds all allocators; an
    allocator is named by a handle (the address of its control block). *)
Class NodeAlloc (W : Type) := {
  na_malloc : Z → W → outcome (Z * W);
  na_free : Z → W → outcome W;
}.

(** What an allocator promises.  [na_inv w M] describes the world: [M] gives for
    each handle the addresses in use and how many more requests it can serve. *)
Class NodeAllocLaws (W : Type) `{NodeAlloc W} := {
  na_inv : W → gmap Z (gset Z * nat) → Prop;
  na_malloc_ok w M h L n :
    na_inv w M → M !! h = Some (L, S n) →
    ∃ p w', na_malloc h w = Ret (p, w') ∧
      (p ∉ L) ∧ p ≠ NULL ∧ is_u64 p ∧ Z.even p = true ∧
      na_inv w' (<[h := ({[p]} ∪ L, n)]> M);
  na_free_ok w M h L n p :
    na_inv w M → M !! h = Some (L, n) → p ∈ L →
    ∃ w', na_free p w = Ret w' ∧
      na_inv w' (<[h := (L ∖ {[p]}, S n)]> M);
}.
