(* ===== verification/Slab.v ===== *)
(** * Fixed-size slab allocator ([src/slab_allocator.c])

    Elements of one size are carved from a [bigary]; each is preceded by a
    16-byte header that names its allocator and links the element into the
    allocator's free list while it is free.  The world [slab_world] holds every
    allocator (by the address of its [slab_alloc_t]) and every header (by its
    own address), because [slab_alloc_free] finds the allocator through the
    header.  [USE_LOCKLESS] is defined, so the list head is changed by
    compare-and-swap loops; [slab_alloc_malloc] and [slab_alloc_free] are the
    uninterrupted runs of these loops and section [interleaving] runs them step
    by step. *)
From S2P Require Import Prelude Bigary Alloc.

Definition SIZEOF_META : Z := 16.

Record freelist_node_meta := Meta {
  allocator : Z;
  next : Z;
}.

(** [slab_alloc_t]; [freelist] is [globFreelist.freelist]. *)
Record slab_alloc := SlabAlloc {
  freelist : Z;
  mappedMemory : bigary;
  elementSize : Z;
  used : Z;
}.

Record slab_world := World {
  slabs : gmap Z slab_alloc;
  metas : gmap Z freelist_node_meta;
}.

Definition slab_alloc_addr_to_node_meta_ (addr : Z) : outcome Z :=
  let! _ := c_assert (negb (addr =? NULL)) in
  Ret (u64 (addr - SIZEOF_META)).

Definition slab_alloc_node_meta_to_addr_ (meta : Z) : outcome Z :=
  let! _ := c_assert (negb (meta =? NULL)) in
  Ret (u64 (meta + SIZEOF_META)).

Definition set_freelist (v : Z) (a : slab_alloc) : slab_alloc :=
  SlabAlloc v (mappedMemory a) (elementSize a) (used a).

Definition set_next (v : Z) (m : freelist_node_meta) : freelist_node_meta :=
  Meta (allocator m) v.

Definition slab_alloc_glob_freelist_push_ (addr : Z) (w : slab_world)
  : outcome slab_world :=
  let! meta := slab_alloc_addr_to_node_meta_ addr in
  let! m := deref (metas w !! meta) in
  let! a := deref (slabs w !! allocator m) in
  Ret (World (<[allocator m := set_freelist meta a]> (slabs w))
             (<[meta := set_next (freelist a) m]> (metas w))).

Definition slab_alloc_glob_freelist_pop_ (alloc : Z) (w : slab_world)
  : outcome (Z * slab_world) :=
  let! a := deref (slabs w !! alloc) in
  let meta := freelist a in
  if meta =? NULL then Ret (NULL, w) else
  let! m := deref (metas w !! meta) in
  let! addr := slab_alloc_node_meta_to_addr_ meta in
  Ret (addr, World (<[alloc := set_freelist (next m) a]> (slabs w)) (metas w)).

Definition slab_alloc_fetch_increment_used_ (a : slab_alloc) : Z * slab_alloc :=
  (used a, SlabAlloc (freelist a) (mappedMemory a) (elementSize a)
                     (u64 (used a + 1))).

Section slab.
Context `{OS}.

Definition slab_alloc_create_meta_ (alloc : Z) (w : slab_world)
  : outcome (Z * slab_world) :=
  let! a := deref (slabs w !! alloc) in
  let '(free_idx, a) := slab_alloc_fetch_increment_used_ a in
  let meta_offset := u64 (elementSize a * free_idx) in
  let! ba := bigary_alloc (mappedMemory a) (u64 ((free_idx + 1) * elementSize a)) in
  let a := SlabAlloc (freelist a) ba (elementSize a) (used a) in
  let ret := u64 (area ba + meta_offset) in
  Ret (ret, World (<[alloc := a]> (slabs w)) (<[ret := Meta alloc NULL]> (metas w))).

(** [BIGARY_DRAM] expands to the two arguments [-1, MAP_ANONYMOUS|MAP_PRIVATE]. *)
Definition slab_alloc_init (alloc element_size max_elements : Z) (w : slab_world)
  : outcome (Z * slab_world) :=
  let elementSize := u64 (SIZEOF_META + element_size) in
  let max_elements_size := u64 (max_elements * elementSize) in
  let! ba := bigary_init (-1) 34 max_elements_size in
  Ret (os_mutex_init,
       World (<[alloc := SlabAlloc NULL ba elementSize 0]> (slabs w)) (metas w)).

Definition slab_alloc_malloc (alloc : Z) (w : slab_world) : outcome (Z * slab_world) :=
  let! (ret, w) := slab_alloc_glob_freelist_pop_ alloc w in
  if negb (ret =? NULL) then Ret (ret, w) else
  let! (meta, w) := slab_alloc_create_meta_ alloc w in
  if negb (meta =? NULL) then
    let! ret := slab_alloc_node_meta_to_addr_ meta in Ret (ret, w)
  else Ret (NULL, w).

Definition slab_alloc_free (addr : Z) (w : slab_world) : outcome slab_world :=
  let! _ := c_assert (negb (addr =? NULL)) in
  slab_alloc_glob_freelist_push_ addr w.

(** Unmapping makes the headers of the area inaccessible; the control block is
    memory of the caller. *)
Definition slab_alloc_destroy (alloc : Z) (w : slab_world) : outcome slab_world :=
  let! a := deref (slabs w !! alloc) in
  let ret := os_mutex_destroy in
  let! _ := bigary_destroy (mappedMemory a) in
  let w := World (slabs w)
    (filter (λ kv, ¬ (area (mappedMemory a) <= kv.1
                      < area (mappedMemory a) + declared (mappedMemory a))) (metas w)) in
  let! _ := c_assert (ret =? 0) in
  Ret w.

End slab.

(** ** The invariant of one allocator *)

(** Header address of element [i]. *)
Definition elem (a : slab_alloc) (i : Z) : Z :=
  area (mappedMemory a) + elementSize a * i.

(** [chain ms s p l]: following [next] from [p] visits exactly the headers [l],
    all owned by allocator [s], and ends in null. *)
Fixpoint chain (ms : gmap Z freelist_node_meta) (s p : Z) (l : list Z) : Prop :=
  match l with
  | [] => p = NULL
  | x :: l => p = x ∧ ∃ n, ms !! x = Some (Meta s n) ∧ chain ms s n l
  end.

Record slab_geom (a : slab_alloc) : Prop := {
  geom_wf : bigary_wf (mappedMemory a);
  geom_size : SIZEOF_META < elementSize a;
  geom_even : Z.even (elementSize a) = true;
  geom_used : 0 <= used a;
  geom_fits : used a * elementSize a <= top (mappedMemory a);
}.

(** [slab_inv w s l L n]: allocator [s] has free list [l], has handed out the
    addresses [L], and can serve [n] more requests. *)
Record slab_inv (w : slab_world) (s : Z) (a : slab_alloc) (l : list Z)
    (L : gset Z) (n : nat) : Prop := {
  inv_slab : slabs w !! s = Some a;
  inv_geom : slab_geom a;
  inv_chain : chain (metas w) s (freelist a) l;
  inv_nodup : NoDup l;
  inv_free : ∀ x, x ∈ l → ∃ i, 0 <= i < used a ∧ x = elem a i;
  inv_live : ∀ p, p ∈ L → ((p - SIZEOF_META) ∉ l) ∧
    ∃ i nx, 0 <= i < used a ∧ p = elem a i + SIZEOF_META ∧
            metas w !! elem a i = Some (Meta s nx);
  inv_room : Z.of_nat n <= Z.of_nat (length l)
    + (declared (mappedMemory a) / elementSize a - used a);
}.

(** The addresses an allocator may touch. *)
Definition in_area (a : slab_alloc) (x : Z) : Prop :=
  area (mappedMemory a) <= x < area (mappedMemory a) + declared (mappedMemory a).

Lemma elem_bounds a i :
  slab_geom a → 0 <= i < used a →
  in_area a (elem a i) ∧ 0 < elem a i ∧
  elem a i + elementSize a <= area (mappedMemory a) + declared (mappedMemory a).
Proof.
  intros [[? ? ? ? ?] ? ? ? ?] Hi. unfold in_area, elem, SIZEOF_META in *.
  assert (elementSize a * i + elementSize a <= top (mappedMemory a)) by nia.
  nia.
Qed.

Lemma used_le_capacity a :
  slab_geom a → used a <= declared (mappedMemory a) / elementSize a.
Proof.
  intros [[? ? ? ? ?] ? ? ? ?]. unfold SIZEOF_META in *.
  apply Z.div_le_lower_bound; lia.
Qed.

Lemma elem_inj a i j : 0 < elementSize a → elem a i = elem a j → i = j.
Proof. unfold elem. intros. nia. Qed.

Lemma chain_frame ms s p l x m :
  x ∉ l → chain (<[x := m]> ms) s p l ↔ chain ms s p l.
Proof.
  revert p. induction l as [|y l IH]; intros p Hx; cbn; [done|].
  apply not_elem_of_cons in Hx as [Hne Hx].
  rewrite lookup_insert_ne by done. by setoid_rewrite IH.
Qed.

(** A change to headers outside an allocator's area does not affect it. *)
Lemma slab_inv_frame w w' s a l L n :
  slab_inv w s a l L n →
  slabs w' !! s = Some a →
  (∀ x, in_area a x → metas w' !! x = metas w !! x) →
  slab_inv w' s a l L n.
Proof.
  intros [Hs Hg Hc Hnd Hf HL Hn] Hs' Hm. split; try done.
  - assert (∀ x, x ∈ l → metas w' !! x = metas w !! x) as Hl.
    { intros x (i & Hi & ->)%Hf. apply Hm. by apply elem_bounds. }
    clear -Hc Hl. revert Hc. generalize (freelist a) as p.
    induction l as [|x l IH]; intros p; cbn; [done|].
    intros [-> (nx & Hx & Hc)]. split; [done|]. exists nx.
    rewrite Hl by set_solver. split; [done|]. apply IH; [|done]. set_solver.
  - intros p Hp. destruct (HL p Hp) as (? & i & nx & Hi & -> & Hx).
    split; [done|]. exists i, nx. rewrite Hm; [done|]. by apply elem_bounds.
Qed.

(** ** Single operations *)
Section ops.
Context `{OS}.
Hypothesis mmap_fixed_ok : ∀ a n, os_mmap_fixed a n = true.

(** An element taken from the free list. *)
Lemma malloc_reuse w s a x l L n :
  slab_inv w s a (x :: l) L n →
  ∃ nx, slab_alloc_malloc s w =
      Ret (x + SIZEOF_META, World (<[s := set_freelist nx a]> (slabs w)) (metas w)) ∧
    slab_inv (World (<[s := set_freelist nx a]> (slabs w)) (metas w)) s
      (set_freelist nx a) l ({[x + SIZEOF_META]} ∪ L) (pred n).
Proof using Type. clear mmap_fixed_ok.
  intros [Hs Hg [Hp (nx & Hx & Hc)] Hnd Hf HL Hn].
  destruct (Hf x) as (i & Hi & Hxi); [set_solver|].
  destruct (elem_bounds _ _ Hg Hi) as (Hin & ? & Hend).
  pose proof (wf_limit _ (geom_wf _ Hg)). pose proof (geom_size _ Hg).
  unfold SIZEOF_META in *.
  exists nx. split.
  - unfold slab_alloc_malloc, slab_alloc_glob_freelist_pop_. rewrite Hs. cbn.
    rewrite Hp. destruct (x =? 0) eqn:E; zb; [lia|]. rewrite Hx. cbn.
    unfold slab_alloc_node_meta_to_addr_, SIZEOF_META.
    destruct (x =? 0) eqn:E'; zb; [lia|]. cbn.
    rewrite u64_small by (unfold is_u64; lia).
    destruct (x + 16 =? 0) eqn:E''; zb; [lia|done].
  - split; cbn; try done.
    + by rewrite lookup_insert_eq.
    + destruct Hg. split; done.
    + by apply NoDup_cons in Hnd as [].
    + intros y Hy. apply Hf. set_solver.
    + apply NoDup_cons in Hnd as [Hxl _]. intros p [->%elem_of_singleton|Hp']%elem_of_union.
      * rewrite Z.add_simpl_r. split; [done|].
        exists i, nx. change (elem (set_freelist nx a) i) with (elem a i).
        rewrite <- Hxi. by split_and!; try lia.
      * destruct (HL p Hp') as (Hpl & Hrest). split; [set_solver|exact Hrest].
    + cbn in Hn. pose proof (used_le_capacity _ Hg). lia.
Qed.

(** A fresh element cut from the mapped area. *)
Lemma malloc_fresh w s a L n :
  slab_inv w s a [] L (S n) →
  ∃ a' p, slab_alloc_malloc s w =
      Ret (p, World (<[s := a']> (slabs w)) (<[p - SIZEOF_META := Meta s NULL]> (metas w))) ∧
    slab_inv (World (<[s := a']> (slabs w)) (<[p - SIZEOF_META := Meta s NULL]> (metas w)))
      s a' [] ({[p]} ∪ L) n ∧
    p = elem a (used a) + SIZEOF_META ∧
    area (mappedMemory a') = area (mappedMemory a) ∧
    declared (mappedMemory a') = declared (mappedMemory a).
Proof.
  intros [Hs Hg Hc Hnd Hf HL Hn]. cbn in Hc, Hn.
  pose proof Hg as [Hwf Hsz Hev Hu Hfit]. pose proof Hwf as [Ha Hap Hlim Hdp Ht].
  unfold SIZEOF_META in *.
  assert ((used a + 1) * elementSize a <= declared (mappedMemory a)) as Hfit'.
  { pose proof (Z.mul_div_le (declared (mappedMemory a)) (elementSize a) ltac:(lia)). nia. }
  destruct (bigary_alloc_ok (mappedMemory a) ((used a + 1) * elementSize a))
    as (ba & Hba & Hbwf & Harea & Hdecl & Htop & _); [done|done|nia|].
  set (a' := SlabAlloc (freelist a) ba (elementSize a) (used a + 1)).
  exists a', (elem a (used a) + 16). split; [|split].
  - unfold slab_alloc_malloc, slab_alloc_glob_freelist_pop_, slab_alloc_create_meta_.
    rewrite Hs. cbn. rewrite Hc. cbn. rewrite Hs. cbn.
    rewrite (u64_small (used a + 1)) by (unfold is_u64; nia).
    rewrite (u64_small ((used a + 1) * elementSize a)) by (unfold is_u64; nia).
    rewrite Hba. cbn.
    rewrite (u64_small (elementSize a * used a)) by (unfold is_u64; nia).
    rewrite Harea, (u64_small (_ + _)) by (unfold is_u64; nia).
    unfold slab_alloc_node_meta_to_addr_, SIZEOF_META.
    destruct (_ =? 0) eqn:E; zb; [nia|]. cbn.
    rewrite u64_small by (unfold is_u64; nia).
    subst a'. unfold elem. repeat f_equal; lia.
  - split; cbn; try done.
    + by rewrite lookup_insert_eq.
    + split; cbn; try done; nia.
    + intros x []%not_elem_of_nil.
    + unfold elem. cbn. rewrite Harea.
      intros p [->%elem_of_singleton|Hp]%elem_of_union.
      * split; [apply not_elem_of_nil|].
        exists (used a), NULL. split_and!; [lia|lia|done|].
        by replace (_ + _ + 16 - 16) with (area (mappedMemory a) + elementSize a * used a)
          by lia; rewrite lookup_insert_eq.
      * destruct (HL p Hp) as (_ & i & nx & Hi & -> & Hm).
        split; [apply not_elem_of_nil|]. exists i, nx. split_and!; [lia|lia|done|].
        unfold elem in *. rewrite lookup_insert_ne; [done|nia].
    + rewrite Hdecl. lia.
  - split_and!; done.
Qed.

(** An element given back becomes the head of its allocator's free list. *)
Lemma free_push w s a l L n p :
  slab_inv w s a l L n → p ∈ L →
  ∃ a' m, slab_alloc_free p w =
      Ret (World (<[s := a']> (slabs w)) (<[p - SIZEOF_META := m]> (metas w))) ∧
    slab_inv (World (<[s := a']> (slabs w)) (<[p - SIZEOF_META := m]> (metas w)))
      s a' (p - SIZEOF_META :: l) (L ∖ {[p]}) (S n) ∧
    a' = set_freelist (p - SIZEOF_META) a ∧ in_area a (p - SIZEOF_META).
Proof using Type. clear mmap_fixed_ok.
  intros Hinv Hp. pose proof Hinv as [Hs Hg Hc Hnd Hf HL Hn].
  destruct (HL p Hp) as (Hpl & i & nx & Hi & Hpi & Hm).
  destruct (elem_bounds _ _ Hg Hi) as (Hin & ? & Hend).
  pose proof (wf_limit _ (geom_wf _ Hg)). pose proof (geom_size _ Hg).
  unfold SIZEOF_META in *.
  assert (p - 16 = elem a i) as Hpe by lia.
  exists (set_freelist (p - 16) a), (Meta s (freelist a)). split; [|split].
  - unfold slab_alloc_free, slab_alloc_glob_freelist_push_, slab_alloc_addr_to_node_meta_.
    unfold SIZEOF_META. destruct (p =? 0) eqn:E; zb; [lia|]. cbn.
    rewrite u64_small by (unfold is_u64; lia). rewrite Hpe, Hm. cbn. by rewrite Hs.
  - split; cbn; try done.
    + by rewrite lookup_insert_eq.
    + destruct Hg. split; done.
    + split; [done|]. exists (freelist a). rewrite lookup_insert_eq. split; [done|].
      by apply chain_frame.
    + by apply NoDup_cons.
    + intros x [->|Hx]%elem_of_cons; [by exists i|by apply Hf].
    + intros q [Hq Hqp]%elem_of_difference. destruct (HL q Hq) as (Hql & j & nx' & Hj & Hqj & Hmj).
      assert (q ≠ p) by set_solver. split.
      { apply not_elem_of_cons. split; [unfold SIZEOF_META; lia|done]. }
      exists j, nx'. change (elem (set_freelist (p - 16) a) j) with (elem a j).
      rewrite lookup_insert_ne by lia. unfold SIZEOF_META. by split_and!; try lia.
    + lia.
  - split; [done|]. by rewrite Hpe.
Qed.

End ops.

(** ** All allocators together *)
Definition areas_disjoint (a b : slab_alloc) : Prop :=
  ∀ x, in_area a x → in_area b x → False.

Record world_inv (w : slab_world) (M : gmap Z (gset Z * nat)) : Prop := {
  world_each s L n : M !! s = Some (L, n) → ∃ a l, slab_inv w s a l L n;
  world_apart s t a b : s ≠ t → is_Some (M !! s) → is_Some (M !! t) →
    slabs w !! s = Some a → slabs w !! t = Some b → areas_disjoint a b;
}.

(** An operation that only touches allocator [s] and headers in its area
    keeps the whole world. *)
Lemma world_inv_update w M s a a' ms l' L' n' :
  world_inv w M → is_Some (M !! s) → slabs w !! s = Some a →
  (∀ x, in_area a' x ↔ in_area a x) →
  (∀ x, ¬ in_area a x → ms !! x = metas w !! x) →
  slab_inv (World (<[s := a']> (slabs w)) ms) s a' l' L' n' →
  world_inv (World (<[s := a']> (slabs w)) ms) (<[s := (L', n')]> M).
Proof.
  intros [Heach Hap] Hs Hsa Harea Hms Hinv. split; cbn.
  - intros t L n. destruct (decide (s = t)) as [<-|Hne].
    + rewrite lookup_insert_eq. intros [= <- <-]. eauto.
    + rewrite lookup_insert_ne by done. intros Ht.
      destruct (Heach t L n Ht) as (b & l & Hb). exists b, l.
      eapply slab_inv_frame; [done| |].
      * cbn. rewrite lookup_insert_ne by done. apply Hb.
      * intros x Hx. apply Hms. intros Hx'.
        by apply (Hap s t a b Hne Hs (mk_is_Some _ _ Ht) Hsa (inv_slab _ _ _ _ _ _ Hb) x).
  - intros t u b c Htu Ht Hu.
    assert (∀ v, is_Some (<[s := (L', n')]> M !! v) → is_Some (M !! v)) as HM.
    { intros v. rewrite lookup_insert. by case_decide; subst. }
    apply HM in Ht, Hu.
    destruct (decide (t = s)) as [->|Hts], (decide (u = s)) as [->|Hus]; [done| | |].
    + rewrite lookup_insert_eq, lookup_insert_ne by done. intros [= <-] Hc x Hx.
      apply Harea in Hx. revert x Hx. by apply (Hap s u).
    + rewrite lookup_insert_eq, lookup_insert_ne by done. intros Hb [= <-] x Hx Hx'.
      apply Harea in Hx'. revert Hx Hx'. by apply (Hap t s).
    + rewrite !lookup_insert_ne by done. by apply Hap.
Qed.

Lemma elem_even a i :
  slab_geom a → Z.even (elem a i + SIZEOF_META) = true.
Proof.
  intros [[? Hp ? ? ?] ? He ? ?]. unfold elem, SIZEOF_META.
  apply Z.even_spec in He as [k Hk]. apply Z.even_spec.
  apply Z.div_exact in Hp; [|lia]. rewrite Hp, Hk.
  exists (2048 * (area (mappedMemory a) / 4096) + k * i + 8). lia.
Qed.

#[export] Instance slab_NodeAlloc `{OS} : NodeAlloc slab_world := {
  na_malloc := slab_alloc_malloc;
  na_free := slab_alloc_free;
}.

(** A handed-out address is a non-null even 64-bit pointer. *)
Lemma live_pointer w s a l L n p :
  slab_inv w s a l L n → p ∈ L → p ≠ NULL ∧ is_u64 p ∧ Z.even p = true.
Proof.
  intros Hinv Hp. pose proof (inv_geom _ _ _ _ _ _ Hinv) as Hg.
  destruct (inv_live _ _ _ _ _ _ Hinv p Hp) as (_ & i & nx & Hi & -> & _).
  pose proof (elem_bounds _ _ Hg Hi) as (? & ? & ?).
  pose proof (geom_size _ Hg). pose proof (wf_limit _ (geom_wf _ Hg)).
  unfold is_u64. split_and!; try (unfold SIZEOF_META in *; lia).
  by apply elem_even.
Qed.

Section laws.
Context `{OS}.
Hypothesis mmap_fixed_ok : ∀ a n, os_mmap_fixed a n = true.

Lemma world_malloc_ok w M s L n :
  world_inv w M → M !! s = Some (L, S n) →
  ∃ p w', slab_alloc_malloc s w = Ret (p, w') ∧
    (p ∉ L) ∧ p ≠ NULL ∧ is_u64 p ∧ Z.even p = true ∧
    world_inv w' (<[s := ({[p]} ∪ L, n)]> M).
Proof.
  intros Hw Hs. destruct (world_each _ _ Hw _ _ _ Hs) as (a & l & Hinv).
  pose proof Hinv as [Hsa Hg _ Hnd Hf HL _]. destruct l as [|x l].
  - destruct (malloc_fresh mmap_fixed_ok _ _ _ _ _ Hinv)
      as (a' & p & Hrun & Hinv' & Hp & Har & Hde).
    eexists p, _. split; [exact Hrun|]. split.
    { intros (_ & i & nx & Hi & Hpi & _)%HL. rewrite Hp in Hpi.
      pose proof (geom_size _ Hg). unfold SIZEOF_META in *.
      assert (used a = i); [|lia]. apply (elem_inj a); lia. }
    destruct (live_pointer _ _ _ _ _ _ p Hinv' ltac:(set_solver)) as (? & ? & ?).
    split_and!; try done. eapply world_inv_update; eauto.
    + intros y. unfold in_area. by rewrite Har, Hde.
    + intros y Hy. apply lookup_insert_ne. intros <-. apply Hy.
      destruct (inv_live _ _ _ _ _ _ Hinv' p ltac:(set_solver)) as (_ & i & nx & Hi & Hpi & _).
      replace (p - SIZEOF_META) with (elem a' i) by lia.
      pose proof (elem_bounds _ _ (inv_geom _ _ _ _ _ _ Hinv') Hi) as (Hin & _).
      unfold in_area in *. by rewrite <- Har, <- Hde.
  - destruct (malloc_reuse _ _ _ _ _ _ _ Hinv) as (nx & Hrun & Hinv').
    eexists _, _. split; [exact Hrun|]. split.
    { intros (Hx & _)%HL. rewrite Z.add_simpl_r in Hx. set_solver. }
    destruct (live_pointer _ _ _ _ _ _ (x + SIZEOF_META) Hinv' ltac:(set_solver)) as (? & ? & ?).
    split_and!; try done. by eapply world_inv_update.
Qed.

Lemma world_free_ok w M s L n p :
  world_inv w M → M !! s = Some (L, n) → p ∈ L →
  ∃ w', slab_alloc_free p w = Ret w' ∧
    world_inv w' (<[s := (L ∖ {[p]}, S n)]> M).
Proof using Type. clear mmap_fixed_ok.
  intros Hw Hs Hp. destruct (world_each _ _ Hw _ _ _ Hs) as (a & l & Hinv).
  destruct (free_push _ _ _ _ _ _ _ Hinv Hp) as (a' & m & Hrun & Hinv' & -> & Hin).
  eexists. split; [exact Hrun|].
  eapply (world_inv_update _ _ _ a); eauto using inv_slab.
  - intros y Hy. apply lookup_insert_ne. by intros <-.
Qed.

Definition slab_laws : NodeAllocLaws slab_world := {|
  na_inv := world_inv;
  na_malloc_ok := world_malloc_ok;
  na_free_ok := world_free_ok;
|}.

End laws.

(** ** Initialisation *)
Section init.
Context `{OS}.

(** A new allocator, with an element size that keeps pointers even, starts
    empty and can serve as many elements as its reservation holds.  The kernel's
    part: the reservation is page aligned, below the user-space limit and apart
    from every other allocator's. *)
Lemma slab_alloc_init_ok w M s es n base :
  os_mutex_init = 0 →
  (∀ a k, os_mmap_fixed a k = true) →
  0 < es < 2 ^ 20 → Z.even es = true → 0 <= n < 2 ^ 40 →
  let sz := (if n * (SIZEOF_META + es) =? 0 then BIGARY_DEFAULT_MAX
             else n * (SIZEOF_META + es)) in
  os_mmap (pages_up sz) = Some base →
  0 < base → base mod 4096 = 0 → base + pages_up sz < 2 ^ 63 →
  world_inv w M → M !! s = None →
  (∀ t b, is_Some (M !! t) → slabs w !! t = Some b →
     ∀ x, base <= x < base + pages_up sz → ¬ in_area b x) →
  ∃ w', slab_alloc_init s es n w = Ret (0, w') ∧
    world_inv w' (<[s := (∅, Z.to_nat (pages_up sz / (SIZEOF_META + es)))]> M).
Proof.
  intros Hmu Hfix Hes Hev Hn sz Hmap Hb Hb' Hlim Hw Hs Hap.
  unfold SIZEOF_META in *.
  assert (0 < sz < 2 ^ 62) as Hsz.
  { subst sz. case_if; unfold BIGARY_DEFAULT_MAX; nia. }
  pose proof (pages_up_bounds sz ltac:(lia)) as (Hru & Hpc & _).
  destruct (bigary_init_ok (-1) 34 (n * (16 + es)) base) as [Hinit Hwf]; try done.
  unfold slab_alloc_init, SIZEOF_META.
  rewrite (u64_small (16 + es)), (u64_small (n * _)) by (unfold is_u64; nia).
  rewrite Hinit. fold sz in Hwf |- *. cbn [obind]. rewrite Hmu.
  eexists. split; [done|]. split; cbn.
  - intros t L k. rewrite lookup_insert. case_decide as Hst.
    + subst t. intros [= <- <-].
      exists (SlabAlloc 0 (Bigary base (pages_up sz) BIGARY_PAGESIZE (-1) 34) (16 + es) 0), [].
      split; cbn.
      * by rewrite lookup_insert_eq.
      * split; cbn; try done; unfold SIZEOF_META; [lia|by rewrite Z.even_add, Hev].
      * done.
      * apply NoDup_nil_2.
      * intros x []%not_elem_of_nil.
      * intros p []%not_elem_of_empty.
      * rewrite Z2Nat.id; [lia|]. apply Z.div_pos; lia.
    + intros Ht. destruct (world_each _ _ Hw _ _ _ Ht) as (b & l & Hb'').
      exists b, l. eapply slab_inv_frame; [done| |done].
      cbn. rewrite lookup_insert_ne by done. apply Hb''.
  - intros t u b c Htu. rewrite !lookup_insert.
    repeat case_decide; subst; try done.
    + intros _ Hu [= <-] Hc x Hx Hx'. eapply Hap; eauto.
    + intros Ht _ Hb'' [= <-] x Hx Hx'. eapply Hap; eauto.
    + intros ? ?. by apply (world_apart _ _ Hw).
Qed.

End init.

(** *** Allocators of the default size *)

(** What the kernel has to grant for one default-sized allocator. *)
Definition grants (o : OS) (base : Z) : Prop :=
  @os_mutex_init o = 0 ∧ (∀ a k, @os_mmap_fixed o a k = true) ∧
  @os_mmap o BIGARY_DEFAULT_MAX = Some base ∧
  0 < base ∧ base mod 4096 = 0 ∧ base + BIGARY_DEFAULT_MAX < 2 ^ 63.

Definition apart_from (w : slab_world) (M : gmap Z (gset Z * nat)) (base : Z) : Prop :=
  ∀ t b, is_Some (M !! t) → slabs w !! t = Some b →
    ∀ x, base <= x < base + BIGARY_DEFAULT_MAX → ¬ in_area b x.

Lemma slab_init_default o base w M s es :
  grants o base → 0 < es < 2 ^ 20 → Z.even es = true → world_inv w M → M !! s = None →
  apart_from w M base →
  ∃ w', @slab_alloc_init o s es 0 w = Ret (0, w') ∧
    world_inv w' (<[s := (∅, Z.to_nat (BIGARY_DEFAULT_MAX / (SIZEOF_META + es)))]> M) ∧
    (∀ t, t ≠ s → slabs w' !! t = slabs w !! t) ∧
    ∃ a, slabs w' !! s = Some a ∧ area (mappedMemory a) = base ∧
      declared (mappedMemory a) = BIGARY_DEFAULT_MAX.
Proof.
  intros (Hmu & Hfix & Hmap & Hb & Hal & Hlim) Hes Hev Hw Hs Hap.
  destruct (@slab_alloc_init_ok o w M s es 0 base) as (w' & Hrun & Hw'); try done.
  exists w'. split; [done|]. split; [exact Hw'|].
  unfold slab_alloc_init in Hrun.
  destruct (bigary_init _ _ _) as [ba|] eqn:Eba; [|done]. cbn in Hrun. injection Hrun as _ <-.
  cbn. split; [intros t Ht; by apply lookup_insert_ne|].
  rewrite lookup_insert_eq. eexists. split; [done|].
  unfold bigary_init in Eba. rewrite Hmu in Eba. cbn in Eba. 
  change (os_mmap _) with (@os_mmap o BIGARY_DEFAULT_MAX) in Eba.
  rewrite Hmap, Hfix in Eba. by injection Eba as <-.
Qed.

(** A kernel that grants every request at one address. *)
Definition kernel_at (base : Z) : OS := {|
  os_mmap := λ _, Some base;
  os_mmap_fixed := λ _ _, true;
  os_mutex_init := 0;
  os_mutex_destroy := 0;
  os_munmap := λ _ _, 0;
|}.
Definition kernel : OS := kernel_at 0.

Lemma kernel_grants base :
  0 < base → base mod 4096 = 0 → base + BIGARY_DEFAULT_MAX < 2 ^ 63 → grants (kernel_at base) base.
Proof. by intros. Qed.

(** ** Guarantees of the sequential interface *)
Section guarantees.
Context `{OS}.
Hypothesis mmap_fixed_ok : ∀ a n, os_mmap_fixed a n = true.

(** Two different live elements are at least one element size apart. *)
Lemma live_apart w s a l L n p q :
  slab_inv w s a l L n → p ∈ L → q ∈ L → p ≠ q → elementSize a <= Z.abs (p - q).
Proof using Type.
  clear mmap_fixed_ok. intros Hinv Hp Hq Hne.
  pose proof (geom_size _ (inv_geom _ _ _ _ _ _ Hinv)). unfold SIZEOF_META in *.
  destruct (inv_live _ _ _ _ _ _ Hinv p Hp) as (_ & i & ? & ? & -> & _).
  destruct (inv_live _ _ _ _ _ _ Hinv q Hq) as (_ & j & ? & ? & -> & _).
  unfold elem in *. assert (i ≠ j) by congruence. nia.
Qed.

(** C33: [slab_alloc_malloc] on a well-formed world with room returns an element
    whose header and payload lie inside the mapped part of the allocator's
    reservation and are at least one element size away from every element in
    use; the world stays well formed with that element added. *)
Theorem slab_malloc_no_overlap w M s L n :
  world_inv w M → M !! s = Some (L, S n) →
  ∃ p w' a', slab_alloc_malloc s w = Ret (p, w') ∧
    world_inv w' (<[s := ({[p]} ∪ L, n)]> M) ∧
    slabs w' !! s = Some a' ∧
    (∀ q, q ∈ L → elementSize a' <= Z.abs (p - q)) ∧
    area (mappedMemory a') <= p - SIZEOF_META ∧
    p - SIZEOF_META + elementSize a' <= area (mappedMemory a') + top (mappedMemory a').
Proof.
  intros Hw Hs. destruct (world_malloc_ok mmap_fixed_ok _ _ _ _ _ Hw Hs)
    as (p & w' & Hrun & Hfresh & _ & _ & _ & Hw').
  destruct (world_each _ _ Hw' s ({[p]} ∪ L) n) as (a' & l' & Hinv').
  { by rewrite lookup_insert_eq. }
  pose proof (inv_geom _ _ _ _ _ _ Hinv') as Hg. pose proof (geom_size _ Hg).
  pose proof (geom_fits _ Hg). unfold SIZEOF_META in *.
  destruct (inv_live _ _ _ _ _ _ Hinv' p ltac:(set_solver)) as (_ & i & nx & Hi & Hp & _).
  exists p, w', a'. split_and!; try done.
  - apply Hinv'.
  - intros q Hq. eapply live_apart; [exact Hinv'|set_solver|set_solver|].
    intros ->. contradiction.
  - unfold SIZEOF_META, elem in *. nia.
  - unfold SIZEOF_META, elem in *. nia.
Qed.

(** the free list is last-in first-out: the element just given back is the
    next one handed out, and the world returns to the same set of live
    elements. *)
Theorem slab_free_malloc_lifo w M s L n p :
  world_inv w M → M !! s = Some (L, n) → p ∈ L →
  ∃ w1 w2, slab_alloc_free p w = Ret w1 ∧ slab_alloc_malloc s w1 = Ret (p, w2) ∧
    world_inv w2 (<[s := (L, n)]> M).
Proof using Type.
  clear mmap_fixed_ok. intros Hw Hs Hp.
  destruct (world_each _ _ Hw _ _ _ Hs) as (a & l & Hinv).
  destruct (free_push _ _ _ _ _ _ _ Hinv Hp) as (a' & m & Hrun & Hinv' & -> & Hin).
  destruct (malloc_reuse _ _ _ _ _ _ _ Hinv') as (nx & Hrun' & Hinv2).
  rewrite Z.sub_add in Hrun', Hinv2. eexists _, _. do 2 (split; [done|]).
  cbn in *. rewrite insert_insert_eq in *.
  eapply (world_inv_update _ _ _ a); eauto using inv_slab.
  - intros y Hy. apply lookup_insert_ne. by intros <-.
  - replace ({[p]} ∪ L ∖ {[p]}) with L in Hinv2; [done|].
    apply set_eq. intros x. destruct (decide (x = p)); set_solver.
Qed.

End guarantees.

(** ** A concrete kernel and world, for witnesses *)
Definition demo_os : OS := {|
  os_mmap := λ _, Some (2 ^ 40);
  os_mmap_fixed := λ _ _, true;
  os_mutex_init := 0;
  os_mutex_destroy := 0;
  os_munmap := λ _ _, 0;
|}.

Definition demo_slab : slab_alloc :=
  SlabAlloc 0 (Bigary (2 ^ 40) BIGARY_DEFAULT_MAX BIGARY_PAGESIZE (-1) 34) 32 0.
Definition demo_world : slab_world := World {[ 8 := demo_slab ]} ∅.

Lemma demo_world_inv : world_inv demo_world {[ 8 := (∅, 100%nat) ]}.
Proof.
  split.
  - intros s L n Hs. apply lookup_singleton_Some in Hs as [<- [= <- <-]].
    exists demo_slab, []. split; cbn.
    + by rewrite lookup_singleton_eq.
    + by split; [split|..].
    + done.
    + apply NoDup_nil_2.
    + intros x []%not_elem_of_nil.
    + intros p []%not_elem_of_empty.
    + done.
  - intros s t a b Hne [? ?] [? ?]. simplify_map_eq.
Qed.

Lemma slab_malloc_no_overlap_witness :
  ∃ p w', @slab_alloc_malloc demo_os 8 demo_world = Ret (p, w') ∧
          slabs w' !! 8 ≠ None.
Proof.
  destruct (@slab_malloc_no_overlap demo_os ltac:(done) demo_world
              {[ 8 := (∅, 100%nat) ]} 8 ∅ 99 demo_world_inv ltac:(done))
    as (p & w' & a' & Hrun & _ & Ha & _).
  exists p, w'. split; [exact Hrun|]. rewrite Ha. done.
Defined.

Lemma slab_free_malloc_lifo_witness :
  ∃ p w0 w1 w2, @slab_alloc_malloc demo_os 8 demo_world = Ret (p, w0) ∧
    slab_alloc_free p w0 = Ret w1 ∧ @slab_alloc_malloc demo_os 8 w1 = Ret (p, w2).
Proof.
  destruct (@world_malloc_ok demo_os ltac:(done) demo_world _ 8 ∅ 99 demo_world_inv ltac:(done))
    as (p & w0 & Hrun & _ & _ & _ & _ & Hw0).
  destruct (@slab_free_malloc_lifo demo_os w0 _ 8 ({[p]} ∪ ∅) 99 p Hw0)
    as (w1 & w2 & Hf & Hm & _).
  - apply lookup_insert_eq.
  - set_solver.
  - exists p, w0, w1, w2. done.
Defined.

(** ** The compare-and-swap loops, step by step

    One constructor per point between two memory accesses of
    [slab_alloc_glob_freelist_push_] and [slab_alloc_glob_freelist_pop_]. *)
Inductive fl_pc :=
  | PushStore (addr : Z)         (** about to run [meta->next = freelist] *)
  | PushCas (addr : Z)           (** about to run the compare-and-swap *)
  | PushDone
  | PopLoad                      (** about to run [meta = freelist] *)
  | PopNext (meta : Z)           (** about to read [meta->next] *)
  | PopCas (meta nxt : Z)        (** about to run the compare-and-swap *)
  | PopDone (addr : Z).

(** One step of a thread that works on allocator [alloc]. *)
Definition fl_step (alloc : Z) (pc : fl_pc) (w : slab_world)
  : outcome (fl_pc * slab_world) :=
  let! a := deref (slabs w !! alloc) in
  match pc with
  | PushStore addr =>
      let! meta := slab_alloc_addr_to_node_meta_ addr in
      let! m := deref (metas w !! meta) in
      Ret (PushCas addr, World (slabs w) (<[meta := set_next (freelist a) m]> (metas w)))
  | PushCas addr =>
      let! meta := slab_alloc_addr_to_node_meta_ addr in
      let! m := deref (metas w !! meta) in
      if freelist a =? next m then
        Ret (PushDone, World (<[alloc := set_freelist meta a]> (slabs w)) (metas w))
      else Ret (PushStore addr, w)
  | PopLoad =>
      if freelist a =? NULL then Ret (PopDone NULL, w) else Ret (PopNext (freelist a), w)
  | PopNext meta =>
      let! m := deref (metas w !! meta) in Ret (PopCas meta (next m), w)
  | PopCas meta nxt =>
      if freelist a =? meta then
        let! addr := slab_alloc_node_meta_to_addr_ meta in
        Ret (PopDone addr, World (<[alloc := set_freelist nxt a]> (slabs w)) (metas w))
      else Ret (PopLoad, w)
  | PushDone | PopDone _ => Ret (pc, w)
  end.

(** A configuration: the shared world and each thread's position. *)
Definition fl_config : Type := slab_world * gmap nat fl_pc.

(** Let thread [t] make one step. *)
Definition fl_sched (alloc : Z) (c : fl_config) (t : nat) : outcome fl_config :=
  let! pc := deref (c.2 !! t) in
  let! (pc', w') := fl_step alloc pc c.1 in
  Ret (w', <[t := pc']> c.2).

Fixpoint fl_run (alloc : Z) (c : fl_config) (ts : list nat) : outcome fl_config :=
  match ts with
  | [] => Ret c
  | t :: ts => let! c := fl_sched alloc c t in fl_run alloc c ts
  end.

Fixpoint fl_alone (alloc : Z) (pc : fl_pc) (w : slab_world) (k : nat)
  : outcome (fl_pc * slab_world) :=
  match k with
  | O => Ret (pc, w)
  | S k => let! (pc, w) := fl_step alloc pc w in fl_alone alloc pc w k
  end.

(** run without interference, the compare-and-swap loop of
    [slab_alloc_glob_freelist_pop_] takes exactly one round (three steps) and
    does what the sequential definition says. *)
Theorem pop_loop_sequential alloc w p w' :
  slab_alloc_glob_freelist_pop_ alloc w = Ret (p, w') →
  fl_alone alloc PopLoad w 3 = Ret (PopDone p, w').
Proof.
  unfold slab_alloc_glob_freelist_pop_, fl_alone, fl_step.
  destruct (slabs w !! alloc) as [a|] eqn:Ha; [cbn|done].
  destruct (freelist a =? NULL) eqn:E; cbn.
  { intros [= <- <-]. rewrite Ha. cbn. by rewrite Ha. }
  destruct (metas w !! freelist a) as [m|] eqn:Hm; cbn; [|done].
  repeat (rewrite ?Ha, ?Hm, ?Z.eqb_refl; cbn).
  destruct (slab_alloc_node_meta_to_addr_ _); cbn; [|done]. by intros [= <- <-].
Qed.

Lemma pop_loop_sequential_witness :
  ∃ w', fl_alone 8 PopLoad demo_world 3 = Ret (PopDone NULL, w').
Proof. eexists. by apply (pop_loop_sequential 8 demo_world NULL). Defined.

(** Two elements are taken and given back, so both are on the free list. *)
Definition aba_setup : outcome (Z * Z * slab_world) :=
  let! (p1, w) := @slab_alloc_malloc demo_os 8 demo_world in
  let! (p2, w) := @slab_alloc_malloc demo_os 8 w in
  let! w := slab_alloc_free p2 w in
  let! w := slab_alloc_free p1 w in
  Ret (p1, p2, w).

Lemma aba_setup_inv :
  ∃ p1 p2 w, aba_setup = Ret (p1, p2, w) ∧ p1 ≠ p2 ∧
    world_inv w {[ 8 := (∅, 100%nat) ]}.
Proof.
  destruct (@world_malloc_ok demo_os ltac:(done) _ _ 8 ∅ 99 demo_world_inv ltac:(done))
    as (p1 & w1 & H1 & _ & _ & _ & _ & Hw1).
  destruct (@world_malloc_ok demo_os ltac:(done) w1 _ 8 ({[p1]} ∪ ∅) 98 Hw1)
    as (p2 & w2 & H2 & Hne & _ & _ & _ & Hw2); [apply lookup_insert_eq|].
  destruct (world_free_ok w2 _ 8 ({[p2]} ∪ ({[p1]} ∪ ∅)) 98 p2 Hw2)
    as (w3 & H3 & Hw3); [apply lookup_insert_eq|set_solver|].
  destruct (world_free_ok w3 _ 8 (({[p2]} ∪ ({[p1]} ∪ ∅)) ∖ {[p2]}) 99 p1 Hw3)
    as (w4 & H4 & Hw4); [apply lookup_insert_eq|set_solver|].
  exists p1, p2, w4. split; [|split; [set_solver|]].
  - unfold aba_setup. rewrite H1. cbn. rewrite H2. cbn. rewrite H3. cbn. by rewrite H4.
  - rewrite !insert_insert_eq in Hw4.
    replace (_ ∖ {[p1]}) with (∅ : gset Z) in Hw4; [done|set_solver].
Qed.

(** Thread 0 is stopped inside its pop between reading [meta->next] and the
    compare-and-swap, while threads 1 and 2 pop both elements and thread 3
    pushes the first one back. *)
Definition aba_threads (p1 : Z) : gmap nat fl_pc :=
  {[ 0%nat := PopLoad; 1%nat := PopLoad; 2%nat := PopLoad; 3%nat := PushStore p1 ]}.
Definition aba_schedule : list nat := [0; 0; 1; 1; 1; 2; 2; 2; 3; 3; 0]%nat.

(** C39: the lock-free pop is exposed to the ABA problem: from a well-formed world
    there is an interleaving after which an element that thread 2 took and never
    gave back is handed out a second time. *)
Theorem freelist_pop_aba :
  ∃ p1 p2 w c w',
    aba_setup = Ret (p1, p2, w) ∧ world_inv w {[ 8 := (∅, 100%nat) ]} ∧
    fl_run 8 (w, aba_threads p1) aba_schedule = Ret c ∧
    c.2 !! 2%nat = Some (PopDone p2) ∧
    @slab_alloc_malloc demo_os 8 c.1 = Ret (p2, w').
Proof.
  destruct aba_setup_inv as (p1 & p2 & w & Hset & _ & Hw).
  pose proof Hset as Hset'. vm_compute in Hset'. injection Hset' as Hp1 Hp2 Hww.
  exists p1, p2, w. eexists _, _. split; [exact Hset|]. split; [exact Hw|].
  subst p1 p2 w. split; [vm_compute; reflexivity|]. split; vm_compute; reflexivity.
Qed.
