(* ===== verification/Critnib.v ===== *)
(** * The critnib tree: operations ([src/critnib.c])

    A radix tree over 64-bit keys that branches on 4-bit slices and skips the
    levels with a single child.  The store keeps inner nodes and leaves by
    address; a child pointer with bit 0 set is a leaf.  Writers run under
    [c->mutex], so a write operation is one transition of the state; a reader's
    loop re-reads [remove_count] as the source does. *)
From S2P Require Import Prelude Alloc.

Definition DELETED_LIFE : Z := 16.
Definition SLICE : Z := 4.
Definition NIB : Z := 15.
Definition SLNODES : nat := 16.
Definition EEXIST : Z := 17.
Definition ENOMEM : Z := 12.

Record critnib_node := CNode {
  child : list Z;
  path : Z;
  shift : Z;
}.

Record critnib_leaf := CLeaf {
  key : Z;
  value : Z;
}.

(** [struct critnib], with the stores its pointers lead into and the world of
    its two allocators. *)
Record critnib (W : Type) := Critnib {
  root : Z;
  deleted_node : Z;
  deleted_leaf : Z;
  pending_del_nodes : list Z;
  pending_del_leaves : list Z;
  remove_count : Z;
  allocator_leaves : Z;
  allocator_nodes : Z;
  nodes : gmap Z critnib_node;
  leaves : gmap Z critnib_leaf;
  world : W;
}.
Arguments Critnib {W}.
Arguments root {W}. Arguments deleted_node {W}. Arguments deleted_leaf {W}.
Arguments pending_del_nodes {W}. Arguments pending_del_leaves {W}.
Arguments remove_count {W}. Arguments allocator_leaves {W}.
Arguments allocator_nodes {W}. Arguments nodes {W}. Arguments leaves {W}.
Arguments world {W}.

(** ** Pointers and bits *)
Definition is_leaf (n : Z) : bool := negb (Z.land n 1 =? 0).
Definition to_leaf (n : Z) : Z := Z.land n (u64 (Z.lnot 1)).
Definition tag_leaf (k : Z) : Z := Z.lor k 1.

Definition path_mask (shift : Z) : Z := u64 (Z.shiftl (u64 (Z.lnot NIB)) shift).
Definition slice_index (key shift : Z) : Z := Z.land (Z.shiftr key shift) NIB.
Definition util_mssb_index64 (x : Z) : Z := u8 (Z.log2 x).

(** A [struct critnib_node **]: the root field or a child slot. *)
Inductive slot :=
  | SRoot
  | SChild (n : Z) (i : Z).

Section ops.
Context {W : Type} `{NodeAlloc W}.
Implicit Types c : critnib W.

Definition set_root (v : Z) c : critnib W :=
  Critnib v (deleted_node c) (deleted_leaf c) (pending_del_nodes c)
    (pending_del_leaves c) (remove_count c) (allocator_leaves c)
    (allocator_nodes c) (nodes c) (leaves c) (world c).
Definition set_deleted_node (v : Z) c : critnib W :=
  Critnib (root c) v (deleted_leaf c) (pending_del_nodes c)
    (pending_del_leaves c) (remove_count c) (allocator_leaves c)
    (allocator_nodes c) (nodes c) (leaves c) (world c).
Definition set_deleted_leaf (v : Z) c : critnib W :=
  Critnib (root c) (deleted_node c) v (pending_del_nodes c)
    (pending_del_leaves c) (remove_count c) (allocator_leaves c)
    (allocator_nodes c) (nodes c) (leaves c) (world c).
Definition set_pending (pn pl : list Z) c : critnib W :=
  Critnib (root c) (deleted_node c) (deleted_leaf c) pn pl (remove_count c)
    (allocator_leaves c) (allocator_nodes c) (nodes c) (leaves c) (world c).
Definition set_remove_count (v : Z) c : critnib W :=
  Critnib (root c) (deleted_node c) (deleted_leaf c) (pending_del_nodes c)
    (pending_del_leaves c) v (allocator_leaves c) (allocator_nodes c)
    (nodes c) (leaves c) (world c).
Definition set_nodes (ns : gmap Z critnib_node) c : critnib W :=
  Critnib (root c) (deleted_node c) (deleted_leaf c) (pending_del_nodes c)
    (pending_del_leaves c) (remove_count c) (allocator_leaves c)
    (allocator_nodes c) ns (leaves c) (world c).
Definition set_leaves (ls : gmap Z critnib_leaf) c : critnib W :=
  Critnib (root c) (deleted_node c) (deleted_leaf c) (pending_del_nodes c)
    (pending_del_leaves c) (remove_count c) (allocator_leaves c)
    (allocator_nodes c) (nodes c) ls (world c).
Definition set_world (w : W) c : critnib W :=
  Critnib (root c) (deleted_node c) (deleted_leaf c) (pending_del_nodes c)
    (pending_del_leaves c) (remove_count c) (allocator_leaves c)
    (allocator_nodes c) (nodes c) (leaves c) w.

(** [n->child[i]] read and written. *)
Definition get_child c (n i : Z) : outcome Z :=
  let! nd := deref (nodes c !! n) in
  deref (child nd !! Z.to_nat i).
Definition set_child (n i v : Z) c : outcome (critnib W) :=
  let! nd := deref (nodes c !! n) in
  Ret (set_nodes (<[n := CNode (<[Z.to_nat i := v]> (child nd)) (path nd) (shift nd)]>
                    (nodes c)) c).

(** [store(dst, src)] through a [struct critnib_node **]. *)
Definition store (dst : slot) (v : Z) c : outcome (critnib W) :=
  match dst with
  | SRoot => Ret (set_root v c)
  | SChild n i => set_child n i v c
  end.

(** ** Node and leaf pools *)
Definition free_node (n : Z) c : outcome (critnib W) :=
  if n =? NULL then Ret c else
  let! c := set_child n 0 (deleted_node c) c in
  Ret (set_deleted_node n c).

Definition alloc_node c : outcome (Z * critnib W) :=
  if deleted_node c =? NULL then
    let! (n, w) := na_malloc (allocator_nodes c) (world c) in
    Ret (n, set_world w c)
  else
    let n := deleted_node c in
    let! n0 := get_child c n 0 in
    Ret (n, set_deleted_node n0 c).

Definition free_leaf (k : Z) c : outcome (critnib W) :=
  if k =? NULL then Ret c else
  let! lf := deref (leaves c !! k) in
  let c := set_leaves (<[k := CLeaf (key lf) (deleted_leaf c)]> (leaves c)) c in
  Ret (set_deleted_leaf k c).

Definition alloc_leaf c : outcome (Z * critnib W) :=
  if deleted_leaf c =? NULL then
    let! (k, w) := na_malloc (allocator_leaves c) (world c) in
    Ret (k, set_world w c)
  else
    let k := deleted_leaf c in
    let! lf := deref (leaves c !! k) in
    Ret (k, set_deleted_leaf (value lf) c).

(** ** Insert *)

(** The [while] loop of [critnib_insert]; the result is [(parent, prev, n)].  A
    path has at most 16 inner nodes, one per slice. *)
Fixpoint insert_descend (fuel : nat) c (key : Z) (parent : slot) (prev n : Z)
  : outcome (slot * Z * Z) :=
  match fuel with
  | O => Stop OutOfFuel
  | S fuel =>
      if (n =? NULL) || is_leaf n then Ret (parent, prev, n) else
      let! nd := deref (nodes c !! n) in
      if Z.land key (path_mask (shift nd)) =? path nd then
        let i := slice_index key (shift nd) in
        let! m := deref (child nd !! Z.to_nat i) in
        insert_descend fuel c key (SChild n i) n m
      else Ret (parent, prev, n)
  end.

Definition PATH_FUEL : nat := 18.

Definition critnib_insert c (key_ value_ : Z) (update : bool)
  : outcome (Z * critnib W) :=
  let! (k, c) := alloc_leaf c in
  if k =? NULL then Ret (ENOMEM, c) else
  let c := set_leaves (<[k := CLeaf key_ value_]> (leaves c)) c in
  let kn := tag_leaf k in
  let n := root c in
  if n =? NULL then Ret (0, set_root kn c) else
  let! (parent, prev, n) := insert_descend PATH_FUEL c key_ SRoot (root c) n in
  if n =? NULL then
    let n := prev in
    let! nd := deref (nodes c !! n) in
    let! c := set_child n (slice_index key_ (shift nd)) kn c in
    Ret (0, c)
  else
  let! path_ := (if is_leaf n
                 then let! lf := deref (leaves c !! to_leaf n) in Ret (key lf)
                 else let! nd := deref (nodes c !! n) in Ret (path nd)) in
  let at_ := Z.lxor path_ key_ in
  if at_ =? 0 then
    let! c := free_leaf (to_leaf kn) c in
    if update then
      let! lf := deref (leaves c !! to_leaf n) in
      Ret (0, set_leaves (<[to_leaf n := CLeaf (key lf) value_]> (leaves c)) c)
    else Ret (EEXIST, c)
  else
  let sh := Z.land (util_mssb_index64 at_) (u8 (Z.lnot (SLICE - 1))) in
  let! (m, c) := alloc_node c in
  if m =? NULL then
    let! c := free_leaf (to_leaf kn) c in
    Ret (ENOMEM, c)
  else
  let ch := replicate SLNODES NULL in
  let ch := <[Z.to_nat (slice_index key_ sh) := kn]> ch in
  let ch := <[Z.to_nat (slice_index path_ sh) := n]> ch in
  let c := set_nodes (<[m := CNode ch (Z.land key_ (path_mask sh)) sh]> (nodes c)) c in
  let! c := store parent m c in
  Ret (0, c).

(** ** Remove *)

(** The [while] loop of [critnib_remove]: [None] is [goto not_found], otherwise
    the result is [(n_parent, n, kn)]. *)
Fixpoint remove_descend (fuel : nat) c (key : Z) (k_parent n_parent : slot) (n kn : Z)
  : outcome (option (slot * Z * Z)) :=
  match fuel with
  | O => Stop OutOfFuel
  | S fuel =>
      if is_leaf kn then Ret (Some (n_parent, n, kn)) else
      let! nd := deref (nodes c !! kn) in
      let i := slice_index key (shift nd) in
      let! m := deref (child nd !! Z.to_nat i) in
      if m =? NULL then Ret None else
      remove_descend fuel c key (SChild kn i) k_parent kn m
  end.

(** The [for] loop that looks for a single remaining child, from index [i]:
    [None] is [goto del_leaf]. *)
Fixpoint only_child (ch : list Z) (i ochild : Z) : option Z :=
  match ch with
  | [] => Some ochild
  | x :: ch =>
      if negb (x =? NULL) then
        if negb (ochild =? -1) then None else only_child ch (i + 1) i
      else only_child ch (i + 1) ochild
  end.

(** The label [del_leaf]. *)
Definition del_leaf (del k : Z) c : outcome (Z * critnib W) :=
  let! lf := deref (leaves c !! k) in
  Ret (value lf, set_pending (pending_del_nodes c)
                   (<[Z.to_nat del := k]> (pending_del_leaves c)) c).

Definition critnib_remove c (key_ : Z) : outcome (Z * critnib W) :=
  let n := root c in
  if n =? NULL then Ret (NULL, c) else
  let del := remove_count c mod DELETED_LIFE in
  let c := set_remove_count (u64 (remove_count c + 1)) c in
  let! pn := deref (pending_del_nodes c !! Z.to_nat del) in
  let! c := free_node pn c in
  let! pl := deref (pending_del_leaves c !! Z.to_nat del) in
  let! c := free_leaf pl c in
  let c := set_pending (<[Z.to_nat del := NULL]> (pending_del_nodes c))
                       (<[Z.to_nat del := NULL]> (pending_del_leaves c)) c in
  if is_leaf n then
    let k := to_leaf n in
    let! lf := deref (leaves c !! k) in
    if key lf =? key_ then del_leaf del k (set_root NULL c) else Ret (NULL, c)
  else
  let! r := remove_descend PATH_FUEL c key_ SRoot SRoot n n in
  match r with
  | None => Ret (NULL, c)
  | Some (n_parent, n, kn) =>
      let k := to_leaf kn in
      let! lf := deref (leaves c !! k) in
      if negb (key lf =? key_) then Ret (NULL, c) else
      let! nd := deref (nodes c !! n) in
      let! c := set_child n (slice_index key_ (shift nd)) NULL c in
      let! nd := deref (nodes c !! n) in
      match only_child (child nd) 0 (-1) with
      | None => del_leaf del k c
      | Some ochild =>
          let! o := (if ochild =? -1 then Stop BadDeref else get_child c n ochild) in
          let! c := store n_parent o c in
          let c := set_pending (<[Z.to_nat del := n]> (pending_del_nodes c))
                               (pending_del_leaves c) c in
          del_leaf del k c
      end
  end.

(** ** Lookup *)

(** [while (n && !is_leaf(n)) load(&n->child[slice_index(key, n->shift)], &n)]. *)
Fixpoint dive (fuel : nat) c (key n : Z) : outcome Z :=
  match fuel with
  | O => Stop OutOfFuel
  | S fuel =>
      if (n =? NULL) || is_leaf n then Ret n else
      let! nd := deref (nodes c !! n) in
      let! m := deref (child nd !! Z.to_nat (slice_index key (shift nd))) in
      dive fuel c key m
  end.

(** The reader's loop [do ... while (wrs1 + DELETED_LIFE <= wrs2)] around a body
    that reads one state: with no writer in between, [wrs2 = wrs1]. *)
Fixpoint reader_loop {A} (fuel : nat) c (body : outcome A) : outcome A :=
  match fuel with
  | O => Stop OutOfFuel
  | S fuel =>
      let wrs1 := remove_count c in
      let! res := body in
      let wrs2 := remove_count c in
      if u64 (wrs1 + DELETED_LIFE) <=? wrs2 then reader_loop fuel c body else Ret res
  end.

Definition READ_FUEL : nat := 4.

Definition critnib_get c (key_ : Z) : outcome Z :=
  reader_loop READ_FUEL c
    (let! n := dive PATH_FUEL c key_ (root c) in
     if n =? NULL then Ret NULL else
     let! lf := deref (leaves c !! to_leaf n) in
     Ret (if key lf =? key_ then value lf else NULL)).

(** The scan [for (nib = NIB; nib >= 0; nib--) if (n->child[nib]) break;]: the
    highest index below [i] with a child, as [Some], or [None] for [nib < 0]. *)
Fixpoint scan_down (ch : list Z) (i : nat) : option Z :=
  match i with
  | O => None
  | S i => match ch !! i with
           | Some m => if negb (m =? NULL) then Some m else scan_down ch i
           | None => scan_down ch i
           end
  end.

(** The scan upwards from index [i]; [k] counts the indices left. *)
Fixpoint scan_up (ch : list Z) (i k : nat) : option Z :=
  match k with
  | O => None
  | S k => match ch !! i with
           | Some m => if negb (m =? NULL) then Some m else scan_up ch (S i) k
           | None => scan_up ch (S i) k
           end
  end.

Fixpoint find_predecessor (fuel : nat) c (n : Z) : outcome Z :=
  match fuel with
  | O => Stop OutOfFuel
  | S fuel =>
      let! nd := deref (nodes c !! n) in
      match scan_down (child nd) SLNODES with
      | None => Ret NULL
      | Some m => if is_leaf m then Ret (to_leaf m) else find_predecessor fuel c m
      end
  end.

(** [(key ^ n->path) >> (n->shift) & ~NIB]. *)
Definition outside (key : Z) (nd : critnib_node) : bool :=
  negb (Z.land (Z.shiftr (Z.lxor key (path nd)) (shift nd)) (u64 (Z.lnot NIB)) =? 0).

Fixpoint find_le (fuel : nat) c (n key_ : Z) : outcome Z :=
  match fuel with
  | O => Stop OutOfFuel
  | S fuel =>
      if n =? NULL then Ret NULL else
      if is_leaf n then
        let k := to_leaf n in
        let! lf := deref (leaves c !! k) in
        Ret (if key lf <=? key_ then k else NULL)
      else
      let! nd := deref (nodes c !! n) in
      if outside key_ nd then
        if path nd <? key_ then find_predecessor PATH_FUEL c n else Ret NULL
      else
      let nib := slice_index key_ (shift nd) in
      let! m := deref (child nd !! Z.to_nat nib) in
      let! k := find_le fuel c m key_ in
      if negb (k =? NULL) then Ret k else
      match scan_down (child nd) (Z.to_nat nib) with
      | None => Ret NULL
      | Some m => if is_leaf m then Ret (to_leaf m) else find_predecessor PATH_FUEL c m
      end
  end.

Definition critnib_find_le c (key_ : Z) : outcome Z :=
  reader_loop READ_FUEL c
    (let! k := (if negb (root c =? NULL) then find_le PATH_FUEL c (root c) key_
                else Ret NULL) in
     if negb (k =? NULL) then
       let! lf := deref (leaves c !! k) in Ret (value lf)
     else Ret NULL).

Fixpoint find_successor (fuel : nat) c (n : Z) : outcome Z :=
  match fuel with
  | O => Stop OutOfFuel
  | S fuel =>
      let! nd := deref (nodes c !! n) in
      match scan_up (child nd) 0 SLNODES with
      | None => Ret NULL
      | Some m => if is_leaf m then Ret (to_leaf m) else find_successor fuel c m
      end
  end.

Fixpoint find_ge (fuel : nat) c (n key_ : Z) : outcome Z :=
  match fuel with
  | O => Stop OutOfFuel
  | S fuel =>
      if n =? NULL then Ret NULL else
      if is_leaf n then
        let k := to_leaf n in
        let! lf := deref (leaves c !! k) in
        Ret (if key_ <=? key lf then k else NULL)
      else
      let! nd := deref (nodes c !! n) in
      if outside key_ nd then
        if key_ <? path nd then find_successor PATH_FUEL c n else Ret NULL
      else
      let nib := slice_index key_ (shift nd) in
      let! m := deref (child nd !! Z.to_nat nib) in
      let! k := find_ge fuel c m key_ in
      if negb (k =? NULL) then Ret k else
      match scan_up (child nd) (S (Z.to_nat nib)) (SLNODES - S (Z.to_nat nib)) with
      | None => Ret NULL
      | Some m => if is_leaf m then Ret (to_leaf m) else find_successor PATH_FUEL c m
      end
  end.

(** [critnib_find]: [Some (rkey, rvalue)] is the return value 1 with both
    out-parameters written; [dir] is [FIND_L = -2 .. FIND_G = 2]. *)
Definition critnib_find c (key_ dir : Z) : outcome (option (Z * Z)) :=
  let start :=
    if dir <? -1 then (if key_ =? 0 then None else Some (key_ - 1))
    else if 1 <? dir then (if key_ =? 2 ^ 64 - 1 then None else Some (key_ + 1))
    else Some key_ in
  match start with
  | None => Ret None
  | Some key_ =>
      reader_loop READ_FUEL c
        (let n := root c in
         let! k := (if dir <? 0 then find_le PATH_FUEL c n key_
                    else if 0 <? dir then find_ge PATH_FUEL c n key_
                    else
                      let! n := dive PATH_FUEL c key_ n in
                      if n =? NULL then Ret NULL else
                      let kk := to_leaf n in
                      let! lf := deref (leaves c !! kk) in
                      Ret (if key lf =? key_ then kk else NULL)) in
         if negb (k =? NULL) then
           let! lf := deref (leaves c !! k) in Ret (Some (key lf, value lf))
         else Ret None)
  end.

(** ** Iteration

    [func] is the callback with its private data threaded as a state [S]. *)
Section iter.
Context {S : Type} (func : Z → Z → S → Z * S).

(** The loop over the children, given the recursive call. *)
Fixpoint iter_children (rec : Z → S → outcome (Z * S)) (ch : list Z) (s : S)
  : outcome (Z * S) :=
  match ch with
  | [] => Ret (0, s)
  | m :: ch =>
      if m =? NULL then iter_children rec ch s else
      let! (r, s) := rec m s in
      if negb (r =? 0) then Ret (1, s) else iter_children rec ch s
  end.

Fixpoint iter (fuel : nat) c (n min max : Z) (s : S) : outcome (Z * S) :=
  match fuel with
  | O => Stop OutOfFuel
  | Datatypes.S fuel =>
      if is_leaf n then
        let! lf := deref (leaves c !! to_leaf n) in
        let k := key lf in
        if (min <=? k) && (k <=? max) then Ret (func (key lf) (value lf) s)
        else Ret (0, s)
      else
      let! nd := deref (nodes c !! n) in
      if max <? path nd then Ret (1, s) else
      if Z.lor (path nd) (path_mask (shift nd)) <? min then Ret (0, s) else
      iter_children (λ m s, iter fuel c m min max s) (child nd) s
  end.

Definition critnib_iter c (min max : Z) (s : S) : outcome S :=
  if root c =? NULL then Ret s else
  let! (_, s) := iter PATH_FUEL c (root c) min max s in
  Ret s.

End iter.
End ops.
