(* ===== verification/CritnibTree.v ===== *)
(** * The critnib tree as a mathematical object

    The shape a critnib store represents, its well-formedness, its lookup
    function, and the arithmetic of key slices.  Nothing here models code; the
    file is the abstract side of the refinement in [CritnibCorrect]. *)
From S2P Require Import Prelude Critnib.

(** ** Slices and prefixes *)
Definition pre (k s : Z) : Z := k / 2 ^ (s + 4).
Definition slice (k s : Z) : nat := Z.to_nat ((k / 2 ^ s) mod 16).

(** Shift values that occur: multiples of the slice width below 64. *)
Definition sh_ok (s : Z) : Prop := 0 <= s <= 60 ∧ s mod 4 = 0.

Lemma slice_lt k s : (slice k s < 16)%nat.
Proof. unfold slice. pose proof (Z.mod_pos_bound (k / 2 ^ s) 16 ltac:(lia)). lia. Qed.

Lemma slice_index_slice k s : 0 <= s → Z.to_nat (slice_index k s) = slice k s.
Proof.
  intros. unfold slice_index, slice, NIB. f_equal.
  rewrite Z.shiftr_div_pow2 by done. apply (Z.land_ones _ 4). lia.
Qed.

Lemma slice_index_range k s : 0 <= slice_index k s < 16.
Proof.
  unfold slice_index, NIB. rewrite (Z.land_ones _ 4) by lia.
  by apply Z.mod_pos_bound.
Qed.

(** A key is its prefix, its slice and the bits below. *)
Lemma pre_slice k s :
  0 <= s → k / 2 ^ s = pre k s * 16 + Z.of_nat (slice k s).
Proof.
  intros. unfold pre, slice.
  pose proof (Z.mod_pos_bound (k / 2 ^ s) 16 ltac:(lia)).
  rewrite Z2Nat.id by lia. rewrite Z.pow_add_r by lia.
  rewrite <- Z.div_div by lia. rewrite Z.mul_comm. apply Z.div_mod. done.
Qed.

Lemma slice_pre_eq k k' s :
  0 <= s → pre k s = pre k' s → slice k s = slice k' s → k / 2 ^ s = k' / 2 ^ s.
Proof. intros. rewrite !pre_slice by done. congruence. Qed.

(** Agreement on a finer level gives agreement on every coarser one. *)
Lemma div_coarser k k' s t :
  0 <= s <= t → k / 2 ^ s = k' / 2 ^ s → k / 2 ^ t = k' / 2 ^ t.
Proof.
  intros Hst Heq. replace t with (s + (t - s)) by lia.
  rewrite !Z.pow_add_r, <- !Z.div_div by (try lia; apply Z.pow_pos_nonneg; lia).
  by rewrite Heq.
Qed.

Lemma pre_coarser k k' s t :
  0 <= s <= t → pre k s = pre k' s → pre k t = pre k' t.
Proof. unfold pre. intros. by apply (div_coarser _ _ (s + 4)); [lia|]. Qed.

Lemma slice_of_div k k' s : k / 2 ^ s = k' / 2 ^ s → slice k s = slice k' s.
Proof. unfold slice. by intros ->. Qed.

Lemma pre_of_div k k' s : 0 <= s → k / 2 ^ s = k' / 2 ^ s → pre k s = pre k' s.
Proof. unfold pre. intros. by apply (div_coarser _ _ s); [lia|]. Qed.

(** Different shifts are a whole slice apart. *)
Lemma sh_gap s t : sh_ok s → sh_ok t → s < t → s + 4 <= t.
Proof. unfold sh_ok. intros [? Hs] [? Ht]. apply Z.mod_divide in Hs as [a ->], Ht as [b ->]; lia. Qed.

(** Agreement on the prefix below a node fixes the slice and prefix above. *)
Lemma pre_finer_slice k k' s t :
  sh_ok s → sh_ok t → s < t → pre k s = pre k' s →
  slice k t = slice k' t ∧ pre k t = pre k' t ∧ k / 2 ^ t = k' / 2 ^ t.
Proof.
  intros Hs Ht Hlt Hp. pose proof (sh_gap _ _ Hs Ht Hlt). unfold sh_ok in *.
  assert (k / 2 ^ t = k' / 2 ^ t) by (apply (div_coarser _ _ (s + 4)); [lia|done]).
  split_and!; [by apply slice_of_div|by apply pre_of_div; [lia|]|done].
Qed.

(** Order of keys that part at slice [s]. *)
Lemma slice_lt_order k k' s :
  0 <= s → pre k s = pre k' s → (slice k s < slice k' s)%nat → k < k'.
Proof.
  intros Hs Hp Hlt. assert (k / 2 ^ s < k' / 2 ^ s) by (rewrite !pre_slice by done; lia).
  apply Z.nle_gt. intros Hle. pose proof (Z.div_le_mono k' k (2 ^ s) ltac:(lia) Hle). lia.
Qed.

Lemma pre_lt_order k k' s : 0 <= s → pre k s < pre k' s → k < k'.
Proof.
  unfold pre. intros Hs Hlt. apply Z.nle_gt. intros Hle.
  pose proof (Z.div_le_mono k' k (2 ^ (s + 4)) ltac:(lia) Hle). lia.
Qed.

(** [key & path_mask(shift)] keeps the prefix. *)
Lemma land_path_mask k s :
  sh_ok s → is_u64 k → Z.land k (path_mask s) = pre k s * 2 ^ (s + 4).
Proof.
  intros [Hs _] Hk. unfold path_mask, pre.
  replace (u64 (Z.shiftl (u64 (Z.lnot NIB)) s)) with (2 ^ 64 - 2 ^ (s + 4)).
  { by apply land_high_mask; [lia|]. }
  change (u64 (Z.lnot NIB)) with (2 ^ 64 - 16).
  rewrite Z.shiftl_mul_pow2 by lia. unfold u64.
  rewrite Z.pow_add_r by lia. change (2 ^ 4) with 16.
  replace ((2 ^ 64 - 16) * 2 ^ s) with (2 ^ 64 - 2 ^ s * 16 + (2 ^ s - 1) * 2 ^ 64) by lia.
  rewrite Z_mod_plus_full. symmetry. apply Z.mod_small.
  assert (0 < 2 ^ s) by (apply Z.pow_pos_nonneg; lia).
  assert (2 ^ s <= 2 ^ 60) by (apply Z.pow_le_mono_r; lia). lia.
Qed.

(** The slice at which two different keys part. *)
Definition split_shift (q k : Z) : Z := Z.log2 (Z.lxor q k) / 4 * 4.

Lemma lxor_div q k s : 0 <= s → Z.lxor q k / 2 ^ s = Z.lxor (q / 2 ^ s) (k / 2 ^ s).
Proof. intros. rewrite <- !Z.shiftr_div_pow2 by done. apply Z.shiftr_lxor. Qed.

Lemma lxor_u64 q k : is_u64 q → is_u64 k → 0 <= Z.lxor q k < 2 ^ 64.
Proof.
  unfold is_u64. intros Hq Hk. split; [apply Z.lxor_nonneg; lia|].
  assert (Z.lxor q k / 2 ^ 64 = 0) as Hd.
  { rewrite lxor_div by lia. by rewrite !Z.div_small. }
  apply Z.div_small_iff in Hd; lia.
Qed.

Lemma split_shift_spec q k :
  is_u64 q → is_u64 k → q ≠ k →
  sh_ok (split_shift q k) ∧ pre q (split_shift q k) = pre k (split_shift q k) ∧
  slice q (split_shift q k) ≠ slice k (split_shift q k).
Proof.
  intros Hq Hk Hne. pose proof (lxor_u64 q k Hq Hk) as Hx.
  assert (Z.lxor q k ≠ 0) by (intros ?%Z.lxor_eq; done).
  set (x := Z.lxor q k) in *. pose proof (Z.log2_spec x ltac:(lia)) as [Hlo Hhi].
  pose proof (Z.log2_nonneg x). pose proof (Z.log2_lt_pow2 x 64 ltac:(lia)) as [Hl _].
  specialize (Hl ltac:(lia)). unfold split_shift. fold x. set (b := Z.log2 x) in *.
  pose proof (Z.div_mod b 4 ltac:(lia)). pose proof (Z.mod_pos_bound b 4 ltac:(lia)).
  set (s := b / 4 * 4) in *. assert (0 <= s <= b /\ b < s + 4) by lia.
  assert (x / 2 ^ (s + 4) = 0) as Hz.
  { apply Z.div_small. split; [lia|]. apply Z.lt_le_trans with (2 ^ Z.succ b); [done|].
    apply Z.pow_le_mono_r; lia. }
  assert (x / 2 ^ s ≠ 0) as Hnz.
  { intros Hd%Z.div_small_iff; [|apply Z.pow_nonzero; lia].
    assert (2 ^ s <= 2 ^ b) by (apply Z.pow_le_mono_r; lia). lia. }
  assert (pre q s = pre k s) as Hp.
  { unfold pre. unfold x in Hz. rewrite lxor_div in Hz by lia. by apply Z.lxor_eq. }
  split_and!; [|done|].
  - split; [|by apply Z_mod_mult]. lia.
  - intros Hsl. apply Hnz. unfold x. rewrite lxor_div by lia.
    rewrite (slice_pre_eq q k s) by (done || lia). apply Z.lxor_nilpotent.
Qed.

(** The shift the code computes with the byte mask [~(SLICE - 1)]. *)
Lemma mssb_mask q k :
  is_u64 q → is_u64 k → q ≠ k →
  Z.land (util_mssb_index64 (Z.lxor q k)) (u8 (Z.lnot (SLICE - 1))) = split_shift q k.
Proof.
  intros Hq Hk Hne. pose proof (lxor_u64 q k Hq Hk) as Hx.
  assert (Z.lxor q k ≠ 0) by (intros ?%Z.lxor_eq; done).
  pose proof (Z.log2_nonneg (Z.lxor q k)).
  pose proof (Z.log2_lt_pow2 (Z.lxor q k) 64 ltac:(lia)) as [Hl _]. specialize (Hl ltac:(lia)).
  unfold util_mssb_index64, u8, split_shift. rewrite (Z.mod_small (Z.log2 _)) by lia.
  change (Z.lnot (SLICE - 1) mod 2 ^ 8) with (2 ^ 8 - 2 ^ 2).
  rewrite land_high_mask by lia. done.
Qed.

(** ** Trees

    [TNode a p s cs]: inner node at address [a] with path [p], shift [s] and
    children [cs] (indices below 16 matter); [TLeaf a k v]: leaf at [a]. *)
Inductive ctree :=
  | TNil
  | TLeaf (a k v : Z)
  | TNode (a p s : Z) (cs : nat → ctree).

Definition is_nil (t : ctree) : bool := match t with TNil => true | _ => false end.

(** The value under a key, by the critical slices alone and a final check. *)
Fixpoint tlookup (t : ctree) (k : Z) : option Z :=
  match t with
  | TNil => None
  | TLeaf _ k' v => if k' =? k then Some v else None
  | TNode _ _ s cs => tlookup (cs (slice k s)) k
  end.

(** The keys, node addresses and leaf addresses of a tree. *)
Fixpoint keyin (t : ctree) (k : Z) : Prop :=
  match t with
  | TNil => False
  | TLeaf _ k' _ => k = k'
  | TNode _ _ _ cs => ∃ i, (i < 16)%nat ∧ keyin (cs i) k
  end.
Fixpoint naddr (t : ctree) (x : Z) : Prop :=
  match t with
  | TNil | TLeaf _ _ _ => False
  | TNode a _ _ cs => x = a ∨ ∃ i, (i < 16)%nat ∧ naddr (cs i) x
  end.
Fixpoint laddr (t : ctree) (x : Z) : Prop :=
  match t with
  | TNil => False
  | TLeaf a _ _ => x = a
  | TNode _ _ _ cs => ∃ i, (i < 16)%nat ∧ laddr (cs i) x
  end.

Definition below (s : Z) (t : ctree) : Prop :=
  match t with TNode _ _ s' _ => s' < s | _ => True end.

(** Every key sits under its own path and slice, shifts decrease downwards, and
    an inner node has at least two children. *)
Fixpoint wf (t : ctree) : Prop :=
  match t with
  | TNil => True
  | TLeaf _ k _ => is_u64 k
  | TNode _ p s cs =>
      sh_ok s ∧ is_u64 p ∧ p = pre p s * 2 ^ (s + 4) ∧
      (∀ i, (i < 16)%nat → wf (cs i) ∧ below s (cs i) ∧
         ∀ k, keyin (cs i) k → pre k s = pre p s ∧ slice k s = i) ∧
      ∃ i j, i ≠ j ∧ (i < 16)%nat ∧ (j < 16)%nat ∧ cs i ≠ TNil ∧ cs j ≠ TNil
  end.

(** No address is used twice. *)
Fixpoint sep (t : ctree) : Prop :=
  match t with
  | TNode a _ _ cs =>
      (∀ i, (i < 16)%nat → sep (cs i) ∧ ¬ naddr (cs i) a) ∧
      (∀ i j x, (i < 16)%nat → (j < 16)%nat → i ≠ j →
         (naddr (cs i) x → ¬ naddr (cs j) x) ∧ (laddr (cs i) x → ¬ laddr (cs j) x))
  | _ => True
  end.

Lemma wf_keyin_u64 t k : wf t → keyin t k → is_u64 k.
Proof.
  induction t as [|a k' v|a p s cs IH]; cbn; [done|by intros ? ->|].
  intros (_ & _ & _ & Hc & _) (i & Hi & Hk). apply (IH i); [by apply Hc|done].
Qed.

Lemma wf_nonempty t : wf t → t ≠ TNil → ∃ k, keyin t k.
Proof.
  induction t as [|a k' v|a p s cs IH]; cbn; [done|by eauto|].
  intros (_ & _ & _ & Hc & i & _ & _ & Hi & _ & Hne & _) _.
  destruct (IH i) as [k Hk]; [by apply Hc|done|]. by exists k, i.
Qed.

Lemma tlookup_keyin t k v : tlookup t k = Some v → keyin t k.
Proof.
  induction t as [|a k' v'|a p s cs IH]; cbn; [done| |].
  - case_if; naive_solver.
  - intros Hl. exists (slice k s). split; [apply slice_lt|]. by apply IH.
Qed.

Lemma keyin_tlookup t k : wf t → keyin t k → is_Some (tlookup t k).
Proof.
  induction t as [|a k' v'|a p s cs IH]; cbn; [done| |].
  - intros _ ->. rewrite Z.eqb_refl. by eexists.
  - intros (_ & _ & _ & Hc & _) (i & Hi & Hk).
    destruct (Hc i Hi) as (Hwf & _ & Hkey). destruct (Hkey k Hk) as [_ <-].
    by apply IH.
Qed.

Lemma node_key a p s cs k : wf (TNode a p s cs) → keyin (TNode a p s cs) k → pre k s = pre p s.
Proof. cbn. intros (_ & _ & _ & Hc & _) (i & Hi & Hk). by apply (Hc i). Qed.

(** ** Positions

    A descent follows the slice of [k] while [cont] holds.  [focus] is the
    subtree where it stops, [repl] replaces that subtree. *)
Section descent.
Context (cont : ctree → bool) (k : Z).

Definition upd (cs : nat → ctree) (i : nat) (t : ctree) : nat → ctree :=
  λ j, if decide (j = i) then t else cs j.

Fixpoint focus (t : ctree) : ctree :=
  match t with
  | TNode a p s cs => if cont t then focus (cs (slice k s)) else t
  | _ => t
  end.

Fixpoint repl (t X : ctree) : ctree :=
  match t with
  | TNode a p s cs =>
      if cont t then TNode a p s (upd cs (slice k s) (repl (cs (slice k s)) X)) else X
  | _ => X
  end.

Fixpoint slot_of (t : ctree) (sl : slot) : slot :=
  match t with
  | TNode a p s cs =>
      if cont t then slot_of (cs (slice k s)) (SChild a (Z.of_nat (slice k s))) else sl
  | _ => sl
  end.

(** Lookup after a replacement that agrees with the old subtree off [k]. *)
Lemma tlookup_repl t X k' :
  (∀ k', k' ≠ k → tlookup X k' = tlookup (focus t) k') →
  tlookup (repl t X) k' = if k' =? k then tlookup X k else tlookup t k'.
Proof.
  intros HX. assert (∀ k', k' ≠ k → tlookup (repl t X) k' = tlookup t k') as Hoff.
  { clear k'. revert HX. induction t as [|a k0 v|a p s cs IH]; cbn; [done|done|].
    destruct (cont _); [|done]. intros HX k' Hne. cbn. unfold upd.
    case_decide as Hs; [|done]. rewrite Hs. by apply IH. }
  destruct (k' =? k) eqn:E; zb; [subst k'|by apply Hoff].
  clear Hoff HX. induction t as [|a k0 v|a p s cs IH]; cbn; [done|done|].
  destruct (cont _); [|done]. cbn. unfold upd. by rewrite decide_True.
Qed.

(** Without a key in the subtree, lookup fails; with it, it is the focus's. *)
Lemma tlookup_focus t : tlookup t k = tlookup (focus t) k.
Proof. induction t as [|a k0 v|a p s cs IH]; cbn; [done|done|]. destruct (cont _); [done|done]. Qed.

Lemma naddr_focus t x : naddr (focus t) x → naddr t x.
Proof.
  induction t as [|a k0 v|a p s cs IH]; cbn; [done|done|]. destruct (cont _); [|done].
  intros ?. right. exists (slice k s). split; [apply slice_lt|by apply IH].
Qed.

Lemma laddr_focus t x : laddr (focus t) x → laddr t x.
Proof.
  induction t as [|a k0 v|a p s cs IH]; cbn; [done|done|]. destruct (cont _); [|done].
  intros ?. exists (slice k s). split; [apply slice_lt|by apply IH].
Qed.

Lemma sep_focus t : sep t → sep (focus t).
Proof.
  induction t as [|a k0 v|a p s cs IH]; cbn; [done|done|]. intros [Hs Hd].
  destruct (cont _); [|done]. apply IH, Hs, slice_lt.
Qed.

Lemma wf_focus t : wf t → wf (focus t).
Proof.
  induction t as [|a k0 v|a p s cs IH]; [done|done|]. intros Hwf. cbn [focus].
  destruct (cont _); [|done]. apply IH, Hwf, slice_lt.
Qed.

(** What a position demands of the subtree put there: its keys satisfy [P], which
    fixes everything from bit [s] up, and its shift is below [s]. *)
Record fits (s : Z) (P : Z → Prop) (t : ctree) : Prop := {
  fits_wf : wf t;
  fits_below : below s t;
  fits_keys : ∀ k', keyin t k' → P k';
}.
Record level (s : Z) (P : Z → Prop) : Prop := {
  level_shift : sh_ok s ∨ s = 64;
  level_u64 : ∀ x, P x → is_u64 x;
  level_det : ∀ x y, P x → P y → x / 2 ^ s = y / 2 ^ s;
  level_closed : ∀ x y, P x → is_u64 y → x / 2 ^ s = y / 2 ^ s → P y;
}.

Definition child_keys (s p : Z) (i : nat) (x : Z) : Prop :=
  is_u64 x ∧ pre x s = pre p s ∧ slice x s = i.

Lemma level_root : level 64 is_u64.
Proof.
  split; [by right|done| |done].
  unfold is_u64. intros x y ? ?. by rewrite !Z.div_small.
Qed.

Lemma level_child s p i : sh_ok s → level s (child_keys s p i).
Proof.
  intros Hs. assert (0 <= s) by apply Hs. split; [by left|by intros x []| |].
  - intros x y (_ & Hx & Hi) (_ & Hy & Hj).
    apply slice_pre_eq; [apply Hs|congruence|congruence].
  - intros x y (_ & Hx & Hi) Hy Hxy. split_and!; [done| |].
    + by rewrite <- (pre_of_div x y).
    + by rewrite <- (slice_of_div x y).
Qed.

(** Below a level, agreement at a node's prefix is agreement at the level. *)
Lemma level_div s P s' x y :
  level s P → sh_ok s' → s' < s → pre x s' = pre y s' → x / 2 ^ s = y / 2 ^ s.
Proof.
  intros [[Hs| ->] _ _ _] Hs' Hlt Hp.
  - by apply (pre_finer_slice x y s' s).
  - apply (div_coarser _ _ (s' + 4)); [destruct Hs'; lia|done].
Qed.

(** The key agrees with the path of every node the descent passes. *)
Fixpoint along (t : ctree) : Prop :=
  match t with
  | TNode a p s cs =>
      if cont t then pre k s = pre p s ∧ along (cs (slice k s)) else True
  | _ => True
  end.

Lemma repl_not_nil t X : X ≠ TNil → repl t X ≠ TNil.
Proof. destruct t; cbn; [done|done|]. by destruct (cont _). Qed.

Lemma fits_child s P a p s' cs i :
  level s P → fits s P (TNode a p s' cs) → (i < 16)%nat →
  fits s' (child_keys s' p i) (cs i).
Proof.
  intros HP [Hwf _ Hk] Hi. pose proof Hwf as (_ & _ & _ & Hc & _).
  destruct (Hc i Hi) as (Hwi & Hb & Hki). split; [done|done|].
  intros x Hx. split; [by eapply wf_keyin_u64|by apply Hki].
Qed.

(** Replacing the focus keeps a tree well formed when the new subtree fits
    wherever the old one did. *)
Lemma fits_repl s P t X :
  level s P → fits s P t → along t → P k → X ≠ TNil →
  (∀ s P, level s P → fits s P (focus t) → P k → fits s P X) →
  fits s P (repl t X).
Proof.
  intros HP Ht Hal Hk HX HfX. revert s P HP Ht Hal Hk HfX.
  induction t as [|a k0 v|a p s' cs IH]; intros s P HP Ht Hal Hk HfX;
    cbn in *; [by apply HfX|by apply HfX|].
  destruct (cont _); [|by apply HfX]. destruct Hal as [Hpk Hal].
  pose proof Ht as [(Hs' & Hp & Hpp & Hc & i0 & j0 & Hij & Hi0 & Hj0 & Hni & Hnj) Hb HP'].
  cbn in Hb. set (i := slice k s') in *. assert (i < 16)%nat as Hi by apply slice_lt.
  assert (child_keys s' p i k) as Hck.
  { split_and!; [by eapply level_u64|done|done]. }
  pose proof (fits_child _ _ _ _ _ _ _ HP Ht Hi) as Hfi.
  pose proof (level_child s' p i Hs') as Hlev.
  destruct (IH i s' _ Hlev Hfi Hal Hck HfX) as [Hw1 Hb1 Hk1].
  split; cbn; [|done|].
  - split_and!; try done.
    + intros j Hj. unfold upd. case_decide as Hji; [subst j|by apply Hc].
      split_and!; [done|done|]. intros x Hx. by apply Hk1.
    + exists i0, j0. unfold upd. split_and!; try done.
      * case_decide; [by apply repl_not_nil|done].
      * case_decide; [by apply repl_not_nil|done].
  - intros x (j & Hj & Hx). unfold upd in Hx. case_decide as Hji; [subst j|].
    + destruct (Hk1 x Hx) as (Hxu & Hxp & _). apply (level_closed _ _ HP k x); [done|done|].
      apply (level_div s P s'); try done. congruence.
    + apply HP'. by exists j.
Qed.

(** [outer t x]: address [x] belongs to [t] outside the focus. *)
Fixpoint outer_n (t : ctree) (x : Z) : Prop :=
  match t with
  | TNode a p s cs =>
      if cont t then x = a ∨ outer_n (cs (slice k s)) x ∨
        ∃ i, (i < 16)%nat ∧ i ≠ slice k s ∧ naddr (cs i) x
      else False
  | _ => False
  end.
Fixpoint outer_l (t : ctree) (x : Z) : Prop :=
  match t with
  | TNode a p s cs =>
      if cont t then outer_l (cs (slice k s)) x ∨
        ∃ i, (i < 16)%nat ∧ i ≠ slice k s ∧ laddr (cs i) x
      else False
  | _ => False
  end.

Lemma outer_n_naddr t x : outer_n t x → naddr t x.
Proof.
  induction t as [|a k0 v|a p s cs IH]; cbn; [done|done|]. destruct (cont _); [|done].
  intros [->|[Hx|(i & Hi & _ & Hx)]]; [by left| |right; by exists i].
  right. exists (slice k s). split; [apply slice_lt|by apply IH].
Qed.

Lemma outer_l_laddr t x : outer_l t x → laddr t x.
Proof.
  induction t as [|a k0 v|a p s cs IH]; cbn; [done|done|]. destruct (cont _); [|done].
  intros [Hx|(i & Hi & _ & Hx)]; [|by exists i].
  exists (slice k s). split; [apply slice_lt|by apply IH].
Qed.

(** Outside and focus share no address. *)
Lemma outer_focus t x :
  sep t → (outer_n t x → ¬ naddr (focus t) x) ∧ (outer_l t x → ¬ laddr (focus t) x).
Proof.
  induction t as [|a k0 v|a p s cs IH]; cbn; [done|done|]. intros [Hs Hd].
  destruct (cont _); [|done]. pose proof (slice_lt k s) as Hi.
  destruct (Hs _ Hi) as [Hsi Ha]. destruct (IH _ Hsi) as [IHn IHl]. split.
  - intros [->|[Hx|(i & Hi' & Hne & Hx)]] Hf.
    + by apply Ha, naddr_focus.
    + by apply IHn.
    + apply naddr_focus in Hf. by apply (proj1 (Hd i _ x Hi' Hi Hne)).
  - intros [Hx|(i & Hi' & Hne & Hx)] Hf.
    + by apply IHl.
    + apply laddr_focus in Hf. by apply (proj2 (Hd i _ x Hi' Hi Hne)).
Qed.

(** The addresses of a replacement are the outer ones and the new ones. *)
Lemma naddr_repl_outer t X x : naddr (repl t X) x → outer_n t x ∨ naddr X x.
Proof.
  induction t as [|a k0 v|a p s cs IH]; cbn; [by right|by right|].
  destruct (cont _); [|by right]. cbn. intros [->|(i & Hi & Hx)]; [by left; left|].
  unfold upd in Hx. case_decide as Hd; [|left; right; right; by exists i].
  destruct (IH _ Hx) as [?|?]; [left; right; by left|by right].
Qed.

Lemma laddr_repl_outer t X x : laddr (repl t X) x → outer_l t x ∨ laddr X x.
Proof.
  induction t as [|a k0 v|a p s cs IH]; cbn; [by right|by right|].
  destruct (cont _); [|by right]. cbn. intros (i & Hi & Hx).
  unfold upd in Hx. case_decide as Hd; [|left; right; by exists i].
  destruct (IH _ Hx) as [?|?]; [left; by left|by right].
Qed.

Lemma sep_repl t X :
  sep t → sep X → (∀ x, naddr X x → ¬ outer_n t x) → (∀ x, laddr X x → ¬ outer_l t x) →
  sep (repl t X).
Proof.
  induction t as [|a k0 v|a p s cs IH]; cbn; [done|done|]. intros [Hs Hd] HX Hn Hl.
  destruct (cont _); [|done]. pose proof (slice_lt k s) as Hi. set (i := slice k s) in *.
  destruct (Hs i Hi) as [Hsi Ha]. cbn. split.
  - intros j Hj. unfold upd. case_decide as Hji; [subst j|by apply Hs]. split.
    + apply IH; [done|done|..]; intros x Hx Ho; [by apply (Hn x Hx); auto|by apply (Hl x Hx); auto].
    + intros [?%outer_n_naddr|Hx]%naddr_repl_outer; [done|]. by apply (Hn a Hx); left.
  - assert (∀ j x, (j < 16)%nat → j ≠ i →
      (naddr (repl (cs i) X) x → ¬ naddr (cs j) x) ∧ (laddr (repl (cs i) X) x → ¬ laddr (cs j) x)) as Hmix.
    { intros j x Hj Hji. split.
      - intros [Hx%outer_n_naddr|Hx]%naddr_repl_outer Hx'.
        + by apply (proj1 (Hd i j x Hi Hj (not_eq_sym Hji))).
        + apply (Hn x Hx). right; right. by exists j.
      - intros [Hx%outer_l_laddr|Hx]%laddr_repl_outer Hx'.
        + by apply (proj2 (Hd i j x Hi Hj (not_eq_sym Hji))).
        + apply (Hl x Hx). right. by exists j. }
    intros j j' x Hj Hj' Hne. unfold upd.
    case_decide; case_decide; subst; try done.
    + by apply Hmix; auto.
    + destruct (Hmix j x Hj ltac:(auto)). split; intros ? ?; naive_solver.
    + by apply Hd.
Qed.

End descent.
