(* ===== verification/CritnibCorrect.v ===== *)
(** * Correctness of the critnib tree

    The store of [Critnib] represents a tree of [CritnibTree]; each operation of
    the source is shown to compute the corresponding operation of a finite map,
    against the allocator interface of [Alloc]. *)
From S2P Require Import Prelude Alloc Critnib CritnibTree.

(** ** Pointers *)
Definition good_ptr (a : Z) : Prop := a ≠ NULL ∧ is_u64 a ∧ Z.even a = true.

Lemma land_1_even a : Z.even a = true → Z.land a 1 = 0.
Proof.
  intros He. change 1 with (Z.ones 1). rewrite Z.land_ones by lia.
  change (2 ^ 1) with 2. by rewrite Zmod_even, He.
Qed.

Lemma is_leaf_node a : good_ptr a → is_leaf a = false.
Proof. intros (_ & _ & He). unfold is_leaf. by rewrite land_1_even. Qed.

Lemma tag_leaf_succ a : good_ptr a → tag_leaf a = a + 1.
Proof.
  intros (_ & _ & He). unfold tag_leaf. pose proof (land_1_even a He).
  by rewrite Z.add_nocarry_lxor, Z.lxor_lor.
Qed.

Lemma is_leaf_tag a : good_ptr a → is_leaf (tag_leaf a) = true.
Proof.
  intros Ha. unfold is_leaf, tag_leaf.
  rewrite Z.land_lor_distr_l, land_1_even by apply Ha. done.
Qed.

Lemma to_leaf_tag a : good_ptr a → to_leaf (tag_leaf a) = a.
Proof.
  intros Ha. pose proof Ha as (Hnz & Hu & He). unfold to_leaf. rewrite tag_leaf_succ by done.
  change (u64 (Z.lnot 1)) with (2 ^ 64 - 2 ^ 1).
  apply Z.even_spec in He as [b ->]. unfold is_u64 in *.
  rewrite land_high_mask; [|lia|]; change (2 ^ 1) with 2.
  - replace (2 * b + 1) with (1 + b * 2) by lia. rewrite Z.div_add by lia.
    change (1 / 2) with 0. lia.
  - change (2 ^ 64) with (2 * 2 ^ 63) in *. lia.
Qed.

Lemma tag_leaf_nonnull a : good_ptr a → tag_leaf a ≠ NULL.
Proof. intros Ha. rewrite tag_leaf_succ by done. destruct Ha as (? & [? ?] & ?). lia. Qed.

(** ** Representation *)
Fixpoint rep (ns : gmap Z critnib_node) (ls : gmap Z critnib_leaf) (p : Z) (t : ctree) : Prop :=
  match t with
  | TNil => p = NULL
  | TLeaf a k v => good_ptr a ∧ p = tag_leaf a ∧ ls !! a = Some (CLeaf k v)
  | TNode a pth s cs => good_ptr a ∧ p = a ∧
      ∃ ch, ns !! a = Some (CNode ch pth s) ∧ length ch = 16%nat ∧
        ∀ i, (i < 16)%nat → ∃ q, ch !! i = Some q ∧ rep ns ls q (cs i)
  end.

Lemma rep_frame ns ls ns' ls' p t :
  rep ns ls p t →
  (∀ x, naddr t x → ns' !! x = ns !! x) → (∀ x, laddr t x → ls' !! x = ls !! x) →
  rep ns' ls' p t.
Proof.
  revert p. induction t as [|a k v|a pth s cs IH]; intros p; cbn; [done| |].
  - intros (? & ? & ?) _ Hl. by rewrite Hl.
  - intros (Hg & -> & ch & Ha & Hlen & Hc) Hn Hl. split; [done|]. split; [done|].
    exists ch. rewrite Hn by by left. split; [done|]. split; [done|].
    intros i Hi. destruct (Hc i Hi) as (q & Hq & Hr). exists q. split; [done|].
    apply IH; [done|..]; intros x Hx; [apply Hn; right; by exists i|apply Hl; by exists i].
Qed.

(** The kind of pointer tells the kind of subtree. *)
Lemma rep_null ns ls p t : rep ns ls p t → p = NULL → t = TNil.
Proof.
  destruct t; cbn; [done| |].
  - intros (Hg & -> & _) Hz. by apply tag_leaf_nonnull in Hg.
  - intros ((? & _) & -> & _) ?. done.
Qed.

Lemma rep_leaf_ptr ns ls p t :
  rep ns ls p t → p ≠ NULL → is_leaf p = true → ∃ a k v, t = TLeaf a k v.
Proof.
  destruct t; cbn; [done|by eauto|]. intros (Hg & -> & _) _. by rewrite is_leaf_node.
Qed.

Lemma rep_not_nil ns ls p t : rep ns ls p t → t ≠ TNil → p ≠ NULL.
Proof.
  intros Hr Hne ->. apply Hne. by eapply rep_null.
Qed.

Lemma rep_is_leaf ns ls p a pth s cs : rep ns ls p (TNode a pth s cs) → is_leaf p = false.
Proof. intros (Hg & -> & _). by apply is_leaf_node. Qed.

(** Replacing the subtree at the end of a descent is a write to one slot. *)
Lemma rep_store cont k ns ls ns' ls' p t X x sl :
  rep ns ls p t → sep t →
  (∀ y, outer_n cont k t y → ns' !! y = ns !! y) →
  (∀ y, outer_l cont k t y → ls' !! y = ls !! y) →
  rep ns' ls' x X → (∀ y, naddr X y → ¬ outer_n cont k t y) →
  (slot_of cont k t sl = sl ∧ repl cont k t X = X ∧ focus cont k t = t) ∨
  ∃ a i ch pth s, slot_of cont k t sl = SChild a (Z.of_nat i) ∧ outer_n cont k t a ∧
    ns' !! a = Some (CNode ch pth s) ∧
    (∃ q, ch !! i = Some q ∧ rep ns ls q (focus cont k t)) ∧
    rep (<[a := CNode (<[i := x]> ch) pth s]> ns') ls' p (repl cont k t X).
Proof.
  intros Hr. revert p sl Hr.
  induction t as [|a k0 v|a pth s cs IH]; intros p sl Hr Hsep Hn Hl HX Hd; cbn in *;
    [by left|by left|].
  destruct (cont _) eqn:Ec; [right|by left].
  destruct Hr as (Hg & -> & ch & Ha & Hlen & Hc). destruct Hsep as [Hs Hap].
  pose proof (slice_lt k s) as Hi. set (i := slice k s) in *.
  destruct (Hc i Hi) as (q & Hq & Hrq). destruct (Hs i Hi) as [Hsi Hna].
  assert (∀ j, (j < 16)%nat → j ≠ i → ∃ q, ch !! j = Some q ∧ rep ns' ls' q (cs j)) as Hside.
  { intros j Hj Hji. destruct (Hc j Hj) as (qj & Hqj & Hrj). exists qj. split; [done|].
    eapply rep_frame; [done|..]; intros y Hy; [apply Hn|apply Hl];
      [right; right|right]; by exists j. }
  assert (ns' !! a = Some (CNode ch pth s)) as Ha' by (rewrite Hn; [done|by left]).
  destruct (IH i q (SChild a (Z.of_nat i)) Hrq Hsi) as [(Hsl & Hrp & Hfo)|Hdeep];
    [intros y ?; apply Hn; auto|intros y ?; apply Hl; auto|done
    |intros y Hy Ho; apply (Hd y Hy); auto|..].
  - exists a, i, ch, pth, s. split_and!; [done|by left|done| |].
    { exists q. by rewrite Hfo. }
    split; [done|]. split; [done|]. exists (<[i := x]> ch). rewrite lookup_insert_eq.
    split; [done|]. split; [by rewrite length_insert|]. intros j Hj. unfold upd.
    case_decide as Hji.
    + subst j. exists x. rewrite list_lookup_insert_eq by lia. split; [done|].
      rewrite Hrp. eapply rep_frame; [done| |done]. intros y Hy.
      apply lookup_insert_ne. intros <-. apply (Hd a Hy). by left.
    + rewrite list_lookup_insert_ne by done. destruct (Hside j Hj Hji) as (qj & Hqj & Hrj).
      exists qj. split; [done|]. eapply rep_frame; [done| |done]. intros y Hy.
      apply lookup_insert_ne. intros <-. by apply (Hs j Hj).
  - destruct Hdeep as (b & j & ch' & pth' & s' & Hsl & Hob & Hb & Hq' & Hrb).
    exists b, j, ch', pth', s'. split_and!; [done|by right; left|done|done|].
    assert (naddr (cs i) b) as Hnb by (by eapply outer_n_naddr).
    assert (b ≠ a) as Hba by (intros ->; done).
    split; [done|]. split; [done|]. exists ch. rewrite lookup_insert_ne by done.
    split; [done|]. split; [done|]. intros j' Hj'. unfold upd. case_decide as Hji.
    + subst j'. by exists q.
    + destruct (Hside j' Hj' Hji) as (qj & Hqj & Hrj). exists qj. split; [done|].
      eapply rep_frame; [done| |done]. intros y Hy. apply lookup_insert_ne. intros <-.
      by apply (proj1 (Hap i j' b Hi Hj' (not_eq_sym Hji))).
Qed.

Lemma rep_ptr_inj ns ls ns' ls' p q t : rep ns ls p t → rep ns' ls' q t → p = q.
Proof. destruct t; cbn; naive_solver. Qed.

(** A change inside the focus that keeps its pointer needs no write above. *)
Lemma rep_inplace cont k ns ls ns' ls' p t X x :
  rep ns ls p t → sep t →
  (∀ y, outer_n cont k t y → ns' !! y = ns !! y) →
  (∀ y, outer_l cont k t y → ls' !! y = ls !! y) →
  rep ns ls x (focus cont k t) →
  rep ns' ls' x X → (∀ y, naddr X y → ¬ outer_n cont k t y) →
  rep ns' ls' p (repl cont k t X).
Proof.
  intros Hr Hs Hn Hl Hx HX Hd.
  destruct (rep_store cont k ns ls ns' ls' p t X x SRoot Hr Hs Hn Hl HX Hd)
    as [(_ & -> & Hf)|(a & i & ch & pth & s & _ & _ & Ha & (q & Hq & Hrq) & Hrep)].
  - rewrite Hf in Hx. by rewrite (rep_ptr_inj _ _ _ _ _ _ _ Hr Hx).
  - rewrite (rep_ptr_inj _ _ _ _ _ _ _ Hrq Hx) in Hq.
    rewrite list_insert_id in Hrep by done. by rewrite insert_id in Hrep.
Qed.

(** ** Pools of retired objects

    Nodes and leaves are recycled in the same way: a linked list of free objects
    and an array of objects still in their grace period.  [nxt] is the link
    field, [used] the objects of the tree, [L] what the allocator handed out. *)
Fixpoint pchain (nxt : Z → option Z) (h : Z) (l : list Z) : Prop :=
  match l with
  | [] => h = NULL
  | x :: l => h = x ∧ ∃ n, nxt x = Some n ∧ pchain nxt n l
  end.

Definition pooled (l pend : list Z) (x : Z) : Prop :=
  x ∈ l ∨ (x ≠ NULL ∧ ∃ i : nat, pend !! i = Some x).

Record pool (nxt : Z → option Z) (used : Z → Prop) (h : Z) (l pend : list Z)
    (L : gset Z) : Prop := {
  pool_chain : pchain nxt h l;
  pool_nodup : NoDup l;
  pool_apart : ∀ x (i : nat), x ∈ l → pend !! i ≠ Some x;
  pool_once : ∀ (i j : nat) x, pend !! i = Some x → pend !! j = Some x → x ≠ NULL → i = j;
  pool_len : length pend = 16%nat;
  pool_free : ∀ x, pooled l pend x → ¬ used x ∧ x ∈ L ∧ good_ptr x ∧ is_Some (nxt x);
  pool_used : ∀ x, used x → x ∈ L;
}.

Lemma pchain_ext nxt nxt' h l :
  (∀ x, x ∈ l → nxt' x = nxt x) → pchain nxt h l → pchain nxt' h l.
Proof.
  revert h. induction l as [|x l IH]; intros h Hext; cbn; [done|].
  intros [-> (n & Hx & Hc)]. split; [done|]. exists n.
  rewrite Hext by set_solver. split; [done|]. apply IH; [set_solver|done].
Qed.

(** Changes of links and of the tree that leave pooled objects alone. *)
Lemma pool_ext nxt nxt' used used' h l pend L L' :
  (∀ x, pooled l pend x → nxt' x = nxt x) →
  (∀ x, pooled l pend x → ¬ used' x) →
  (∀ x, used' x → x ∈ L') → L ⊆ L' →
  pool nxt used h l pend L → pool nxt' used' h l pend L'.
Proof.
  intros Hn Hu Hu' HL [Hc Hnd Hap Hon Hlen Hf Hus]. split; try done.
  - eapply pchain_ext; [|done]. intros x Hx. apply Hn. by left.
  - intros x Hx. destruct (Hf x Hx) as (? & ? & ? & ?). split_and!.
    + by apply Hu. + by apply HL. + done. + by rewrite Hn.
Qed.

Lemma pool_pop nxt used h x l pend L :
  pool nxt used h (x :: l) pend L →
  h = x ∧ (¬ used x) ∧ x ∈ L ∧ good_ptr x ∧ (¬ pooled l pend x) ∧
  ∃ n, nxt x = Some n ∧ pool nxt used n l pend L.
Proof.
  intros [[-> (n & Hx & Hc)] Hnd Hap Hon Hlen Hf Hus].
  destruct (Hf x) as (? & ? & ? & ?); [left; set_solver|].
  apply NoDup_cons in Hnd as [Hxl Hnd]. split_and!; try done.
  - intros [?|(_ & i & Hi)]; [done|]. by apply (Hap x i); [set_solver|].
  - exists n. split; [done|]. split; try done.
    + intros y i Hy. apply Hap. set_solver.
    + intros y [Hy|Hy]; apply Hf; [left; set_solver|by right].
Qed.

(** An object that is neither used nor pooled joins the free list. *)
Lemma pool_push nxt nxt' used h x l pend L :
  pool nxt used h l pend L → good_ptr x → x ∈ L → ¬ used x → ¬ pooled l pend x →
  nxt' x = Some h → (∀ y, y ≠ x → nxt' y = nxt y) →
  pool nxt' used x (x :: l) pend L.
Proof.
  intros [Hc Hnd Hap Hon Hlen Hf Hus] Hg HL Hu Hp Hx Hn.
  assert (x ∉ l) as Hxl by (intros ?; apply Hp; by left). split; try done.
  - split; [done|]. exists h. split; [done|]. eapply pchain_ext; [|done].
    intros y Hy. apply Hn. by intros ->.
  - by apply NoDup_cons.
  - intros y i [->|Hy]%elem_of_cons Hi; [|by eapply Hap].
    apply Hp. right. split; [apply Hg|by exists i].
  - intros y Hy. destruct (decide (y = x)) as [->|Hne]; [by rewrite Hx|].
    rewrite Hn by done. apply Hf. destruct Hy as [Hy|Hy]; [left; set_solver|by right].
Qed.

(** Emptying a slot of the grace array frees its object for the list. *)
Lemma pool_clear nxt used h l pend L (d : nat) :
  pool nxt used h l pend L → pool nxt used h l (<[d := NULL]> pend) L.
Proof.
  intros [Hc Hnd Hap Hon Hlen Hf Hus].
  assert (∀ (i : nat) x, <[d := NULL]> pend !! i = Some x → x ≠ NULL → pend !! i = Some x) as Hi.
  { intros i x. destruct (decide (i = d)) as [->|]; [|by rewrite list_lookup_insert_ne].
    intros [[_ Heq] | [_ ?]]%list_lookup_insert_Some; naive_solver. }
  split; try done.
  - intros x i Hx Hp. destruct (decide (x = NULL)) as [->|?].
    + destruct (Hf NULL) as (_ & _ & (? & _) & _); [by left|done].
    + by apply (Hap x i Hx), Hi.
  - intros i j x H1 H2 Hx. eapply Hon; eauto.
  - by rewrite length_insert.
  - intros x [Hx|(Hx & i & Hp)]; apply Hf; [by left|right]. split; [done|]. exists i. by apply Hi.
Qed.

(** An object that has left the tree enters an empty slot of the grace array. *)
Lemma pool_retire nxt used h l pend L (d : nat) x :
  pool nxt used h l pend L → (d < 16)%nat → pend !! d = Some NULL →
  good_ptr x → x ∈ L → ¬ used x → ¬ pooled l pend x → is_Some (nxt x) →
  pool nxt used h l (<[d := x]> pend) L.
Proof.
  intros [Hc Hnd Hap Hon Hlen Hf Hus] Hd Hp Hg HL Hx Hxp Hs.
  assert (∀ (i : nat) y, <[d := x]> pend !! i = Some y →
            (i = d ∧ y = x) ∨ (i ≠ d ∧ pend !! i = Some y)) as Hi.
  { intros i y. destruct (decide (i = d)) as [->|].
    - rewrite list_lookup_insert_eq by lia. naive_solver.
    - rewrite list_lookup_insert_ne by done. naive_solver. }
  assert (∀ i : nat, pend !! i = Some x → False) as Hno.
  { intros i Hix. apply Hxp. right. split; [apply Hg|by exists i]. }
  split; try done.
  - intros y i Hy [[-> ->]|[_ Hpy]]%Hi; [apply Hxp; by left|by eapply Hap].
  - intros i j y [[-> ->]|[? Hy]]%Hi [[-> Hyx]|[? Hy']]%Hi Hne; subst; try done.
    + by destruct (Hno j). + by destruct (Hno i). + by eapply Hon.
  - by rewrite length_insert.
  - intros y Hy. destruct (decide (y = x)) as [->|Hyx]; [done|].
    apply Hf. destruct Hy as [Hy|(Hy & i & [[_ ?]|[_ ?]]%Hi)]; [by left|done|]. right. eauto.
Qed.

Lemma pool_pending_free nxt used h l pend L (d : nat) x :
  pool nxt used h l pend L → pend !! d = Some x → x ≠ NULL →
  ¬ pooled l (<[d := NULL]> pend) x.
Proof.
  intros Hpool Hd Hx [Hl|(_ & i & Hi)].
  - by eapply pool_apart.
  - destruct (decide (i = d)) as [->|Hne].
    + rewrite list_lookup_insert_eq in Hi by (eapply lookup_lt_Some; eauto). naive_solver.
    + rewrite list_lookup_insert_ne in Hi by done.
      apply Hne. by eapply (pool_once _ _ _ _ _ _ Hpool).
Qed.

(** ** The invariant of a critnib *)
Definition node_link (ns : gmap Z critnib_node) (x : Z) : option Z :=
  nd ← ns !! x; child nd !! 0%nat.
Definition leaf_link (ls : gmap Z critnib_leaf) (x : Z) : option Z :=
  value <$> ls !! x.

Section inv.
Context {W : Type} `{NodeAllocLaws W}.
Implicit Types c : critnib W.

Record critnib_inv c (t : ctree) (dn dl : list Z) (Ln Ll : gset Z)
    (M : gmap Z (gset Z * nat)) (rn rl : nat) : Prop := {
  ci_rep : rep (nodes c) (leaves c) (root c) t;
  ci_fits : fits 64 is_u64 t;
  ci_sep : sep t;
  ci_pn : pool (node_link (nodes c)) (naddr t) (deleted_node c) dn (pending_del_nodes c) Ln;
  ci_pl : pool (leaf_link (leaves c)) (laddr t) (deleted_leaf c) dl (pending_del_leaves c) Ll;
  ci_world : na_inv (world c) M;
  ci_mn : M !! allocator_nodes c = Some (Ln, rn);
  ci_ml : M !! allocator_leaves c = Some (Ll, rl);
  ci_ne : allocator_nodes c ≠ allocator_leaves c;
  ci_rc : is_u64 (remove_count c);
}.

(** The parts of the state that only the pools and the allocator own. *)
Definition same_pools c c' : Prop :=
  deleted_node c' = deleted_node c ∧ deleted_leaf c' = deleted_leaf c ∧
  pending_del_nodes c' = pending_del_nodes c ∧ pending_del_leaves c' = pending_del_leaves c ∧
  remove_count c' = remove_count c ∧ allocator_leaves c' = allocator_leaves c ∧
  allocator_nodes c' = allocator_nodes c ∧ world c' = world c.

(** Any change of the tree that stays off the pooled objects. *)
Lemma inv_change c c' t t' dn dl Ln Ll M rn rl :
  critnib_inv c t dn dl Ln Ll M rn rl → same_pools c c' →
  rep (nodes c') (leaves c') (root c') t' → fits 64 is_u64 t' → sep t' →
  (∀ x, pooled dn (pending_del_nodes c) x → nodes c' !! x = nodes c !! x) →
  (∀ x, pooled dl (pending_del_leaves c) x → leaves c' !! x = leaves c !! x) →
  (∀ x, naddr t' x → x ∈ Ln ∧ ¬ pooled dn (pending_del_nodes c) x) →
  (∀ x, laddr t' x → x ∈ Ll ∧ ¬ pooled dl (pending_del_leaves c) x) →
  critnib_inv c' t' dn dl Ln Ll M rn rl.
Proof.
  intros [Hr Hf Hs Hpn Hpl Hw Hmn Hml Hne Hrc] (E1 & E2 & E3 & E4 & E5 & E6 & E7 & E8)
    Hr' Hf' Hs' Hn Hl Hna Hla.
  split; rewrite ?E1, ?E2, ?E3, ?E4, ?E5, ?E6, ?E7, ?E8; try done.
  - eapply pool_ext; [..|exact Hpn]; [|naive_solver|naive_solver|done].
    intros x Hx. unfold node_link. by rewrite Hn.
  - eapply pool_ext; [..|exact Hpl]; [|naive_solver|naive_solver|done].
    intros x Hx. unfold leaf_link. by rewrite Hl.
Qed.

(** An address of the tree is in use and not pooled. *)
Lemma inv_naddr c t dn dl Ln Ll M rn rl x :
  critnib_inv c t dn dl Ln Ll M rn rl → naddr t x →
  x ∈ Ln ∧ ¬ pooled dn (pending_del_nodes c) x.
Proof.
  intros Hinv Hx. split; [by eapply pool_used; [apply Hinv|]|].
  intros Hp. by apply (pool_free _ _ _ _ _ _ (ci_pn _ _ _ _ _ _ _ _ _ Hinv)) in Hp as [].
Qed.

Lemma inv_laddr c t dn dl Ln Ll M rn rl x :
  critnib_inv c t dn dl Ln Ll M rn rl → laddr t x →
  x ∈ Ll ∧ ¬ pooled dl (pending_del_leaves c) x.
Proof.
  intros Hinv Hx. split; [by eapply pool_used; [apply Hinv|]|].
  intros Hp. by apply (pool_free _ _ _ _ _ _ (ci_pl _ _ _ _ _ _ _ _ _ Hinv)) in Hp as [].
Qed.

(** *** Allocation *)
Definition spare_leaf c (t : ctree) (dl : list Z) (Ll : gset Z) (k : Z) : Prop :=
  good_ptr k ∧ k ∈ Ll ∧ (¬ laddr t k) ∧ ¬ pooled dl (pending_del_leaves c) k.
Definition spare_node c (t : ctree) (dn : list Z) (Ln : gset Z) (n : Z) : Prop :=
  good_ptr n ∧ n ∈ Ln ∧ (¬ naddr t n) ∧ ¬ pooled dn (pending_del_nodes c) n.

Lemma pool_fresh nxt used h l pend L x :
  pool nxt used h l pend L → x ∉ L → (¬ used x) ∧ ¬ pooled l pend x.
Proof.
  intros Hp Hx. split; [intros ?; by apply Hx, (pool_used _ _ _ _ _ _ Hp)|].
  intros (_ & ? & _)%(pool_free _ _ _ _ _ _ Hp). done.
Qed.

Lemma alloc_leaf_ok c t dn dl Ln Ll M rn rl :
  critnib_inv c t dn dl Ln Ll M rn (S rl) →
  ∃ k c' dl' Ll' M' rl', alloc_leaf c = Ret (k, c') ∧
    critnib_inv c' t dn dl' Ln Ll' M' rn rl' ∧ (rl <= rl')%nat ∧
    spare_leaf c' t dl' Ll' k ∧
    root c' = root c ∧ nodes c' = nodes c ∧ leaves c' = leaves c ∧
    remove_count c' = remove_count c.
Proof.
  intros Hinv. pose proof Hinv as [Hr Hf Hs Hpn Hpl Hw Hmn Hml Hne Hrc].
  unfold alloc_leaf. destruct dl as [|x dl].
  - pose proof (pool_chain _ _ _ _ _ _ Hpl) as Hz. cbn in Hz. rewrite Hz. cbn.
    destruct (na_malloc_ok _ _ _ _ _ Hw Hml) as (k & w & -> & Hk & ? & ? & ? & Hw').
    cbn. destruct (pool_fresh _ _ _ _ _ _ _ Hpl Hk).
    eexists k, _, [], ({[k]} ∪ Ll), _, rl. split; [done|]. split; [|split; [lia|]].
    + split; cbn; try done.
      * eapply pool_ext; [..|exact Hpl]; [done|..|set_solver].
        -- intros x Hx. by apply (pool_free _ _ _ _ _ _ Hpl) in Hx as [].
        -- intros x Hx%(pool_used _ _ _ _ _ _ Hpl). set_solver.
      * by rewrite lookup_insert_ne.
      * by rewrite lookup_insert_eq.
    + split_and!; try done. split_and!; try done. set_solver.
  - destruct (pool_pop _ _ _ _ _ _ _ Hpl) as (-> & ? & ? & Hg & ? & n & Hn & Hpl').
    destruct (x =? NULL) eqn:E; zb; [by destruct Hg|].
    unfold leaf_link in Hn. destruct (leaves c !! x) as [lf|] eqn:Hx; [|done].
    injection Hn as Hn. cbn. rewrite Hn.
    eexists x, _, dl, Ll, M, (S rl). split; [done|]. split; [by split|].
    split; [lia|]. split_and!; done.
Qed.

Lemma alloc_node_ok c t dn dl Ln Ll M rn rl :
  critnib_inv c t dn dl Ln Ll M (S rn) rl →
  ∃ n c' dn' Ln' M' rn', alloc_node c = Ret (n, c') ∧
    critnib_inv c' t dn' dl Ln' Ll M' rn' rl ∧ (rn <= rn')%nat ∧
    spare_node c' t dn' Ln' n ∧
    root c' = root c ∧ nodes c' = nodes c ∧ leaves c' = leaves c ∧
    remove_count c' = remove_count c ∧
    pending_del_leaves c' = pending_del_leaves c.
Proof.
  intros Hinv. pose proof Hinv as [Hr Hf Hs Hpn Hpl Hw Hmn Hml Hne Hrc].
  unfold alloc_node. destruct dn as [|x dn].
  - pose proof (pool_chain _ _ _ _ _ _ Hpn) as Hz. cbn in Hz. rewrite Hz. cbn.
    destruct (na_malloc_ok _ _ _ _ _ Hw Hmn) as (k & w & -> & Hk & ? & ? & ? & Hw').
    cbn. destruct (pool_fresh _ _ _ _ _ _ _ Hpn Hk).
    eexists k, _, [], ({[k]} ∪ Ln), _, rn. split; [done|]. split; [|split; [lia|]].
    + split; cbn; try done.
      * eapply pool_ext; [..|exact Hpn]; [done|..|set_solver].
        -- intros x Hx. by apply (pool_free _ _ _ _ _ _ Hpn) in Hx as [].
        -- intros x Hx%(pool_used _ _ _ _ _ _ Hpn). set_solver.
      * by rewrite lookup_insert_eq.
      * by rewrite lookup_insert_ne.
    + split_and!; try done. split_and!; try done. set_solver.
  - destruct (pool_pop _ _ _ _ _ _ _ Hpn) as (-> & ? & ? & Hg & ? & n & Hn & Hpn').
    destruct (x =? NULL) eqn:E; zb; [by destruct Hg|].
    unfold node_link in Hn. unfold get_child.
    destruct (nodes c !! x) as [nd|] eqn:Hx; [|done]. cbn in Hn |- *.
    change (Z.to_nat 0) with 0%nat. rewrite Hn. cbn.
    eexists x, _, dn, Ln, M, (S rn). split; [done|]. split; [by split|].
    split; [lia|]. split_and!; done.
Qed.

(** *** Release to the pools *)
Lemma free_leaf_ok c t dn dl Ln Ll M rn rl k lf :
  critnib_inv c t dn dl Ln Ll M rn rl → spare_leaf c t dl Ll k →
  leaves c !! k = Some lf →
  ∃ c', free_leaf k c = Ret c' ∧
    critnib_inv c' t dn (k :: dl) Ln Ll M rn rl ∧
    root c' = root c ∧ nodes c' = nodes c ∧
    (∀ x, x ≠ k → leaves c' !! x = leaves c !! x) ∧
    remove_count c' = remove_count c ∧
    pending_del_nodes c' = pending_del_nodes c ∧
    pending_del_leaves c' = pending_del_leaves c.
Proof.
  intros [Hr Hf Hs Hpn Hpl Hw Hmn Hml Hne Hrc] (Hg & HL & Hu & Hp) Hlf.
  unfold free_leaf. destruct (k =? NULL) eqn:E; zb; [by destruct Hg|]. rewrite Hlf. cbn.
  eexists. split; [done|]. split; [|split_and!; try done; intros x Hx; by apply lookup_insert_ne].
  split; cbn; try done.
  - eapply rep_frame; [done|done|]. intros x Hx. apply lookup_insert_ne. by intros <-.
  - eapply pool_push; [exact Hpl|done..| |].
    + unfold leaf_link. by rewrite lookup_insert_eq.
    + intros y Hy. unfold leaf_link. by rewrite lookup_insert_ne.
Qed.

Lemma free_node_ok c t dn dl Ln Ll M rn rl n :
  critnib_inv c t dn dl Ln Ll M rn rl → spare_node c t dn Ln n →
  is_Some (node_link (nodes c) n) →
  ∃ c', free_node n c = Ret c' ∧
    critnib_inv c' t (n :: dn) dl Ln Ll M rn rl ∧
    root c' = root c ∧ leaves c' = leaves c ∧
    (∀ x, x ≠ n → nodes c' !! x = nodes c !! x) ∧
    remove_count c' = remove_count c ∧
    pending_del_nodes c' = pending_del_nodes c ∧
    pending_del_leaves c' = pending_del_leaves c.
Proof.
  intros [Hr Hf Hs Hpn Hpl Hw Hmn Hml Hne Hrc] (Hg & HL & Hu & Hp) [l0 Hl0].
  unfold free_node, set_child. destruct (n =? NULL) eqn:E; zb; [by destruct Hg|].
  unfold node_link in Hl0. destruct (nodes c !! n) as [nd|] eqn:Hn; [|done]. cbn in Hl0 |- *.
  eexists. split; [done|]. split; [|split_and!; try done; intros x Hx; by apply lookup_insert_ne].
  split; cbn; try done.
  - eapply rep_frame; [done| |done]. intros x Hx. apply lookup_insert_ne. by intros <-.
  - eapply pool_push; [exact Hpn|done..| |].
    + unfold node_link. rewrite lookup_insert_eq. cbn.
      apply list_lookup_insert_eq. by eapply lookup_lt_Some.
    + intros y Hy. unfold node_link. by rewrite lookup_insert_ne.
Qed.

(** *** Descents *)
Definition cont_ins (k : Z) (t : ctree) : bool :=
  match t with TNode _ p s _ => Z.land k (path_mask s) =? p | _ => false end.

Lemma cont_ins_pre k a p s cs :
  is_u64 k → wf (TNode a p s cs) → cont_ins k (TNode a p s cs) = true ↔ pre k s = pre p s.
Proof.
  intros Hk (Hs & Hp & Hpp & _). cbn. rewrite land_path_mask by done. rewrite Z.eqb_eq.
  assert (0 < 2 ^ (s + 4)) by (apply Z.pow_pos_nonneg; destruct Hs; lia).
  split; [intros; nia|]. intros ->. by symmetry.
Qed.

Lemma along_ins k t : is_u64 k → wf t → along (cont_ins k) k t.
Proof.
  intros Hk. induction t as [|a k0 v|a p s cs IH]; [done|done|]. intros Hwf.
  cbn [along]. destruct (cont_ins k _) eqn:E; [|done]. apply cont_ins_pre in E; [|done..].
  split; [done|]. apply IH. apply Hwf, slice_lt.
Qed.

(** Fuel: a subtree whose shift is below [4 * m] has at most [m] inner nodes on
    any path. *)
Lemma below_child m a p s cs i :
  wf (TNode a p s cs) → below (4 * Z.of_nat m) (TNode a p s cs) → (i < 16)%nat →
  ∃ m', m = S m' ∧ below (4 * Z.of_nat m') (cs i) ∧ wf (cs i).
Proof.
  intros (Hs & _ & _ & Hc & _) Hb Hi. cbn in Hb. destruct (Hc i Hi) as (Hwf & Hbi & _).
  destruct m as [|m]; [destruct Hs; lia|]. exists m. split; [done|]. split; [|done].
  destruct (cs i) as [| |a' p' s' cs']; cbn in *; try done.
  destruct Hwf as (Hs' & _). pose proof (sh_gap _ _ Hs' Hs Hbi). lia.
Qed.

Lemma insert_descend_ok c k t m fuel sl prev p :
  is_u64 k → wf t → below (4 * Z.of_nat m) t → (m < fuel)%nat →
  rep (nodes c) (leaves c) p t →
  ∃ prev' n, insert_descend fuel c k sl prev p
      = Ret (slot_of (cont_ins k) k t sl, prev', n) ∧
    rep (nodes c) (leaves c) n (focus (cont_ins k) k t) ∧
    (n = NULL → p ≠ NULL → ∃ nd, nodes c !! prev' = Some nd ∧ 0 <= shift nd ∧
       slot_of (cont_ins k) k t sl = SChild prev' (Z.of_nat (slice k (shift nd)))).
Proof.
  intros Hk. revert m fuel sl prev p.
  induction t as [|a k0 v|a pth s cs IH]; intros m [|fuel] sl prev p Hwf Hb Hm Hr; try lia.
  - cbn in Hr. subst p. cbn. by exists prev, NULL.
  - pose proof Hr as (Hg & -> & Hl). cbn [insert_descend]. rewrite is_leaf_tag, orb_true_r by done.
    exists prev, (tag_leaf a). split; [done|]. split; [done|]. by intros ?%tag_leaf_nonnull.
  - pose proof Hr as (Hg & -> & ch & Ha & Hlen & Hc). cbn [insert_descend].
    destruct (a =? NULL) eqn:E; zb; [by destruct Hg|]. rewrite is_leaf_node by done. cbn [orb].
    rewrite Ha. cbn [deref obind path shift child].
    pose proof Hwf as (Hs & _). assert (0 <= s) by apply Hs.
    change (Z.land k (path_mask s) =? pth) with (cont_ins k (TNode a pth s cs)).
    cbn [focus slot_of]. destruct (cont_ins k (TNode a pth s cs)) eqn:Ec.
    + rewrite slice_index_slice by done. pose proof (slice_lt k s) as Hi.
      destruct (Hc _ Hi) as (q & Hq & Hrq). rewrite Hq. cbn [deref obind].
      destruct (below_child _ _ _ _ _ _ Hwf Hb Hi) as (m' & -> & Hb' & Hwf').
      destruct (IH (slice k s) m' fuel (SChild a (slice_index k s)) a q Hwf' Hb' ltac:(lia) Hrq)
        as (prev' & n & Hrun & Hrn & Hnull).
      replace (Z.of_nat (slice k s)) with (slice_index k s) in *.
      2:{ rewrite <- slice_index_slice by done. rewrite Z2Nat.id; [done|].
          apply slice_index_range. }
      exists prev', n. split; [done|]. split; [done|]. intros Hn _.
      destruct (decide (q = NULL)) as [->|Hq0]; [|by apply Hnull].
      apply rep_null in Hrq; [|done]. rewrite Hrq in *. cbn in Hrun.
      destruct fuel as [|fuel]; [lia|]. injection Hrun as <- _.
      exists (CNode ch pth s). split; [done|]. split; [done|]. cbn. f_equal.
      rewrite <- slice_index_slice by done. rewrite Z2Nat.id; [done|]. apply slice_index_range.
    + exists prev, a. split; [done|]. split; [done|]. intros ->. by destruct Hg.
Qed.

(** A new subtree [X] is written into the slot at the end of a descent. *)
Lemma inv_store cont key c t dn dl Ln Ll M rn rl x X :
  critnib_inv c t dn dl Ln Ll M rn rl → along cont key t → is_u64 key →
  rep (nodes c) (leaves c) x X → X ≠ TNil → sep X →
  (∀ s P, level s P → fits s P (focus cont key t) → P key → fits s P X) →
  (∀ y, naddr X y → (¬ outer_n cont key t y) ∧ y ∈ Ln ∧ ¬ pooled dn (pending_del_nodes c) y) →
  (∀ y, laddr X y → (¬ outer_l cont key t y) ∧ y ∈ Ll ∧ ¬ pooled dl (pending_del_leaves c) y) →
  ∃ c', store (slot_of cont key t SRoot) x c = Ret c' ∧
    critnib_inv c' (repl cont key t X) dn dl Ln Ll M rn rl ∧
    same_pools c c' ∧ leaves c' = leaves c ∧
    (∀ y, ¬ outer_n cont key t y → nodes c' !! y = nodes c !! y).
Proof.
  intros Hinv Hal Hk HX HXn HsX HfX Hna Hla.
  pose proof Hinv as [Hr Hf Hs _ _ _ _ _ _ _].
  assert (fits 64 is_u64 (repl cont key t X)) as Hfr by
    (eapply fits_repl; eauto using level_root).
  assert (sep (repl cont key t X)) as Hsr.
  { apply sep_repl; [done|done|..]; intros y Hy; [by apply Hna|by apply Hla]. }
  assert (∀ y, naddr (repl cont key t X) y →
            y ∈ Ln ∧ ¬ pooled dn (pending_del_nodes c) y) as Hnr.
  { intros y [Hy%outer_n_naddr|Hy]%naddr_repl_outer; [by eapply inv_naddr|by apply Hna]. }
  assert (∀ y, laddr (repl cont key t X) y →
            y ∈ Ll ∧ ¬ pooled dl (pending_del_leaves c) y) as Hlr.
  { intros y [Hy%outer_l_laddr|Hy]%laddr_repl_outer; [by eapply inv_laddr|by apply Hla]. }
  destruct (rep_store cont key _ _ (nodes c) (leaves c) _ t X x SRoot Hr Hs)
    as [(-> & Hrep & _)|(a & i & ch & pth & s & -> & Hoa & Ha & _ & Hrep)];
    try done; [by intros y [? _]%Hna|..]; cbn [store].
  - eexists. split; [done|]. rewrite Hrep in *.
    split; [|by split_and!]. by eapply (inv_change c).
  - unfold set_child. rewrite Ha. cbn. rewrite Nat2Z.id. eexists. split; [done|].
    split; [|split_and!; try done; intros y Hy; apply lookup_insert_ne; congruence].
    eapply (inv_change c); eauto; [done|]. cbn. intros y Hy. apply lookup_insert_ne. intros <-.
    apply outer_n_naddr in Hoa. by destruct (inv_naddr _ _ _ _ _ _ _ _ _ _ Hinv Hoa).
Qed.

(** Writing a spare leaf does not touch the tree. *)
Lemma inv_write_leaf c t dn dl Ln Ll M rn rl k lf :
  critnib_inv c t dn dl Ln Ll M rn rl → spare_leaf c t dl Ll k →
  critnib_inv (set_leaves (<[k := lf]> (leaves c)) c) t dn dl Ln Ll M rn rl.
Proof.
  intros Hinv (Hg & HL & Hu & Hp). pose proof Hinv as [Hr Hf Hs _ _ _ _ _ _ _].
  eapply (inv_change c); eauto using inv_naddr, inv_laddr; cbn; try done.
  - eapply rep_frame; [done|done|]. intros x Hx. apply lookup_insert_ne. by intros <-.
  - intros x Hx. apply lookup_insert_ne. by intros <-.
Qed.

Lemma inv_write_node c t dn dl Ln Ll M rn rl n nd :
  critnib_inv c t dn dl Ln Ll M rn rl → spare_node c t dn Ln n →
  critnib_inv (set_nodes (<[n := nd]> (nodes c)) c) t dn dl Ln Ll M rn rl.
Proof.
  intros Hinv (Hg & HL & Hu & Hp). pose proof Hinv as [Hr Hf Hs _ _ _ _ _ _ _].
  eapply (inv_change c); eauto using inv_naddr, inv_laddr; cbn; try done.
  - eapply rep_frame; [done| |done]. intros x Hx. apply lookup_insert_ne. by intros <-.
  - intros x Hx. apply lookup_insert_ne. by intros <-.
Qed.

(** *** The two subtrees an insertion puts in place *)
Lemma fits_new_leaf s P a k v : level s P → P k → fits s P (TLeaf a k v).
Proof. intros HP Hk. split; [by eapply level_u64|done|by intros ? ->]. Qed.

Definition split_tree (m k key v q : Z) (F : ctree) : ctree :=
  let s := split_shift q key in
  TNode m (pre key s * 2 ^ (s + 4)) s
    (λ i, if decide (i = slice q s) then F
          else if decide (i = slice key s) then TLeaf k key v else TNil).

(** [q] is the key or path of [F], and [key] does not belong under it. *)
Definition strays (key q : Z) (F : ctree) : Prop :=
  match F with
  | TNil => False
  | TLeaf _ k0 _ => k0 = q ∧ q ≠ key
  | TNode _ p s _ => p = q ∧ pre key s ≠ pre q s
  end.

Lemma strays_facts key q F :
  is_u64 key → wf F → strays key q F →
  is_u64 q ∧ q ≠ key ∧ F ≠ TNil ∧ below (split_shift q key) F ∧
  ∀ k, keyin F k → pre k (split_shift q key) = pre q (split_shift q key) ∧
                   slice k (split_shift q key) = slice q (split_shift q key).
Proof.
  destruct F as [|a k0 v|a p s cs]; cbn [strays]; [done|..]; intros Hk Hwf.
  - intros [-> Hne]. split_and!; try done. by intros k ->.
  - intros [-> Hne]. pose proof Hwf as (Hs & Hq & _). assert (q ≠ key) as Hqk by congruence.
    pose proof (split_shift_spec q key Hq Hk Hqk) as (Hsh & Hpre & _).
    assert (s < split_shift q key) as Hlt.
    { apply Z.nle_gt. intros Hle. apply Hne. symmetry.
      apply (pre_coarser _ _ (split_shift q key)); [destruct Hsh; lia|done]. }
    split_and!; try done. intros k Hkin. apply node_key in Hkin; [|done].
    destruct (pre_finer_slice k q s (split_shift q key)) as (? & ? & _); done.
Qed.

Lemma fits_split s P m k key v q F :
  level s P → fits s P F → P key → strays key q F → fits s P (split_tree m k key v q F).
Proof.
  intros HP [Hwf Hb HkF] Hkey Hst. pose proof (level_u64 _ _ HP _ Hkey) as Hku.
  destruct (strays_facts _ _ _ Hku Hwf Hst) as (Hq & Hne & HF & Hbel & Hin).
  pose proof (split_shift_spec q key Hq Hku Hne) as (Hsh & Hpre & Hsl).
  set (sh := split_shift q key) in *. assert (0 <= sh) as Hsh0 by apply Hsh.
  assert (0 < 2 ^ (sh + 4)) as Hpow by (apply Z.pow_pos_nonneg; lia).
  assert (sh < s) as Hlt.
  { apply Z.nle_gt. intros Hle. apply Hsl. apply slice_of_div.
    apply (div_coarser _ _ s). { destruct (level_shift _ _ HP) as [[? _]| ->]; lia. }
    destruct (wf_nonempty _ Hwf HF) as [k0 Hk0]. destruct F as [|a k1 v1|a p s' cs]; [done|..].
    - destruct Hst as [-> _]. cbn in Hk0. subst k0. apply (level_det _ _ HP); [|done].
      by apply HkF.
    - destruct Hst as [-> _]. rewrite <- (level_det _ _ HP k0 key); [|by apply HkF|done].
      symmetry. apply (level_div s P s'); [done|apply Hwf|done|]. by eapply node_key. }
  set (p := pre key sh * 2 ^ (sh + 4)).
  assert (pre p sh = pre key sh) as Hpp by (unfold p, pre; rewrite Z.div_mul; [done|lia]).
  split; [cbn [wf split_tree]; fold sh; fold p|done|].
  - split_and!; [done| |by rewrite Hpp|..].
    + unfold p, pre, is_u64 in *. pose proof (Z.mul_div_le key _ Hpow).
      assert (0 <= key / 2 ^ (sh + 4)) by (apply Z.div_pos; lia). nia.
    + intros i Hi. repeat case_decide; subst.
      * split_and!; [done|done|]. intros k0 Hk0. destruct (Hin k0 Hk0) as [Hp0 Hs0].
        split; [congruence|done].
      * split_and!; [done|done|]. intros k0 ->. by rewrite Hpp.
      * done.
    + exists (slice q sh), (slice key sh). split_and!; [done|apply slice_lt|apply slice_lt|..].
      * by rewrite decide_True.
      * rewrite decide_False by done. by rewrite decide_True.
  - cbn. fold sh. intros k0 (i & Hi & Hk0). repeat case_decide; [by apply HkF| |done].
    cbn in Hk0. by subst.
Qed.

Lemma tlookup_split m k key v q F k' :
  is_u64 key → wf F → strays key q F →
  tlookup (split_tree m k key v q F) k' = if k' =? key then Some v else tlookup F k'.
Proof.
  intros Hku Hwf Hst. destruct (strays_facts _ _ _ Hku Hwf Hst) as (Hq & Hne & HF & Hbel & Hin).
  pose proof (split_shift_spec q key Hq Hku Hne) as (Hsh & Hpre & Hsl).
  cbn. set (sh := split_shift q key) in *. destruct (k' =? key) eqn:E; zb.
  - subst k'. rewrite decide_False, decide_True by done. cbn. by rewrite Z.eqb_refl.
  - case_decide as Hd; [done|]. assert (tlookup F k' = None) as ->.
    { destruct (tlookup F k') eqn:El; [|done]. apply tlookup_keyin, Hin in El. naive_solver. }
    case_decide; [|done]. cbn. destruct (key =? k') eqn:E'; zb; [congruence|done].
Qed.

(** ** Refinement: a critnib is a finite map *)

(** [critnib_rep c m rn rl]: the structure holds exactly the bindings [m]; its
    allocators can serve at least [rn] more nodes and [rl] more leaves. *)
Definition critnib_rep c (m : gmap Z Z) (rn rl : nat) : Prop :=
  ∃ t dn dl Ln Ll M rn' rl',
    critnib_inv c t dn dl Ln Ll M rn' rl' ∧ (rn <= rn')%nat ∧ (rl <= rl')%nat ∧
    ∀ k, tlookup t k = m !! k.

Lemma critnib_rep_intro c t dn dl Ln Ll M rn' rl' m rn rl :
  critnib_inv c t dn dl Ln Ll M rn' rl' → (rn <= rn')%nat → (rl <= rl')%nat →
  (∀ k, tlookup t k = m !! k) → critnib_rep c m rn rl.
Proof. intros ? ? ? ?. by exists t, dn, dl, Ln, Ll, M, rn', rl'. Qed.

Lemma tlookup_insert_repl cont key t X (m : gmap Z Z) v :
  (∀ k, tlookup t k = m !! k) →
  (∀ k', tlookup X k' = if k' =? key then Some v else tlookup (focus cont key t) k') →
  ∀ k, tlookup (repl cont key t X) k = <[key := v]> m !! k.
Proof.
  intros Hm HX k. rewrite tlookup_repl.
  - rewrite HX, Z.eqb_refl. destruct (k =? key) eqn:E; zb; subst.
    + by rewrite lookup_insert_eq.
    + by rewrite lookup_insert_ne.
  - intros k' Hk'. rewrite HX. by destruct (k' =? key) eqn:E; zb.
Qed.

(** The branches of [critnib_insert] after the new leaf [k] is written. *)
Section insert_branches.
Context (c : critnib W) (t : ctree) (dn dl : list Z) (Ln Ll : gset Z)
  (M : gmap Z (gset Z * nat)) (rn rl : nat) (k key v : Z).
Hypothesis Hinv : critnib_inv c t dn dl Ln Ll M rn rl.
Hypothesis Hk : spare_leaf c t dl Ll k.
Hypothesis Hkl : leaves c !! k = Some (CLeaf key v).
Hypothesis Hkey : is_u64 key.
Let cont := cont_ins key.

Lemma spare_rep : rep (nodes c) (leaves c) (tag_leaf k) (TLeaf k key v).
Proof. split; [apply Hk|]. by split. Qed.

Lemma spare_laddr y :
  laddr (TLeaf k key v) y →
  (¬ outer_l cont key t y) ∧ y ∈ Ll ∧ ¬ pooled dl (pending_del_leaves c) y.
Proof.
  destruct Hk as (_ & ? & Hu & ?). cbn. intros ->. split_and!; [|done|done].
  by intros ?%outer_l_laddr.
Qed.

Lemma along_cont : along cont key t.
Proof. apply along_ins; [done|]. apply (ci_fits _ _ _ _ _ _ _ _ _ Hinv). Qed.

Lemma insert_at_nil :
  focus cont key t = TNil →
  ∃ c', store (slot_of cont key t SRoot) (tag_leaf k) c = Ret c' ∧
    critnib_inv c' (repl cont key t (TLeaf k key v)) dn dl Ln Ll M rn rl ∧
    same_pools c c'.
Proof.
  intros Hf. destruct (inv_store cont key c t dn dl Ln Ll M rn rl (tag_leaf k) (TLeaf k key v))
    as (c' & Hst & Hinv' & Hp & _); eauto using along_cont, spare_rep.
  - done.
  - intros s P HP _ HPk. by apply fits_new_leaf.
  - done.
  - apply spare_laddr.
Qed.

(** The node a split creates. *)
Definition split_node (q n : Z) : critnib_node :=
  let sh := split_shift q key in
  CNode (<[slice q sh := n]> (<[slice key sh := tag_leaf k]> (replicate 16 NULL)))
        (pre key sh * 2 ^ (sh + 4)) sh.

Lemma rep_split m q n F :
  good_ptr m → (¬ naddr F m) → slice q (split_shift q key) ≠ slice key (split_shift q key) →
  rep (nodes c) (leaves c) n F →
  rep (<[m := split_node q n]> (nodes c)) (leaves c) m (split_tree m k key v q F).
Proof.
  intros Hg HmF Hsl Hn. cbn. set (sh := split_shift q key) in *.
  split; [done|]. split; [done|]. eexists. rewrite lookup_insert_eq.
  split; [done|]. split; [by rewrite !length_insert|]. intros i Hi.
  assert (∀ p T, ¬ naddr T m → rep (nodes c) (leaves c) p T →
            rep (<[m := split_node q n]> (nodes c)) (leaves c) p T) as Hfr.
  { intros p T HT HpT. eapply rep_frame; [done| |done]. intros y Hy.
    apply lookup_insert_ne. by intros <-. }
  fold sh. case_decide; [|case_decide]; subst.
  - exists n. rewrite list_lookup_insert_eq by (rewrite length_insert, length_replicate; lia).
    split; [done|]. by apply Hfr.
  - exists (tag_leaf k). rewrite list_lookup_insert_ne by done.
    rewrite list_lookup_insert_eq by (rewrite length_replicate; lia).
    split; [done|]. apply (Hfr _ (TLeaf k key v)); [by intros []|apply spare_rep].
  - exists NULL. rewrite !list_lookup_insert_ne by done.
    split; [|done]. by apply lookup_replicate.
Qed.

Lemma sep_split m q F :
  sep F → (¬ naddr F m) → (¬ laddr F k) → sep (split_tree m k key v q F).
Proof.
  intros HF Hm HkF. cbn. split.
  - intros i Hi. repeat case_decide; cbn; tauto.
  - intros i j y Hi Hj Hij. repeat case_decide; subst; try done; cbn;
      (split; [tauto|]); intros; subst; tauto || congruence.
Qed.

(** Splitting at the focus with a fresh node [m]. *)
Lemma insert_split m q n :
  spare_node c t dn Ln m → strays key q (focus cont key t) →
  rep (nodes c) (leaves c) n (focus cont key t) →
  let c1 := set_nodes (<[m := split_node q n]> (nodes c)) c in
  ∃ c', store (slot_of cont key t SRoot) m c1 = Ret c' ∧
    critnib_inv c' (repl cont key t (split_tree m k key v q (focus cont key t)))
      dn dl Ln Ll M rn rl ∧
    same_pools c c'.
Proof.
  intros Hm Hst Hrn c1. pose proof Hm as (Hg & HmL & Hmu & Hmp).
  pose proof (inv_write_node _ _ _ _ _ _ _ _ _ m (split_node q n) Hinv Hm) as Hinv1.
  pose proof (ci_sep _ _ _ _ _ _ _ _ _ Hinv) as Hsep.
  pose proof (fits_wf _ _ _ (ci_fits _ _ _ _ _ _ _ _ _ Hinv)) as Hwf.
  apply (wf_focus cont key) in Hwf. set (F := focus cont key t) in *.
  assert (¬ naddr F m) as HmF by (intros ?%naddr_focus; done).
  assert (¬ laddr F k) as HkF by (destruct Hk as (_ & _ & Hu & _); by intros ?%laddr_focus).
  destruct (strays_facts _ _ _ Hkey Hwf Hst) as (Hq & Hne & HF & _ & _).
  pose proof (split_shift_spec q key Hq Hkey Hne) as (_ & _ & Hsl).
  assert (∀ y, naddr F y ∨ y = m → (¬ outer_n cont key t y) ∧ y ∈ Ln ∧
            ¬ pooled dn (pending_del_nodes c1) y) as HnX.
  { intros y [Hy| ->].
    - split; [intros Ho; by apply (outer_focus cont key t y Hsep) in Ho|].
      by apply (inv_naddr _ _ _ _ _ _ _ _ _ y Hinv), (naddr_focus cont key).
    - split_and!; [by intros ?%outer_n_naddr|done|done]. }
  destruct (inv_store cont key c1 t dn dl Ln Ll M rn rl m (split_tree m k key v q F))
    as (c' & Hsto & Hinv' & Hp & _); eauto using along_cont, sep_split, sep_focus.
  - by apply rep_split.
  - intros s P HP HfF HPk. by apply fits_split.
  - cbn. intros y [->|(i & Hi & Hy)]; [by apply HnX; right|]. apply HnX; left.
    repeat case_decide; done.
  - cbn. intros y (i & Hi & Hy). repeat case_decide; [|by apply spare_laddr|done].
    split; [intros Ho; by apply (outer_focus cont key t y Hsep) in Ho|].
    by apply (inv_laddr _ _ _ _ _ _ _ _ _ y Hinv), (laddr_focus cont key).
Qed.

End insert_branches.

(** Overwriting the value of the leaf that ends the descent. *)
Lemma inv_set_value cont c t dn dl Ln Ll M rn rl key a v v' n :
  critnib_inv c t dn dl Ln Ll M rn rl → along cont key t → is_u64 key →
  focus cont key t = TLeaf a key v → rep (nodes c) (leaves c) n (TLeaf a key v) →
  critnib_inv (set_leaves (<[a := CLeaf key v']> (leaves c)) c)
    (repl cont key t (TLeaf a key v')) dn dl Ln Ll M rn rl.
Proof.
  intros Hinv Hal Hk Hf Hn. pose proof Hn as (Hg & Hna & Ha).
  pose proof (ci_sep _ _ _ _ _ _ _ _ _ Hinv) as Hsep.
  assert (laddr t a) as Hat by (apply (laddr_focus cont key); rewrite Hf; done).
  assert (∀ y, outer_l cont key t y → y ≠ a) as Hoa.
  { intros y Ho ->. apply (outer_focus cont key t a Hsep) in Ho. rewrite Hf in Ho. by apply Ho. }
  eapply (inv_change c); eauto; cbn.
  - done.
  - apply (rep_inplace cont key (nodes c) (leaves c) _ _ _ _ _ n); eauto using ci_rep.
    + intros y Hy%Hoa. by apply lookup_insert_ne.
    + by rewrite Hf.
    + cbn. rewrite lookup_insert_eq. done.
  - eapply fits_repl; eauto using level_root, ci_fits.
    intros s P HP _ HPk. by apply fits_new_leaf.
  - apply sep_repl; [done|done|by intros y []|]. intros y -> Ho. by apply (Hoa a).
  - intros y Hy. apply lookup_insert_ne. intros <-.
    by destruct (inv_laddr _ _ _ _ _ _ _ _ _ _ Hinv Hat).
  - intros y [Hy%outer_n_naddr|[]]%naddr_repl_outer. by eapply inv_naddr.
  - intros y [Hy%outer_l_laddr|Hy]%laddr_repl_outer; [by eapply inv_laddr|].
    cbn in Hy. subst y. by eapply inv_laddr.
Qed.

(** What follows the descent in [critnib_insert]: the part of the source after
    the [while] loop, with [kn] the tagged new leaf. *)
Definition insert_finish c (key_ value_ : Z) (update : bool) (kn : Z) (parent : slot) (prev n : Z)
  : outcome (Z * critnib W) :=
  if n =? NULL then
    let! nd := deref (nodes c !! prev) in
    let! c := set_child prev (slice_index key_ (shift nd)) kn c in
    Ret (0, c)
  else
  let! path_ := (if is_leaf n
                 then let! lf := deref (leaves c !! to_leaf n) in Ret (key lf)
                 else let! nd := deref (nodes c !! n) in Ret (path nd)) in
  let at_ := Z.lxor path_ key_ in
  if at_ =? 0 then
    let! c := free_leaf (to_leaf kn) c in
    if update then
      let! lf := deref (leaves c !! to_leaf n) in
      Ret (0, set_leaves (<[to_leaf n := CLeaf (key lf) value_]> (leaves c)) c)
    else Ret (EEXIST, c)
  else
  let sh := Z.land (util_mssb_index64 at_) (u8 (Z.lnot (SLICE - 1))) in
  let! (m, c) := alloc_node c in
  if m =? NULL then
    let! c := free_leaf (to_leaf kn) c in
    Ret (ENOMEM, c)
  else
  let ch := replicate SLNODES NULL in
  let ch := <[Z.to_nat (slice_index key_ sh) := kn]> ch in
  let ch := <[Z.to_nat (slice_index path_ sh) := n]> ch in
  let c := set_nodes (<[m := CNode ch (Z.land key_ (path_mask sh)) sh]> (nodes c)) c in
  let! c := store parent m c in
  Ret (0, c).

(** The result of an insertion, against the map. *)
Definition insert_post (c' : critnib W) (m : gmap Z Z) (rn rl : nat) (key v : Z)
    (update : bool) (r : Z) : Prop :=
  match m !! key with
  | None => r = 0 ∧ critnib_rep c' (<[key := v]> m) rn rl
  | Some _ => if update then r = 0 ∧ critnib_rep c' (<[key := v]> m) rn rl
              else r = EEXIST ∧ critnib_rep c' m rn rl
  end.

Section finish.
Context (c : critnib W) (t : ctree) (dn dl : list Z) (Ln Ll : gset Z)
  (M : gmap Z (gset Z * nat)) (rn rl : nat) (k key v : Z) (m : gmap Z Z).
Hypothesis Hinv : critnib_inv c t dn dl Ln Ll M (S rn) rl.
Hypothesis Hk : spare_leaf c t dl Ll k.
Hypothesis Hkl : leaves c !! k = Some (CLeaf key v).
Hypothesis Hkey : is_u64 key.
Hypothesis Hm : ∀ x, tlookup t x = m !! x.
Let cont := cont_ins key.
Let F := focus cont key t.
Let sl := slot_of cont key t SRoot.

Lemma focus_lookup : m !! key = tlookup F key.
Proof. rewrite <- Hm. apply tlookup_focus. Qed.

Lemma finish_nil prev nd update :
  F = TNil → nodes c !! prev = Some nd → 0 <= shift nd →
  sl = SChild prev (Z.of_nat (slice key (shift nd))) →
  ∃ r c', insert_finish c key v update (tag_leaf k) sl prev NULL = Ret (r, c') ∧
    insert_post c' m rn rl key v update r ∧ remove_count c' = remove_count c.
Proof.
  intros HF Hnd Hsh Hsl. assert (m !! key = None) as Hmk.
  { by rewrite focus_lookup, HF. }
  destruct (insert_at_nil _ _ _ _ _ _ _ _ _ _ _ _ Hinv Hk Hkl Hkey HF)
    as (c' & Hst & Hinv' & Hp). fold cont sl in Hst. rewrite Hsl in Hst. cbn in Hst.
  unfold insert_finish. cbn [Z.eqb]. rewrite Hnd. cbn [deref obind].
  assert (set_child prev (slice_index key (shift nd)) (tag_leaf k) c = Ret c') as ->.
  { rewrite <- Hst. unfold set_child. by rewrite slice_index_slice, Nat2Z.id. }
  cbn. eexists _, c'. split; [done|]. split; [|apply Hp].
  unfold insert_post. rewrite Hmk. split; [done|].
  eapply critnib_rep_intro; [done|lia|lia|].
  eapply tlookup_insert_repl; [done|]. intros k'. unfold F, cont in *. rewrite HF. cbn.
  rewrite (Z.eqb_sym key k'). by destruct (k' =? key).
Qed.

Lemma finish_dup prev n a v0 update :
  F = TLeaf a key v0 → rep (nodes c) (leaves c) n F →
  ∃ r c', insert_finish c key v update (tag_leaf k) sl prev n = Ret (r, c') ∧
    insert_post c' m rn rl key v update r ∧ remove_count c' = remove_count c.
Proof.
  intros HF Hn. rewrite HF in Hn. pose proof Hn as (Hg & -> & Ha).
  assert (m !! key = Some v0) as Hmk.
  { rewrite focus_lookup, HF. cbn. by rewrite Z.eqb_refl. }
  assert (laddr t a) as Hat by (apply (laddr_focus (cont_ins key) key); change (focus (cont_ins key) key t) with F; by rewrite HF).
  assert (a ≠ k) as Hak by (intros ->; by apply Hk in Hat || (destruct Hk as (_ & _ & ? & _))).
  unfold insert_finish. destruct (tag_leaf a =? NULL) eqn:E; zb.
  { by apply tag_leaf_nonnull in E. }
  rewrite is_leaf_tag, !to_leaf_tag, Ha by (done || apply Hk). cbn [deref obind Critnib.key].
  rewrite Z.lxor_nilpotent. cbn [Z.eqb].
  destruct (free_leaf_ok _ _ _ _ _ _ _ _ _ _ _ Hinv Hk Hkl)
    as (c1 & -> & Hinv1 & Hroot & Hnodes & Hleaves & Hrc & _). cbn [obind].
  unfold insert_post. rewrite Hmk. destruct update.
  - rewrite Hleaves, Ha by done. cbn. eexists _, _. split; [done|]. split; [|done].
    split; [done|].
    assert (rep (nodes c1) (leaves c1) (tag_leaf a) (TLeaf a key v0)) as Hn1.
    { cbn. rewrite Hleaves by done. by split_and!. }
    pose proof (inv_set_value cont _ _ _ _ _ _ _ _ _ _ _ v0 v _ Hinv1
      (along_ins key t Hkey (fits_wf _ _ _ (ci_fits _ _ _ _ _ _ _ _ _ Hinv))) Hkey HF Hn1) as Hinv2.
    eapply critnib_rep_intro; [exact Hinv2|lia|lia|].
    eapply tlookup_insert_repl; [done|]. intros k'. unfold F, cont in *. rewrite HF. cbn.
    rewrite (Z.eqb_sym key k'). by destruct (k' =? key).
  - eexists _, _. split; [done|]. split; [|done]. split; [done|].
    eapply critnib_rep_intro; [exact Hinv1|lia|lia|done].
Qed.

Lemma finish_split prev n q update :
  strays key q F → rep (nodes c) (leaves c) n F →
  ∃ r c', insert_finish c key v update (tag_leaf k) sl prev n = Ret (r, c') ∧
    insert_post c' m rn rl key v update r ∧ remove_count c' = remove_count c.
Proof.
  intros Hst Hn. assert (wf F) as HwF by (apply wf_focus, Hinv).
  destruct (strays_facts _ _ _ Hkey HwF Hst) as (Hq & Hne & HF & _ & Hin).
  pose proof (split_shift_spec q key Hq Hkey Hne) as (Hsh & _ & Hsl).
  assert (m !! key = None) as Hmk.
  { rewrite focus_lookup. destruct (tlookup F key) eqn:El; [|done].
    apply tlookup_keyin, Hin in El. naive_solver. }
  unfold insert_finish. destruct (n =? NULL) eqn:E; zb.
  { by apply rep_null in Hn. }
  assert ((if is_leaf n then let! lf := deref (leaves c !! to_leaf n) in Ret (Critnib.key lf)
           else let! nd := deref (nodes c !! n) in Ret (path nd)) = Ret q) as ->.
  { destruct F as [|a k0 v0|a p s cs]; [done|..].
    - destruct Hn as (Hg & -> & Ha), Hst as [-> _]. by rewrite is_leaf_tag, to_leaf_tag, Ha.
    - destruct Hn as (Hg & -> & ch & Ha & _), Hst as [-> _]. by rewrite is_leaf_node, Ha. }
  cbn [obind]. destruct (Z.lxor q key =? 0) eqn:E'; zb; [by apply Z.lxor_eq in E'|].
  rewrite mssb_mask by done. assert (0 <= split_shift q key) by apply Hsh.
  destruct (alloc_node_ok _ _ _ _ _ _ _ _ _ Hinv) as (a & c1 & dn' & Ln' & M' & rn' &
    -> & Hinv1 & Hle & Hsp & Hroot & Hnodes & Hleaves & Hrc & Hpl). cbn [obind].
  destruct (a =? NULL) eqn:E''; zb; [by destruct Hsp as ((? & _) & _)|].
  rewrite !slice_index_slice, land_path_mask by done. unfold SLNODES.
  change (CNode _ _ _) with (split_node k key q n).
  destruct (insert_split c1 t dn' dl Ln' Ll M' rn' rl k key v Hinv1) with (m := a) (q := q) (n := n)
    as (c' & Hsto & Hinv' & Hp); rewrite ?Hnodes, ?Hleaves; try done.
  { unfold spare_leaf in *. by rewrite Hpl. }
  rewrite Hnodes in Hsto. fold cont sl in Hsto. rewrite Hsto. cbn.
  eexists _, c'. split; [done|]. split; [|destruct Hp as (_ & _ & _ & _ & -> & _); done].
  unfold insert_post. rewrite Hmk. split; [done|].
  eapply critnib_rep_intro; [done|lia|lia|].
  eapply tlookup_insert_repl; [done|]. intros k'. by apply tlookup_split.
Qed.

End finish.

(** The new leaf is allocated, written, and placed. *)
Lemma insert_ok c m rn rl key v update :
  critnib_rep c m (S rn) (S rl) → is_u64 key →
  ∃ r c', critnib_insert c key v update = Ret (r, c') ∧
    insert_post c' m rn rl key v update r ∧ remove_count c' = remove_count c.
Proof.
  intros (t & dn & dl & Ln & Ll & M & rn' & rl' & Hinv & Hrn & Hrl & Hm) Hkey.
  destruct rn' as [|rn'], rl' as [|rl']; try lia.
  destruct (alloc_leaf_ok _ _ _ _ _ _ _ _ _ Hinv) as (k & c1 & dl1 & Ll1 & M1 & rl1 &
    Hal & Hinv1 & Hrl1 & Hk & Hroot & Hnodes & Hleaves & Hrc).
  unfold critnib_insert. rewrite Hal. cbn [obind].
  destruct (k =? NULL) eqn:Ek; zb; [by destruct Hk as ((? & _) & _)|].
  pose proof (inv_write_leaf _ _ _ _ _ _ _ _ _ k (CLeaf key v) Hinv1 Hk) as Hinv2.
  set (c2 := set_leaves _ c1) in *.
  assert (leaves c2 !! k = Some (CLeaf key v)) as Hkl by apply lookup_insert_eq.
  assert (remove_count c2 = remove_count c) as Hrc2 by done. rewrite <- Hrc2.
  assert (spare_leaf c2 t dl1 Ll1 k) as Hk2 by done.
  assert (∀ r c', insert_post c' m rn' rl1 key v update r →
            insert_post c' m rn rl key v update r) as Hmono.
  { intros r c'. unfold insert_post. destruct (m !! key); [destruct update|];
      (intros [-> (t' & dn' & dl' & Ln' & Ll' & M' & rn2 & rl2 & ? & ? & ? & ?)]);
      (split; [done|]); eapply critnib_rep_intro; eauto; lia. }
  destruct (root c2 =? NULL) eqn:Er; zb.
  - pose proof (rep_null _ _ _ _ (ci_rep _ _ _ _ _ _ _ _ _ Hinv2) Er) as ->.
    destruct (insert_at_nil _ _ _ _ _ _ _ _ _ _ _ _ Hinv2 Hk2 Hkl Hkey eq_refl)
      as (c' & Hst & Hinv' & Hp). cbn in Hst. injection Hst as <-.
    eexists _, _. split; [done|]. split; [|done]. unfold insert_post.
    rewrite <- Hm. cbn. split; [done|]. eapply critnib_rep_intro; [exact Hinv'|lia|lia|].
    intros x. cbn. destruct (key =? x) eqn:E; zb; subst;
      [by rewrite lookup_insert_eq|by rewrite lookup_insert_ne, <- Hm].
  - pose proof (ci_fits _ _ _ _ _ _ _ _ _ Hinv2) as [Hwf Hb _].
    destruct (insert_descend_ok c2 key t 16 PATH_FUEL SRoot (root c2) (root c2)) as
      (prev & n & Hrun & Hn & Hnull); [done..|unfold PATH_FUEL; lia|apply Hinv2|].
    rewrite Hrun. cbn [obind].
    match goal with |- ∃ r c', ?e = _ ∧ _ =>
      change e with (insert_finish c2 key v update (tag_leaf k)
        (slot_of (cont_ins key) key t SRoot) prev n) end.
    enough (∃ r c', insert_finish c2 key v update (tag_leaf k)
        (slot_of (cont_ins key) key t SRoot) prev n = Ret (r, c') ∧
        insert_post c' m rn' rl1 key v update r ∧ remove_count c' = remove_count c2)
      as (r & c' & ? & ? & ?) by eauto 10.
    destruct (focus (cont_ins key) key t) as [|a k0 v0|a p s cs] eqn:HF.
    + cbn in Hn. subst n. destruct (Hnull eq_refl Er) as (nd & Hnd & Hsh & Hsl).
      by eapply finish_nil.
    + destruct (decide (k0 = key)) as [->|Hne].
      * eapply finish_dup; rewrite ?HF; eauto.
      * eapply (finish_split _ _ _ _ _ _ _ _ _ _ _ _ _ Hinv2) with (q := k0); rewrite ?HF; done.
    + eapply (finish_split _ _ _ _ _ _ _ _ _ _ _ _ _ Hinv2) with (q := p); rewrite ?HF; try done.
      split; [done|]. intros Hp. assert (wf (TNode a p s cs)) as Hw.
      { rewrite <- HF. by apply wf_focus. }
      apply (cont_ins_pre key a p s cs) in Hp; [|done..].
      clear -HF Hp. induction t as [|a' k' v'|a' p' s' cs' IH]; [done|done|].
      cbn [focus] in HF. destruct (cont_ins key (TNode a' p' s' cs')) eqn:E; [eauto|congruence].
Qed.

End inv.
