(* ===== verification/CritnibRead.v ===== *)
(** * The readers of the critnib: get, find and the ordered neighbours

    [critnib_get], [critnib_find_le] and [critnib_find] are shown to answer from
    the finite map that the structure represents. *)
From S2P Require Import Prelude Alloc Critnib CritnibTree CritnibCorrect.

Section read.
Context {W : Type} `{NodeAllocLaws W}.
Implicit Types c : critnib W.

(** The reader's retry test fails when no writer has run in between. *)
Lemma reader_loop_once {A} fuel c (body : outcome A) :
  0 <= remove_count c → remove_count c + DELETED_LIFE < 2 ^ 64 →
  reader_loop (S fuel) c body = body.
Proof.
  unfold DELETED_LIFE. intros Hge Hlt. cbn. destruct body as [x|]; [|done]. cbn.
  unfold DELETED_LIFE, u64. rewrite Z.mod_small by lia.
  case_if; zb; [lia|done].
Qed.

(** The leaf at [q] binds [k] to [v] and belongs to [t]. *)
Definition leaf_at (ls : gmap Z critnib_leaf) (t : ctree) (q k v : Z) : Prop :=
  q ≠ NULL ∧ ls !! q = Some (CLeaf k v) ∧ tlookup t k = Some v ∧ is_u64 k.

Lemma dive_ok c key t m fuel p :
  wf t → below (4 * Z.of_nat m) t → (m < fuel)%nat → rep (nodes c) (leaves c) p t →
  ∃ n, dive fuel c key p = Ret n ∧
    ((n = NULL ∧ tlookup t key = None) ∨
     ∃ a k v, n = tag_leaf a ∧ good_ptr a ∧ leaves c !! a = Some (CLeaf k v) ∧
       tlookup t key = if k =? key then Some v else None).
Proof.
  revert m fuel p. induction t as [|a k0 v|a pth s cs IH]; intros m [|fuel] p Hwf Hb Hm Hr; try lia.
  - cbn in Hr. subst p. exists NULL. auto.
  - pose proof Hr as (Hg & -> & Hl). cbn [dive]. rewrite is_leaf_tag, orb_true_r by done.
    exists (tag_leaf a). split; [done|]. right. by exists a, k0, v.
  - pose proof Hr as (Hg & -> & ch & Ha & Hlen & Hc). cbn [dive].
    destruct (a =? NULL) eqn:E; zb; [by destruct Hg|]. rewrite is_leaf_node by done. cbn [orb].
    rewrite Ha. cbn [deref obind path shift child]. pose proof Hwf as ((? & _) & _).
    rewrite slice_index_slice by lia. pose proof (slice_lt key s) as Hi.
    destruct (Hc _ Hi) as (q & -> & Hrq). cbn [deref obind].
    destruct (below_child _ _ _ _ _ _ Hwf Hb Hi) as (m' & -> & Hb' & Hwf').
    apply (IH _ m'); [done..|lia|done].
Qed.

Lemma rep_root_fuel c m rn rl :
  critnib_rep c m rn rl →
  ∃ t, rep (nodes c) (leaves c) (root c) t ∧ wf t ∧ below (4 * Z.of_nat 16) t ∧
    (∀ k, tlookup t k = m !! k) ∧ 0 <= remove_count c.
Proof.
  intros (t & dn & dl & Ln & Ll & M & rn' & rl' & Hinv & _ & _ & Hm). exists t.
  pose proof Hinv as [Hr [Hwf Hb _] _ _ _ _ _ _ _ [Hrc _]]. by split_and!.
Qed.

(** [critnib_get] returns the value bound to the key, and [NULL] for a key
    that is not bound. *)
Lemma get_ok c m rn rl key_ :
  critnib_rep c m rn rl → remove_count c + DELETED_LIFE < 2 ^ 64 →
  critnib_get c key_ = Ret (default NULL (m !! key_)).
Proof.
  intros (t & Hr & Hwf & Hb & Hm & Hrc)%rep_root_fuel Hlt.
  unfold critnib_get. change READ_FUEL with (S 3). rewrite reader_loop_once by done.
  destruct (dive_ok c key_ t 16 PATH_FUEL (root c)) as (n & -> & Hn);
    [done|done|unfold PATH_FUEL; lia|done|]. cbn [obind]. rewrite <- Hm.
  destruct Hn as [[-> ->]|(a & k & v & -> & Hg & Ha & ->)]; [done|].
  destruct (tag_leaf a =? NULL) eqn:E; zb; [by apply tag_leaf_nonnull in E|].
  rewrite to_leaf_tag, Ha by done. cbn. by destruct (k =? key_).
Qed.

(** ** Ordered neighbours

    [best le P t q]: [q] is the leaf of [t] whose key is the greatest in the
    order [le] among the keys that satisfy [P], or [NULL] if there is none. *)
Definition best (ls : gmap Z critnib_leaf) (le : Z → Z → Prop) (P : Z → Prop)
    (t : ctree) (q : Z) : Prop :=
  (q = NULL ∧ ∀ k, keyin t k → ¬ P k) ∨
  ∃ k v, leaf_at ls t q k v ∧ P k ∧ ∀ k', keyin t k' → P k' → le k' k.

Lemma leaf_at_child ls a p s cs j q k v :
  wf (TNode a p s cs) → (j < 16)%nat → leaf_at ls (cs j) q k v →
  leaf_at ls (TNode a p s cs) q k v.
Proof.
  intros (_ & _ & _ & Hc & _) Hj (Hq & Hl & Ht & Hk). split_and!; try done. cbn.
  destruct (Hc j Hj) as (_ & _ & Hkey). by destruct (Hkey k) as [_ ->]; [by eapply tlookup_keyin|].
Qed.

Lemma keyin_slice a p s cs k :
  wf (TNode a p s cs) → keyin (TNode a p s cs) k → keyin (cs (slice k s)) k.
Proof.
  intros (_ & _ & _ & Hc & _) (i & Hi & Hk). destruct (Hc i Hi) as (_ & _ & Hkey).
  by destruct (Hkey k Hk) as [_ ->].
Qed.

(** The best leaf of one child is the best of the node when every other
    qualifying key is worse than all keys of that child. *)
Lemma best_child ls le P a p s cs j q :
  wf (TNode a p s cs) → (j < 16)%nat → q ≠ NULL → best ls le P (cs j) q →
  (∀ k k', keyin (TNode a p s cs) k' → slice k' s ≠ j → P k' → keyin (cs j) k → le k' k) →
  best ls le P (TNode a p s cs) q.
Proof.
  intros Hwf Hj Hq [[-> _]|(k & v & Hl & HP & Hbest)] Hothers; [done|]. right.
  exists k, v. split; [by eapply leaf_at_child|]. split; [done|]. intros k' Hk' HPk'.
  destruct (decide (slice k' s = j)) as [<-|Hne].
  - apply Hbest; [|done]. by eapply keyin_slice.
  - apply Hothers; try done. destruct Hl as (_ & _ & Ht & _). by eapply tlookup_keyin.
Qed.

(** No child qualifies. *)
Lemma best_none ls le P t : (∀ k, keyin t k → ¬ P k) → best ls le P t NULL.
Proof. by left. Qed.

Lemma best_weaken ls le (P Q : Z → Prop) t q :
  (∀ k, keyin t k → (P k ↔ Q k)) → best ls le P t q → best ls le Q t q.
Proof.
  intros Hpq [[-> Hno]|(k & v & Hl & HP & Hb)].
  - left. split; [done|]. intros k Hk HQ. by apply (Hno k Hk), Hpq.
  - right. exists k, v. assert (keyin t k) by (eapply tlookup_keyin; apply Hl).
    split; [done|]. split; [by apply Hpq|]. intros k' Hk' HQ. apply Hb; [done|]. by apply Hpq.
Qed.

Lemma best_leaf c (le : Z → Z → Prop) P a k v :
  (∀ x, le x x) → wf (TLeaf a k v) → good_ptr a → leaves c !! a = Some (CLeaf k v) → P k →
  best (leaves c) le P (TLeaf a k v) a.
Proof.
  intros Hrefl Hwf (Ha & _) Hl HP. right. exists k, v. split; [|split; [done|by intros k' ->]].
  split_and!; try done. cbn. by rewrite Z.eqb_refl.
Qed.

(** *** The scans over the children of a node *)
Definition kids (c : critnib W) (ch : list Z) (cs : nat → ctree) : Prop :=
  ∀ i, (i < 16)%nat → ∃ q, ch !! i = Some q ∧ rep (nodes c) (leaves c) q (cs i).

Lemma kid_nil c ch cs i q :
  kids c ch cs → (i < 16)%nat → ch !! i = Some q → q = NULL → cs i = TNil.
Proof.
  intros Hk Hi Hq ->. destruct (Hk i Hi) as (q' & Hq' & Hr). simplify_eq. by eapply rep_null.
Qed.

Lemma scan_down_ok c ch cs i :
  kids c ch cs → (i <= 16)%nat →
  match scan_down ch i with
  | None => ∀ j, (j < i)%nat → cs j = TNil
  | Some m => ∃ j, (j < i)%nat ∧ m ≠ NULL ∧ rep (nodes c) (leaves c) m (cs j) ∧
                ∀ j', (j < j' < i)%nat → cs j' = TNil
  end.
Proof.
  intros Hk. induction i as [|i IH]; intros Hi; [intros j; lia|].
  cbn [scan_down]. destruct (Hk i ltac:(lia)) as (q & Hq & Hr). rewrite Hq.
  destruct (q =? NULL) eqn:E; zb; cbn [negb].
  - assert (cs i = TNil) as Hnil by (by eapply rep_null). specialize (IH ltac:(lia)).
    destruct (scan_down ch i) as [m|].
    + destruct IH as (j & Hj & Hm & Hrm & Hhi). exists j. split_and!; [lia|done|done|].
      intros j' Hj'. destruct (decide (j' = i)) as [->|]; [done|]. apply Hhi. lia.
    + intros j Hj. destruct (decide (j = i)) as [->|]; [done|]. apply IH. lia.
  - exists i. split_and!; [lia|done|done|]. intros j'. lia.
Qed.

Lemma scan_up_ok c ch cs i n :
  kids c ch cs → (i + n = 16)%nat →
  match scan_up ch i n with
  | None => ∀ j, (i <= j < 16)%nat → cs j = TNil
  | Some m => ∃ j, (i <= j < 16)%nat ∧ m ≠ NULL ∧ rep (nodes c) (leaves c) m (cs j) ∧
                ∀ j', (i <= j' < j)%nat → cs j' = TNil
  end.
Proof.
  intros Hk. revert i. induction n as [|n IH]; intros i Hi; [intros j; lia|].
  cbn [scan_up]. destruct (Hk i ltac:(lia)) as (q & Hq & Hr). rewrite Hq.
  destruct (q =? NULL) eqn:E; zb; cbn [negb].
  - assert (cs i = TNil) as Hnil by (by eapply rep_null). specialize (IH (S i) ltac:(lia)).
    destruct (scan_up ch (S i) n) as [m|].
    + destruct IH as (j & Hj & Hm & Hrm & Hhi). exists j. split_and!; [lia|lia|done|done|].
      intros j' Hj'. destruct (decide (j' = i)) as [->|]; [done|]. apply Hhi. lia.
    + intros j Hj. destruct (decide (j = i)) as [->|]; [done|]. apply IH. lia.
  - exists i. split_and!; [lia|lia|done|done|]. intros j'. lia.
Qed.

(** *** The last and the first leaf of a subtree *)
Definition last_leaf (fuel : nat) c (m : Z) : outcome Z :=
  if is_leaf m then Ret (to_leaf m) else find_predecessor fuel c m.
Definition first_leaf (fuel : nat) c (m : Z) : outcome Z :=
  if is_leaf m then Ret (to_leaf m) else find_successor fuel c m.

Definition anykey (_ : Z) : Prop := True.
Definition ge (x y : Z) : Prop := y <= x.

Lemma best_any_nonnull ls le t q :
  wf t → t ≠ TNil → best ls le anykey t q → q ≠ NULL.
Proof.
  intros Hwf Hn [[_ Hno]|(k & v & (Hq & _) & _)]; [|done].
  destruct (wf_nonempty t Hwf Hn) as [k Hk]. by destruct (Hno k Hk).
Qed.

(** Keys of different children compare like the children's indices. *)
Lemma kids_order a p s cs i k k' :
  wf (TNode a p s cs) → (i < 16)%nat → keyin (cs i) k → keyin (TNode a p s cs) k' →
  (slice k' s < i)%nat → k' < k.
Proof.
  intros Hwf Hi Hk Hk' Hlt. pose proof Hwf as ((? & _) & _ & _ & Hc & _).
  destruct (Hc i Hi) as (_ & _ & Hkey). destruct (Hkey k Hk) as [Hp Hs].
  pose proof (node_key _ _ _ _ _ Hwf Hk') as Hp'.
  apply (slice_lt_order k' k s); [lia|congruence|lia].
Qed.

Lemma kids_order_gt a p s cs i k k' :
  wf (TNode a p s cs) → (i < 16)%nat → keyin (cs i) k → keyin (TNode a p s cs) k' →
  (i < slice k' s)%nat → k < k'.
Proof.
  intros Hwf Hi Hk Hk' Hlt. pose proof Hwf as ((? & _) & _ & _ & Hc & _).
  destruct (Hc i Hi) as (_ & _ & Hkey). destruct (Hkey k Hk) as [Hp Hs].
  pose proof (node_key _ _ _ _ _ Hwf Hk') as Hp'.
  apply (slice_lt_order k k' s); [lia|congruence|lia].
Qed.

Lemma kid_empty a p s cs k i :
  wf (TNode a p s cs) → keyin (TNode a p s cs) k → cs i = TNil → slice k s ≠ i.
Proof. intros Hwf Hk Hi <-. apply keyin_slice in Hk; [|done]. by rewrite Hi in Hk. Qed.

Lemma last_leaf_ok c t m fuel p :
  wf t → t ≠ TNil → below (4 * Z.of_nat m) t → (m < fuel)%nat →
  rep (nodes c) (leaves c) p t →
  ∃ q, last_leaf fuel c p = Ret q ∧ best (leaves c) Z.le anykey t q.
Proof.
  revert m fuel p. induction t as [|a k0 v|a pth s cs IH]; intros m fuel p Hwf Hn Hb Hm Hr.
  - done.
  - destruct Hr as (Hg & -> & Hl). unfold last_leaf. rewrite is_leaf_tag, to_leaf_tag by done.
    exists a. split; [done|]. by apply best_leaf.
  - destruct Hr as (Hg & -> & ch & Ha & Hlen & Hc). unfold last_leaf. rewrite is_leaf_node by done.
    destruct fuel as [|fuel]; [lia|]. cbn [find_predecessor]. rewrite Ha. cbn [deref obind child].
    pose proof (scan_down_ok c ch cs 16 Hc ltac:(lia)) as Hscan. unfold SLNODES.
    destruct (scan_down ch 16) as [x|].
    + destruct Hscan as (j & Hj & Hx & Hrx & Hhi).
      destruct (below_child _ _ _ _ _ _ Hwf Hb Hj) as (m' & -> & Hb' & Hwf').
      assert (cs j ≠ TNil) as Hnj by (intros Hz; rewrite Hz in Hrx; done).
      destruct (IH j m' fuel x Hwf' Hnj Hb' ltac:(lia) Hrx) as (q & Hq & Hbest).
      exists q. split; [exact Hq|]. eapply best_child; eauto using best_any_nonnull.
      intros k k' Hk' Hne _ Hk. apply Z.lt_le_incl. eapply kids_order; eauto.
      pose proof (slice_lt k' s). destruct (decide (slice k' s < j)%nat); [done|].
      exfalso. eapply kid_empty; [exact Hwf|exact Hk'|apply (Hhi (slice k' s)); lia|done].
    + destruct (wf_nonempty _ Hwf Hn) as [k Hk].
      exfalso. eapply kid_empty; [exact Hwf|exact Hk|apply Hscan, slice_lt|done].
Qed.

Lemma first_leaf_ok c t m fuel p :
  wf t → t ≠ TNil → below (4 * Z.of_nat m) t → (m < fuel)%nat →
  rep (nodes c) (leaves c) p t →
  ∃ q, first_leaf fuel c p = Ret q ∧ best (leaves c) ge anykey t q.
Proof.
  revert m fuel p. induction t as [|a k0 v|a pth s cs IH]; intros m fuel p Hwf Hn Hb Hm Hr.
  - done.
  - destruct Hr as (Hg & -> & Hl). unfold first_leaf. rewrite is_leaf_tag, to_leaf_tag by done.
    exists a. split; [done|]. apply best_leaf; try done. intros x. unfold ge. lia.
  - destruct Hr as (Hg & -> & ch & Ha & Hlen & Hc). unfold first_leaf. rewrite is_leaf_node by done.
    destruct fuel as [|fuel]; [lia|]. cbn [find_successor]. rewrite Ha. cbn [deref obind child].
    pose proof (scan_up_ok c ch cs 0 16 Hc ltac:(lia)) as Hscan. unfold SLNODES.
    destruct (scan_up ch 0 16) as [x|].
    + destruct Hscan as (j & [_ Hj] & Hx & Hrx & Hlo).
      destruct (below_child _ _ _ _ _ _ Hwf Hb Hj) as (m' & -> & Hb' & Hwf').
      assert (cs j ≠ TNil) as Hnj by (intros Hz; rewrite Hz in Hrx; done).
      destruct (IH j m' fuel x Hwf' Hnj Hb' ltac:(lia) Hrx) as (q & Hq & Hbest).
      exists q. split; [exact Hq|]. eapply best_child; eauto using best_any_nonnull.
      intros k k' Hk' Hne _ Hk. apply Z.lt_le_incl. eapply kids_order_gt; eauto.
      destruct (decide (j < slice k' s)%nat); [done|].
      exfalso. eapply kid_empty; [exact Hwf|exact Hk'|apply (Hlo (slice k' s)); lia|done].
    + destruct (wf_nonempty _ Hwf Hn) as [k Hk]. pose proof (slice_lt k s).
      exfalso. eapply kid_empty; [exact Hwf|exact Hk|apply (Hscan (slice k s)); lia|done].
Qed.

(** *** The test against the path of a node *)
Lemma outside_pre key_ ch pth s :
  is_u64 key_ → is_u64 pth → sh_ok s →
  outside key_ (CNode ch pth s) = negb (pre key_ s =? pre pth s).
Proof.
  intros Hk Hp [Hs _]. unfold outside. cbn. pose proof (lxor_u64 _ _ Hk Hp) as Hx.
  rewrite Z.shiftr_div_pow2 by lia. f_equal.
  assert (is_u64 (Z.lxor key_ pth / 2 ^ s)) as Hd.
  { split; [apply Z.div_pos; lia|]. apply Z.le_lt_trans with (Z.lxor key_ pth); [|lia].
    assert (0 < 2 ^ s) by (apply Z.pow_pos_nonneg; lia).
    apply Z.div_le_upper_bound; [lia|]. nia. }
  change (u64 (Z.lnot NIB)) with (2 ^ 64 - 2 ^ 4). rewrite land_high_mask; [|lia|done].
  rewrite Z.div_div, <- Z.pow_add_r by lia. rewrite lxor_div by lia. fold (pre key_ s) (pre pth s).
  destruct (Z.eqb_spec (pre key_ s) (pre pth s)) as [->|Hne].
  - rewrite Z.lxor_nilpotent. done.
  - apply Z.eqb_neq. intros Hz. apply Hne, Z.lxor_eq. lia.
Qed.

(** A search key against the keys of a node, by path and by slice. *)
Lemma path_order a p s cs key_ k :
  wf (TNode a p s cs) → is_u64 key_ → keyin (TNode a p s cs) k →
  pre key_ s ≠ pre p s → (p < key_ → k < key_) ∧ (key_ <= p → key_ < k).
Proof.
  intros Hwf Hkey Hk Hne. pose proof Hwf as ((Hs & _) & _ & Hp & _).
  pose proof (node_key _ _ _ _ _ Hwf Hk) as Hkp.
  pose proof (Z.div_le_mono p key_ (2 ^ (s + 4)) ltac:(lia)) as Hup.
  pose proof (Z.div_le_mono key_ p (2 ^ (s + 4)) ltac:(lia)) as Hdn.
  fold (pre p s) (pre key_ s) in Hup, Hdn.
  split; intros Hlt; apply (pre_lt_order _ _ s); lia.
Qed.

Lemma slice_order a p s cs key_ k :
  wf (TNode a p s cs) → keyin (TNode a p s cs) k → pre key_ s = pre p s →
  ((slice k s < slice key_ s)%nat → k < key_) ∧ ((slice key_ s < slice k s)%nat → key_ < k).
Proof.
  intros Hwf Hk Hpre. pose proof Hwf as ((Hs & _) & _).
  pose proof (node_key _ _ _ _ _ Hwf Hk) as Hkp.
  split; intros Hlt; apply (slice_lt_order _ _ s); (congruence || lia).
Qed.

Lemma child_keyin (a p s : Z) cs j k : (j < 16)%nat → keyin (cs j) k → keyin (TNode a p s cs) k.
Proof. intros ? ?. by exists j. Qed.

Lemma child_slice a p s cs j k :
  wf (TNode a p s cs) → (j < 16)%nat → keyin (cs j) k → slice k s = j.
Proof. intros (_ & _ & _ & Hc & _) Hj Hk. by apply (Hc j Hj). Qed.

(** A node whose path covers the search key, but whose child on the key's slice
    holds no answer: the answer is the last leaf before, or the first after. *)
Section beside.
Context c (a pth s key_ : Z) (cs : nat → ctree) (ch : list Z) (m : nat).
Hypothesis Hwf : wf (TNode a pth s cs).
Hypothesis Hkids : kids c ch cs.
Hypothesis Hb : below (4 * Z.of_nat m) (TNode a pth s cs).
Hypothesis Hm : (m < PATH_FUEL)%nat.
Hypothesis Hpre : pre key_ s = pre pth s.

Lemma beside_order j k :
  (j < 16)%nat → keyin (cs j) k →
  ((j < slice key_ s)%nat → k < key_) ∧ ((slice key_ s < j)%nat → key_ < k).
Proof.
  intros Hj Hk. rewrite <- (child_slice _ _ _ _ _ _ Hwf Hj Hk).
  apply (slice_order a pth s cs); [done|by apply (child_keyin _ _ _ _ j)|done].
Qed.

Lemma find_le_below :
  (∀ k, keyin (cs (slice key_ s)) k → ¬ k <= key_) →
  ∃ q, match scan_down ch (slice key_ s) with
       | None => Ret NULL | Some x => last_leaf PATH_FUEL c x end = Ret q ∧
    best (leaves c) Z.le (λ k, k <= key_) (TNode a pth s cs) q.
Proof.
  intros Hnone. pose proof (slice_lt key_ s) as Hi.
  assert (∀ k, keyin (TNode a pth s cs) k → k <= key_ → (slice k s < slice key_ s)%nat) as Hlow.
  { intros k Hk%keyin_slice Hle; [|done]. pose proof (slice_lt k s) as Hks.
    destruct (beside_order _ k Hks Hk).
    destruct (decide (slice k s = slice key_ s)) as [Heq|]; [|lia].
    rewrite Heq in Hk. by destruct (Hnone k Hk). }
  pose proof (scan_down_ok c ch cs (slice key_ s) Hkids ltac:(lia)) as Hscan.
  destruct (scan_down ch (slice key_ s)) as [y|].
  2:{ exists NULL. split; [done|]. apply best_none. intros k Hk Hle.
      eapply kid_empty; [exact Hwf|exact Hk|apply Hscan, Hlow; done|done]. }
  destruct Hscan as (j & Hj & Hy & Hry & Hhi). assert (j < 16)%nat as Hj16 by lia.
  destruct (below_child _ _ _ _ _ j Hwf Hb Hj16) as (m2 & -> & Hb2 & Hwf2).
  assert (cs j ≠ TNil) as Hnj by (intros Hz; rewrite Hz in Hry; done).
  destruct (last_leaf_ok c (cs j) m2 PATH_FUEL y) as (q & Hq & Hbest); [done..|lia|done|].
  exists q. split; [exact Hq|].
  eapply (best_child _ _ _ _ _ _ _ j); eauto using best_any_nonnull.
  - eapply best_weaken; [|exact Hbest]. intros k Hk. split; [intros _|done].
    apply Z.lt_le_incl. by apply (beside_order j k).
  - intros k k' Hk' Hne Hle Hk. specialize (Hlow k' Hk' Hle). apply Z.lt_le_incl.
    apply (kids_order _ _ _ _ j k k' Hwf); [done..|].
    destruct (decide (slice k' s < j)%nat); [done|]. exfalso.
    eapply kid_empty; [exact Hwf|exact Hk'|apply (Hhi (slice k' s)); lia|done].
Qed.

Lemma find_ge_above :
  (∀ k, keyin (cs (slice key_ s)) k → ¬ key_ <= k) →
  ∃ q, match scan_up ch (S (slice key_ s)) (SLNODES - S (slice key_ s)) with
       | None => Ret NULL | Some x => first_leaf PATH_FUEL c x end = Ret q ∧
    best (leaves c) ge (λ k, key_ <= k) (TNode a pth s cs) q.
Proof.
  intros Hnone. pose proof (slice_lt key_ s) as Hi. unfold SLNODES.
  assert (∀ k, keyin (TNode a pth s cs) k → key_ <= k → (slice key_ s < slice k s < 16)%nat) as Hup.
  { intros k Hk%keyin_slice Hle; [|done]. pose proof (slice_lt k s) as Hks.
    destruct (beside_order _ k Hks Hk).
    destruct (decide (slice k s = slice key_ s)) as [Heq|]; [|lia].
    rewrite Heq in Hk. by destruct (Hnone k Hk). }
  pose proof (scan_up_ok c ch cs (S (slice key_ s)) (16 - S (slice key_ s)) Hkids ltac:(lia)) as Hscan.
  destruct (scan_up ch (S (slice key_ s)) (16 - S (slice key_ s))) as [y|].
  2:{ exists NULL. split; [done|]. apply best_none. intros k Hk Hle. specialize (Hup k Hk Hle).
      eapply kid_empty; [exact Hwf|exact Hk|apply (Hscan (slice k s)); lia|done]. }
  destruct Hscan as (j & [Hj Hj16] & Hy & Hry & Hlo).
  destruct (below_child _ _ _ _ _ j Hwf Hb Hj16) as (m2 & -> & Hb2 & Hwf2).
  assert (cs j ≠ TNil) as Hnj by (intros Hz; rewrite Hz in Hry; done).
  destruct (first_leaf_ok c (cs j) m2 PATH_FUEL y) as (q & Hq & Hbest); [done..|lia|done|].
  exists q. split; [exact Hq|].
  eapply (best_child _ _ _ _ _ _ _ j); eauto using best_any_nonnull.
  - eapply best_weaken; [|exact Hbest]. intros k Hk. split; [intros _|done].
    apply Z.lt_le_incl. by apply (beside_order j k).
  - intros k k' Hk' Hne Hle Hk. specialize (Hup k' Hk' Hle). apply Z.lt_le_incl.
    apply (kids_order_gt _ _ _ _ j k k' Hwf); [done..|].
    destruct (decide (j < slice k' s)%nat); [done|]. exfalso.
    eapply kid_empty; [exact Hwf|exact Hk'|apply (Hlo (slice k' s)); lia|done].
Qed.
End beside.

Lemma find_le_ok c key_ t m fuel p :
  is_u64 key_ → wf t → below (4 * Z.of_nat m) t → (m < fuel)%nat → (m < PATH_FUEL)%nat →
  rep (nodes c) (leaves c) p t →
  ∃ q, find_le fuel c p key_ = Ret q ∧ best (leaves c) Z.le (λ k, k <= key_) t q.
Proof.
  intros Hkey. revert m fuel p.
  induction t as [|a k0 v|a pth s cs IH]; intros m [|fuel] p Hwf Hb Hm HmP Hr; try lia.
  - cbn in Hr. subst p. exists NULL. split; [done|]. by apply best_none.
  - destruct Hr as (Hg & -> & Hl). cbn [find_le].
    destruct (tag_leaf a =? NULL) eqn:E; zb; [by apply tag_leaf_nonnull in E|].
    rewrite is_leaf_tag, to_leaf_tag, Hl by done. cbn. eexists. split; [done|].
    case_if; zb; [by apply best_leaf|]. apply best_none. cbn. intros k ->. lia.
  - pose proof Hr as (Hg & -> & ch & Ha & Hlen & Hc). cbn [find_le].
    destruct (a =? NULL) eqn:E; zb; [by destruct Hg|]. rewrite is_leaf_node, Ha by done.
    cbn [deref obind path shift child]. pose proof Hwf as (Hs & Hpu & _).
    rewrite outside_pre by done. destruct (Z.eqb_spec (pre key_ s) (pre pth s)) as [Hpre|Hpre]; cbn [negb].
    + rewrite slice_index_slice by apply Hs. pose proof (slice_lt key_ s) as Hi.
      destruct (Hc _ Hi) as (x & -> & Hrx). cbn [deref obind].
      destruct (below_child _ _ _ _ _ _ Hwf Hb Hi) as (m' & -> & Hb' & Hwf').
      destruct (IH _ m' fuel x Hwf' Hb' ltac:(lia) ltac:(lia) Hrx) as (q & -> & Hq). cbn [obind].
      destruct (q =? NULL) eqn:Eq; zb; cbn [negb].
      { subst q. destruct Hq as [[_ Hnone]|(? & ? & (? & _) & _)]; [|done].
        by apply (find_le_below c _ _ _ _ _ _ (S m')). }
      exists q. split; [done|]. eapply best_child; eauto. intros k k' Hk' Hne Hle Hk.
      destruct (slice_order _ _ _ _ key_ k' Hwf Hk' Hpre). apply Z.lt_le_incl.
      eapply kids_order; eauto. lia.
    + destruct (pth <? key_) eqn:Elt; zb.
      * destruct (last_leaf_ok c (TNode a pth s cs) m PATH_FUEL a) as (q & Hq & Hbest); [done..|].
        unfold last_leaf in Hq. rewrite is_leaf_node in Hq by done. exists q. split; [done|].
        eapply best_weaken; [|exact Hbest]. intros k Hk. split; [intros _|done].
        apply Z.lt_le_incl. by apply (path_order _ _ _ _ key_ k Hwf).
      * exists NULL. split; [done|]. apply best_none. intros k Hk Hle.
        destruct (path_order _ _ _ _ key_ k Hwf Hkey Hk Hpre). lia.
Qed.

Lemma find_ge_ok c key_ t m fuel p :
  is_u64 key_ → wf t → below (4 * Z.of_nat m) t → (m < fuel)%nat → (m < PATH_FUEL)%nat →
  rep (nodes c) (leaves c) p t →
  ∃ q, find_ge fuel c p key_ = Ret q ∧ best (leaves c) ge (λ k, key_ <= k) t q.
Proof.
  intros Hkey. revert m fuel p.
  induction t as [|a k0 v|a pth s cs IH]; intros m [|fuel] p Hwf Hb Hm HmP Hr; try lia.
  - cbn in Hr. subst p. exists NULL. split; [done|]. by apply best_none.
  - destruct Hr as (Hg & -> & Hl). cbn [find_ge].
    destruct (tag_leaf a =? NULL) eqn:E; zb; [by apply tag_leaf_nonnull in E|].
    rewrite is_leaf_tag, to_leaf_tag, Hl by done. cbn. eexists. split; [done|].
    case_if; zb; [apply best_leaf; try done; unfold ge; lia|].
    apply best_none. cbn. intros k ->. lia.
  - pose proof Hr as (Hg & -> & ch & Ha & Hlen & Hc). cbn [find_ge].
    destruct (a =? NULL) eqn:E; zb; [by destruct Hg|]. rewrite is_leaf_node, Ha by done.
    cbn [deref obind path shift child]. pose proof Hwf as (Hs & Hpu & _).
    rewrite outside_pre by done. destruct (Z.eqb_spec (pre key_ s) (pre pth s)) as [Hpre|Hpre]; cbn [negb].
    + rewrite slice_index_slice by apply Hs. pose proof (slice_lt key_ s) as Hi.
      destruct (Hc _ Hi) as (x & -> & Hrx). cbn [deref obind].
      destruct (below_child _ _ _ _ _ _ Hwf Hb Hi) as (m' & -> & Hb' & Hwf').
      destruct (IH _ m' fuel x Hwf' Hb' ltac:(lia) ltac:(lia) Hrx) as (q & -> & Hq). cbn [obind].
      destruct (q =? NULL) eqn:Eq; zb; cbn [negb].
      { subst q. destruct Hq as [[_ Hnone]|(? & ? & (? & _) & _)]; [|done].
        by apply (find_ge_above c _ _ _ _ _ _ (S m')). }
      exists q. split; [done|]. eapply best_child; eauto. intros k k' Hk' Hne Hle Hk.
      destruct (slice_order _ _ _ _ key_ k' Hwf Hk' Hpre). apply Z.lt_le_incl.
      eapply kids_order_gt; eauto. lia.
    + destruct (key_ <? pth) eqn:Elt; zb.
      * destruct (first_leaf_ok c (TNode a pth s cs) m PATH_FUEL a) as (q & Hq & Hbest); [done..|].
        unfold first_leaf in Hq. rewrite is_leaf_node in Hq by done. exists q. split; [done|].
        eapply best_weaken; [|exact Hbest]. intros k Hk. split; [intros _|done].
        apply Z.lt_le_incl. apply (path_order _ _ _ _ key_ k Hwf); (done || lia).
      * exists NULL. split; [done|]. apply best_none. intros k Hk Hle.
        assert (pth ≠ key_) by (intros ->; done).
        destruct (path_order _ _ _ _ key_ k Hwf Hkey Hk Hpre). lia.
Qed.

(** ** Against the map *)

(** The answer of an ordered search in a map: the binding closest in the order
    [le] among the keys [P] selects. *)
Definition nearest (m : gmap Z Z) (le : Z → Z → Prop) (P : Z → Prop)
    (r : option (Z * Z)) : Prop :=
  match r with
  | None => ∀ k v, m !! k = Some v → ¬ P k
  | Some (k, v) => m !! k = Some v ∧ P k ∧ ∀ k' v', m !! k' = Some v' → P k' → le k' k
  end.

(** Reading the leaf a search ended in. *)
Definition read_leaf c (q : Z) : outcome (option (Z * Z)) :=
  if negb (q =? NULL) then
    let! lf := deref (leaves c !! q) in Ret (Some (key lf, value lf))
  else Ret None.

Lemma read_best c le P t m q :
  wf t → (∀ k, tlookup t k = m !! k) → best (leaves c) le P t q →
  ∃ r, read_leaf c q = Ret r ∧ nearest m le P r.
Proof.
  intros Hwf Hm Hq. unfold read_leaf. destruct Hq as [[-> Hno]|(k & v & (Hq & Hl & Ht & _) & HP & Hb)].
  - exists None. split; [done|]. intros k v Hk. apply Hno. rewrite <- Hm in Hk. by eapply tlookup_keyin.
  - destruct (q =? NULL) eqn:E; zb; [done|]. rewrite Hl. cbn. exists (Some (k, v)).
    split; [done|]. split_and!; [by rewrite <- Hm|done|]. intros k' v' Hk'. apply Hb.
    rewrite <- Hm in Hk'. by eapply tlookup_keyin.
Qed.

Lemma nearest_iff m le (P Q : Z → Prop) r :
  (∀ k, P k ↔ Q k) → nearest m le P r → nearest m le Q r.
Proof.
  intros Hpq. destruct r as [[k v]|]; cbn.
  - intros (? & ? & Hb). split_and!; [done|by apply Hpq|]. intros k' v' Hk' HQ.
    eapply Hb; [done|]. by apply Hpq.
  - intros Hno k v Hk HQ. eapply Hno; [done|]. by apply Hpq.
Qed.

(** What the five directions of [critnib_find] select, and in which order. *)
Definition dir_sel (dir key_ k : Z) : Prop :=
  if dir <? -1 then k < key_ else if dir <? 0 then k <= key_
  else if dir =? 0 then k = key_ else if dir <=? 1 then key_ <= k else key_ < k.
Definition dir_order (dir : Z) : Z → Z → Prop := if dir <? 0 then Z.le else ge.

(** The leaf a search in one direction ends in. *)
Definition find_leaf c (key_ dir : Z) : outcome Z :=
  if dir <? 0 then find_le PATH_FUEL c (root c) key_
  else if 0 <? dir then find_ge PATH_FUEL c (root c) key_
  else
    let! n := dive PATH_FUEL c key_ (root c) in
    if n =? NULL then Ret NULL else
    let! lf := deref (leaves c !! to_leaf n) in
    Ret (if key lf =? key_ then to_leaf n else NULL).

Lemma find_leaf_ok c t key_ dir :
  is_u64 key_ → wf t → below (4 * Z.of_nat 16) t → rep (nodes c) (leaves c) (root c) t →
  ∃ q, find_leaf c key_ dir = Ret q ∧
    best (leaves c) (dir_order dir)
      (λ k, if dir <? 0 then k <= key_ else if 0 <? dir then key_ <= k else k = key_) t q.
Proof.
  intros Hk Hwf Hb Hr. assert (16 < PATH_FUEL)%nat as HF by (unfold PATH_FUEL; lia).
  unfold find_leaf, dir_order. destruct (dir <? 0) eqn:E1; zb; [by eapply find_le_ok|].
  destruct (0 <? dir) eqn:E2; zb; [by eapply find_ge_ok|].
  destruct (dive_ok c key_ t 16 PATH_FUEL (root c)) as (n & -> & Hn); [done..|]. cbn [obind].
  destruct Hn as [[-> Hn]|(a & k & v & -> & Hg & Ha & Hlk)].
  - exists NULL. split; [done|]. apply best_none. intros k Hkin ->.
    apply keyin_tlookup in Hkin; [|done]. rewrite Hn in Hkin. by destruct Hkin.
  - destruct (tag_leaf a =? NULL) eqn:E; zb; [by apply tag_leaf_nonnull in E|].
    rewrite to_leaf_tag, Ha by done. cbn. eexists. split; [done|].
    destruct (k =? key_) eqn:Ek; zb.
    + subst k. right. exists key_, v. split_and!; try done; [by destruct Hg|].
      intros k' _ ->. unfold ge. lia.
    + apply best_none. intros k' Hkin ->. apply keyin_tlookup in Hkin; [|done].
      rewrite Hlk in Hkin. by destruct Hkin.
Qed.

(** The search key after the adjustment for the strict directions. *)
Definition find_start (key_ dir : Z) : option Z :=
  if dir <? -1 then (if key_ =? 0 then None else Some (key_ - 1))
  else if 1 <? dir then (if key_ =? 2 ^ 64 - 1 then None else Some (key_ + 1))
  else Some key_.

Lemma critnib_find_eq c key_ dir :
  critnib_find c key_ dir =
  match find_start key_ dir with
  | None => Ret None
  | Some k => reader_loop READ_FUEL c (let! q := find_leaf c k dir in read_leaf c q)
  end.
Proof. done. Qed.

(** C32: [critnib_find] answers every direction from the map: [FIND_L], [FIND_LE],
    [FIND_EQ], [FIND_GE] and [FIND_G] give the binding with the nearest key on
    the asked side of the search key, and fail exactly when there is none; the
    strict directions do not wrap at the ends of the key space. *)
Theorem critnib_find_correct c m rn rl key_ dir :
  critnib_rep c m rn rl → is_u64 key_ → remove_count c + DELETED_LIFE < 2 ^ 64 →
  ∃ r, critnib_find c key_ dir = Ret r ∧ nearest m (dir_order dir) (dir_sel dir key_) r.
Proof.
  intros (t & Hr & Hwf & Hb & Hm & Hrc)%rep_root_fuel Hk Hlt.
  rewrite critnib_find_eq. assert (∀ k v, m !! k = Some v → is_u64 k) as Hmk.
  { intros k v Hkv. rewrite <- Hm in Hkv. eapply wf_keyin_u64, tlookup_keyin; eauto. }
  destruct (find_start key_ dir) as [k|] eqn:Est.
  - assert (is_u64 k ∧ ∀ x, (if dir <? 0 then x <= k else if 0 <? dir then k <= x else x = k)
                            ↔ dir_sel dir key_ x) as [Hku Hsel].
    { unfold find_start in Est. unfold dir_sel, is_u64 in *.
      revert Est. repeat case_if; intros Est; simplify_eq; (split; [lia|]); intros x; lia. }
    change READ_FUEL with (S 3). rewrite reader_loop_once by done.
    destruct (find_leaf_ok c t k dir Hku Hwf Hb Hr) as (q & -> & Hq). cbn [obind].
    destruct (read_best c _ _ t m q Hwf Hm Hq) as (r & Hrd & Hnear).
    exists r. split; [done|]. eapply nearest_iff; [apply Hsel|done].
  - exists None. split; [done|]. intros x v Hx%Hmk. unfold find_start in Est.
    unfold dir_sel, is_u64 in *. revert Est. repeat case_if; intros Est; simplify_eq; lia.
Qed.

Lemma critnib_find_le_ok c m rn rl key_ :
  critnib_rep c m rn rl → is_u64 key_ → remove_count c + DELETED_LIFE < 2 ^ 64 →
  ∃ r, critnib_find_le c key_ = Ret (default NULL (snd <$> r)) ∧
    nearest m Z.le (λ k, k <= key_) r.
Proof.
  intros (t & Hr & Hwf & Hb & Hm & Hrc)%rep_root_fuel Hk Hlt.
  unfold critnib_find_le. change READ_FUEL with (S 3). rewrite reader_loop_once by done.
  destruct (find_le_ok c key_ t 16 PATH_FUEL (root c)) as (q & Hq & Hbest);
    [done..|unfold PATH_FUEL; lia|unfold PATH_FUEL; lia|done|].
  assert ((if negb (root c =? NULL) then find_le PATH_FUEL c (root c) key_ else Ret NULL) = Ret q) as ->.
  { rewrite <- Hq. destruct (root c =? NULL) eqn:E; zb; [|done]. by rewrite E. }
  cbn [obind]. destruct (read_best c _ _ t m q Hwf Hm Hbest) as (r & Hrd & Hnear).
  exists r. split; [|done]. unfold read_leaf in Hrd. destruct (negb (q =? NULL)).
  - destruct (leaves c !! q) as [lf|]; cbn in Hrd |- *; [|done]. by injection Hrd as <-.
  - by injection Hrd as <-.
Qed.

(** [critnib_find_le] returns the value of the greatest key that is not above
    the search key, and [NULL] only when there is no such key or the value found
    is [NULL] itself. *)
Theorem critnib_find_le_correct c m rn rl key_ :
  critnib_rep c m rn rl → is_u64 key_ → remove_count c + DELETED_LIFE < 2 ^ 64 →
  ∃ r, critnib_find_le c key_ = Ret (default NULL (snd <$> r)) ∧
    nearest m Z.le (λ k, k <= key_) r.
Proof. apply critnib_find_le_ok. Qed.

End read.
