(* ===== verification/CritnibRemove.v ===== *)
(** * Removal from the critnib

    [critnib_remove] deletes the binding, collapses a node left with one child,
    and parks what it unlinked in the grace arrays for [DELETED_LIFE] removals. *)
From S2P Require Import Prelude Alloc Critnib CritnibTree CritnibCorrect.

(** ** Trees *)
Lemma slice_index_nat k s : 0 <= s → slice_index k s = Z.of_nat (slice k s).
Proof.
  intros Hs. rewrite <- slice_index_slice by done. rewrite Z2Nat.id; [done|].
  apply slice_index_range.
Qed.

Definition cont_rm (k : Z) (t : ctree) : bool :=
  match t with
  | TNode _ _ s cs => match cs (slice k s) with TNode _ _ _ _ => true | _ => false end
  | _ => false
  end.

(** A key of the tree lies under every path on its way. *)
Lemma along_key cont k t : wf t → keyin t k → along cont k t.
Proof.
  induction t as [|a k0 v|a p s cs IH]; [done|done|]. intros Hwf Hk. cbn [along].
  destruct (cont _); [|done]. split; [by eapply node_key|].
  pose proof Hwf as (_ & _ & _ & Hc & _). apply IH; [apply Hc, slice_lt|].
  destruct Hk as (i & Hi & Hk). destruct (Hc i Hi) as (_ & _ & Hkey).
  by destruct (Hkey k Hk) as [_ ->].
Qed.

Lemma keyin_focus cont k t : keyin (focus cont k t) k → keyin t k.
Proof.
  induction t as [|a k0 v|a p s cs IH]; cbn; [done|done|]. destruct (cont _); [|done].
  intros ?. exists (slice k s). split; [apply slice_lt|by apply IH].
Qed.

(** The slot above the focus is the root field or lies outside the focus. *)
Lemma slot_of_outer cont k t sl :
  slot_of cont k t sl = sl ∨ ∃ b i, slot_of cont k t sl = SChild b i ∧ outer_n cont k t b.
Proof.
  revert sl. induction t as [|a k0 v|a p s cs IH]; intros sl; cbn; [by left|by left|].
  destruct (cont _); [right|by left].
  destruct (IH (slice k s) (SChild a (Z.of_nat (slice k s)))) as [->|(b & i & -> & Hb)]; eauto 10.
Qed.

(** ** Counting the children that remain *)
Lemma only_child_more ch i o :
  o ≠ -1 →
  (only_child ch i o = Some o ∧ ∀ j x, ch !! j = Some x → x = NULL) ∨
  (only_child ch i o = None ∧ ∃ j x, ch !! j = Some x ∧ x ≠ NULL).
Proof.
  intros Ho. revert i. induction ch as [|y ch IH]; intros i; cbn [only_child]; [by left|].
  destruct (y =? NULL) eqn:E; zb; cbn [negb].
  - destruct (IH (i + 1)) as [[-> Hn]|[-> (j & x & Hj & Hx)]].
    + left. split; [done|]. intros [|j] x Hx; cbn in Hx; [congruence|eauto].
    + right. split; [done|]. by exists (S j), x.
  - destruct (o =? -1) eqn:E'; zb; [done|]. right. split; [done|]. by exists 0%nat, y.
Qed.

Lemma only_child_ok ch i :
  0 <= i →
  (∀ j x, ch !! j = Some x → x = NULL) ∨
  (∃ j x, ch !! j = Some x ∧ x ≠ NULL ∧ only_child ch i (-1) = Some (i + Z.of_nat j) ∧
     ∀ j' x', ch !! j' = Some x' → x' ≠ NULL → j' = j) ∨
  (only_child ch i (-1) = None ∧
     ∃ j j' x x', j ≠ j' ∧ ch !! j = Some x ∧ ch !! j' = Some x' ∧ x ≠ NULL ∧ x' ≠ NULL).
Proof.
  revert i. induction ch as [|y ch IH]; intros i Hi; cbn [only_child]; [by left|].
  destruct (y =? NULL) eqn:E; zb; cbn [negb].
  - destruct (IH (i + 1) ltac:(lia)) as [Hn|[(j & x & Hj & Hx & -> & Hu)|
      (-> & j & j' & x & x' & Hne & Hj & Hj' & Hx & Hx')]].
    + left. intros [|j] x Hx; cbn in Hx; [congruence|eauto].
    + right; left. exists (S j), x. split_and!; [done|done|f_equal; lia|].
      intros [|j'] x' Hx' Hx0; cbn in Hx'; [congruence|]. f_equal. eauto.
    + right; right. split; [done|]. exists (S j), (S j'), x, x'. split_and!; try done. congruence.
  - right. change (-1 =? -1) with true. cbn [negb].
    destruct (only_child_more ch (i + 1) i ltac:(lia)) as [[-> Hn]|[-> (j & x & Hj & Hx)]].
    + left. exists 0%nat, y. split_and!; [done|done|f_equal; lia|].
      intros [|j'] x' Hx' Hx0; cbn in Hx'; [done|]. by destruct Hx0; eapply Hn.
    + right. split; [done|]. exists 0%nat, (S j), y, x. split_and!; done.
Qed.

Section remove.
Context {W : Type} `{NodeAllocLaws W}.
Implicit Types c : critnib W.

(** ** The descent *)
Lemma remove_descend_ok c k t m fuel sl np n p :
  wf t → below (4 * Z.of_nat m) t → (m < fuel)%nat → rep (nodes c) (leaves c) p t →
  (∃ a pth s cs, t = TNode a pth s cs) →
  ∃ a pth s cs, focus (cont_rm k) k t = TNode a pth s cs ∧
    rep (nodes c) (leaves c) a (TNode a pth s cs) ∧
    ((cs (slice k s) = TNil ∧ remove_descend fuel c k sl np n p = Ret None) ∨
     ∃ b k' v, cs (slice k s) = TLeaf b k' v ∧
       remove_descend fuel c k sl np n p
         = Ret (Some (slot_of (cont_rm k) k t sl, a, tag_leaf b))).
Proof.
  revert m fuel sl np n p.
  induction t as [|a0 k0 v0|a pth s cs IH]; intros m [|fuel] sl np n p Hwf Hb Hm Hr Ht;
    try lia; try by destruct Ht as (? & ? & ? & ? & ?).
  pose proof Hr as (Hg & -> & ch & Ha & Hlen & Hc). cbn [remove_descend].
  rewrite is_leaf_node, Ha by done. cbn [deref obind path shift child].
  pose proof Hwf as (Hs & _). assert (0 <= s) by apply Hs.
  rewrite slice_index_slice, slice_index_nat by done. pose proof (slice_lt k s) as Hi.
  destruct (Hc _ Hi) as (q & -> & Hrq). cbn [deref obind].
  destruct (below_child _ _ _ _ _ _ Hwf Hb Hi) as (m' & -> & Hb' & Hwf').
  cbn [focus slot_of cont_rm].
  destruct (cs (slice k s)) as [|b k' v|a' pth' s' cs'] eqn:Ecs.
  - cbn in Hrq. subst q. exists a, pth, s, cs. split; [done|]. split; [done|]. by left.
  - pose proof Hrq as (Hgb & -> & Hl).
    destruct (tag_leaf b =? NULL) eqn:E; zb; [by apply tag_leaf_nonnull in E|].
    exists a, pth, s, cs. split; [done|]. split; [done|]. right. exists b, k', v.
    split; [done|]. destruct fuel as [|fuel]; [lia|]. cbn [remove_descend]. by rewrite is_leaf_tag.
  - destruct (q =? NULL) eqn:E; zb; [by apply rep_null in Hrq|].
    rewrite <- Ecs in *. apply (IH (slice k s) m'); [done|done|lia|done|].
    rewrite Ecs. eauto.
Qed.

(** ** The grace arrays *)

(** A spare object moves into an empty slot of the grace array. *)
Lemma retire_node c t dn dl Ln Ll M rn rl n (d : nat) :
  critnib_inv c t dn dl Ln Ll M rn rl → (d < 16)%nat →
  pending_del_nodes c !! d = Some NULL → spare_node c t dn Ln n →
  is_Some (node_link (nodes c) n) →
  critnib_inv (set_pending (<[d := n]> (pending_del_nodes c)) (pending_del_leaves c) c)
    t dn dl Ln Ll M rn rl.
Proof.
  intros [Hr Hf Hs Hpn Hpl Hw Hmn Hml Hne Hrc] Hd Hp (Hg & HL & Hu & Hpo) Hlk.
  split; cbn; try done. by apply pool_retire.
Qed.

Lemma retire_leaf c t dn dl Ln Ll M rn rl k (d : nat) :
  critnib_inv c t dn dl Ln Ll M rn rl → (d < 16)%nat →
  pending_del_leaves c !! d = Some NULL → spare_leaf c t dl Ll k →
  is_Some (leaf_link (leaves c) k) →
  critnib_inv (set_pending (pending_del_nodes c) (<[d := k]> (pending_del_leaves c)) c)
    t dn dl Ln Ll M rn rl.
Proof.
  intros [Hr Hf Hs Hpn Hpl Hw Hmn Hml Hne Hrc] Hd Hp (Hg & HL & Hu & Hpo) Hlk.
  split; cbn; try done. by apply pool_retire.
Qed.

Lemma free_node_pending n pn pl c :
  free_node n (set_pending pn pl c) =
  let! c' := free_node n c in Ret (set_pending pn pl c').
Proof.
  unfold free_node, set_child. destruct (n =? NULL); [done|]. cbn.
  by destruct (nodes c !! n).
Qed.

Lemma free_leaf_pending k pn pl c :
  free_leaf k (set_pending pn pl c) =
  let! c' := free_leaf k c in Ret (set_pending pn pl c').
Proof.
  unfold free_leaf. destruct (k =? NULL); [done|]. cbn. by destruct (leaves c !! k).
Qed.

(** The start of [critnib_remove]: what sat in slot [d] for a whole round of the
    arrays goes to the free lists. *)
Definition drain c (d : nat) : outcome (critnib W) :=
  let! pn := deref (pending_del_nodes c !! d) in
  let! c := free_node pn c in
  let! pl := deref (pending_del_leaves c !! d) in
  let! c := free_leaf pl c in
  Ret (set_pending (<[d := NULL]> (pending_del_nodes c))
                   (<[d := NULL]> (pending_del_leaves c)) c).

Lemma inv_clear c t dn dl Ln Ll M rn rl (d : nat) :
  critnib_inv c t dn dl Ln Ll M rn rl →
  critnib_inv (set_pending (<[d := NULL]> (pending_del_nodes c))
                 (<[d := NULL]> (pending_del_leaves c)) c) t dn dl Ln Ll M rn rl.
Proof.
  intros [Hr Hf Hs Hpn Hpl Hw Hmn Hml Hne Hrc]. split; cbn; try done; by apply pool_clear.
Qed.

Lemma free_keeps_pending n c c' :
  free_node n c = Ret c' ∨ free_leaf n c = Ret c' →
  pending_del_nodes c' = pending_del_nodes c ∧ pending_del_leaves c' = pending_del_leaves c.
Proof.
  unfold free_node, free_leaf, set_child. destruct (n =? NULL).
  - intros [Heq|Heq]; by injection Heq as <-.
  - destruct (nodes c !! n), (leaves c !! n); cbn; intros [Heq|Heq]; simplify_eq; done.
Qed.

Lemma drain_eq c (d : nat) pn pl c1 c2 :
  pending_del_nodes c !! d = Some pn → pending_del_leaves c !! d = Some pl →
  let c0 := set_pending (<[d := NULL]> (pending_del_nodes c))
                        (<[d := NULL]> (pending_del_leaves c)) c in
  free_node pn c0 = Ret c1 → free_leaf pl c1 = Ret c2 → drain c d = Ret c2.
Proof.
  intros Hpn Hpl c0 H1 H2. unfold drain. rewrite Hpn. cbn.
  unfold c0 in H1. rewrite free_node_pending in H1.
  destruct (free_node pn c) as [c1'|] eqn:E1; [|done]. cbn in H1 |- *. injection H1 as <-.
  destruct (free_keeps_pending pn c c1') as [HE1 HE2]; [by left|]. rewrite HE2, Hpl. cbn.
  rewrite free_leaf_pending in H2.
  destruct (free_leaf pl c1') as [c2'|] eqn:E2; [|done]. cbn in H2 |- *. injection H2 as <-.
  destruct (free_keeps_pending pl c1' c2') as [HE3 HE4]; [by right|]. congruence.
Qed.

Lemma drain_ok c t dn dl Ln Ll M rn rl (d : nat) :
  critnib_inv c t dn dl Ln Ll M rn rl → (d < 16)%nat →
  ∃ c' dn' dl', drain c d = Ret c' ∧ critnib_inv c' t dn' dl' Ln Ll M rn rl ∧
    pending_del_nodes c' !! d = Some NULL ∧ pending_del_leaves c' !! d = Some NULL ∧
    root c' = root c ∧ remove_count c' = remove_count c.
Proof.
  intros Hinv Hd. pose proof Hinv as [_ _ _ Hpn Hpl _ _ _ _ _].
  pose proof (pool_len _ _ _ _ _ _ Hpn) as Hn16. pose proof (pool_len _ _ _ _ _ _ Hpl) as Hl16.
  destruct (lookup_lt_is_Some_2 (pending_del_nodes c) d) as [pn Ep]; [lia|].
  destruct (lookup_lt_is_Some_2 (pending_del_leaves c) d) as [pl El]; [lia|].
  pose proof (inv_clear _ _ _ _ _ _ _ _ _ d Hinv) as Hinv0. set (c0 := set_pending _ _ c) in *.
  assert (pending_del_nodes c0 !! d = Some NULL) as Hc0n by (apply list_lookup_insert_eq; lia).
  assert (pending_del_leaves c0 !! d = Some NULL) as Hc0l by (apply list_lookup_insert_eq; lia).
  assert (∃ c1 dn1, free_node pn c0 = Ret c1 ∧ critnib_inv c1 t dn1 dl Ln Ll M rn rl ∧
    root c1 = root c ∧ leaves c1 = leaves c ∧ remove_count c1 = remove_count c ∧
    pending_del_nodes c1 = pending_del_nodes c0 ∧ pending_del_leaves c1 = pending_del_leaves c0)
    as (c1 & dn1 & Hf1 & Hinv1 & Hr1 & Hlv1 & Hrc1 & Hp1 & Hp2).
  { destruct (decide (pn = NULL)) as [->|Hne]; [by exists c0, dn|].
    destruct (pool_free _ _ _ _ _ _ Hpn pn) as (Hu & HL & Hg & Hlk); [right; eauto|].
    destruct (free_node_ok c0 t dn dl Ln Ll M rn rl pn Hinv0) as (c1 & ? & ? & ? & ? & ? & ? & ? & ?).
    - split_and!; try done. by eapply pool_pending_free.
    - done.
    - exists c1, (pn :: dn). by split_and!. }
  assert (∃ c2 dl2, free_leaf pl c1 = Ret c2 ∧ critnib_inv c2 t dn1 dl2 Ln Ll M rn rl ∧
    root c2 = root c ∧ remove_count c2 = remove_count c ∧
    pending_del_nodes c2 = pending_del_nodes c0 ∧ pending_del_leaves c2 = pending_del_leaves c0)
    as (c2 & dl2 & Hf2 & Hinv2 & Hr2 & Hrc2 & Hp3 & Hp4).
  { destruct (decide (pl = NULL)) as [->|Hne]; [by exists c1, dl|].
    destruct (pool_free _ _ _ _ _ _ Hpl pl) as (Hu & HL & Hg & lv & Hlk); [right; eauto|].
    unfold leaf_link in Hlk. destruct (leaves c !! pl) as [lf|] eqn:Elf; [|done].
    destruct (free_leaf_ok c1 t dn1 dl Ln Ll M rn rl pl lf Hinv1) as (c2 & ? & ? & ? & ? & ? & ? & ? & ?).
    - split_and!; try done. rewrite Hp2. by eapply pool_pending_free.
    - by rewrite Hlv1.
    - exists c2, (pl :: dl). split_and!; congruence || done. }
  exists c2, dn1, dl2. rewrite Hp3, Hp4. split_and!; try done. by eapply drain_eq.
Qed.

(** ** Unlinking a leaf

    [b] is the leaf of [key] below the node [a] that ends the descent. *)
Section unlink.
Context (c : critnib W) (t : ctree) (dn dl : list Z) (Ln Ll : gset Z)
  (M : gmap Z (gset Z * nat)) (rn rl : nat) (key a pth s b v : Z)
  (cs : nat → ctree) (ch : list Z).
Let cont := cont_rm key.
Let i := slice key s.
Let F := TNode a pth s cs.
Hypothesis Hinv : critnib_inv c t dn dl Ln Ll M rn rl.
Hypothesis HF : focus cont key t = F.
Hypothesis Hb : cs i = TLeaf b key v.
Hypothesis Ha : nodes c !! a = Some (CNode ch pth s).
Hypothesis Hlen : length ch = 16%nat.
Hypothesis Hc : ∀ j, (j < 16)%nat → ∃ q, ch !! j = Some q ∧ rep (nodes c) (leaves c) q (cs j).

Let nd' := CNode (<[i := NULL]> ch) pth s.
Let c1 := set_nodes (<[a := nd']> (nodes c)) c.
Let X1 := TNode a pth s (upd cs i TNil).

Lemma unl_i : (i < 16)%nat.
Proof. apply slice_lt. Qed.

Lemma unl_wf : wf F ∧ sep F.
Proof.
  rewrite <- HF. split; [apply wf_focus, Hinv|apply sep_focus, (ci_sep _ _ _ _ _ _ _ _ _ Hinv)].
Qed.

Lemma unl_key : keyin F key.
Proof. exists i. split; [apply unl_i|]. by rewrite Hb. Qed.

Lemma unl_u64 : is_u64 key.
Proof. eapply wf_keyin_u64; [apply unl_wf|apply unl_key]. Qed.

Lemma unl_along : along cont key t.
Proof.
  apply along_key; [apply Hinv|]. apply (keyin_focus cont). rewrite HF. apply unl_key.
Qed.

Lemma unl_naddr y : naddr F y → naddr t y.
Proof. rewrite <- HF. apply naddr_focus. Qed.
Lemma unl_laddr y : laddr F y → laddr t y.
Proof. rewrite <- HF. apply laddr_focus. Qed.

Lemma unl_outer y :
  (outer_n cont key t y → ¬ naddr F y) ∧ (outer_l cont key t y → ¬ laddr F y).
Proof. rewrite <- HF. apply outer_focus, Hinv. Qed.

Lemma unl_b_laddr : laddr F b.
Proof. exists i. split; [apply unl_i|]. by rewrite Hb. Qed.

Lemma unl_other_b j : (j < 16)%nat → j ≠ i → ¬ laddr (cs j) b.
Proof.
  intros Hj Hne Hl. destruct unl_wf as [_ [_ Hap]].
  apply (proj2 (Hap j i b Hj unl_i Hne)) in Hl. apply Hl. by rewrite Hb.
Qed.

(** A new focus made of other subtrees of [F] frees the leaf [b]. *)
Lemma unl_spare_leaf X :
  (∀ y, laddr X y → laddr F y ∧ y ≠ b) → spare_leaf c (repl cont key t X) dl Ll b.
Proof.
  intros HX. destruct (inv_laddr _ _ _ _ _ _ _ _ _ b Hinv (unl_laddr _ unl_b_laddr)) as [HL Hp].
  destruct (Hc i unl_i) as (q & _ & Hq). rewrite Hb in Hq. destruct Hq as (Hg & _).
  split_and!; try done. intros [Ho|Hx]%laddr_repl_outer.
  - apply (unl_outer b) in Ho. by apply Ho, unl_b_laddr.
  - by apply HX in Hx as [_ ?].
Qed.

Lemma unl_sep_apart X :
  (∀ y, naddr X y → naddr F y) → (∀ y, laddr X y → laddr F y) →
  (∀ y, naddr X y → (¬ outer_n cont key t y) ∧ y ∈ Ln ∧ ¬ pooled dn (pending_del_nodes c) y) ∧
  (∀ y, laddr X y → (¬ outer_l cont key t y) ∧ y ∈ Ll ∧ ¬ pooled dl (pending_del_leaves c) y).
Proof.
  intros Hn Hl. split; intros y Hy; (split; [intros Ho; apply (unl_outer y) in Ho; auto|]).
  - eapply inv_naddr; [done|]. by apply unl_naddr, Hn.
  - eapply inv_laddr; [done|]. by apply unl_laddr, Hl.
Qed.

(** The child slot is cleared; two children remain. *)
Lemma X1_naddr y : naddr X1 y → naddr F y.
Proof.
  cbn. unfold upd. intros [->|(j & Hj & Hy)]; [by left|]. case_decide; [done|]. right. eauto.
Qed.
Lemma X1_laddr y : laddr X1 y → laddr F y ∧ y ≠ b.
Proof.
  cbn. unfold upd. intros (j & Hj & Hy). case_decide as Hd; [done|]. split; [eauto|].
  intros ->. by apply (unl_other_b j).
Qed.

Lemma X1_sep : sep X1.
Proof.
  destruct unl_wf as [_ [Hs Hap]]. cbn. unfold upd. split.
  - intros j Hj. case_decide; [split; [done|by intros []]|by apply Hs].
  - intros j j' y Hj Hj' Hne. repeat case_decide; try by apply Hap.
    all: split; cbn; tauto.
Qed.

Lemma X1_fits s' P j j' :
  fits s' P F → j ≠ j' → (j < 16)%nat → (j' < 16)%nat → j ≠ i → j' ≠ i →
  cs j ≠ TNil → cs j' ≠ TNil → fits s' P X1.
Proof.
  intros [Hwf Hbe Hk] Hne Hj Hj' Hji Hj'i Hn Hn'. split; [|done|].
  - destruct Hwf as (Hs & Hp & Hpp & Hcs & _). cbn. unfold upd. split_and!; try done.
    + intros x Hx. case_decide; [done|by apply Hcs].
    + exists j, j'. by rewrite !decide_False by done.
  - intros k' (x & Hx & Hk'). unfold upd in Hk'. case_decide; [done|]. apply Hk. by exists x.
Qed.

Lemma X1_rep : rep (nodes c1) (leaves c1) a X1.
Proof.
  destruct unl_wf as [_ [Hs _]]. pose proof (ci_rep _ _ _ _ _ _ _ _ _ Hinv) as Hr.
  assert (good_ptr a) as Hg.
  { clear -Hr HF. revert Hr. generalize (root c). fold F in HF. revert HF.
    induction t as [|a0 k0 v0|a0 p0 s0 cs0 IH]; cbn [focus]; [done|done|].
    destruct (cont _) eqn:E; intros HF p Hr.
    - destruct Hr as (_ & _ & ch0 & _ & _ & Hc). destruct (Hc _ (slice_lt key s0)) as (q & _ & Hq).
      by eapply IH.
    - injection HF as -> -> -> ->. by destruct Hr. }
  split; [done|]. split; [done|]. exists (<[i := NULL]> ch). cbn.
  rewrite lookup_insert_eq. split; [done|]. split; [by rewrite length_insert|].
  intros j Hj. unfold upd. case_decide as Hd.
  - subst j. exists NULL. by rewrite list_lookup_insert_eq by lia.
  - rewrite list_lookup_insert_ne by done. destruct (Hc j Hj) as (q & Hq & Hrq). exists q.
    split; [done|]. eapply rep_frame; [done| |done]. intros y Hy. apply lookup_insert_ne.
    intros <-. by apply (Hs j Hj).
Qed.

Lemma unlink_keep j j' :
  j ≠ j' → (j < 16)%nat → (j' < 16)%nat → j ≠ i → j' ≠ i → cs j ≠ TNil → cs j' ≠ TNil →
  critnib_inv c1 (repl cont key t X1) dn dl Ln Ll M rn rl ∧
  spare_leaf c1 (repl cont key t X1) dl Ll b.
Proof.
  intros Hne Hj Hj' Hji Hj'i Hn Hn'.
  destruct (unl_sep_apart X1 X1_naddr (λ y Hy, proj1 (X1_laddr y Hy))) as [HnX HlX].
  split; [|apply unl_spare_leaf, X1_laddr].
  pose proof Hinv as [Hr Hf Hsep _ _ _ _ _ _ _].
  assert (naddr t a) as Hat by (apply unl_naddr; by left).
  eapply (inv_change c); eauto; [done|..].
  - apply (rep_inplace cont key (nodes c) (leaves c) _ _ _ _ _ a); try done.
    + intros y Hy. apply lookup_insert_ne. intros <-. apply (unl_outer a) in Hy. apply Hy. by left.
    + rewrite HF. destruct X1_rep as (Hg & _). split_and!; [done|done|]. by exists ch.
    + apply X1_rep.
    + by intros y [? _]%HnX.
  - eapply fits_repl; eauto using level_root, unl_along, unl_u64.
    intros s' P HP HfF HPk. rewrite HF in HfF. by apply (X1_fits s' P j j').
  - apply sep_repl; try done; [apply X1_sep|by intros y [? _]%HnX|by intros y [? _]%HlX].
  - intros y Hy. apply lookup_insert_ne. intros <-.
    by destruct (inv_naddr _ _ _ _ _ _ _ _ _ _ Hinv Hat).
  - intros y [Hy%outer_n_naddr|Hy]%naddr_repl_outer; [by eapply inv_naddr|by apply HnX].
  - intros y [Hy%outer_l_laddr|Hy]%laddr_repl_outer; [by eapply inv_laddr|by apply HlX].
Qed.

(** One child [j] remains: it takes the place of the node. *)
Lemma child_fits s' P j :
  level s' P → fits s' P F → (j < 16)%nat → fits s' P (cs j).
Proof.
  intros HP [Hwf Hbe Hk] Hj. pose proof Hwf as (Hs & _ & _ & Hcs & _).
  destruct (Hcs j Hj) as (Hwj & Hbj & _). split; [done| |].
  - destruct (cs j); cbn in *; try done. lia.
  - intros k' Hk'. apply Hk. by exists j.
Qed.

Lemma unlink_collapse j o :
  (j < 16)%nat → j ≠ i → cs j ≠ TNil → ch !! j = Some o →
  ∃ c2, store (slot_of cont key t SRoot) o c1 = Ret c2 ∧
    critnib_inv c2 (repl cont key t (cs j)) dn dl Ln Ll M rn rl ∧
    spare_leaf c2 (repl cont key t (cs j)) dl Ll b ∧
    spare_node c2 (repl cont key t (cs j)) dn Ln a ∧
    is_Some (node_link (nodes c2) a) ∧ leaves c2 = leaves c ∧ same_pools c c2.
Proof.
  intros Hj Hji Hn Ho. destruct unl_wf as [_ [Hs _]]. destruct (Hs j Hj) as [Hsj Haj].
  destruct (unl_sep_apart (cs j)) as [HnX HlX];
    [intros y Hy; right; by exists j|intros y Hy; by exists j|].
  destruct (Hc j Hj) as (o' & Ho' & Hro). assert (o' = o) as -> by congruence.
  destruct (inv_store cont key c t dn dl Ln Ll M rn rl o (cs j))
    as (c' & Hst & Hinv' & Hsp & Hlv & Hnd); eauto using unl_along, unl_u64.
  { intros s' P HP HfF HPk. rewrite HF in HfF. by apply child_fits. }
  destruct X1_rep as (Hg & _). assert (naddr F a) as HaF by by left.
  assert (¬ outer_n cont key t a) as Hao by (intros Hx; by apply (unl_outer a) in Hx).
  assert (spare_node c' (repl cont key t (cs j)) dn Ln a) as Hspare.
  { destruct (inv_naddr _ _ _ _ _ _ _ _ _ a Hinv (unl_naddr _ HaF)) as [HL Hp].
    split_and!; [done|done| |].
    - by intros [Hx|Hx]%naddr_repl_outer.
    - by destruct Hsp as (_ & _ & -> & _). }
  exists (set_nodes (<[a := nd']> (nodes c')) c').
  split; [|split; [by apply inv_write_node|]].
  - destruct (slot_of_outer cont key t SRoot) as [Hsl|(b' & x & Hsl & Hb')]; rewrite Hsl in *; cbn in Hst |- *.
    + by injection Hst as <-.
    + assert (b' ≠ a) by (intros ->; done). unfold set_child in *. cbn.
      rewrite lookup_insert_ne by done. destruct (nodes c !! b') as [ndb|]; [|done].
      cbn in Hst |- *. injection Hst as <-. cbn. f_equal. unfold c1, set_nodes. cbn. f_equal.
      by rewrite insert_insert_ne.
  - split_and!; try done.
    + assert (spare_leaf c (repl cont key t (cs j)) dl Ll b) as Hsl.
      { apply unl_spare_leaf. intros y Hy. split; [by exists j|]. intros ->. by apply (unl_other_b j). }
      unfold spare_leaf in *. cbn. by destruct Hsp as (_ & _ & _ & -> & _).
    + unfold node_link. cbn. rewrite lookup_insert_eq. cbn. apply lookup_lt_is_Some.
      rewrite length_insert. lia.
Qed.

(** ** Lookup after the unlinking *)
Lemma tlookup_X1 k' :
  tlookup X1 k' = if k' =? key then None else tlookup F k'.
Proof.
  cbn. unfold upd. destruct (k' =? key) eqn:E; zb.
  - subst k'. by rewrite decide_True.
  - case_decide as Hd; [|done]. rewrite Hd, Hb. cbn. destruct (key =? k') eqn:E'; zb; [congruence|done].
Qed.

Lemma tlookup_only j k' :
  (j < 16)%nat → j ≠ i → (∀ x, (x < 16)%nat → x ≠ i → x ≠ j → cs x = TNil) →
  tlookup (cs j) k' = if k' =? key then None else tlookup F k'.
Proof.
  intros Hj Hji Hno. destruct unl_wf as [(_ & _ & _ & Hcs & _) _].
  assert (slice k' s ≠ j → tlookup (cs j) k' = None) as Hoff.
  { intros Hne. destruct (tlookup (cs j) k') eqn:El; [|done]. apply tlookup_keyin in El.
    by apply (Hcs j Hj) in El as [_ ?]. }
  cbn. destruct (k' =? key) eqn:E; zb; [subst k'; by apply Hoff|].
  destruct (decide (slice k' s = j)) as [->|Hne]; [done|]. rewrite Hoff by done.
  destruct (decide (slice k' s = i)) as [->|Hne'].
  - rewrite Hb. cbn. destruct (key =? k') eqn:E'; zb; [congruence|done].
  - by rewrite Hno by (done || apply slice_lt).
Qed.

End unlink.

Lemma tlookup_delete_repl cont key t X (m : gmap Z Z) :
  (∀ k, tlookup t k = m !! k) →
  (∀ k', tlookup X k' = if k' =? key then None else tlookup (focus cont key t) k') →
  ∀ k, tlookup (repl cont key t X) k = delete key m !! k.
Proof.
  intros Hm HX k. rewrite tlookup_repl.
  - rewrite HX, Z.eqb_refl. destruct (k =? key) eqn:E; zb; subst.
    + by rewrite lookup_delete_eq.
    + by rewrite lookup_delete_ne.
  - intros k' Hk'. rewrite HX. by destruct (k' =? key) eqn:E; zb.
Qed.

(** ** [critnib_remove] *)

(** What follows the descent once the leaf [k] of the key is found. *)
Definition unlink c (key_ del : Z) (n_parent : slot) (n k : Z) : outcome (Z * critnib W) :=
  let! nd := deref (nodes c !! n) in
  let! c := set_child n (slice_index key_ (shift nd)) NULL c in
  let! nd := deref (nodes c !! n) in
  match only_child (child nd) 0 (-1) with
  | None => del_leaf del k c
  | Some ochild =>
      let! o := (if ochild =? -1 then Stop BadDeref else get_child c n ochild) in
      let! c := store n_parent o c in
      let c := set_pending (<[Z.to_nat del := n]> (pending_del_nodes c))
                           (pending_del_leaves c) c in
      del_leaf del k c
  end.

(** The part after the grace arrays are drained. *)
Definition remove_rest c (key_ del n : Z) : outcome (Z * critnib W) :=
  if is_leaf n then
    let k := to_leaf n in
    let! lf := deref (leaves c !! k) in
    if key lf =? key_ then del_leaf del k (set_root NULL c) else Ret (NULL, c)
  else
  let! r := remove_descend PATH_FUEL c key_ SRoot SRoot n n in
  match r with
  | None => Ret (NULL, c)
  | Some (n_parent, n, kn) =>
      let k := to_leaf kn in
      let! lf := deref (leaves c !! k) in
      if negb (key lf =? key_) then Ret (NULL, c) else unlink c key_ del n_parent n k
  end.

Lemma critnib_remove_eq c key_ :
  critnib_remove c key_ =
  if root c =? NULL then Ret (NULL, c) else
  let del := remove_count c mod DELETED_LIFE in
  let! c' := drain (set_remove_count (u64 (remove_count c + 1)) c) (Z.to_nat del) in
  remove_rest c' key_ del (root c).
Proof.
  unfold critnib_remove, drain. destruct (root c =? NULL); [done|].
  set (c1 := set_remove_count _ c). destruct (pending_del_nodes c1 !! _) as [pn|]; [|done]. cbn [deref obind].
  destruct (free_node pn c1) as [c2|]; [|done]. cbn [obind].
  destruct (pending_del_leaves c2 !! _) as [pl|]; [|done]. cbn [deref obind].
  by destruct (free_leaf pl c2).
Qed.

(** The result of a removal against the map. *)
Definition remove_post (c' : critnib W) (m : gmap Z Z) (rn rl : nat) (key_ r : Z) : Prop :=
  r = default NULL (m !! key_) ∧ critnib_rep c' (delete key_ m) rn rl.

Lemma del_leaf_ok c t dn dl Ln Ll M rn rl m rn' rl' k lf del key_ :
  critnib_inv c t dn dl Ln Ll M rn' rl' → (rn <= rn')%nat → (rl <= rl')%nat →
  0 <= del < 16 → pending_del_leaves c !! Z.to_nat del = Some NULL →
  spare_leaf c t dl Ll k → leaves c !! k = Some lf →
  (∀ x, tlookup t x = delete key_ m !! x) → m !! key_ = Some (value lf) →
  ∃ r c', del_leaf del k c = Ret (r, c') ∧ remove_post c' m rn rl key_ r ∧
    remove_count c' = remove_count c.
Proof.
  intros Hinv Hrn Hrl Hd Hp Hsp Hlf Hm Hmk. unfold del_leaf. rewrite Hlf. cbn.
  eexists _, _. split; [done|]. split; [|done]. split; [by rewrite Hmk|].
  eapply critnib_rep_intro; [|exact Hrn|exact Hrl|exact Hm].
  apply retire_leaf; [done|lia|done|done|]. unfold leaf_link. by rewrite Hlf.
Qed.

Lemma remove_absent c t dn dl Ln Ll M rn rl m rn' rl' key_ :
  critnib_inv c t dn dl Ln Ll M rn' rl' → (rn <= rn')%nat → (rl <= rl')%nat →
  (∀ x, tlookup t x = m !! x) → tlookup t key_ = None →
  ∃ r c', @Ret (Z * critnib W) (NULL, c) = Ret (r, c') ∧ remove_post c' m rn rl key_ r ∧
    remove_count c' = remove_count c.
Proof.
  intros Hinv Hrn Hrl Hm Hno. rewrite Hm in Hno. exists NULL, c. split; [done|]. split; [|done].
  split; [by rewrite Hno|]. eapply critnib_rep_intro; [done..|]. intros x.
  by rewrite Hm, delete_id.
Qed.

(** The [for] loop over the children, with slot [i] already cleared. *)
Lemma only_child_tree c a pth s cs ch (i : nat) :
  wf (TNode a pth s cs) → length ch = 16%nat → (i < 16)%nat →
  (∀ j, (j < 16)%nat → ∃ q, ch !! j = Some q ∧ rep (nodes c) (leaves c) q (cs j)) →
  let ch' := <[i := NULL]> ch in
  (∃ j o, only_child ch' 0 (-1) = Some (Z.of_nat j) ∧ ch' !! j = Some o ∧ ch !! j = Some o ∧
     (j < 16)%nat ∧ j ≠ i ∧ cs j ≠ TNil ∧
     ∀ x, (x < 16)%nat → x ≠ i → x ≠ j → cs x = TNil) ∨
  (only_child ch' 0 (-1) = None ∧
   ∃ j j', j ≠ j' ∧ (j < 16)%nat ∧ (j' < 16)%nat ∧ j ≠ i ∧ j' ≠ i ∧ cs j ≠ TNil ∧ cs j' ≠ TNil).
Proof.
  intros Hwf Hlen Hi Hc ch'.
  assert (∀ j x, ch' !! j = Some x → x ≠ NULL →
            (j < 16)%nat ∧ j ≠ i ∧ ch !! j = Some x ∧ cs j ≠ TNil) as Hnn.
  { intros j x Hjx Hx. pose proof (lookup_lt_Some _ _ _ Hjx) as Hj. unfold ch' in *.
    rewrite length_insert in Hj. destruct (decide (j = i)) as [->|Hne];
      [by rewrite list_lookup_insert_eq in Hjx by done; injection Hjx as <-|].
    rewrite list_lookup_insert_ne in Hjx by done. split_and!; [lia|done|done|].
    intros Hz. destruct (Hc j ltac:(lia)) as (q & Hq & Hr). rewrite Hz in Hr. cbn in Hr. congruence. }
  assert (∀ j, (j < 16)%nat → j ≠ i → cs j ≠ TNil → ∃ x, ch' !! j = Some x ∧ x ≠ NULL) as Hsome.
  { intros j Hj Hne Hnj. destruct (Hc j Hj) as (q & Hq & Hr). exists q. unfold ch'.
    rewrite list_lookup_insert_ne by done. split; [done|]. by eapply rep_not_nil. }
  destruct (only_child_ok ch' 0 ltac:(lia)) as
    [Hnone|[(j & o & Hj & Ho & -> & Huniq)|(-> & j & j' & x & x' & Hne & Hj & Hj' & Hx & Hx')]].
  - exfalso. destruct Hwf as (_ & _ & _ & _ & j1 & j2 & Hne & Hj1 & Hj2 & Hn1 & Hn2).
    destruct (decide (j1 = i)) as [->|Hne1].
    + destruct (Hsome j2) as (x & Hx & Hx0); [done|congruence|done|]. by apply Hx0, (Hnone j2).
    + destruct (Hsome j1) as (x & Hx & Hx0); [done..|]. by apply Hx0, (Hnone j1).
  - left. destruct (Hnn j o Hj Ho) as (Hj16 & Hji & Hjo & Hnj). exists j, o. split_and!; try done.
    intros y Hy Hyi Hyj. destruct (cs y) eqn:Ey; [done|..]; exfalso;
      (destruct (Hsome y) as (x & Hx & Hx0); [done|done|by rewrite Ey|]); by apply Hyj, (Huniq _ x).
  - right. split; [done|]. exists j, j'.
    destruct (Hnn j x Hj Hx) as (? & ? & _ & ?), (Hnn j' x' Hj' Hx') as (? & ? & _ & ?). done.
Qed.

Lemma unlink_ok c t dn dl Ln Ll M rn rl m rn' rl' key_ del a pth s cs b v :
  critnib_inv c t dn dl Ln Ll M rn' rl' → (rn <= rn')%nat → (rl <= rl')%nat →
  0 <= del < 16 → pending_del_nodes c !! Z.to_nat del = Some NULL →
  pending_del_leaves c !! Z.to_nat del = Some NULL →
  (∀ x, tlookup t x = m !! x) →
  focus (cont_rm key_) key_ t = TNode a pth s cs → cs (slice key_ s) = TLeaf b key_ v →
  rep (nodes c) (leaves c) a (TNode a pth s cs) →
  ∃ r c', unlink c key_ del (slot_of (cont_rm key_) key_ t SRoot) a b = Ret (r, c') ∧
    remove_post c' m rn rl key_ r ∧ remove_count c' = remove_count c.
Proof.
  intros Hinv Hrn Hrl Hd Hpn Hpl Hm HF Hb (Hg & _ & ch & Ha & Hlen & Hc).
  assert (m !! key_ = Some v) as Hmk.
  { rewrite <- Hm, (tlookup_focus (cont_rm key_)), HF. cbn. rewrite Hb. cbn. by rewrite Z.eqb_refl. }
  assert (leaves c !! b = Some (CLeaf key_ v)) as Hlb.
  { destruct (Hc _ (slice_lt key_ s)) as (q & _ & Hq). rewrite Hb in Hq. by destruct Hq as (_ & _ & ?). }
  assert (wf (TNode a pth s cs)) as Hwf by (rewrite <- HF; apply wf_focus, Hinv).
  assert (0 <= s) as Hs by apply Hwf.
  unfold unlink. rewrite Ha. cbn [deref obind shift]. rewrite slice_index_nat by done.
  unfold set_child at 1. rewrite Ha. cbn [deref obind path shift child]. rewrite Nat2Z.id.
  set (i := slice key_ s) in *. set (c1 := set_nodes _ c).
  assert (nodes c1 !! a = Some (CNode (<[i := NULL]> ch) pth s)) as -> by apply lookup_insert_eq.
  cbn [deref obind child].
  destruct (only_child_tree c a pth s cs ch i Hwf Hlen (slice_lt _ _) Hc) as
    [(j & o & -> & Hj & Hjo & Hj16 & Hji & Hnj & Hrest)|(-> & j & j' & Hne & Hj & Hj' & Hji & Hji' & Hn & Hn')].
  - destruct (Z.of_nat j =? -1) eqn:E; zb; [lia|]. unfold get_child.
    assert (nodes c1 !! a = Some (CNode (<[i := NULL]> ch) pth s)) as -> by apply lookup_insert_eq.
    cbn [deref obind child]. rewrite Nat2Z.id, Hj. cbn [deref obind].
    destruct (unlink_collapse c t dn dl Ln Ll M rn' rl' key_ a pth s b v cs ch Hinv HF Hb Hlen Hc j o)
      as (c2 & Hst & Hinv2 & Hsl & Hsn & Hlk & Hlv & Hsp); try done.
    fold i c1 in Hst. rewrite Hst. cbn [obind]. destruct Hsp as (_ & _ & Epn & Epl & Erc & _).
    assert (pending_del_nodes c2 !! Z.to_nat del = Some NULL) as Hpn2 by by rewrite Epn.
    pose proof (retire_node c2 _ _ _ _ _ _ _ _ a (Z.to_nat del) Hinv2 ltac:(lia) Hpn2 Hsn Hlk) as Hinv3.
    rewrite <- Erc. eapply (del_leaf_ok _ _ _ _ _ _ _ rn rl m _ _ b (CLeaf key_ v) del key_ Hinv3);
      try done; cbn; rewrite ?Epl, ?Hlv; try done.
    apply tlookup_delete_repl; [done|]. intros k'. rewrite HF.
    by apply (tlookup_only c t dn dl Ln Ll M rn' rl' key_ a pth s b v cs Hinv HF Hb).
  - destruct (unlink_keep c t dn dl Ln Ll M rn' rl' key_ a pth s b v cs ch Hinv HF Hb Ha Hlen Hc j j')
      as [Hinv2 Hsl]; try done.
    eapply (del_leaf_ok c1 _ _ _ _ _ _ rn rl m _ _ b (CLeaf key_ v) del key_ Hinv2); try done.
    apply tlookup_delete_repl; [done|]. intros k'. rewrite HF.
    by apply (tlookup_X1 key_ a pth s b v cs Hb).
Qed.

Lemma remove_rest_ok c t dn dl Ln Ll M rn rl m rn' rl' key_ del :
  critnib_inv c t dn dl Ln Ll M rn' rl' → (rn <= rn')%nat → (rl <= rl')%nat →
  0 <= del < 16 → pending_del_nodes c !! Z.to_nat del = Some NULL →
  pending_del_leaves c !! Z.to_nat del = Some NULL →
  (∀ x, tlookup t x = m !! x) → t ≠ TNil →
  ∃ r c', remove_rest c key_ del (root c) = Ret (r, c') ∧
    remove_post c' m rn rl key_ r ∧ remove_count c' = remove_count c.
Proof.
  intros Hinv Hrn Hrl Hd Hpn Hpl Hm Hn. pose proof Hinv as [Hr [Hwf Hbe _] _ _ _ _ _ _ _ _].
  unfold remove_rest. destruct t as [|a k0 v|a0 p0 s0 cs0]; [done|..].
  - pose proof Hr as (Hg & Er & Hl). rewrite Er, is_leaf_tag, to_leaf_tag, Hl by done. cbn [deref obind key].
    destruct (k0 =? key_) eqn:E; zb.
    + subst k0. destruct (inv_laddr _ _ _ _ _ _ _ _ _ a Hinv eq_refl) as [HL Hp].
      eapply (del_leaf_ok (set_root NULL c) TNil dn dl Ln Ll M rn rl m _ _ a (CLeaf key_ v) del key_);
        try done.
      * by eapply (inv_change c).
      * unfold spare_leaf; cbn; split_and!; [done|done|tauto|done].
      * intros x. cbn. destruct (decide (x = key_)) as [->|Hne]; [by rewrite lookup_delete_eq|].
        rewrite lookup_delete_ne, <- Hm by done. cbn. destruct (key_ =? x) eqn:E; zb; [congruence|done].
      * rewrite <- Hm. cbn. by rewrite Z.eqb_refl.
    + eapply remove_absent; try done. cbn. destruct (k0 =? key_) eqn:E'; zb; [congruence|done].
  - rewrite (rep_is_leaf _ _ _ _ _ _ _ Hr).
    destruct (remove_descend_ok c key_ (TNode a0 p0 s0 cs0) 16 PATH_FUEL SRoot SRoot (root c) (root c))
      as (a & pth & s & cs & HF & HrF & Hcase); [done|done|unfold PATH_FUEL; lia|done|eauto|].
    destruct Hcase as [[Hnil ->]|(b & k' & v & Hb & ->)]; cbn [obind].
    + eapply remove_absent; try done. rewrite (tlookup_focus (cont_rm key_)), HF. cbn. by rewrite Hnil.
    + pose proof HrF as (_ & _ & ch & _ & _ & Hc). destruct (Hc _ (slice_lt key_ s)) as (q & _ & Hq).
      rewrite Hb in Hq. destruct Hq as (Hgb & _ & Hlb).
      rewrite to_leaf_tag, Hlb by done. cbn [deref obind key].
      destruct (k' =? key_) eqn:E; zb; cbn [negb].
      * subst k'. by eapply unlink_ok.
      * eapply remove_absent; try done. rewrite (tlookup_focus (cont_rm key_)), HF. cbn. rewrite Hb. cbn.
        destruct (k' =? key_) eqn:E'; zb; [congruence|done].
Qed.

Lemma critnib_remove_ok c m rn rl key_ :
  critnib_rep c m rn rl →
  ∃ r c', critnib_remove c key_ = Ret (r, c') ∧ remove_post c' m rn rl key_ r ∧
    (remove_count c' = remove_count c ∨ remove_count c' = u64 (remove_count c + 1)).
Proof.
  intros (t & dn & dl & Ln & Ll & M & rn' & rl' & Hinv & Hrn & Hrl & Hm).
  rewrite critnib_remove_eq. destruct (root c =? NULL) eqn:E; zb.
  - pose proof (rep_null _ _ _ _ (ci_rep _ _ _ _ _ _ _ _ _ Hinv) E) as ->.
    destruct (remove_absent c TNil dn dl Ln Ll M rn rl m rn' rl' key_)
      as (r & c' & ? & ? & ?); try done. eauto 10.
  - assert (0 <= remove_count c mod DELETED_LIFE < 16) as Hd by (by apply Z.mod_pos_bound).
    cbv zeta. set (c1 := set_remove_count _ c). set (d := remove_count c mod DELETED_LIFE) in *.
    assert (critnib_inv c1 t dn dl Ln Ll M rn' rl') as Hinv1.
    { destruct Hinv as [Hr Hf Hs Hpn Hpl Hw Hmn Hml Hne Hrc]. split; cbn; try done. apply u64_range. }
    destruct (drain_ok c1 t dn dl Ln Ll M rn' rl' (Z.to_nat d) Hinv1 ltac:(lia))
      as (c2 & dn2 & dl2 & -> & Hinv2 & Hp1 & Hp2 & Hroot & Hrc). cbn [obind].
    change (root c) with (root c1). rewrite <- Hroot.
    destruct (remove_rest_ok c2 t dn2 dl2 Ln Ll M rn rl m rn' rl' key_ d) as (r & c' & Hrun & Hpost & Hrc');
      try done.
    { intros ->. apply E. apply (ci_rep _ _ _ _ _ _ _ _ _ Hinv). }
    exists r, c'. split; [done|]. split; [done|]. right. by rewrite Hrc', Hrc.
Qed.

(** [critnib_remove] returns the value of the key ([NULL] when it is not
    bound) and leaves exactly the map without the key; allocation room is never
    lost to removals. *)
Theorem critnib_remove_correct c m rn rl key_ :
  critnib_rep c m rn rl →
  ∃ c', critnib_remove c key_ = Ret (default NULL (m !! key_), c') ∧
    critnib_rep c' (delete key_ m) rn rl.
Proof.
  intros Hrep. destruct (critnib_remove_ok c m rn rl key_ Hrep) as (r & c' & Hrun & [-> Hrep'] & _). eauto.
Qed.

(** [critnib_insert] binds a new key; on a bound key it overwrites the value
    and returns 0 when [update] is set, and otherwise returns [EEXIST] and leaves
    the map as it was. *)
Theorem critnib_insert_correct c m rn rl key_ v update :
  critnib_rep c m (S rn) (S rl) → is_u64 key_ →
  ∃ r c', critnib_insert c key_ v update = Ret (r, c') ∧ insert_post c' m rn rl key_ v update r.
Proof.
  intros Hrep Hk. destruct (insert_ok c m rn rl key_ v update Hrep Hk) as (r & c' & ? & ? & _). eauto.
Qed.

End remove.
