(* ===== verification/CritnibIter.v ===== *)
(** * Iteration over a critnib

    From key 0 upwards, [critnib_iter] calls the callback on the bindings up to
    [max] in ascending order of their keys and stops at the first non-zero
    result. *)
From S2P Require Import Prelude Alloc Critnib CritnibTree CritnibCorrect CritnibRead.
From Stdlib Require Import Sorted.

(** ** The bindings of a tree in order *)
Fixpoint telems (t : ctree) : list (Z * Z) :=
  match t with
  | TNil => []
  | TLeaf _ k v => [(k, v)]
  | TNode _ _ _ cs => mjoin (map (λ i, telems (cs i)) (seq 0 16))
  end.

Definition klt (x y : Z * Z) : Prop := x.1 < y.1.

Lemma telems_keyin t k v : (k, v) ∈ telems t → keyin t k.
Proof.
  induction t as [|a k0 v0|a p s cs IH]; cbn [telems keyin].
  - by intros []%not_elem_of_nil.
  - intros [= -> ->]%list_elem_of_singleton. done.
  - intros (l & Hk & Hl)%list_elem_of_join. apply list_elem_of_fmap in Hl as (i & -> & Hi%elem_of_seq).
    exists i. split; [lia|]. by apply IH.
Qed.

Lemma telems_tlookup t k v : wf t → (k, v) ∈ telems t ↔ tlookup t k = Some v.
Proof.
  induction t as [|a k0 v0|a p s cs IH]; intros Hwf; cbn [telems tlookup].
  - split; [by intros []%not_elem_of_nil|done].
  - rewrite list_elem_of_singleton. destruct (k0 =? k) eqn:E; zb; naive_solver.
  - pose proof Hwf as (_ & _ & _ & Hc & _). rewrite list_elem_of_join. split.
    + intros (l & Hk & Hl). apply list_elem_of_fmap in Hl as (i & -> & Hi%elem_of_seq).
      destruct (Hc i ltac:(lia)) as (Hwi & _ & Hki).
      destruct (Hki k (telems_keyin _ _ _ Hk)) as [_ ->]. by apply IH.
    + intros Hl. exists (telems (cs (slice k s))). pose proof (slice_lt k s) as Hi.
      split; [apply IH; [by apply Hc|done]|]. apply list_elem_of_fmap. exists (slice k s).
      split; [done|]. apply elem_of_seq. lia.
Qed.

Lemma sorted_app (l l' : list (Z * Z)) :
  StronglySorted klt l → StronglySorted klt l' → (∀ x y, x ∈ l → y ∈ l' → klt x y) →
  StronglySorted klt (l ++ l').
Proof.
  induction 1 as [|x l Hl IH Hx]; intros Hl' Hxy; cbn; [done|]. constructor.
  - apply IH; [done|]. intros a b Ha Hb. apply Hxy; [by right|done].
  - apply Forall_app. split; [done|]. apply Forall_forall. intros b Hb. apply Hxy; [by left|done].
Qed.

(** The children from index [i] on, in order. *)
Definition tail_elems (cs : nat → ctree) (i n : nat) : list (Z * Z) :=
  mjoin (map (λ j, telems (cs j)) (seq i n)).

Lemma tail_elems_in cs i n x :
  x ∈ tail_elems cs i n → ∃ j, (i <= j < i + n)%nat ∧ x ∈ telems (cs j).
Proof.
  intros (l & Hk & Hl)%list_elem_of_join.
  apply list_elem_of_fmap in Hl as (j & -> & Hj%elem_of_seq). eauto.
Qed.

Lemma telems_sorted t : wf t → StronglySorted klt (telems t).
Proof.
  induction t as [|a k0 v0|a p s cs IH]; intros Hwf; [constructor|repeat constructor|].
  change (telems _) with (tail_elems cs 0 16).
  assert (∀ n i, (i + n <= 16)%nat → StronglySorted klt (tail_elems cs i n)) as Hs; [|by apply Hs].
  pose proof Hwf as (_ & _ & _ & Hc & _).
  induction n as [|n IHn]; intros i Hi; [constructor|]. unfold tail_elems. cbn.
  apply sorted_app.
  - apply IH, Hc. lia.
  - apply IHn. lia.
  - intros [k v] [k' v'] Hx (j & Hj & Hy)%tail_elems_in. unfold klt. cbn.
    apply telems_keyin in Hx, Hy.
    apply (kids_order a p s cs j k' k Hwf); [lia|done|exists i; split; [lia|done]|].
    destruct (Hc i ltac:(lia)) as (_ & _ & Hki). destruct (Hki k Hx) as [_ ->]. lia.
Qed.

(** ** The iteration *)
Section iter_ok.
Context {W S : Type} (func : Z → Z → S → Z * S).
Implicit Types c : critnib W.

(** The callback on a list of bindings, until it returns non-zero; the result
    tells whether it did. *)
Fixpoint walk (l : list (Z * Z)) (s : S) : bool * S :=
  match l with
  | [] => (false, s)
  | (k, v) :: l => let '(r, s) := func k v s in
                   if negb (r =? 0) then (true, s) else walk l s
  end.

Definition upto (max : Z) (l : list (Z * Z)) : list (Z * Z) := filter (λ x, x.1 <= max) l.

Lemma walk_app l l' s :
  walk (l ++ l') s = let '(b, s') := walk l s in if b then (true, s') else walk l' s'.
Proof.
  revert s. induction l as [|[k v] l IH]; intros s; cbn; [done|].
  destruct (func k v s) as [r s']. by destruct (negb (r =? 0)).
Qed.

Lemma upto_none max l : (∀ x, x ∈ l → max < x.1) → upto max l = [].
Proof.
  unfold upto. induction l as [|x l IH]; intros Hl; [done|].
  rewrite filter_cons_False; [apply IH; intros y Hy; apply Hl; by right|].
  specialize (Hl x ltac:(by left)). lia.
Qed.

Lemma upto_app max l l' : upto max (l ++ l') = upto max l ++ upto max l'.
Proof. apply filter_app. Qed.

(** The outcome of visiting [t]: the state of the walk, and a non-zero result
    only if the walk stopped or [t] reaches beyond [max]. *)
Definition visited (t : ctree) (max : Z) (s : S) (r : Z) (s' : S) : Prop :=
  let '(b, s1) := walk (upto max (telems t)) s in
  s' = s1 ∧ (b = true → r ≠ 0) ∧ (r ≠ 0 → b = true ∨ ∃ k, keyin t k ∧ max < k).

Lemma visited_children c cs ch (rec : Z → S → outcome (Z * S)) max i s :
  kids c ch cs →
  (∀ j k k' j', (j < j' < 16)%nat → keyin (cs j) k → keyin (cs j') k' → k < k') →
  (∀ j q s, (j < 16)%nat → q ≠ NULL → rep (nodes c) (leaves c) q (cs j) →
     ∃ r s', rec q s = Ret (r, s') ∧ visited (cs j) max s r s') →
  length ch = 16%nat → (i <= 16)%nat →
  ∃ r s', iter_children rec (drop i ch) s = Ret (r, s') ∧
    let '(b, s1) := walk (upto max (tail_elems cs i (16 - i))) s in
    s' = s1 ∧ (b = true → r ≠ 0) ∧
    (r ≠ 0 → b = true ∨ ∃ j k, (i <= j < 16)%nat ∧ keyin (cs j) k ∧ max < k).
Proof.
  intros Hkids Hord Hrec Hlen. remember (16 - i)%nat as n eqn:En. revert i En s.
  induction n as [|n IH]; intros i En s Hi.
  { rewrite drop_ge by lia. exists 0, s. by cbn. }
  destruct (Hkids i ltac:(lia)) as (q & Hq & Hr). rewrite (drop_S _ q) by done.
  cbn [iter_children]. change (tail_elems cs i (Datatypes.S n))
    with (telems (cs i) ++ tail_elems cs (Datatypes.S i) n).
  destruct (q =? NULL) eqn:E; zb.
  - assert (cs i = TNil) as -> by (by eapply rep_null). cbn [telems app].
    destruct (IH (Datatypes.S i) ltac:(lia) s ltac:(lia)) as (r & s' & Hrun & Hv).
    exists r, s'. split; [exact Hrun|]. destruct (walk _ s) as [b s1].
    destruct Hv as (? & ? & Hstop). split_and!; [done..|]. intros Hr0.
    destruct (Hstop Hr0) as [?|(j & k & ? & ? & ?)]; [by left|right]. exists j, k. split_and!; [lia|lia|done|done].
  - destruct (Hrec i q s ltac:(lia) E Hr) as (r & s1 & -> & Hv). cbn [obind].
    rewrite upto_app, walk_app.
    unfold visited in Hv. destruct (walk (upto max (telems (cs i))) s) as [b s2].
    destruct Hv as (-> & Hb & Hstop). destruct (r =? 0) eqn:Er; zb; cbn [negb].
    + destruct b; [by destruct Hb|]. cbn.
      destruct (IH (Datatypes.S i) ltac:(lia) s2 ltac:(lia)) as (r' & s' & Hrun & Hv).
      exists r', s'. split; [exact Hrun|]. destruct (walk _ s2) as [b' s3].
      destruct Hv as (? & ? & Hstop'). split_and!; [done..|]. intros Hr0.
      destruct (Hstop' Hr0) as [?|(j & k & ? & ? & ?)]; [by left|right]. exists j, k. split_and!; [lia|lia|done|done].
    + exists 1, s2. split; [done|]. destruct b; [by split_and!; auto|].
      destruct (Hstop Er) as [|(k0 & Hk0 & Hgt)]; [done|].
      assert (upto max (tail_elems cs (Datatypes.S i) n) = []) as ->.
      { apply upto_none. intros [k v] (j & Hj & Hk%telems_keyin)%tail_elems_in. cbn.
        specialize (Hord i k0 k j ltac:(lia) Hk0 Hk). lia. }
      cbn. split_and!; [done|done|]. intros _. right. exists i, k0. split_and!; [lia|lia|done|done].
Qed.

Lemma iter_ok c t m fuel p max s :
  wf t → t ≠ TNil → below (4 * Z.of_nat m) t → (m < fuel)%nat → rep (nodes c) (leaves c) p t →
  ∃ r s', iter func fuel c p 0 max s = Ret (r, s') ∧ visited t max s r s'.
Proof.
  revert m fuel p s. induction t as [|a k0 v0|a pth s0 cs IH]; intros m [|fuel] p s Hwf Hn Hb Hm Hr; try lia; [done|..].
  - destruct Hr as (Hg & -> & Hl). cbn [iter]. rewrite is_leaf_tag, to_leaf_tag, Hl by done.
    cbn [deref obind key value]. destruct Hwf as [H0 _]. rewrite (proj2 (Z.leb_le 0 k0) H0). cbn [andb].
    unfold visited, upto. cbn [telems]. destruct (k0 <=? max) eqn:E; zb.
    + rewrite filter_cons_True by done. cbn. destruct (func k0 v0 s) as [r s'].
      exists r, s'. split; [done|]. destruct (r =? 0) eqn:Er; zb; cbn; split_and!; try done; by auto.
    + rewrite filter_cons_False by (cbn; lia). exists 0, s. by cbn.
  - pose proof Hr as (Hg & -> & ch & Ha & Hlen & Hc). cbn [iter].
    rewrite is_leaf_node, Ha by done. cbn [deref obind path shift child].
    pose proof Hwf as (Hs & [Hp0 Hp1] & Hpp & Hcs & _).
    assert (∀ k, keyin (TNode a pth s0 cs) k → pth <= k) as Hlo.
    { intros k Hk%node_key; [|done]. rewrite Hpp, <- Hk. unfold pre. destruct Hs.
      rewrite Z.mul_comm. apply Z.mul_div_le, Z.pow_pos_nonneg; lia. }
    destruct (max <? pth) eqn:E; zb.
    { exists 1, s. split; [done|]. unfold visited. rewrite upto_none.
      - cbn. split_and!; [done|done|]. intros _. right.
        destruct (wf_nonempty _ Hwf Hn) as [k Hk]. exists k. specialize (Hlo k Hk). split; [done|lia].
      - intros [k v] Hk%telems_keyin%Hlo. cbn. lia. }
    assert (0 <= Z.lor pth (path_mask s0)) as Hor.
    { apply Z.lor_nonneg. split; [lia|]. apply u64_range. }
    rewrite (proj2 (Z.ltb_ge _ _) Hor).
    destruct (visited_children c cs ch (λ m s, iter func fuel c m 0 max s) max 0 s) as (r & s' & Hrun & Hv);
      [done| | |done|lia|].
    { intros j k k' j' Hj Hk Hk'. apply (kids_order a pth s0 cs j' k' k Hwf); [lia|done|exists j; split; [lia|done]|].
      destruct (Hcs j ltac:(lia)) as (_ & _ & Hki). destruct (Hki k Hk) as [_ ->]. lia. }
    { intros j q s1 Hj Hq Hrq. destruct (below_child _ _ _ _ _ _ Hwf Hb Hj) as (m' & -> & Hb' & Hwf').
      apply (IH j m'); [done| |done|lia|done]. intros Hz. rewrite Hz in Hrq. done. }
    rewrite drop_0 in Hrun. exists r, s'. split; [exact Hrun|]. unfold visited.
    change (telems _) with (tail_elems cs 0 16). cbn [Nat.sub] in Hv. destruct (walk _ s) as [b s1].
    destruct Hv as (? & ? & Hstop). split_and!; [done..|]. intros Hr0.
    destruct (Hstop Hr0) as [?|(j & k & Hj & Hk & Hgt)]; [by left|right].
    exists k. split; [|done]. exists j. split; [lia|done].
Qed.

End iter_ok.

(** from [min = 0], [critnib_iter] calls the callback on exactly the bindings
    with keys up to [max], in strictly ascending order of the keys, and stops
    after the first call that returns non-zero. *)
Theorem critnib_iter_ordered {W S} `{NodeAllocLaws W} (func : Z → Z → S → Z * S)
    (c : critnib W) m rn rl :
  critnib_rep c m rn rl →
  ∃ l, StronglySorted klt l ∧ (∀ k v, (k, v) ∈ l ↔ m !! k = Some v) ∧
    ∀ max s, critnib_iter func c 0 max s = Ret (walk func (upto max l) s).2.
Proof.
  intros (t & Hr & Hwf & Hb & Hm & _)%rep_root_fuel. exists (telems t).
  split; [by apply telems_sorted|]. split; [intros k v; rewrite <- Hm; by apply telems_tlookup|].
  intros max s. unfold critnib_iter. destruct (root c =? NULL) eqn:E; zb.
  - apply rep_null in Hr; [|done]. by subst t.
  - destruct (iter_ok func c t 16 PATH_FUEL (root c) max s) as (r & s' & -> & Hv);
      [done| |done|unfold PATH_FUEL; lia|done|].
    { intros ->. done. }
    unfold visited in Hv. cbn. destruct (walk func _ s) as [b s1]. by destruct Hv as [-> _].
Qed.
