(* ===== verification/CritnibSpec.v ===== *)
(** * The critnib as a finite map, over real slab allocators

    Creation and destruction of a critnib ([critnib_new], [critnib_delete]), the
    refinement of whole runs of operations to a finite map, and concrete runs. *)
From S2P Require Import Prelude Bigary Alloc Slab Critnib CritnibTree CritnibCorrect CritnibRead CritnibIter CritnibRemove.

(** Layout of [struct critnib] and sizes of what it allocates. *)
Definition LEAVES_OFFSET : Z := 328.
Definition NODES_OFFSET : Z := 464.
Definition SIZEOF_LEAF : Z := 16.
Definition SIZEOF_NODE : Z := 144.

(** [c] is what [jemk_malloc] returned; the structure is cleared before it is
    tested.  [o1] and [o2] are the kernel's answers during the first and the
    second initialisation; only the result of the first one is checked. *)
Definition critnib_new (o1 o2 : OS) (c : Z) (w : slab_world) : outcome (critnib slab_world) :=
  if c =? NULL then Stop BadDeref else
  let! (ret, w) := @slab_alloc_init o1 (c + LEAVES_OFFSET) SIZEOF_LEAF 0 w in
  let! (_, w) := @slab_alloc_init o2 (c + NODES_OFFSET) SIZEOF_NODE 0 w in
  let! _ := c_assert (ret =? 0) in
  Ret (Critnib NULL NULL NULL (replicate 16 NULL) (replicate 16 NULL) 0
         (c + LEAVES_OFFSET) (c + NODES_OFFSET) ∅ ∅ w).

(** ** Destruction *)
Section delete.
Context `{OS}.
#[local] Abbreviation critnib := (critnib slab_world).

Definition free_elem (p : Z) (c : critnib) : outcome critnib :=
  let! w := slab_alloc_free p (world c) in Ret (set_world w c).

Fixpoint delete_children (rec : Z → critnib → outcome critnib) (ch : list Z) (c : critnib)
  : outcome critnib :=
  match ch with
  | [] => Ret c
  | m :: ch =>
      let! c := (if negb (m =? NULL) then rec m c else Ret c) in
      delete_children rec ch c
  end.

Fixpoint delete_node (fuel : nat) (n : Z) (c : critnib) : outcome critnib :=
  match fuel with
  | O => Stop OutOfFuel
  | S fuel =>
      if negb (is_leaf n) then
        let! nd := deref (nodes c !! n) in
        let! c := delete_children (delete_node fuel) (child nd) c in
        free_elem n c
      else free_elem (to_leaf n) c
  end.

(** Unmapping an allocator takes its nodes and leaves with it. *)
Definition destroy_allocator (h : Z) (c : critnib) : outcome critnib :=
  let! a := deref (slabs (world c) !! h) in
  let! w := slab_alloc_destroy h (world c) in
  let lo := area (mappedMemory a) in
  let hi := lo + declared (mappedMemory a) in
  let c := set_world w c in
  let c := set_nodes (filter (λ kv, ¬ (lo <= kv.1 < hi)) (nodes c)) c in
  Ret (set_leaves (filter (λ kv, ¬ (lo <= kv.1 < hi)) (leaves c)) c).

Fixpoint delete_free_nodes (fuel : nat) (m : Z) (c : critnib) : outcome critnib :=
  match fuel with
  | O => Stop OutOfFuel
  | S fuel =>
      if m =? NULL then Ret c else
      let! mm := get_child c m 0 in
      let! c := free_elem m c in
      delete_free_nodes fuel mm c
  end.

Fixpoint delete_free_leaves (fuel : nat) (k : Z) (c : critnib) : outcome critnib :=
  match fuel with
  | O => Stop OutOfFuel
  | S fuel =>
      if k =? NULL then Ret c else
      let! lf := deref (leaves c !! k) in
      let kk := value lf in
      let! c := free_elem k c in
      delete_free_leaves fuel kk c
  end.

Fixpoint delete_pending (pend : list (Z * Z)) (c : critnib) : outcome critnib :=
  match pend with
  | [] => Ret c
  | (n, k) :: pend =>
      let! c := free_elem n c in
      let! c := free_elem k c in
      delete_pending pend c
  end.

(** [fuel] bounds the lengths of the two free lists. *)
Definition critnib_delete (fuel : nat) (c : critnib) : outcome critnib :=
  let! c := (if negb (root c =? NULL) then delete_node PATH_FUEL (root c) c else Ret c) in
  let! c := destroy_allocator (allocator_leaves c) c in
  let! c := destroy_allocator (allocator_nodes c) c in
  let! c := delete_free_nodes fuel (deleted_node c) c in
  let! c := delete_free_leaves fuel (deleted_leaf c) c in
  delete_pending (zip (pending_del_nodes c) (pending_del_leaves c)) c.

End delete.

(** ** Creation *)

(** Both allocators of a default-sized critnib hold at least this many elements. *)
Definition CRITNIB_ROOM : Z := BIGARY_DEFAULT_MAX / (SIZEOF_META + SIZEOF_NODE).

Section refinement.
Context (o o1 o2 : OS) (b1 b2 : Z).
Hypothesis grant1 : grants o1 b1.
Hypothesis grant2 : grants o2 b2.
Hypothesis mappings_apart : b1 + BIGARY_DEFAULT_MAX <= b2 ∨ b2 + BIGARY_DEFAULT_MAX <= b1.
Hypothesis mmap_fixed_ok : ∀ a n, @os_mmap_fixed o a n = true.
#[local] Existing Instance o.
#[local] Instance laws : NodeAllocLaws slab_world := slab_laws mmap_fixed_ok.

Lemma new_ok addr rn rl :
  addr ≠ NULL → Z.of_nat rn <= CRITNIB_ROOM → Z.of_nat rl <= CRITNIB_ROOM →
  ∃ c, critnib_new o1 o2 addr (World ∅ ∅) = Ret c ∧ critnib_rep c ∅ rn rl ∧ remove_count c = 0.
Proof.
  intros Ha Hrn Hrl. unfold critnib_new. destruct (addr =? NULL) eqn:E; zb; [done|].
  destruct (slab_init_default o1 b1 (World ∅ ∅) ∅ (addr + LEAVES_OFFSET) SIZEOF_LEAF)
    as (w1 & -> & Hw1 & _ & a1 & Ha1 & Har1 & Hd1); try done.
  cbn [obind].
  destruct (slab_init_default o2 b2 w1 _ (addr + NODES_OFFSET) SIZEOF_NODE grant2 ltac:(done) ltac:(done) Hw1)
    as (w2 & -> & Hw2 & _ & _).
  { apply lookup_insert_None. split; [done|]. unfold LEAVES_OFFSET, NODES_OFFSET. lia. }
  { intros t b [y Ht] Hb x Hx Hin. apply lookup_insert_Some in Ht as [[<- _]|[_ Ht]]; [|done].
    rewrite Ha1 in Hb. injection Hb as <-. unfold in_area in Hin. rewrite Har1, Hd1 in Hin. lia. }
  cbn. eexists. split; [done|]. split; [|done].
  assert (addr + NODES_OFFSET ≠ addr + LEAVES_OFFSET) as Hne
    by (unfold LEAVES_OFFSET, NODES_OFFSET; lia).
  assert (∀ (i : nat) x, replicate 16 NULL !! i = Some x → x = NULL) as Hrep.
  { by intros i x [-> _]%lookup_replicate. }
  assert (∀ nxt, pool nxt (λ _, False) NULL [] (replicate 16 NULL) ∅) as Hpool.
  { intros nxt. split.
    - done.
    - apply NoDup_nil_2.
    - by intros x i []%not_elem_of_nil.
    - intros i j x Hi%Hrep _ Hx. done.
    - done.
    - intros x [[]%not_elem_of_nil|(Hx & i & Hi%Hrep)]. done.
    - done. }
  eapply (critnib_rep_intro _ TNil [] [] ∅ ∅ _ (Z.to_nat CRITNIB_ROOM)
            (Z.to_nat (BIGARY_DEFAULT_MAX / (SIZEOF_META + SIZEOF_LEAF)))).
  - split; cbn; [done|by split|done|apply Hpool|apply Hpool|exact Hw2| | |done|done].
    + by rewrite lookup_insert_eq.
    + by rewrite lookup_insert_ne, lookup_insert_eq.
  - lia.
  - enough (CRITNIB_ROOM <= BIGARY_DEFAULT_MAX / (SIZEOF_META + SIZEOF_LEAF)) by lia. done.
  - done.
Qed.

(** ** Runs of operations *)
Inductive cop :=
  | OInsert (k v : Z) (update : bool)
  | ORemove (k : Z)
  | OGet (k : Z).

Definition cop_key (op : cop) : Z :=
  match op with OInsert k _ _ | ORemove k | OGet k => k end.

Definition cop_run (op : cop) (c : critnib slab_world) : outcome (Z * critnib slab_world) :=
  match op with
  | OInsert k v u => critnib_insert c k v u
  | ORemove k => critnib_remove c k
  | OGet k => let! v := critnib_get c k in Ret (v, c)
  end.

(** The abstract map: what each call returns and what it leaves. *)
Definition cop_spec (op : cop) (m : gmap Z Z) : Z * gmap Z Z :=
  match op with
  | OInsert k v u =>
      match m !! k with
      | None => (0, <[k := v]> m)
      | Some _ => if u then (0, <[k := v]> m) else (EEXIST, m)
      end
  | ORemove k => (default NULL (m !! k), delete k m)
  | OGet k => (default NULL (m !! k), m)
  end.

Fixpoint cops_run (ops : list cop) (c : critnib slab_world) : outcome (list Z * critnib slab_world) :=
  match ops with
  | [] => Ret ([], c)
  | op :: ops =>
      let! (r, c) := cop_run op c in
      let! (rs, c) := cops_run ops c in
      Ret (r :: rs, c)
  end.

Fixpoint cops_spec (ops : list cop) (m : gmap Z Z) : list Z * gmap Z Z :=
  match ops with
  | [] => ([], m)
  | op :: ops => let '(r, m) := cop_spec op m in
                 let '(rs, m) := cops_spec ops m in (r :: rs, m)
  end.

(** One operation simulates one step of the map. *)
Lemma cop_sim op c m n :
  critnib_rep c m (S n) (S n) → is_u64 (cop_key op) → 0 <= remove_count c →
  remove_count c + 1 + DELETED_LIFE < 2 ^ 64 →
  ∃ c', cop_run op c = Ret ((cop_spec op m).1, c') ∧
    critnib_rep c' (cop_spec op m).2 n n ∧ 0 <= remove_count c' <= remove_count c + 1.
Proof.
  unfold DELETED_LIFE. intros Hrep Hk H0 Hrc.
  assert (∀ c m, critnib_rep c m (S n) (S n) → critnib_rep c m n n) as Hmono.
  { intros c' m' (t & dn & dl & Ln & Ll & M & rn & rl & ? & ? & ? & ?).
    eapply critnib_rep_intro; eauto; lia. }
  destruct op as [k v u|k|k]; cbn [cop_key cop_run cop_spec fst snd] in *.
  - destruct (insert_ok c m n n k v u Hrep Hk) as (r & c' & -> & Hpost & Hrc').
    exists c'. unfold insert_post in Hpost.
    destruct (m !! k); [destruct u|]; destruct Hpost as [-> ?]; (split_and!; [done|done|lia|lia]).
  - destruct (critnib_remove_ok c m (S n) (S n) k Hrep) as (r & c' & -> & [-> ?] & Hrc').
    exists c'. split; [done|]. split; [by apply Hmono|].
    destruct Hrc' as [->| ->]; [lia|]. rewrite u64_small by (unfold is_u64; lia). lia.
  - rewrite (get_ok c m (S n) (S n)) by (done || unfold DELETED_LIFE; lia). cbn [obind].
    exists c. split; [done|]. split; [by apply Hmono|]. lia.
Qed.

Lemma cops_sim ops c m :
  critnib_rep c m (length ops) (length ops) → Forall (λ op, is_u64 (cop_key op)) ops →
  0 <= remove_count c → remove_count c + Z.of_nat (length ops) + DELETED_LIFE < 2 ^ 64 →
  ∃ c', cops_run ops c = Ret ((cops_spec ops m).1, c') ∧ critnib_rep c' (cops_spec ops m).2 0 0 ∧
    0 <= remove_count c' <= remove_count c + Z.of_nat (length ops).
Proof.
  revert c m. induction ops as [|op ops IH]; intros c m Hrep Hks H0 Hrc; cbn in *.
  { exists c. split_and!; [done|done|lia|lia]. }
  apply Forall_cons in Hks as [Hk Hks].
  destruct (cop_sim op c m (length ops) Hrep Hk H0 ltac:(lia)) as (c1 & -> & Hrep1 & Hrc1).
  destruct (cop_spec op m) as [r m1]. cbn in *.
  destruct (IH c1 m1 Hrep1 Hks ltac:(lia) ltac:(lia)) as (c2 & -> & Hrep2 & Hrc2).
  destruct (cops_spec ops m1) as [rs m2]. exists c2. split_and!; [done|done|lia|lia].
Qed.

(** C1: refinement.  Any run of insertions, removals and lookups on a critnib
    made by [critnib_new] over slab allocators succeeds and returns, call by
    call, what the same run on an empty finite map returns, as long as the run
    is shorter than the capacity of the allocators. *)
Theorem critnib_refines_map addr ops :
  addr ≠ NULL → Z.of_nat (length ops) <= CRITNIB_ROOM →
  Forall (λ op, is_u64 (cop_key op)) ops →
  ∃ c c', critnib_new o1 o2 addr (World ∅ ∅) = Ret c ∧
    cops_run ops c = Ret ((cops_spec ops ∅).1, c').
Proof.
  intros Ha Hlen Hks.
  destruct (new_ok addr (length ops) (length ops) Ha Hlen Hlen) as (c & Hnew & Hrep & Hrc).
  destruct (cops_sim ops c ∅ Hrep Hks) as (c' & Hrun & _); rewrite ?Hrc; [done| |eauto].
  unfold CRITNIB_ROOM in Hlen. unfold DELETED_LIFE.
  change (BIGARY_DEFAULT_MAX / (SIZEOF_META + SIZEOF_NODE)) with 107374182 in Hlen. lia.
Qed.

End refinement.

(** ** Concrete runs *)
Lemma critnib_refines_map_witness :
  ∃ c c', critnib_new (kernel_at (2 ^ 40)) (kernel_at (2 ^ 41)) 8192 (World ∅ ∅) = Ret c ∧
    @cops_run kernel [OInsert 5 50 false; OInsert 4660 7 false; OInsert 5 51 false;
                      OGet 5; ORemove 5; OGet 5; OInsert 4660 8 true; OGet 4660] c
      = Ret ([0; 0; EEXIST; 50; 50; 0; 0; 8], c').
Proof.
  apply (critnib_refines_map kernel (kernel_at (2 ^ 40)) (kernel_at (2 ^ 41)) (2 ^ 40) (2 ^ 41)
           (kernel_grants (2 ^ 40) ltac:(done) ltac:(done) ltac:(done))
           (kernel_grants (2 ^ 41) ltac:(done) ltac:(done) ltac:(done)) ltac:(left; done) ltac:(done)
           8192 [OInsert 5 50 false; OInsert 4660 7 false; OInsert 5 51 false;
                 OGet 5; ORemove 5; OGet 5; OInsert 4660 8 true; OGet 4660]); [done|done|].
  repeat constructor; done.
Defined.

#[local] Abbreviation demo_new := (critnib_new (kernel_at (2 ^ 40)) (kernel_at (2 ^ 41)) 8192 (World ∅ ∅)).
#[local] Abbreviation demo_laws := (laws kernel (λ _ _, eq_refl)).

Lemma demo_new_ok rn rl :
  Z.of_nat rn <= CRITNIB_ROOM → Z.of_nat rl <= CRITNIB_ROOM →
  ∃ c, demo_new = Ret c ∧ @critnib_rep _ _ demo_laws c ∅ rn rl ∧ remove_count c = 0.
Proof.
  apply (new_ok kernel _ _ (2 ^ 40) (2 ^ 41)); try done; [by apply kernel_grants..|by left].
Qed.

(** A critnib with the two keys 5 and 4660. *)
Lemma demo_two :
  ∃ c, @critnib_rep _ _ demo_laws c (<[4660 := 7]> (<[5 := 50]> ∅)) 0 0 ∧
    remove_count c + DELETED_LIFE < 2 ^ 64.
Proof.
  destruct (demo_new_ok 2 2 ltac:(done) ltac:(done)) as (c & Hnew & Hrep & Hrc).
  destruct (cops_sim kernel (λ _ _, eq_refl) [OInsert 5 50 false; OInsert 4660 7 false] c ∅ Hrep)
    as (c' & _ & Hrep' & Hrc'); rewrite ?Hrc; try done.
  - repeat constructor; done.
  - exists c'. split; [exact Hrep'|]. rewrite Hrc in Hrc'. unfold DELETED_LIFE. cbn in Hrc'. lia.
Qed.

Lemma critnib_insert_correct_witness :
  ∃ c c', demo_new = Ret c ∧ @critnib_insert _ (@slab_NodeAlloc kernel) c 5 50 false = Ret (0, c').
Proof.
  destruct (demo_new_ok 1 1 ltac:(done) ltac:(done)) as (c & Hnew & Hrep & _).
  destruct (critnib_insert_correct c ∅ 0 0 5 50 false Hrep ltac:(done)) as (r & c' & Hrun & [-> _]).
  by exists c, c'.
Defined.

Lemma critnib_remove_correct_witness :
  ∃ (c c' : critnib slab_world), critnib_remove c 5 = Ret (50, c').
Proof.
  destruct demo_two as (c & Hrep & _).
  destruct (critnib_remove_correct c _ 0 0 5 Hrep) as (c' & Hrun & _). by exists c, c'.
Defined.

Lemma critnib_find_correct_witness :
  ∃ (c : critnib slab_world) r, critnib_find c 100 (-2) = Ret r ∧
    nearest (<[4660 := 7]> (<[5 := 50]> ∅)) Z.le (λ k, k < 100) r.
Proof.
  destruct demo_two as (c & Hrep & Hrc). exists c.
  exact (critnib_find_correct c _ 0 0 100 (-2) Hrep ltac:(done) Hrc).
Defined.

Lemma critnib_find_le_correct_witness :
  ∃ (c : critnib slab_world) r, critnib_find_le c 100 = Ret (default NULL (snd <$> r)) ∧
    nearest (<[4660 := 7]> (<[5 := 50]> ∅)) Z.le (λ k, k <= 100) r.
Proof.
  destruct demo_two as (c & Hrep & Hrc). exists c.
  exact (critnib_find_le_correct c _ 0 0 100 Hrep ltac:(done) Hrc).
Defined.

(** The callback that records the keys and never stops. *)
Definition collect (k _ : Z) (s : list Z) : Z * list Z := (0, s ++ [k]).

Lemma critnib_iter_ordered_witness :
  ∃ (c : critnib slab_world) l, (5, 50) ∈ l ∧
    critnib_iter collect c 0 100 [] = Ret (walk collect (upto 100 l) []).2.
Proof.
  destruct demo_two as (c & Hrep & _).
  destruct (critnib_iter_ordered collect c _ 0 0 Hrep) as (l & _ & Hl & Hrun).
  exists c, l. split; [by apply Hl|]. apply Hrun.
Defined.

(** [critnib_iter] with [min > 0] misses bindings inside the interval: the
    subtree test [(path | path_mask(shift)) < min] uses the mask of the bits
    above the subtree where the bits inside it are meant, so a root that branches
    on the top slice (mask 0) is skipped for every [min > 0].  With keys
    [0x1234] and [2^63] bound, iterating over [[5, 0x1235]] visits nothing. *)
Theorem critnib_iter_skips_bindings :
  ∃ c c', demo_new = Ret c ∧
    @cops_run kernel [OInsert 4660 1 false; OInsert (2 ^ 63) 2 false; OGet 4660] c = Ret ([0; 0; 1], c') ∧
    critnib_iter collect c' 5 4661 [] = Ret [] ∧ critnib_iter collect c' 0 4661 [] = Ret [4660].
Proof. eexists _, _. split; [reflexivity|]. split; [vm_compute; reflexivity|]. split; vm_compute; reflexivity. Qed.

(** [critnib_delete] passes every slot of the grace arrays to
    [slab_alloc_free], whose assertion rejects the null pointers that empty
    slots hold: destroying a critnib that never removed a key fails. *)
Theorem critnib_delete_asserts :
  ∃ c, demo_new = Ret c ∧ @critnib_delete kernel 1 c = Stop AssertFailed.
Proof. eexists. split; [reflexivity|]. vm_compute. reflexivity. Qed.
