(* ===== verification/Wre.v ===== *)
(** * The weighted ranking tree: operations ([src/wre_avl_tree.c])

    An AVL tree with parent links whose nodes carry the weight of their subtree.
    The store keeps the nodes by address; every field write of the source is one
    update of the store.  The comparison [is_lower_check] and the arithmetic of
    [double] are parameters: the first is a callback of the caller, the second is
    given below for IEEE binary64 and for exact rationals. *)
From S2P Require Import Prelude Alloc.
From Stdlib Require Import SpecFloat QArith Qreduction.
Local Open Scope Z_scope.

Inductive which_node_e := LEFT_NODE | RIGHT_NODE | ROOT_NODE.
#[export] Instance which_eq_dec : EqDecision which_node_e.
Proof. solve_decision. Defined.

Record wre_node := WNode {
  subtreeWeight : Z;
  ownWeight : Z;
  height : Z;
  left : Z;
  right : Z;
  parent : Z;
  which : which_node_e;
  data : Z;
}.

(** [wre_tree_t], with the store of its nodes and the world of its allocator. *)
Record wre_tree (W : Type) := WTree {
  rootNode : Z;
  nodeAlloc : Z;
  size : Z;
  heap : gmap Z wre_node;
  tworld : W;
}.
Arguments WTree {W}. Arguments rootNode {W}. Arguments nodeAlloc {W}.
Arguments size {W}. Arguments heap {W}. Arguments tworld {W}.

Definition set_left (v : Z) (n : wre_node) : wre_node :=
  WNode (subtreeWeight n) (ownWeight n) (height n) v (right n) (parent n) (which n) (data n).
Definition set_right (v : Z) (n : wre_node) : wre_node :=
  WNode (subtreeWeight n) (ownWeight n) (height n) (left n) v (parent n) (which n) (data n).
Definition set_parent (v : Z) (n : wre_node) : wre_node :=
  WNode (subtreeWeight n) (ownWeight n) (height n) (left n) (right n) v (which n) (data n).
Definition set_which (v : which_node_e) (n : wre_node) : wre_node :=
  WNode (subtreeWeight n) (ownWeight n) (height n) (left n) (right n) (parent n) v (data n).
Definition set_metadata (sw ht : Z) (n : wre_node) : wre_node :=
  WNode sw (ownWeight n) ht (left n) (right n) (parent n) (which n) (data n).

(** A [wre_node_t **]: the root field or a child field. *)
Inductive wslot := PRoot | PLeft (n : Z) | PRight (n : Z).

(** The arithmetic of [double] that the source uses. *)
Class Dbl := {
  dbl : Type;
  dbl_of_size : Z → dbl;
  dbl_div : dbl → dbl → dbl;
  dbl_sub : dbl → dbl → dbl;
  dbl_mul : dbl → dbl → dbl;
  dbl_add : dbl → dbl → dbl;
  dbl_ltb : dbl → dbl → bool;
}.

Definition binary64 : Dbl := {|
  dbl := spec_float;
  dbl_of_size z := binary_normalize 53 1024 z 0 false;
  dbl_div := SFdiv 53 1024;
  dbl_sub := SFsub 53 1024;
  dbl_mul := SFmul 53 1024;
  dbl_add := SFadd 53 1024;
  dbl_ltb := SFltb;
|}.

(** Exact arithmetic; [x / 0] is 0 here. *)
Definition rational : Dbl := {|
  dbl := Q;
  dbl_of_size z := inject_Z z;
  dbl_div := Qdiv;
  dbl_sub := Qminus;
  dbl_mul := Qmult;
  dbl_add := Qplus;
  dbl_ltb x y := negb (Qle_bool y x);
|}.

Section ops.
Context {W : Type} `{NodeAlloc W}.
Implicit Types tr : wre_tree W.

Definition set_rootNode (v : Z) tr : wre_tree W :=
  WTree v (nodeAlloc tr) (size tr) (heap tr) (tworld tr).
Definition set_heap (h : gmap Z wre_node) tr : wre_tree W :=
  WTree (rootNode tr) (nodeAlloc tr) (size tr) h (tworld tr).
Definition set_tworld (w : W) tr : wre_tree W :=
  WTree (rootNode tr) (nodeAlloc tr) (size tr) (heap tr) w.
Definition set_size (v : Z) tr : wre_tree W :=
  WTree (rootNode tr) (nodeAlloc tr) v (heap tr) (tworld tr).

(** Read and write through a pointer. *)
Definition rd tr (p : Z) : outcome wre_node := deref (heap tr !! p).
Definition wr (p : Z) (f : wre_node → wre_node) tr : outcome (wre_tree W) :=
  let! n := rd tr p in
  Ret (set_heap (<[p := f n]> (heap tr)) tr).
Definition wr_if (p : Z) (f : wre_node → wre_node) tr : outcome (wre_tree W) :=
  if negb (p =? NULL) then wr p f tr else Ret tr.

Definition wstore (s : wslot) (v : Z) tr : outcome (wre_tree W) :=
  match s with
  | PRoot => Ret (set_rootNode v tr)
  | PLeft n => wr n (set_left v) tr
  | PRight n => wr n (set_right v) tr
  end.

Definition get_root_placeholder tr (node : Z) : outcome wslot :=
  let! n := rd tr node in
  match which n with
  | LEFT_NODE => Ret (PLeft (parent n))
  | RIGHT_NODE => Ret (PRight (parent n))
  | ROOT_NODE => Ret PRoot
  end.

(** [p ? p->height + 1 : 0] and [p ? p->subtreeWeight : 0]. *)
Definition depth tr (p : Z) : outcome Z :=
  if negb (p =? NULL) then let! n := rd tr p in Ret (u64 (height n + 1)) else Ret 0.
Definition weight_of tr (p : Z) : outcome Z :=
  if negb (p =? NULL) then let! n := rd tr p in Ret (subtreeWeight n) else Ret 0.

Definition update_node_subtree_metadata (node : Z) tr : outcome (wre_tree W) :=
  let! n := rd tr node in
  let! left_depth := depth tr (left n) in
  let! right_depth := depth tr (right n) in
  let ht := if right_depth <? left_depth then left_depth else right_depth in
  let! left_weight := weight_of tr (left n) in
  let! right_weight := weight_of tr (right n) in
  wr node (set_metadata (u64 (u64 (left_weight + right_weight) + ownWeight n)) ht) tr.

Definition rotate_left (node : Z) tr : outcome (wre_tree W) :=
  let! root_placeholder := get_root_placeholder tr node in
  let x := node in
  let! xn := rd tr x in
  let z := right xn in
  let! zn := rd tr z in
  let t := left zn in
  let x_parent := parent xn in
  let! tr := wr x (set_right t) tr in
  let! tr := wr_if t (set_parent x) tr in
  let! tr := wr z (set_left x) tr in
  let! tr := wr x (set_parent z) tr in
  let! tr := wstore root_placeholder z tr in
  let! tr := wr z (set_parent x_parent) tr in
  let! xn := rd tr x in
  let! tr := wr z (set_which (which xn)) tr in
  let! tr := wr x (set_which LEFT_NODE) tr in
  let! tr := wr_if t (set_which RIGHT_NODE) tr in
  let! tr := update_node_subtree_metadata x tr in
  update_node_subtree_metadata z tr.

Definition rotate_right (node : Z) tr : outcome (wre_tree W) :=
  let! root_placeholder := get_root_placeholder tr node in
  let x := node in
  let! xn := rd tr x in
  let y := left xn in
  let! yn := rd tr y in
  let t := right yn in
  let x_parent := parent xn in
  let! tr := wr x (set_left t) tr in
  let! tr := wr_if t (set_parent x) tr in
  let! tr := wr y (set_right x) tr in
  let! tr := wr x (set_parent y) tr in
  let! tr := wstore root_placeholder y tr in
  let! tr := wr y (set_parent x_parent) tr in
  let! xn := rd tr x in
  let! tr := wr y (set_which (which xn)) tr in
  let! tr := wr x (set_which RIGHT_NODE) tr in
  let! tr := wr_if t (set_which LEFT_NODE) tr in
  let! tr := update_node_subtree_metadata x tr in
  update_node_subtree_metadata y tr.

Definition fix_rotate_left (node : Z) tr : outcome (wre_tree W) :=
  let! n := rd tr node in
  let right_node := right n in
  let! rn := rd tr right_node in
  let! left_nodes := depth tr (left rn) in
  let! right_nodes := depth tr (right rn) in
  let diff := i64 (i64 right_nodes - i64 left_nodes) in
  let! _ := c_assert (-2 <=? diff) in
  let! _ := c_assert (-1 <=? diff) in
  let! tr := (if diff <? 0 then rotate_right right_node tr else Ret tr) in
  rotate_left node tr.

Definition fix_rotate_right (node : Z) tr : outcome (wre_tree W) :=
  let! n := rd tr node in
  let left_node := left n in
  let! ln := rd tr left_node in
  let! left_nodes := depth tr (left ln) in
  let! right_nodes := depth tr (right ln) in
  let diff := i64 (i64 right_nodes - i64 left_nodes) in
  let! _ := c_assert (diff <=? 2) in
  let! _ := c_assert (diff <=? 1) in
  let! tr := (if 0 <? diff then rotate_left left_node tr else Ret tr) in
  rotate_right node tr.

(** One pass of the loop of [balance_upwards], at [node] (already moved up). *)
Definition balance_node (node : Z) tr : outcome (wre_tree W) :=
  let! n := rd tr node in
  let! left_nodes := depth tr (left n) in
  let! right_nodes := depth tr (right n) in
  let diff := i64 (i64 right_nodes - i64 left_nodes) in
  let! _ := c_assert (Z.abs diff <=? 3) in
  if 1 <? diff then fix_rotate_left node tr
  else if diff <? -1 then fix_rotate_right node tr
  else update_node_subtree_metadata node tr.

Fixpoint balance_upwards (fuel : nat) (node : Z) tr : outcome (wre_tree W) :=
  match fuel with
  | O => Stop OutOfFuel
  | S fuel =>
      let! n := rd tr node in
      if parent n =? NULL then Ret tr else
      let! _ := c_assert (negb (node =? parent n)) in
      let node := parent n in
      let! tr := balance_node node tr in
      balance_upwards fuel node tr
  end.

(** Enough for every path of a tree with fewer than [2^32] nodes, visited twice. *)
Definition WRE_FUEL : nat := 160.

Definition node_create (alloc : Z) (wh : which_node_e) tr : outcome (Z * wre_tree W) :=
  let! (ret, w) := na_malloc alloc (tworld tr) in
  let tr := set_tworld w tr in
  if negb (ret =? NULL) then
    Ret (ret, set_heap (<[ret := WNode 0 0 0 NULL NULL NULL wh NULL]> (heap tr)) tr)
  else Ret (ret, tr).

Definition node_destroy (node : Z) tr : outcome (wre_tree W) :=
  let! w := na_free node (tworld tr) in
  Ret (set_tworld w tr).

Fixpoint wre_calculate_subtree_size (fuel : nat) tr (node : Z) : outcome Z :=
  match fuel with
  | O => Stop OutOfFuel
  | S fuel =>
      if node =? NULL then Ret 0 else
      let! n := rd tr node in
      let! rl := wre_calculate_subtree_size fuel tr (left n) in
      let! rr := wre_calculate_subtree_size fuel tr (right n) in
      let ret := u64 (u64 (rl + rr) + ownWeight n) in
      let! _ := c_assert (ret =? subtreeWeight n) in
      let! max_subheight_left :=
        (if negb (left n =? NULL) then
           let! ln := rd tr (left n) in
           let! _ := c_assert (bool_decide (which ln = LEFT_NODE)) in
           let! _ := c_assert (parent ln =? node) in
           Ret (i32 (height ln + 1))
         else Ret 0) in
      let! max_subheight_right :=
        (if negb (right n =? NULL) then
           let! rn := rd tr (right n) in
           let! _ := c_assert (bool_decide (which rn = RIGHT_NODE)) in
           let! _ := c_assert (parent rn =? node) in
           Ret (i32 (height rn + 1))
         else Ret 0) in
      let max_subheight := u64 (if max_subheight_right <? max_subheight_left
                                then max_subheight_left else max_subheight_right) in
      let! _ := c_assert (max_subheight =? height n) in
      let! _ := c_assert (Z.abs (i32 (max_subheight_left - max_subheight_right)) <? 2) in
      Ret ret
  end.

Definition wre_calculate_total_size tr : outcome Z :=
  wre_calculate_subtree_size WRE_FUEL tr (rootNode tr).

(** ** Search, insertion and removal *)
Section compare.
Context (is_lower_check : Z → Z → bool).

Fixpoint find_node_from (fuel : nat) tr (cnode d : Z) : outcome Z :=
  match fuel with
  | O => Stop OutOfFuel
  | S fuel =>
      if cnode =? NULL then Ret NULL else
      let! n := rd tr cnode in
      if is_lower_check (data n) d then find_node_from fuel tr (right n) d
      else if negb (is_lower_check d (data n)) then Ret cnode
      else find_node_from fuel tr (left n) d
  end.

Definition find_node tr (d : Z) : outcome Z := find_node_from WRE_FUEL tr (rootNode tr) d.

(** The descent of [wre_put]: [slot] is the pointer [cnode], [p] what it holds. *)
Fixpoint put_descend (fuel : nat) tr (slot : wslot) (p par : Z) (wh : which_node_e) (d : Z)
  : outcome (wslot * Z * which_node_e) :=
  match fuel with
  | O => Stop OutOfFuel
  | S fuel =>
      if p =? NULL then Ret (slot, par, wh) else
      let! n := rd tr p in
      if is_lower_check (data n) d then put_descend fuel tr (PRight p) (right n) p RIGHT_NODE d
      else put_descend fuel tr (PLeft p) (left n) p LEFT_NODE d
  end.

Definition wre_put tr (d weight : Z) : outcome (wre_tree W) :=
  let! (slot, par, wh) := put_descend WRE_FUEL tr PRoot (rootNode tr) NULL ROOT_NODE d in
  let! (c, tr) := node_create (nodeAlloc tr) wh tr in
  let! tr := wstore slot c tr in
  let! tr := wr c (set_parent par) tr in
  let! tr := wr c (λ n, WNode weight weight (height n) (left n) (right n) (parent n) (which n) d) tr in
  let! tr := balance_upwards WRE_FUEL c tr in
  Ret (set_size (u64 (size tr + 1)) tr).

Definition wre_find tr (d : Z) : outcome Z :=
  let! cnode := find_node tr d in
  if negb (cnode =? NULL) then let! n := rd tr cnode in Ret (data n) else Ret NULL.

(** [while (replacer->left) replacer = replacer->left;] *)
Fixpoint leftmost (fuel : nat) tr (p : Z) : outcome Z :=
  match fuel with
  | O => Stop OutOfFuel
  | S fuel =>
      let! n := rd tr p in
      if left n =? NULL then Ret p else leftmost fuel tr (left n)
  end.
Fixpoint rightmost (fuel : nat) tr (p : Z) : outcome Z :=
  match fuel with
  | O => Stop OutOfFuel
  | S fuel =>
      let! n := rd tr p in
      if right n =? NULL then Ret p else rightmost fuel tr (right n)
  end.

(** The removal of a node with no children: clears the parent's field and picks
    the node to balance from. *)
Definition detach_childless (n : wre_node) tr : outcome (Z * wre_tree W) :=
  match which n with
  | LEFT_NODE =>
      let! pn := rd tr (parent n) in
      let balanced := if negb (right pn =? NULL) then right pn else parent n in
      let! tr := wr (parent n) (set_left NULL) tr in
      Ret (balanced, tr)
  | RIGHT_NODE =>
      let! pn := rd tr (parent n) in
      let balanced := if negb (left pn =? NULL) then left pn else parent n in
      let! tr := wr (parent n) (set_right NULL) tr in
      Ret (balanced, tr)
  | ROOT_NODE =>
      if right n =? NULL then Ret (NULL, set_rootNode NULL tr) else Ret (NULL, tr)
  end.

(** The hard case: the replacer is the smallest node of the right subtree; it is
    unlinked and its right child takes its place. *)
Definition detach_replacer (cnode : Z) tr : outcome (Z * Z * wre_tree W) :=
  let! n := rd tr cnode in
  let! replacer := leftmost WRE_FUEL tr (right n) in
  let! rn := rd tr replacer in
  let! tr := (match which rn with
              | LEFT_NODE => wr (parent rn) (set_left (right rn)) tr
              | RIGHT_NODE =>
                  let! tr := wr (parent rn) (set_right (right rn)) tr in
                  wr cnode (set_right (right rn)) tr
              | ROOT_NODE => Stop AssertFailed
              end) in
  let! tr := (if negb (right rn =? NULL) then
                let! tr := wr (right rn) (set_parent (parent rn)) tr in
                wr (right rn) (set_which (which rn)) tr
              else Ret tr) in
  let! balanced := (if negb (right rn =? NULL) then Ret (right rn) else
                    let! pn := rd tr (parent rn) in
                    Ret (if negb (right pn =? NULL) then right pn
                         else if negb (left pn =? NULL) then left pn else parent rn)) in
  Ret (replacer, balanced, tr).

(** The replacer takes the place of [cnode]. *)
Definition put_in_place (cnode replacer : Z) tr : outcome (wre_tree W) :=
  let! n := rd tr cnode in
  let! tr := wr replacer (set_parent (parent n)) tr in
  let! tr := wr replacer (set_which (which n)) tr in
  let! tr := wr replacer (set_right (right n)) tr in
  let! tr := wr_if (right n) (set_parent replacer) tr in
  let! tr := wr replacer (set_left (left n)) tr in
  let! tr := wr_if (left n) (set_parent replacer) tr in
  match which n with
  | LEFT_NODE => wr (parent n) (set_left replacer) tr
  | RIGHT_NODE => wr (parent n) (set_right replacer) tr
  | ROOT_NODE => Ret (set_rootNode replacer tr)
  end.

Definition wre_remove tr (d : Z) : outcome (Z * wre_tree W) :=
  let! cnode := find_node tr d in
  if cnode =? NULL then Ret (NULL, tr) else
  let! n := rd tr cnode in
  let ret_data := data n in
  let! (replacer, balanced_node, tr) :=
    (if left n =? NULL then
       if negb (right n =? NULL) then
         let! tr := wr cnode (set_right NULL) tr in
         Ret (right n, right n, tr)
       else
         let! (b, tr) := detach_childless n tr in Ret (NULL, b, tr)
     else if right n =? NULL then
       let! tr := wr cnode (set_left NULL) tr in
       Ret (left n, left n, tr)
     else detach_replacer cnode tr) in
  let! tr := (if negb (replacer =? NULL) then put_in_place cnode replacer tr else Ret tr) in
  let! tr :=
    (if negb (balanced_node =? NULL) then
       let! tr := update_node_subtree_metadata balanced_node tr in
       balance_upwards WRE_FUEL balanced_node tr
     else if negb (replacer =? NULL) then
       let! rn := rd tr replacer in
       let! tr := (if negb (left rn =? NULL) then
                     let! tr := update_node_subtree_metadata (left rn) tr in
                     balance_upwards WRE_FUEL balanced_node tr
                   else Ret tr) in
       update_node_subtree_metadata replacer tr
     else Ret tr) in
  let! tr := node_destroy cnode tr in
  Ret (ret_data, set_size (u64 (size tr - 1)) tr).

End compare.

(** ** Search by weight *)
Section weighted.
Context `{Dbl}.

(** The loop of [wre_find_weighted_nodes_internal]; [pct] is what
    [*from_left_percentage] holds. *)
Fixpoint find_weighted_loop (fuel : nat) tr (ratio : dbl) (best cnode : Z) (pct : dbl)
  : outcome (Z * dbl) :=
  match fuel with
  | O => Stop OutOfFuel
  | S fuel =>
      if cnode =? NULL then Ret (best, pct) else
      let! n := rd tr cnode in
      if subtreeWeight n =? 0 then find_weighted_loop fuel tr ratio best (right n) pct else
      let! left_weight := weight_of tr (left n) in
      let left_plus_own_weight := u64 (left_weight + ownWeight n) in
      let sw := dbl_of_size (subtreeWeight n) in
      let nratio_left := dbl_div (dbl_of_size left_weight) sw in
      let nratio_right := dbl_div (dbl_of_size left_plus_own_weight) sw in
      let best := cnode in
      if dbl_ltb ratio nratio_left then
        find_weighted_loop fuel tr (dbl_div ratio nratio_left) best (left n) pct
      else if dbl_ltb nratio_right ratio then
        find_weighted_loop fuel tr
          (dbl_div (dbl_sub ratio nratio_right) (dbl_sub (dbl_of_size 1) nratio_right))
          best (right n) pct
      else
        let from_left := dbl_sub ratio nratio_left in
        let width := dbl_sub nratio_right nratio_left in
        Ret (cnode, dbl_div from_left width)
  end.

Definition wre_find_weighted_nodes_internal tr (ratio pct : dbl) : outcome (Z * dbl) :=
  find_weighted_loop WRE_FUEL tr ratio (rootNode tr) (rootNode tr) pct.

Definition wre_find_weighted tr (ratio : dbl) : outcome Z :=
  let! (best, _) := wre_find_weighted_nodes_internal tr ratio (dbl_of_size 0) in
  if negb (best =? NULL) then let! n := rd tr best in Ret (data n) else Ret NULL.

(** The climb of [wre_find_node_right] and its mirror. *)
Fixpoint climb_right (fuel : nat) tr (t : Z) : outcome Z :=
  match fuel with
  | O => Stop OutOfFuel
  | S fuel =>
      let! n := rd tr t in
      match which n with
      | RIGHT_NODE => climb_right fuel tr (parent n)
      | LEFT_NODE =>
          let! pn := rd tr (parent n) in
          if right pn =? NULL then climb_right fuel tr (parent n) else Ret t
      | ROOT_NODE => Ret t
      end
  end.
Fixpoint climb_left (fuel : nat) tr (t : Z) : outcome Z :=
  match fuel with
  | O => Stop OutOfFuel
  | S fuel =>
      let! n := rd tr t in
      match which n with
      | LEFT_NODE => climb_left fuel tr (parent n)
      | RIGHT_NODE =>
          let! pn := rd tr (parent n) in
          if left pn =? NULL then climb_left fuel tr (parent n) else Ret t
      | ROOT_NODE => Ret t
      end
  end.

Definition wre_find_node_right tr (node : Z) : outcome Z :=
  let! n := rd tr node in
  if negb (right n =? NULL) then leftmost WRE_FUEL tr (right n) else
  let! t := climb_right WRE_FUEL tr node in
  let! n := rd tr t in
  match which n with
  | LEFT_NODE =>
      let! _ := c_assert (negb (parent n =? NULL)) in
      let! pn := rd tr (parent n) in
      let! _ := c_assert (negb (right pn =? NULL)) in
      leftmost WRE_FUEL tr (right pn)
  | RIGHT_NODE => Stop AssertFailed
  | ROOT_NODE => Ret NULL
  end.

Definition wre_find_node_left tr (node : Z) : outcome Z :=
  let! n := rd tr node in
  if negb (left n =? NULL) then rightmost WRE_FUEL tr (left n) else
  let! t := climb_left WRE_FUEL tr node in
  let! n := rd tr t in
  match which n with
  | RIGHT_NODE =>
      let! _ := c_assert (negb (parent n =? NULL)) in
      let! pn := rd tr (parent n) in
      let! _ := c_assert (negb (left pn =? NULL)) in
      rightmost WRE_FUEL tr (left pn)
  | LEFT_NODE => Stop AssertFailed
  | ROOT_NODE => Ret NULL
  end.

Record wre_interpolated_result_t := WInterp {
  ir_left : Z;
  ir_right : Z;
  ir_percentage : dbl;
  ir_fallbackRequired : bool;
}.

Definition data_of tr (p : Z) : outcome Z := let! n := rd tr p in Ret (data n).

Definition wre_find_weighted_interpolated tr (ratio : dbl) : outcome wre_interpolated_result_t :=
  let zero := dbl_of_size 0 in
  let! (best_node, pct) := wre_find_weighted_nodes_internal tr ratio zero in
  if best_node =? NULL then Ret (WInterp NULL NULL zero false) else
  let! right_node := wre_find_node_right tr best_node in
  let! l := data_of tr best_node in
  if dbl_ltb pct (dbl_of_size 1) then
    if negb (right_node =? NULL) then
      let! r := data_of tr right_node in Ret (WInterp l r pct false)
    else Ret (WInterp l NULL pct true)
  else
    let! _ := c_assert (right_node =? NULL) in
    let! left_node := wre_find_node_left tr best_node in
    if negb (left_node =? NULL) then
      let! r := data_of tr left_node in
      Ret (WInterp l r (dbl_sub (dbl_of_size 1) pct) false)
    else Ret (WInterp l NULL pct false).

End weighted.

(** ** Cloning

    [copy_recursive] reads the nodes of [src] and writes those of the clone
    [tr]; both live in one address space, so [heap] of the clone is extended. *)
Fixpoint copy_recursive (fuel : nat) (alloc dest : Z) (srcn : wre_node) (sh : gmap Z wre_node) tr
  : outcome (wre_tree W) :=
  match fuel with
  | O => Stop OutOfFuel
  | S fuel =>
      let! tr := (if negb (right srcn =? NULL) then
                    let! (p, tr) := node_create alloc RIGHT_NODE tr in
                    let! tr := wr dest (set_right p) tr in
                    let! sn := deref (sh !! right srcn) in
                    let! tr := wr p (λ _, sn) tr in
                    let! tr := wr p (set_parent dest) tr in
                    copy_recursive fuel alloc p sn sh tr
                  else Ret tr) in
      if negb (left srcn =? NULL) then
        let! (p, tr) := node_create alloc RIGHT_NODE tr in
        let! tr := wr dest (set_left p) tr in
        let! sn := deref (sh !! left srcn) in
        let! tr := wr p (λ _, sn) tr in
        let! tr := wr p (set_parent dest) tr in
        copy_recursive fuel alloc p sn sh tr
      else Ret tr
  end.

(** [tr] is the tree [wre_create] just made. *)
Definition wre_clone (src tr : wre_tree W) : outcome (wre_tree W) :=
  if negb (rootNode src =? NULL) then
    let! (p, tr) := node_create (nodeAlloc tr) ROOT_NODE tr in
    let tr := set_rootNode p tr in
    let! sn := rd src (rootNode src) in
    let! tr := wr p (λ _, sn) tr in
    copy_recursive WRE_FUEL (nodeAlloc tr) p sn (heap src) tr
  else Ret tr.

End ops.
