(* ===== verification/WreTree.v ===== *)
(** * Trees and positions for the weighted ranking tree

    The store of [Wre] is described by a tree and, while the tree is walked, by a
    position in it: a subtree and the path from it to the root.  Every cell of
    the store is determined by the description, parent links included. *)
From S2P Require Import Prelude Alloc Wre.

(** ** Sides *)
Inductive side := SL | SR.
Definition opp (s : side) : side := match s with SL => SR | SR => SL end.
Definition wside (s : side) : which_node_e := match s with SL => LEFT_NODE | SR => RIGHT_NODE end.
Definition wchild (s : side) (n : wre_node) : Z := match s with SL => left n | SR => right n end.
Definition set_wchild (s : side) (v : Z) (n : wre_node) : wre_node :=
  match s with SL => set_left v n | SR => set_right v n end.

(** ** Trees *)

(** The fields of a node that are not links. *)
Record info := Info { i_sw : Z; i_ow : Z; i_hh : Z; i_data : Z }.

Inductive tree :=
  | E
  | T (a : Z) (i : info) (l r : tree).

(** A node with its child on side [s] first. *)
Definition tnode (s : side) (a : Z) (i : info) (c c' : tree) : tree :=
  match s with SL => T a i c c' | SR => T a i c' c end.

Definition tptr (t : tree) : Z := match t with E => NULL | T a _ _ _ => a end.

Fixpoint addrs (t : tree) : list Z :=
  match t with E => [] | T a _ l r => a :: addrs l ++ addrs r end.

Fixpoint ht (t : tree) : Z :=
  match t with E => 0 | T _ _ l r => 1 + Z.max (ht l) (ht r) end.
Fixpoint wt (t : tree) : Z :=
  match t with E => 0 | T _ i l r => wt l + wt r + i_ow i end.

(** The entries [(data, weight)] in order. *)
Fixpoint inorder (t : tree) : list (Z * Z) :=
  match t with E => [] | T _ i l r => inorder l ++ (i_data i, i_ow i) :: inorder r end.

Definition dep (t : tree) : Z := match t with E => 0 | T _ i _ _ => u64 (i_hh i + 1) end.
Definition swt (t : tree) : Z := match t with E => 0 | T _ i _ _ => i_sw i end.

(** What [update_node_subtree_metadata] writes. *)
Definition meta (i : info) (l r : tree) : info :=
  Info (u64 (u64 (swt l + swt r) + i_ow i)) (i_ow i)
       (if dep r <? dep l then dep l else dep r) (i_data i).

(** Stored metadata is right and the tree is balanced. *)
Fixpoint ok (t : tree) : Prop :=
  match t with
  | E => True
  | T _ i l r => ok l ∧ ok r ∧ i_hh i = Z.max (ht l) (ht r) ∧
                 i_sw i = u64 (wt (T 0 i l r)) ∧ Z.abs (ht l - ht r) <= 1
  end.

Lemma ht_nonneg t : 0 <= ht t.
Proof. induction t; cbn; lia. Qed.

Lemma ht_zero t : ht t = 0 → t = E.
Proof. destruct t as [|a i l r]; cbn; [done|]. pose proof (ht_nonneg l). lia. Qed.

Lemma ok_dep t : ok t → ht t < 2 ^ 62 → dep t = ht t.
Proof.
  destruct t as [|a i l r]; cbn; [done|]. intros (_ & _ & -> & _) Hb.
  pose proof (ht_nonneg l). rewrite u64_small; [lia|]. unfold is_u64. lia.
Qed.

Lemma ok_swt t : ok t → swt t = u64 (wt t).
Proof. destruct t as [|a i l r]; cbn; [done|]. by intros (_ & _ & _ & -> & _). Qed.


(** Updating the metadata over good children gives a good node. *)
Lemma ok_meta a i l r :
  ok l → ok r → ht l < 2 ^ 62 → ht r < 2 ^ 62 → Z.abs (ht l - ht r) <= 1 → ok (T a (meta i l r) l r).
Proof.
  intros Hl Hr Hbl Hbr Hd. cbn. split_and!; try done.
  - rewrite !ok_dep by done. case_if; lia.
  - rewrite !ok_swt by done. rewrite u64_add_l, <- Z.add_assoc, u64_add_l.
    rewrite Z.add_assoc, (Z.add_comm (wt l)), <- Z.add_assoc, u64_add_l. f_equal. lia.
Qed.

(** On a good node the update changes nothing. *)
Lemma meta_id a i l r :
  ok (T a i l r) → ht (T a i l r) < 2 ^ 62 → meta i l r = i.
Proof.
  intros Hok Hb. pose proof Hok as (Hl & Hr & Hh & Hs & Hd). cbn in Hb.
  pose proof (ht_nonneg l). pose proof (ht_nonneg r).
  pose proof (ok_meta a i l r Hl Hr ltac:(lia) ltac:(lia) Hd) as (_ & _ & Hh' & Hs' & _).
  destruct i as [sw ow hh d]. cbn [i_sw i_ow i_hh i_data] in *. unfold meta in *.
  cbn [i_sw i_ow i_hh i_data] in *. rewrite Hs', Hh', Hs, Hh. done.
Qed.

Lemma inorder_tnode s a i c c' :
  inorder (tnode s a i c c') =
  match s with SL => inorder c ++ (i_data i, i_ow i) :: inorder c'
             | SR => inorder c' ++ (i_data i, i_ow i) :: inorder c end.
Proof. by destruct s. Qed.

Lemma ht_tnode s a i c c' : ht (tnode s a i c c') = 1 + Z.max (ht c) (ht c').
Proof. destruct s; cbn; lia. Qed.

Lemma addrs_tnode s a i c c' : addrs (tnode s a i c c') ≡ₚ a :: addrs c ++ addrs c'.
Proof. destruct s; cbn; [done|]. by rewrite (Permutation_app_comm (addrs c')). Qed.

Lemma tptr_tnode s a i c c' : tptr (tnode s a i c c') = a.
Proof. by destruct s. Qed.

Definition meta_s (s : side) (i : info) (c c' : tree) : info :=
  match s with SL => meta i c c' | SR => meta i c' c end.

Lemma ok_meta_s s a i c c' :
  ok c → ok c' → ht c < 2 ^ 62 → ht c' < 2 ^ 62 → Z.abs (ht c - ht c') <= 1 →
  ok (tnode s a (meta_s s i c c') c c').
Proof. destruct s; intros; apply ok_meta; try done; lia. Qed.

Lemma ok_tnode s a i c c' : ok (tnode s a i c c') → ok c ∧ ok c' ∧ Z.abs (ht c - ht c') <= 1.
Proof. destruct s; cbn; intros (? & ? & _ & _ & ?); split_and!; try done; lia. Qed.

Lemma inorder_meta_s s a i c c' :
  inorder (tnode s a (meta_s s i c c') c c') = inorder (tnode s a i c c').
Proof. by destruct s. Qed.

(** ** Positions: the path from a subtree to the root, innermost first *)
Inductive frame := Fr (s : side) (a : Z) (i : info) (o : tree).

Definition plug1 (f : frame) (t : tree) : tree :=
  match f with Fr s a i o => tnode s a i t o end.
Fixpoint plug (ctx : list frame) (t : tree) : tree :=
  match ctx with [] => t | f :: ctx => plug ctx (plug1 f t) end.

Definition cpar (ctx : list frame) : Z := match ctx with [] => NULL | Fr _ a _ _ :: _ => a end.
Definition cwhich (ctx : list frame) : which_node_e :=
  match ctx with [] => ROOT_NODE | Fr s _ _ _ :: _ => wside s end.

Fixpoint caddrs (ctx : list frame) : list Z :=
  match ctx with [] => [] | Fr _ a _ o :: ctx => a :: addrs o ++ caddrs ctx end.

(** The entries before and after the hole. *)
Fixpoint cbefore (ctx : list frame) : list (Z * Z) :=
  match ctx with
  | [] => []
  | Fr s a i o :: ctx =>
      cbefore ctx ++ match s with SL => [] | SR => inorder o ++ [(i_data i, i_ow i)] end
  end.
Fixpoint cafter (ctx : list frame) : list (Z * Z) :=
  match ctx with
  | [] => []
  | Fr s a i o :: ctx =>
      match s with SL => (i_data i, i_ow i) :: inorder o | SR => [] end ++ cafter ctx
  end.

Lemma inorder_plug ctx t : inorder (plug ctx t) = cbefore ctx ++ inorder t ++ cafter ctx.
Proof.
  revert t. induction ctx as [|[s a i o] ctx IH]; intros t; cbn [plug cbefore cafter plug1].
  - by rewrite app_nil_r.
  - rewrite IH, inorder_tnode. destruct s; by rewrite <- ?app_assoc, ?app_nil_r.
Qed.

Lemma addrs_plug ctx t : addrs (plug ctx t) ≡ₚ addrs t ++ caddrs ctx.
Proof.
  revert t. induction ctx as [|[s a i o] ctx IH]; intros t; cbn [plug caddrs plug1].
  - by rewrite app_nil_r.
  - rewrite IH, addrs_tnode. rewrite Permutation_middle. by rewrite <- app_assoc.
Qed.
