(* ===== verification/WreHeap.v ===== *)
(** * The store of the weighted ranking tree

    [tree_at tr ctx t]: the store of [tr] holds the tree whose subtree at the
    position [ctx] is [t].  Rotations, metadata updates and the balancing loop
    are followed on such positions. *)
From S2P Require Import Prelude Alloc Wre WreTree.

Definition cell (s : side) (i : info) (c c' par : Z) (wh : which_node_e) : wre_node :=
  match s with
  | SL => WNode (i_sw i) (i_ow i) (i_hh i) c c' par wh (i_data i)
  | SR => WNode (i_sw i) (i_ow i) (i_hh i) c' c par wh (i_data i)
  end.

Fixpoint rept (h : gmap Z wre_node) (t : tree) (par : Z) (wh : which_node_e) : Prop :=
  match t with
  | E => True
  | T a i l r => a ≠ NULL ∧ h !! a = Some (cell SL i (tptr l) (tptr r) par wh) ∧
                 rept h l a LEFT_NODE ∧ rept h r a RIGHT_NODE
  end.

Fixpoint repc (h : gmap Z wre_node) (root : Z) (ctx : list frame) (p : Z) : Prop :=
  match ctx with
  | [] => root = p
  | Fr s a i o :: ctx =>
      a ≠ NULL ∧ h !! a = Some (cell s i p (tptr o) (cpar ctx) (cwhich ctx)) ∧
      rept h o a (wside (opp s)) ∧ repc h root ctx a
  end.

Lemma rept_tnode h s a i c c' par wh :
  rept h (tnode s a i c c') par wh ↔
  a ≠ NULL ∧ h !! a = Some (cell s i (tptr c) (tptr c') par wh) ∧
  rept h c a (wside s) ∧ rept h c' a (wside (opp s)).
Proof. destruct s; cbn; tauto. Qed.

Lemma rept_frame h h' t par wh :
  rept h t par wh → (∀ y, y ∈ addrs t → h' !! y = h !! y) → rept h' t par wh.
Proof.
  revert par wh. induction t as [|a i l IHl r IHr]; intros par wh; cbn; [done|].
  intros (Ha & Hc & Hl & Hr) Hf. split; [done|]. split; [rewrite Hf by set_solver; done|].
  split; [apply IHl|apply IHr]; (done || (intros y Hy; apply Hf; set_solver)).
Qed.

Lemma repc_frame h h' root ctx p :
  repc h root ctx p → (∀ y, y ∈ caddrs ctx → h' !! y = h !! y) → repc h' root ctx p.
Proof.
  revert p. induction ctx as [|[s a i o] ctx IH]; intros p; cbn; [done|].
  intros (Ha & Hc & Ho & Hr) Hf. split; [done|]. split; [rewrite Hf by set_solver; done|].
  split; [eapply rept_frame; [done|]|apply IH; [done|]]; intros y Hy; apply Hf; set_solver.
Qed.

Lemma rept_nonnull h t par wh y : rept h t par wh → y ∈ addrs t → y ≠ NULL.
Proof.
  revert par wh. induction t as [|a i l IHl r IHr]; intros par wh; cbn; [set_solver|].
  intros (Ha & _ & Hl & Hr) [->|[Hy|Hy]%elem_of_app]%elem_of_cons; eauto.
Qed.

Lemma repc_nonnull h root ctx p y : repc h root ctx p → y ∈ caddrs ctx → y ≠ NULL.
Proof.
  revert p. induction ctx as [|[s a i o] ctx IH]; intros p; cbn; [set_solver|].
  intros (Ha & _ & Ho & Hr) [->|[Hy|Hy]%elem_of_app]%elem_of_cons; eauto using rept_nonnull.
Qed.

Lemma tptr_in t : tptr t ≠ NULL → tptr t ∈ addrs t.
Proof. destruct t; cbn; [done|]. by left. Qed.

(** Moving a subtree below another parent touches its top cell only. *)
Lemma rept_reparent h h' t par wh par' wh' :
  rept h t par wh → NoDup (addrs t) →
  (∀ y, y ∈ addrs t → y ≠ tptr t → h' !! y = h !! y) →
  (∀ n, h !! tptr t = Some n → t ≠ E → h' !! tptr t = Some (set_which wh' (set_parent par' n))) →
  rept h' t par' wh'.
Proof.
  destruct t as [|a i l r]; cbn; [done|]. intros (Ha & Hc & Hl & Hr) Hnd Hf Ht.
  apply NoDup_cons in Hnd as [Hna Hnd]. split; [done|]. split; [by apply (Ht _ Hc)|].
  split; (eapply rept_frame; [done|]); intros y Hy; apply Hf; set_solver.
Qed.

(** Equality of two programs with the same steps in a different nesting. *)
Ltac obind_cases :=
  repeat match goal with
  | |- context [obind ?m _] =>
      lazymatch m with obind _ _ => fail | _ => destruct m; cbn [obind]; [|reflexivity] end
  end; try reflexivity.

Section heap.
Context {W : Type} `{NodeAlloc W}.
Implicit Types tr : wre_tree W.

Definition tree_at tr (ctx : list frame) (t : tree) : Prop :=
  repc (heap tr) (rootNode tr) ctx (tptr t) ∧ rept (heap tr) t (cpar ctx) (cwhich ctx) ∧
  NoDup (addrs t ++ caddrs ctx).

(** All that the structural operations leave alone. *)
Definition same_frame tr tr' : Prop :=
  nodeAlloc tr' = nodeAlloc tr ∧ size tr' = size tr ∧ tworld tr' = tworld tr.

Lemma same_frame_refl tr : same_frame tr tr.
Proof. done. Qed.
Lemma same_frame_trans tr1 tr2 tr3 : same_frame tr1 tr2 → same_frame tr2 tr3 → same_frame tr1 tr3.
Proof. unfold same_frame. intros (-> & -> & ->) (-> & -> & ->). done. Qed.

(** Going up one level is a change of description only. *)
Lemma tree_at_up tr f ctx t : tree_at tr (f :: ctx) t ↔ tree_at tr ctx (plug1 f t).
Proof.
  destruct f as [s a i o]. unfold tree_at. cbn [repc cpar cwhich caddrs plug1].
  rewrite tptr_tnode, rept_tnode.
  assert (addrs t ++ a :: addrs o ++ caddrs ctx ≡ₚ addrs (tnode s a i t o) ++ caddrs ctx) as Hp.
  { rewrite addrs_tnode. cbn. rewrite <- Permutation_middle. by rewrite app_assoc. }
  rewrite Hp. tauto.
Qed.

Lemma tree_at_plug tr ctx t : tree_at tr ctx t ↔ tree_at tr [] (plug ctx t).
Proof.
  revert t. induction ctx as [|f ctx IH]; intros t; cbn; [done|]. by rewrite tree_at_up, IH.
Qed.

(** Seen from the other child. *)
Lemma tnode_opp s a i c c' : tnode (opp s) a i c' c = tnode s a i c c'.
Proof. by destruct s. Qed.

Lemma tree_at_flip tr s a i o ctx t :
  tree_at tr (Fr s a i o :: ctx) t ↔ tree_at tr (Fr (opp s) a i t :: ctx) o.
Proof. rewrite !tree_at_up. cbn. by rewrite tnode_opp. Qed.

Lemma tree_at_ptr tr ctx a i l r : tree_at tr ctx (T a i l r) → a ≠ NULL.
Proof. by intros (_ & (Ha & _) & _). Qed.

Lemma tree_at_cell tr ctx s a i c c' :
  tree_at tr ctx (tnode s a i c c') →
  heap tr !! a = Some (cell s i (tptr c) (tptr c') (cpar ctx) (cwhich ctx)).
Proof. intros (_ & Hr & _). apply rept_tnode in Hr. apply Hr. Qed.

(** ** Metadata *)
Lemma depth_dep h tr t par wh :
  heap tr = h → rept h t par wh → depth tr (tptr t) = Ret (dep t) ∧ weight_of tr (tptr t) = Ret (swt t).
Proof.
  intros <-. unfold depth, weight_of, rd. destruct t as [|a i l r]; cbn; [done|].
  intros (Ha & -> & _). destruct (a =? NULL) eqn:Ea; zb; [done|]. by cbn.
Qed.

Lemma update_at tr ctx a i l r :
  tree_at tr ctx (T a i l r) →
  ∃ tr', update_node_subtree_metadata a tr = Ret tr' ∧
    tree_at tr' ctx (T a (meta i l r) l r) ∧ same_frame tr tr'.
Proof.
  intros (Hc & Hr & Hnd). pose proof Hr as (Ha & Hcell & Hl & Hrr).
  unfold update_node_subtree_metadata, rd. rewrite Hcell. cbn [deref obind cell left right ownWeight].
  destruct (depth_dep _ tr _ _ _ eq_refl Hl) as [-> ->].
  destruct (depth_dep _ tr _ _ _ eq_refl Hrr) as [-> ->]. cbn [obind].
  unfold wr, rd. rewrite Hcell. cbn [deref obind].
  eexists. split; [done|]. split; [|done]. cbn in Hnd. apply NoDup_cons in Hnd as [Hna Hnd].
  split; [|split; [|cbn; by apply NoDup_cons]].
  - eapply repc_frame; [done|]. intros y Hy. cbn. apply lookup_insert_ne. set_solver.
  - cbn. rewrite lookup_insert_eq. split; [done|]. split; [done|].
    split; (eapply rept_frame; [done|]); intros y Hy; apply lookup_insert_ne; set_solver.
Qed.

Lemma update_at_s tr ctx s a i c c' :
  tree_at tr ctx (tnode s a i c c') →
  ∃ tr', update_node_subtree_metadata a tr = Ret tr' ∧
    tree_at tr' ctx (tnode s a (meta_s s i c c') c c') ∧ same_frame tr tr'.
Proof. destruct s; apply update_at. Qed.

(** A good node is left as it is. *)
Lemma update_at_ok tr ctx a i l r :
  tree_at tr ctx (T a i l r) → ok (T a i l r) → ht (T a i l r) < 2 ^ 62 →
  update_node_subtree_metadata a tr = Ret tr.
Proof.
  intros Hat Hok Hb. pose proof Hat as (_ & (Ha & Hcell & Hl & Hr) & _).
  unfold update_node_subtree_metadata, rd. rewrite Hcell. cbn [deref obind cell left right ownWeight].
  destruct (depth_dep _ tr _ _ _ eq_refl Hl) as [-> ->].
  destruct (depth_dep _ tr _ _ _ eq_refl Hr) as [-> ->]. cbn [obind].
  unfold wr, rd. rewrite Hcell. cbn [deref obind]. f_equal.
  pose proof (meta_id a i l r Hok Hb) as Hm. unfold set_heap, set_metadata. cbn.
  rewrite insert_id; [by destruct tr|]. rewrite Hcell. f_equal.
  unfold meta in Hm. destruct i. cbn in *. by injection Hm as -> ->.
Qed.

(** ** Field writes *)
Lemma wr_ok tr p f n :
  heap tr !! p = Some n → wr p f tr = Ret (set_heap (<[p := f n]> (heap tr)) tr).
Proof. intros Hp. unfold wr, rd. by rewrite Hp. Qed.

Lemma wr_if_ok tr p f n :
  p ≠ NULL → heap tr !! p = Some n → wr_if p f tr = Ret (set_heap (<[p := f n]> (heap tr)) tr).
Proof. intros Hp Hn. unfold wr_if. destruct (p =? NULL) eqn:Ep; zb; [done|]. by apply wr_ok. Qed.

(** The field above a position. *)
Definition cslot (ctx : list frame) : wslot :=
  match ctx with
  | [] => PRoot
  | Fr SL a _ _ :: _ => PLeft a
  | Fr SR a _ _ :: _ => PRight a
  end.

Lemma wstore_ok tr ctx p v :
  repc (heap tr) (rootNode tr) ctx p → NoDup (caddrs ctx) →
  ∃ tr', wstore (cslot ctx) v tr = Ret tr' ∧ repc (heap tr') (rootNode tr') ctx v ∧
    (∀ y, y ∉ caddrs ctx → heap tr' !! y = heap tr !! y) ∧ same_frame tr tr'.
Proof.
  destruct ctx as [|[s a i o] ctx]; cbn [repc caddrs cslot].
  - intros _ _. eexists. split; [done|]. by cbn.
  - intros (Ha & Hc & Ho & Hr) Hnd. apply NoDup_cons in Hnd as [Hna _].
    assert (wstore (match s with SL => PLeft a | SR => PRight a end) v tr
            = wr a (set_wchild s v) tr) as -> by by destruct s.
    rewrite (wr_ok _ _ _ _ Hc). eexists. split; [done|]. cbn.
    split; [|split; [intros y Hy; apply lookup_insert_ne; set_solver|done]].
    rewrite lookup_insert_eq. split; [done|]. split; [by destruct s|].
    split; [eapply rept_frame; [done|]|eapply repc_frame; [done|]]; intros y Hy;
      apply lookup_insert_ne; set_solver.
Qed.

Lemma placeholder_ok tr p ctx n :
  heap tr !! p = Some n → parent n = cpar ctx → which n = cwhich ctx →
  get_root_placeholder tr p = Ret (cslot ctx).
Proof.
  intros Hp Hpar Hwh. unfold get_root_placeholder, rd. rewrite Hp. cbn. rewrite Hwh, Hpar.
  by destruct ctx as [|[[] a i o] ctx].
Qed.

(** ** Rotations, both directions at once *)

(** The links a rotation towards [s] changes. *)
Definition relink (s : side) (node : Z) tr : outcome (Z * wre_tree W) :=
  let! root_placeholder := get_root_placeholder tr node in
  let x := node in
  let! xn := rd tr x in
  let z := wchild (opp s) xn in
  let! zn := rd tr z in
  let t := wchild s zn in
  let x_parent := parent xn in
  let! tr := wr x (set_wchild (opp s) t) tr in
  let! tr := wr_if t (set_parent x) tr in
  let! tr := wr z (set_wchild s x) tr in
  let! tr := wr x (set_parent z) tr in
  let! tr := wstore root_placeholder z tr in
  let! tr := wr z (set_parent x_parent) tr in
  let! xn := rd tr x in
  let! tr := wr z (set_which (which xn)) tr in
  let! tr := wr x (set_which (wside s)) tr in
  let! tr := wr_if t (set_which (wside (opp s))) tr in
  Ret (z, tr).

Definition rotate (s : side) (node : Z) tr : outcome (wre_tree W) :=
  let! (z, tr) := relink s node tr in
  let! tr := update_node_subtree_metadata node tr in
  update_node_subtree_metadata z tr.

Lemma rotate_left_eq node tr : rotate_left node tr = rotate SL node tr.
Proof. unfold rotate_left, rotate, relink. cbn [opp wchild wside].
  change (set_wchild SL) with set_left. change (set_wchild SR) with set_right. obind_cases. Qed.
Lemma rotate_right_eq node tr : rotate_right node tr = rotate SR node tr.
Proof. unfold rotate_right, rotate, relink. cbn [opp wchild wside].
  change (set_wchild SL) with set_left. change (set_wchild SR) with set_right. obind_cases. Qed.

Lemma wchild_cell s i c c' par wh :
  wchild s (cell s i c c' par wh) = c ∧ wchild (opp s) (cell s i c c' par wh) = c' ∧
  parent (cell s i c c' par wh) = par ∧ which (cell s i c c' par wh) = wh.
Proof. by destruct s. Qed.

(** *** Sequences of field writes

    A write through a null pointer is the skipped branch of [if (p) p->f = v]. *)
Fixpoint writes (l : list (Z * (wre_node → wre_node))) tr : outcome (wre_tree W) :=
  match l with
  | [] => Ret tr
  | (p, f) :: l => let! tr := wr_if p f tr in writes l tr
  end.

(** What the sequence does to the cell at [q]. *)
Fixpoint effect (l : list (Z * (wre_node → wre_node))) (q : Z) (n : wre_node) : wre_node :=
  match l with
  | [] => n
  | (p, f) :: l => effect l q (if decide (p = q) then f n else n)
  end.

Lemma wr_wr_if p f tr : p ≠ NULL → wr p f tr = wr_if p f tr.
Proof. intros Hp. unfold wr_if. destruct (p =? NULL) eqn:Ep; zb; done. Qed.

Lemma writes_ok l tr :
  (∀ p f, (p, f) ∈ l → p ≠ NULL → is_Some (heap tr !! p)) →
  ∃ tr', writes l tr = Ret tr' ∧ rootNode tr' = rootNode tr ∧ same_frame tr tr' ∧
    ∀ q, q ≠ NULL → heap tr' !! q = effect l q <$> heap tr !! q.
Proof.
  revert tr. induction l as [|[p f] l IH]; intros tr Hl; cbn [writes effect].
  { exists tr. split_and!; [done|done|done|]. intros q _. by destruct (heap tr !! q). }
  destruct (decide (p = NULL)) as [->|Hp].
  - unfold wr_if. cbn. destruct (IH tr) as (tr' & Hrun & Hroot & Hs & Hq).
    { intros p' f' Hin. apply (Hl p' f'). by right. }
    exists tr'. split_and!; [done|done|done|]. intros q Hq0. rewrite Hq by done.
    destruct (heap tr !! q); cbn; [|done]. by rewrite decide_False.
  - destruct (Hl p f ltac:(by left) Hp) as [n Hn]. rewrite (wr_if_ok _ _ _ _ Hp Hn). cbn [obind].
    destruct (IH (set_heap (<[p := f n]> (heap tr)) tr)) as (tr' & Hrun & Hroot & Hs & Hq).
    { intros p' f' Hin Hp'. cbn. destruct (decide (p' = p)) as [->|]; [by rewrite lookup_insert_eq|].
      rewrite lookup_insert_ne by done. apply (Hl p' f'); [by right|done]. }
    exists tr'. split_and!; [done|done|done|]. intros q Hq0. rewrite Hq by done. cbn.
    destruct (decide (p = q)) as [->|Hd].
    + by rewrite lookup_insert_eq, Hn.
    + by rewrite lookup_insert_ne.
Qed.

Lemma writes_frame (l : list (Z * (wre_node → wre_node))) (h h' : gmap Z wre_node) q :
  (∀ q, q ≠ NULL → h' !! q = effect l q <$> h !! q) → q ≠ NULL → q ∉ l.*1 → h' !! q = h !! q.
Proof.
  intros Hq Hq0 Hni. rewrite Hq by done. destruct (h !! q) as [n|]; cbn; [|done]. f_equal. clear Hq.
  revert n. induction l as [|[p f] l IH]; intros n; cbn in *; [done|].
  apply not_elem_of_cons in Hni as [? ?]. rewrite decide_False by done. by apply IH.
Qed.

End heap.

(** Compute [effect] from the (in)equalities of the context. *)
Ltac eff :=
  cbn [effect];
  repeat first [rewrite decide_True by done | rewrite decide_False by (done || congruence || set_solver)].

(** Follow in the goal the steps of a run [H]. *)
Ltac replay H :=
  repeat (let a := fresh "st" in let Ea := fresh "Erun" in
          apply obind_Ret_inv in H as (a & Ea & H);
          first [rewrite Ea | rewrite wr_wr_if by done; rewrite Ea]; cbn [obind]; clear Ea);
  injection H as ->.


Section balance.
Context {W : Type} `{NodeAlloc W}.
Implicit Types tr : wre_tree W.

Lemma relink_ok tr ctx s x ix y z iz t r :
  tree_at tr ctx (tnode s x ix y (tnode s z iz t r)) →
  ∃ tr', relink s x tr = Ret (z, tr') ∧
    tree_at tr' (Fr s z iz r :: ctx) (tnode s x ix y t) ∧ same_frame tr tr'.
Proof.
  intros (Hc & Hr & Hnd).
  assert (NoDup (x :: addrs y ++ z :: addrs t ++ addrs r ++ caddrs ctx)) as Hnd1.
  { revert Hnd. rewrite addrs_tnode, addrs_tnode. cbn. rewrite <- !app_assoc. cbn. by rewrite <- !app_assoc. }
  rewrite tptr_tnode in Hc. apply rept_tnode in Hr as (Hx0 & Hx & Hy & Hz).
  rewrite tptr_tnode in Hx. apply rept_tnode in Hz as (Hz0 & Hz & Ht & Hr).
  destruct (wchild_cell s ix (tptr y) z (cpar ctx) (cwhich ctx)) as (_ & Ex2 & Ex3 & Ex4).
  destruct (wchild_cell s iz (tptr t) (tptr r) x (wside (opp s))) as (Ez1 & _ & _ & _).
  unfold relink. rewrite (placeholder_ok _ _ ctx _ Hx Ex3 Ex4). cbn [obind].
  unfold rd at 1 2. rewrite Hx. cbn [deref obind]. rewrite Ex2, Hz. cbn [deref obind]. rewrite Ez1, Ex3.
  pose proof Hnd1 as Hnd2.
  apply NoDup_cons in Hnd2 as [Hxn Hnd2]. apply NoDup_app in Hnd2 as (Hndy & Hyn & Hnd2).
  apply NoDup_cons in Hnd2 as [Hzn Hnd2]. apply NoDup_app in Hnd2 as (Hndt & Htn & Hnd2).
  apply NoDup_app in Hnd2 as (Hndr & Hrn & Hndc).
  assert (x ≠ z) as Hxz by set_solver.
  assert (tptr t ≠ NULL → is_Some (heap tr !! tptr t) ∧ tptr t ∈ addrs t) as Htp.
  { destruct t as [|b ib bl br]; cbn; [done|]. intros _. destruct Ht as (_ & -> & _). split; [done|by left]. }
  destruct (writes_ok [(x, set_wchild (opp s) (tptr t)); (tptr t, set_parent x);
                       (z, set_wchild s x); (x, set_parent z)] tr) as (tr1 & Hrun1 & Hroot1 & Hs1 & H1).
  { intros p f Hin Hp. repeat (apply elem_of_cons in Hin as [Hin|Hin]; [injection Hin as -> _; eauto; by apply Htp|]).
    by apply not_elem_of_nil in Hin. }
  cbn [writes] in Hrun1. replay Hrun1.
  assert (∀ q, q ≠ NULL → q ≠ x → q ≠ z → q ≠ tptr t → heap tr1 !! q = heap tr !! q) as F1.
  { intros q ? ? ? ?. eapply writes_frame; [exact H1|done|]. cbn. set_solver. }
  assert (∀ q, q ∈ caddrs ctx → q ≠ NULL ∧ q ≠ x ∧ q ≠ z ∧ (q ∉ addrs t)) as Hq.
  { intros q Hqc. split; [by eapply repc_nonnull|]. set_solver. }
  assert (∀ q, (q ∉ addrs t) → q ≠ NULL → q ≠ tptr t) as Hqt.
  { intros q Hqt Hq0 ->. by apply Hqt, tptr_in. }
  assert (repc (heap tr1) (rootNode tr1) ctx x) as Hc1.
  { rewrite Hroot1. eapply repc_frame; [done|]. intros q Hqc%Hq. naive_solver. }
  destruct (wstore_ok tr1 ctx x z Hc1 Hndc) as (tr2 & -> & Hc2 & H2 & Hs2). cbn [obind].
  assert (heap tr2 !! x = heap tr1 !! x) as Ex by (apply H2; set_solver).
  assert (heap tr2 !! z = heap tr1 !! z) as Ez by (apply H2; set_solver).
  assert (∀ q, q ∈ addrs t → heap tr2 !! q = heap tr1 !! q) as Et by (intros; apply H2; set_solver).
  pose proof (H1 x Hx0) as H1x. rewrite Hx in H1x. pose proof (H1 z Hz0) as H1z. rewrite Hz in H1z.
  cbn [fmap option_fmap option_map] in H1x, H1z. 
  destruct (writes_ok [(z, set_parent (cpar ctx)); (z, set_which (cwhich ctx)); (x, set_which (wside s));
                       (tptr t, set_which (wside (opp s)))] tr2) as (tr3 & Hrun3 & Hroot3 & Hs3 & H3).
  { intros p f Hin Hp. repeat (apply elem_of_cons in Hin as [Hin|Hin]; [injection Hin as -> _|]).
    - rewrite Ez, H1z. done. - rewrite Ez, H1z. done. - rewrite Ex, H1x. done.
    - rewrite Et by (by apply Htp). rewrite H1 by done. destruct (proj1 (Htp Hp)) as [n ->]. done.
    - by apply not_elem_of_nil in Hin. }
  cbn [writes] in Hrun3. apply obind_Ret_inv in Hrun3 as (trm & Est & Hrun3).
  rewrite wr_wr_if by done. rewrite Est. cbn [obind].
  assert (heap trm !! x = heap tr1 !! x) as Estx.
  { rewrite (wr_if_ok _ _ _ _ Hz0 (eq_trans Ez H1z)) in Est. injection Est as <-. cbn.
    by rewrite lookup_insert_ne. }
  unfold rd at 1. rewrite Estx, H1x. cbn [deref obind].
  match goal with |- context [which ?n] => replace (which n) with (cwhich ctx) by (eff; by destruct s) end.
  replay Hrun3. exists tr3. split; [done|].
  split; [|eauto using same_frame_trans].
  assert (∀ q, q ≠ NULL → q ≠ x → q ≠ z → q ≠ tptr t → q ∉ caddrs ctx → heap tr3 !! q = heap tr !! q) as F3.
  { intros q ? ? ? ? Hqc. rewrite <- F1, <- (H2 q Hqc) by done.
    eapply writes_frame; [exact H3|done|]. cbn. set_solver. }
  assert (heap tr3 !! x = Some (cell s ix (tptr y) (tptr t) z (wside s))) as E3x.
  { rewrite H3, Ex, H1x by done. cbn [fmap option_fmap option_map]. f_equal. eff. by destruct s. }
  assert (heap tr3 !! z = Some (cell s iz x (tptr r) (cpar ctx) (cwhich ctx))) as E3z.
  { rewrite H3, Ez, H1z by done. cbn [fmap option_fmap option_map]. f_equal. eff. by destruct s. }
  assert (rept (heap tr3) y x (wside s)) as Hy3.
  { eapply rept_frame; [exact Hy|]. intros q Hqy. assert (q ≠ NULL) by (eapply rept_nonnull; [exact Hy|done]).
    apply F3; [done|set_solver|set_solver|apply Hqt; [set_solver|done]|set_solver]. }
  assert (rept (heap tr3) r z (wside (opp s))) as Hr3.
  { eapply rept_frame; [exact Hr|]. intros q Hqr. assert (q ≠ NULL) by (eapply rept_nonnull; [exact Hr|done]).
    apply F3; [done|set_solver|set_solver|apply Hqt; [set_solver|done]|set_solver]. }
  assert (rept (heap tr3) t x (wside (opp s))) as Ht3.
  { eapply (rept_reparent _ _ _ _ _ _ _ Ht Hndt).
    - intros q Hqt' Hne. apply F3; [eapply rept_nonnull; [exact Ht|done]|set_solver|set_solver|done|set_solver].
    - intros n Hn Hte. assert (tptr t ≠ NULL) as Htn0 by (destruct t; [done|]; by destruct Ht).
      destruct (Htp Htn0) as [_ Hti]. rewrite H3, Et, H1, Hn by done.
      cbn [fmap option_fmap option_map]. f_equal.
      assert (tptr t ≠ x ∧ tptr t ≠ z) as [? ?] by set_solver. by eff. }
  split; [|split].
  - rewrite tptr_tnode. cbn [repc]. split; [done|]. split; [done|]. split; [done|].
    rewrite Hroot3. eapply repc_frame; [exact Hc2|]. intros q Hqc.
    destruct (Hq q Hqc) as (? & ? & ? & ?). eapply writes_frame; [exact H3|done|]. cbn.
    pose proof (Hqt q). set_solver.
  - apply rept_tnode. done.
  - rewrite addrs_tnode. cbn [caddrs]. cbn. rewrite <- app_assoc. cbn.
    by rewrite <- (Permutation_middle (addrs t)).
Qed.

Lemma rotate_ok tr ctx s x ix y z iz t r :
  tree_at tr ctx (tnode s x ix y (tnode s z iz t r)) →
  let X := tnode s x (meta_s s ix y t) y t in
  ∃ tr', rotate s x tr = Ret tr' ∧
    tree_at tr' ctx (tnode s z (meta_s s iz X r) X r) ∧ same_frame tr tr'.
Proof.
  intros Hat X. destruct (relink_ok _ _ _ _ _ _ _ _ _ _ Hat) as (tr1 & Hrun & Hat1 & Hs1).
  unfold rotate. rewrite Hrun. cbn [obind].
  destruct (update_at_s _ _ _ _ _ _ _ Hat1) as (tr2 & -> & Hat2 & Hs2). cbn [obind].
  apply tree_at_up in Hat2. cbn [plug1] in Hat2.
  destruct (update_at_s _ _ _ _ _ _ _ Hat2) as (tr3 & -> & Hat3 & Hs3).
  exists tr3. split; [done|]. split; [exact Hat3|]. eauto using same_frame_trans.
Qed.

(** ** Balancing one node *)
Definition fix_rotate (s : side) (node : Z) tr : outcome (wre_tree W) :=
  match s with SL => fix_rotate_left node tr | SR => fix_rotate_right node tr end.

Lemma i64_diff a b : 0 <= a < 2 ^ 62 → 0 <= b < 2 ^ 62 → i64 (i64 a - i64 b) = a - b.
Proof. intros Ha Hb. rewrite (i64_small a), (i64_small b) by lia. rewrite i64_small; lia. Qed.

(** The children of a cell on the two sides. *)
Lemma depths_ok tr s i c c' par wh a :
  rept (heap tr) c a (wside s) → rept (heap tr) c' a (wside (opp s)) → ok c → ok c' →
  ht c < 2 ^ 62 → ht c' < 2 ^ 62 →
  depth tr (left (cell s i (tptr c) (tptr c') par wh)) = Ret (match s with SL => ht c | SR => ht c' end) ∧
  depth tr (right (cell s i (tptr c) (tptr c') par wh)) = Ret (match s with SL => ht c' | SR => ht c end).
Proof.
  intros Hc Hc' Ho Ho' Hb Hb'.
  destruct (depth_dep _ tr _ _ _ eq_refl Hc) as [E1 _]. destruct (depth_dep _ tr _ _ _ eq_refl Hc') as [E2 _].
  rewrite ok_dep in E1, E2 by done. by destruct s.
Qed.

(** The inner rotation is made when the inner grandchild is the higher one. *)
Lemma fix_rotate_eq tr ctx s x ix y z iz t r :
  tree_at tr ctx (tnode s x ix y (tnode s z iz t r)) → ok (tnode s z iz t r) →
  ht (tnode s z iz t r) < 2 ^ 62 →
  fix_rotate s x tr =
  let! tr := (if ht r <? ht t then rotate (opp s) z tr else Ret tr) in rotate s x tr.
Proof.
  intros (_ & Hr & _) Hok Hb. rewrite ht_tnode in Hb.
  pose proof (ht_nonneg t). pose proof (ht_nonneg r).
  apply rept_tnode in Hr as (Hx0 & Hx & _ & Hz). rewrite tptr_tnode in Hx.
  apply rept_tnode in Hz as (Hz0 & Hz & Ht & Hrr). apply ok_tnode in Hok as (Hot & Hor & Hd).
  destruct (depths_ok tr s iz t r x (wside (opp s)) z Ht Hrr Hot Hor ltac:(lia) ltac:(lia)) as [Dl Dr].
  unfold fix_rotate, fix_rotate_left, fix_rotate_right, rd. rewrite Hx. cbn [deref obind].
  destruct s; cbn [cell right left opp wside] in *; rewrite Hz; cbn [deref obind cell left right];
    rewrite Dl, Dr; cbn [obind]; rewrite i64_diff by lia; unfold c_assert.
  - rewrite (proj2 (Z.leb_le (-2) _)), (proj2 (Z.leb_le (-1) _)) by lia. cbn [obind].
    destruct (ht r <? ht t) eqn:Ec; zb; [rewrite (proj2 (Z.ltb_lt _ _)) by lia|rewrite (proj2 (Z.ltb_ge _ _)) by lia];
      cbn [obind]; rewrite ?rotate_right_eq; [|apply rotate_left_eq].
    destruct (rotate SR z tr); cbn [obind]; [apply rotate_left_eq|done].
  - rewrite (proj2 (Z.leb_le _ 2)), (proj2 (Z.leb_le _ 1)) by lia. cbn [obind].
    destruct (ht r <? ht t) eqn:Ec; zb; [rewrite (proj2 (Z.ltb_lt _ _)) by lia|rewrite (proj2 (Z.ltb_ge _ _)) by lia];
      cbn [obind]; rewrite ?rotate_left_eq; [|apply rotate_right_eq].
    destruct (rotate SL z tr); cbn [obind]; [apply rotate_right_eq|done].
Qed.

(** The result of rebalancing [t0] at [ctx]: the same entries and nodes, good
    metadata, and a height between that of the higher child and one more. *)
Definition rebalanced tr' ctx (t0 t' : tree) (hi : Z) : Prop :=
  tree_at tr' ctx t' ∧ ok t' ∧ t' ≠ E ∧ inorder t' = inorder t0 ∧ addrs t' ≡ₚ addrs t0 ∧
  hi <= ht t' <= 1 + hi.

(** The two rotations on trees, for a node whose child away from [s] is two
    levels higher. *)
Definition rot1 (s : side) x ix y z iz t r : tree :=
  let X := tnode s x (meta_s s ix y t) y t in tnode s z (meta_s s iz X r) X r.

Lemma rot1_facts s x ix y z iz t r :
  inorder (rot1 s x ix y z iz t r) = inorder (tnode s x ix y (tnode s z iz t r)) ∧
  addrs (rot1 s x ix y z iz t r) ≡ₚ addrs (tnode s x ix y (tnode s z iz t r)).
Proof.
  unfold rot1. split.
  - rewrite inorder_meta_s. destruct s; cbn; by rewrite <- ?app_assoc.
  - rewrite !addrs_tnode. cbn. rewrite <- !app_assoc. rewrite <- Permutation_middle.
    by rewrite perm_swap.
Qed.

Lemma heavy_single tr ctx s x ix y z iz t r :
  tree_at tr ctx (tnode s x ix y (tnode s z iz t r)) → ok y → ok (tnode s z iz t r) →
  ht (tnode s z iz t r) < 2 ^ 60 → ht (tnode s z iz t r) = ht y + 2 → ht t <= ht r →
  ∃ tr', fix_rotate s x tr = Ret tr' ∧
    rebalanced tr' ctx (tnode s x ix y (tnode s z iz t r)) (rot1 s x ix y z iz t r)
      (ht (tnode s z iz t r)) ∧
    same_frame tr tr' ∧
    ∃ i, tree_at tr' (Fr s z i r :: ctx) (tnode s x (meta_s s ix y t) y t).
Proof.
  intros Hat Hy Hz Hb Hh Hle. rewrite (fix_rotate_eq _ _ _ _ _ _ _ _ _ _ Hat Hz) by lia.
  destruct (ht r <? ht t) eqn:Ec; zb; [lia|]. cbn [obind].
  destruct (rotate_ok _ _ _ _ _ _ _ _ _ _ Hat) as (tr' & Hrun & Hat' & Hs).
  exists tr'. split; [done|]. split; [|split; [done|]].
  - rewrite ht_tnode in *. apply ok_tnode in Hz as (Hot & Hor & Hd).
    pose proof (ht_nonneg y). pose proof (ht_nonneg t). pose proof (ht_nonneg r).
    destruct (rot1_facts s x ix y z iz t r) as [Hin Had].
    assert (ok (tnode s x (meta_s s ix y t) y t)) as HX by (apply ok_meta_s; try done; lia).
    split_and!; try done.
    + apply ok_meta_s; try done; rewrite ?ht_tnode; lia.
    + unfold rot1. by destruct s.
    + unfold rot1. rewrite !ht_tnode. lia.
    + unfold rot1. rewrite !ht_tnode. lia.
  - eexists. apply tree_at_up. exact Hat'.
Qed.

Lemma tnode_destruct s t : t ≠ E → ∃ a i c c', t = tnode s a i c c'.
Proof. destruct t as [|a i l r]; [done|]. intros _. destruct s; [by exists a, i, l, r|by exists a, i, r, l]. Qed.

(** The double rotation. *)
Definition rot2 (s : side) x ix y z iz m im t1 t2 r : tree :=
  let Z' := tnode s z (meta_s s iz t2 r) t2 r in
  rot1 s x ix y m (meta_s s im t1 Z') t1 Z'.

Lemma meta_s_opp s i c c' : meta_s (opp s) i c' c = meta_s s i c c'.
Proof. by destruct s. Qed.

Lemma heavy_double tr ctx s x ix y z iz m im t1 t2 r :
  let t := tnode s m im t1 t2 in
  tree_at tr ctx (tnode s x ix y (tnode s z iz t r)) → ok y → ok (tnode s z iz t r) →
  ht (tnode s z iz t r) < 2 ^ 60 → ht (tnode s z iz t r) = ht y + 2 → ht r < ht t →
  ∃ tr', fix_rotate s x tr = Ret tr' ∧
    rebalanced tr' ctx (tnode s x ix y (tnode s z iz t r)) (rot2 s x ix y z iz m im t1 t2 r)
      (ht (tnode s z iz t r)) ∧
    same_frame tr tr' ∧
    ∃ i o, tree_at tr' (Fr s m i o :: ctx) (tnode s x (meta_s s ix y t1) y t1).
Proof.
  intros t Hat Hy Hz Hb Hh Hlt. rewrite (fix_rotate_eq _ _ _ _ _ _ _ _ _ _ Hat Hz) by lia.
  destruct (ht r <? ht t) eqn:Ec; zb; [|lia].
  assert (tree_at tr (Fr (opp s) x ix y :: ctx) (tnode (opp s) z iz r (tnode (opp s) m im t2 t1))) as Hat0.
  { apply tree_at_up. cbn. rewrite !tnode_opp. exact Hat. }
  destruct (rotate_ok _ _ _ _ _ _ _ _ _ _ Hat0) as (tr1 & -> & Hat1 & Hs1). cbn [obind].
  apply tree_at_up in Hat1. cbn [plug1] in Hat1. rewrite !tnode_opp, !meta_s_opp in Hat1.
  destruct (rotate_ok _ _ _ _ _ _ _ _ _ _ Hat1) as (tr' & Hrun & Hat' & Hs).
  exists tr'. split; [done|]. split; [|split; [by eauto using same_frame_trans|]].
  - apply ok_tnode in Hz as (Hot & Hor & Hd). unfold t in *. apply ok_tnode in Hot as (Ho1 & Ho2 & Hd12).
    rewrite !ht_tnode in *. pose proof (ht_nonneg y). pose proof (ht_nonneg t1).
    pose proof (ht_nonneg t2). pose proof (ht_nonneg r).
    assert (ok (tnode s x (meta_s s ix y t1) y t1)) as HX by (apply ok_meta_s; try done; lia).
    assert (ok (tnode s z (meta_s s iz t2 r) t2 r)) as HZ by (apply ok_meta_s; try done; lia).
    unfold rebalanced, rot2. destruct (rot1_facts s x ix y m
      (meta_s s im t1 (tnode s z (meta_s s iz t2 r) t2 r)) t1 (tnode s z (meta_s s iz t2 r) t2 r)) as [Hin Had].
    split_and!; try done.
    + apply ok_meta_s; try done; rewrite ?ht_tnode; lia.
    + unfold rot1. by destruct s.
    + rewrite Hin. destruct s; cbn; by simplify_list_eq.
    + rewrite Had, !addrs_tnode. cbn. rewrite <- !app_assoc. cbn.
      rewrite <- (Permutation_middle (addrs t1)). do 2 f_equiv. by rewrite perm_swap.
    + unfold rot1. rewrite !ht_tnode. lia.
    + unfold rot1. rewrite !ht_tnode. lia.
  - eexists _, _. apply tree_at_up. exact Hat'.
Qed.

(** Two levels of difference: whichever rotation applies. *)
Lemma heavy_ok tr ctx s x ix y t0 :
  tree_at tr ctx (tnode s x ix y t0) → ok y → ok t0 → ht t0 < 2 ^ 60 → ht t0 = ht y + 2 →
  ∃ tr' t', fix_rotate s x tr = Ret tr' ∧ rebalanced tr' ctx (tnode s x ix y t0) t' (ht t0) ∧
    same_frame tr tr' ∧
    ∃ b i o u, tree_at tr' (Fr s b i o :: ctx) u ∧ tptr u = x ∧ u ≠ E ∧ tptr t' = b.
Proof.
  intros Hat Hy Hz Hb Hh. pose proof (ht_nonneg y).
  destruct (tnode_destruct s t0) as (z & iz & t & r & ->); [intros ->; cbn in Hh; lia|].
  destruct (decide (ht t <= ht r)).
  - destruct (heavy_single _ _ _ _ _ _ _ _ _ _ Hat Hy Hz Hb Hh) as (tr' & ? & ? & ? & i & Hx); [done|].
    exists tr', (rot1 s x ix y z iz t r). split_and!; [done..|].
    eexists z, i, r, _. split; [exact Hx|]. rewrite tptr_tnode. split_and!; [done|by destruct s|].
    unfold rot1. by rewrite tptr_tnode.
  - assert (t ≠ E) as Ht by (intros ->; pose proof (ht_nonneg r); cbn in *; lia).
    destruct (tnode_destruct s t Ht) as (m & im & t1 & t2 & ->).
    destruct (heavy_double _ _ _ _ _ _ _ _ _ _ _ _ _ Hat Hy Hz Hb Hh) as (tr' & ? & ? & ? & i & o & Hx); [lia|].
    exists tr', (rot2 s x ix y z iz m im t1 t2 r). split_and!; [done..|].
    eexists m, i, o, _. split; [exact Hx|]. rewrite tptr_tnode. split_and!; [done|by destruct s|].
    unfold rot2, rot1. by rewrite tptr_tnode.
Qed.

(** What a pass of the loop computes before it decides. *)
Lemma balance_node_diff tr ctx a i l r :
  tree_at tr ctx (T a i l r) → ok l → ok r → ht l < 2 ^ 60 → ht r < 2 ^ 60 → Z.abs (ht l - ht r) <= 3 →
  balance_node a tr =
  if 1 <? ht r - ht l then fix_rotate SL a tr
  else if ht r - ht l <? -1 then fix_rotate SR a tr
  else update_node_subtree_metadata a tr.
Proof.
  intros (_ & (Ha & Hc & Hl & Hr) & _) Hol Hor Hbl Hbr Hd. unfold balance_node, rd. rewrite Hc. cbn [deref obind].
  destruct (depths_ok tr SL i l r (cpar ctx) (cwhich ctx) a Hl Hr Hol Hor ltac:(lia) ltac:(lia)) as [-> ->].
  cbn [obind]. pose proof (ht_nonneg l). pose proof (ht_nonneg r). rewrite i64_diff by lia.
  unfold c_assert. rewrite (proj2 (Z.leb_le _ 3)) by lia. done.
Qed.

(** A pass over a good node changes nothing. *)
Lemma balance_node_id tr ctx a i l r :
  tree_at tr ctx (T a i l r) → ok (T a i l r) → ht (T a i l r) < 2 ^ 60 → balance_node a tr = Ret tr.
Proof.
  intros Hat Hok Hb. pose proof Hok as (Hl & Hr & _ & _ & Hd). cbn in Hb.
  rewrite (balance_node_diff _ _ _ _ _ _ Hat) by (done || lia).
  rewrite !(proj2 (Z.ltb_ge _ _)) by lia. eapply update_at_ok; eauto. cbn. lia.
Qed.

Lemma parent_of tr f ctx t a i o s :
  f = Fr s a i o → tree_at tr (f :: ctx) t → t ≠ E →
  ∃ n, heap tr !! tptr t = Some n ∧ parent n = a ∧ a ≠ NULL ∧ a ≠ tptr t.
Proof.
  intros -> ((Ha & _) & Hr & Hnd) Ht. destruct t as [|b j l r]; [done|].
  destruct Hr as (_ & Hb & _). eexists. split; [exact Hb|]. cbn. split_and!; [done|done|].
  cbn in Hnd. apply NoDup_cons in Hnd as [Hnd _]. set_solver.
Qed.

(** Above a position whose parent node is good, the loop just moves on. *)
Lemma balance_skip tr b i o s ctx u t' fuel :
  tree_at tr (Fr s b i o :: ctx) u → u ≠ E → tree_at tr ctx t' → tptr t' = b → t' ≠ E →
  ok t' → ht t' < 2 ^ 60 →
  balance_upwards (S fuel) (tptr u) tr = balance_upwards fuel b tr.
Proof.
  intros Hu Hue Ht' Hp Hte Hok Hb. destruct (parent_of _ _ _ _ _ _ _ _ eq_refl Hu Hue) as (n & Hn & Hpar & Hb0 & Hne).
  cbn [balance_upwards]. unfold rd. rewrite Hn. cbn [deref obind]. rewrite Hpar.
  destruct (b =? NULL) eqn:E1; zb; [done|]. destruct (tptr u =? b) eqn:E2; zb; [congruence|]. cbn [negb c_assert obind].
  destruct t' as [|a' i' l' r']; [done|]. cbn in Hp. subst a'.
  by rewrite (balance_node_id _ _ _ _ _ _ Ht' Hok Hb).
Qed.

(** ** The loop of [balance_upwards] *)

(** Heights that rebalancing children of heights [x] and [y] can give. *)
Definition reach (x y h : Z) : Prop :=
  (Z.abs (x - y) <= 1 → h = 1 + Z.max x y) ∧ Z.max x y <= h <= 1 + Z.max x y.

Lemma balance_step tr ctx a i l r :
  tree_at tr ctx (T a i l r) → ok l → ok r → Z.abs (ht l - ht r) <= 2 →
  ht l < 2 ^ 60 - 1 → ht r < 2 ^ 60 - 1 →
  ∃ tr' t', balance_node a tr = Ret tr' ∧ tree_at tr' ctx t' ∧ ok t' ∧ t' ≠ E ∧
    inorder t' = inorder (T a i l r) ∧ addrs t' ≡ₚ addrs (T a i l r) ∧
    reach (ht l) (ht r) (ht t') ∧ same_frame tr tr' ∧
    ∃ k, (k <= 1)%nat ∧ ∀ fuel,
      balance_upwards (k + fuel) a tr' = balance_upwards fuel (tptr t') tr'.
Proof.
  intros Hat Hl Hr Hd Hbl Hbr. rewrite (balance_node_diff _ _ _ _ _ _ Hat) by (done || lia).
  destruct (1 <? ht r - ht l) eqn:E1; zb; [|destruct (ht r - ht l <? -1) eqn:E2; zb].
  - destruct (heavy_ok tr ctx SL a i l r Hat) as (tr' & t' & Hrun & (? & ? & ? & ? & ? & ?) & ? & b & j & o & u & Hu & Hux & Hue & Hb);
      [done|done|lia|lia|].
    exists tr', t'. unfold reach. split_and!; try done; try lia. exists 1%nat. split; [lia|]. intros fuel.
    rewrite <- Hux, Hb. apply (balance_skip _ _ _ _ _ _ _ t' _ Hu); try done. lia.
  - destruct (heavy_ok tr ctx SR a i r l Hat) as (tr' & t' & Hrun & (? & ? & ? & ? & ? & ?) & ? & b & j & o & u & Hu & Hux & Hue & Hb);
      [done|done|lia|lia|].
    exists tr', t'. unfold reach. split_and!; try done; try lia. exists 1%nat. split; [lia|]. intros fuel.
    rewrite <- Hux, Hb. apply (balance_skip _ _ _ _ _ _ _ t' _ Hu); try done. lia.
  - destruct (update_at _ _ _ _ _ _ Hat) as (tr' & Hrun & Hat' & Hs).
    exists tr', (T a (meta i l r) l r). unfold reach. cbn [ht].
    split_and!; try done; try lia; [apply ok_meta; try done; lia|].
    exists 0%nat. split; [lia|done].
Qed.

(** A context that fits a good subtree of height [hh]. *)
Fixpoint cok (ctx : list frame) (hh : Z) : Prop :=
  match ctx with
  | [] => True
  | Fr _ _ _ o :: ctx => ok o ∧ Z.abs (hh - ht o) <= 1 ∧ cok ctx (1 + Z.max hh (ht o))
  end.

(** A position from which the loop can start: the levels above were good before
    one insertion or removal below. *)
Definition start_ok (ctx : list frame) (t : tree) : Prop :=
  match ctx with
  | [] => True
  | Fr _ _ _ o :: ctx => ok o ∧ Z.abs (ht t - ht o) <= 2 ∧
      ∃ hh, cok ctx hh ∧ ∀ h, reach (ht t) (ht o) h → Z.abs (h - hh) <= 1
  end.

Lemma start_of_cok ctx hh t : cok ctx hh → Z.abs (ht t - hh) <= 1 → start_ok ctx t.
Proof.
  destruct ctx as [|[s a i o] ctx]; cbn; [done|]. intros (Ho & Hd & Hc) Ht. split; [done|].
  split; [lia|]. exists (1 + Z.max hh (ht o)). split; [done|]. unfold reach. lia.
Qed.

Lemma ht_le_size t : ht t <= Z.of_nat (length (addrs t)).
Proof. induction t as [|a i l IHl r IHr]; cbn; [lia|]. rewrite length_app. lia. Qed.

Lemma balance_upwards_ok ctx tr t fuel :
  tree_at tr ctx t → ok t → t ≠ E → start_ok ctx t → (2 * length ctx < fuel)%nat →
  Z.of_nat (length (addrs t ++ caddrs ctx)) < 2 ^ 59 →
  ∃ tr' t', balance_upwards fuel (tptr t) tr = Ret tr' ∧ tree_at tr' [] t' ∧ ok t' ∧
    inorder t' = inorder (plug ctx t) ∧ addrs t' ≡ₚ addrs t ++ caddrs ctx ∧ same_frame tr tr'.
Proof.
  revert tr t fuel. induction ctx as [|[s a i o] ctx IH]; intros tr t fuel Hat Hok Hte Hst Hf Hsz.
  - destruct fuel as [|fuel]; [cbn in Hf; lia|]. exists tr, t. cbn [balance_upwards]. unfold rd.
    destruct t as [|b j l r]; [done|]. pose proof Hat as (_ & (_ & Hc & _) & _). cbn [tptr]. rewrite Hc.
    split; [done|]. split; [done|]. split; [done|]. split; [done|]. split; [|done]. cbn [caddrs]. by rewrite app_nil_r.
  - destruct Hst as (Hoo & Hd & H' & Hcok & Hreach).
    destruct (parent_of _ _ _ _ _ _ _ _ eq_refl Hat Hte) as (n & Hn & Hpar & Ha0 & Hne).
    destruct fuel as [|fuel]; [lia|]. cbn [balance_upwards]. unfold rd. rewrite Hn. cbn [deref obind].
    rewrite Hpar. destruct (a =? NULL) eqn:E1; zb; [done|].
    destruct (tptr t =? a) eqn:E2; zb; [congruence|]. cbn [negb c_assert obind].
    apply tree_at_up in Hat. cbn [plug1] in Hat.
    rewrite !length_app in Hsz. cbn in Hsz. rewrite length_app in Hsz.
    pose proof (ht_le_size t). pose proof (ht_le_size o).
    assert (∃ tr1 t1, balance_node a tr = Ret tr1 ∧ tree_at tr1 ctx t1 ∧ ok t1 ∧ t1 ≠ E ∧
      inorder t1 = inorder (tnode s a i t o) ∧ addrs t1 ≡ₚ addrs (tnode s a i t o) ∧
      reach (ht t) (ht o) (ht t1) ∧ same_frame tr tr1 ∧
      ∃ k, (k <= 1)%nat ∧ ∀ fuel, balance_upwards (k + fuel) a tr1 = balance_upwards fuel (tptr t1) tr1)
      as (tr1 & t1 & -> & Hat1 & Hok1 & Hte1 & Hin1 & Had1 & Hr1 & Hs1 & k & Hk & Hskip).
    { destruct s; [apply balance_step; try done; lia|].
      destruct (balance_step tr ctx a i o t Hat) as (tr1 & t1 & ? & ? & ? & ? & ? & ? & ? & ? & ?);
        try done; try lia. exists tr1, t1. split_and!; try done; unfold reach in *; lia. }
    cbn [obind].
    assert (length (addrs t1) = S (length (addrs t) + length (addrs o)))%nat as Hlen1.
    { rewrite Had1, addrs_tnode. cbn. by rewrite length_app. }
    cbn in Hf. destruct (IH tr1 t1 (fuel - k)%nat) as (tr' & t' & Hrun' & Hat' & Hok' & Hin' & Had' & Hs'); try done.
    + by eapply start_of_cok, Hreach.
    + lia.
    + rewrite length_app. lia.
    + exists tr', t'. split_and!; try done; [|cbn [plug plug1]; by rewrite Hin', !inorder_plug, Hin1| |by eapply same_frame_trans].
      * rewrite <- Hrun', <- Hskip. f_equal. lia.
      * rewrite Had', Had1, addrs_tnode. cbn [caddrs]. cbn. rewrite <- app_assoc. by rewrite Permutation_middle.
Qed.

End balance.
