(* ===== verification/WrePut.v ===== *)
(** * Search and insertion in the weighted ranking tree

    [wre_put] and [wre_find] against a list of entries sorted by the caller's
    comparison. *)
From S2P Require Import Prelude Alloc Wre WreTree WreHeap.
From Stdlib Require Import Sorted.

(** ** Height and size *)
Lemma ok_height_size n t : ok t → 2 * Z.of_nat n <= ht t → 2 ^ Z.of_nat n <= Z.of_nat (length (addrs t)) + 1.
Proof.
  revert t. induction n as [|n IH]; intros t Hok Hh; [cbn; lia|].
  destruct t as [|a i l r]; [cbn in Hh; lia|]. destruct Hok as (Hl & Hr & _ & _ & Hd). cbn [ht] in Hh.
  pose proof (IH l Hl ltac:(lia)). pose proof (IH r Hr ltac:(lia)).
  cbn [addrs length]. rewrite length_app. replace (Z.of_nat (S n)) with (Z.of_nat n + 1) by lia.
  rewrite Z.pow_add_r by lia. lia.
Qed.

(** The bound on the number of nodes that the allocator of a tree can serve. *)
Definition WRE_MAX : Z := 2 ^ 32.

Lemma ok_height t : ok t → Z.of_nat (length (addrs t)) < WRE_MAX → ht t < 66.
Proof.
  unfold WRE_MAX. intros Hok Hsz. apply Z.nle_gt. intros Hh.
  pose proof (ok_height_size 33 t Hok ltac:(lia)). lia.
Qed.

Lemma ctx_length ctx t : Z.of_nat (length ctx) + ht t <= ht (plug ctx t).
Proof.
  revert t. induction ctx as [|[s a i o] ctx IH]; intros t; cbn [plug length]; [lia|].
  specialize (IH (plug1 (Fr s a i o) t)). cbn [plug1] in *. rewrite ht_tnode in IH. lia.
Qed.

Lemma ok_plug ctx t : ok (plug ctx t) → ok t ∧ cok ctx (ht t).
Proof.
  revert t. induction ctx as [|[s a i o] ctx IH]; intros t Hok; cbn [plug] in Hok; [done|].
  destruct (IH _ Hok) as [H1 H2]. cbn [plug1] in *. rewrite ht_tnode in H2.
  apply ok_tnode in H1 as (? & ? & ?). by cbn.
Qed.

(** ** The order of the entries *)
Section order.
Context (lower : Z → Z → bool).

Definition le (x y : Z) : Prop := lower y x = false.
Definition ele (x y : Z * Z) : Prop := le x.1 y.1.
Definition sorted (l : list (Z * Z)) : Prop := StronglySorted ele l.

(** The comparison is a strict weak order. *)
Class StrictWeak := {
  sw_asym x y : lower x y = true → lower y x = false;
  sw_trans x y z : le x y → le y z → le x z;
}.

Lemma sorted_app_iff l l' :
  sorted (l ++ l') ↔ sorted l ∧ sorted l' ∧ ∀ x y, x ∈ l → y ∈ l' → ele x y.
Proof.
  unfold sorted. induction l as [|a l IH]; cbn.
  - split; [|tauto]. intros Hs. split_and!; [constructor|done|]. by intros x y ?%not_elem_of_nil.
  - split.
    + intros (Hs & Hf)%StronglySorted_inv. apply IH in Hs as (Hl & Hl' & Hxy).
      apply Forall_app in Hf as [Hf Hf']. rewrite Forall_forall in Hf, Hf'. split_and!; [|done|].
      * constructor; [done|by apply Forall_forall].
      * intros x y [->|Hx]%elem_of_cons Hy; [by apply Hf'|by apply Hxy].
    + intros (Hl & Hl' & Hxy). apply StronglySorted_inv in Hl as [Hl Hf]. constructor.
      * apply IH. split_and!; [done|done|]. intros x y Hx. apply Hxy. by right.
      * apply Forall_app. split; [done|]. apply Forall_forall. intros y Hy. apply Hxy; [by left|done].
Qed.

Lemma sorted_cons_iff a l : sorted (a :: l) ↔ sorted l ∧ ∀ y, y ∈ l → ele a y.
Proof.
  unfold sorted. split.
  - intros [Hs Hf]%StronglySorted_inv. rewrite Forall_forall in Hf. done.
  - intros [Hs Hf]. constructor; [done|]. by apply Forall_forall.
Qed.

(** Replacing a part of a sorted list by another sorted part with the same bounds. *)
Lemma sorted_insert l l' e :
  sorted (l ++ l') → (∀ x, x ∈ l → ele x e) → (∀ y, y ∈ l' → ele e y) → sorted (l ++ e :: l').
Proof.
  rewrite !sorted_app_iff, sorted_cons_iff. intros (? & ? & Hxy) Hb Ha. split_and!; try done.
  intros x y Hx [->|Hy]%elem_of_cons; [by apply Hb|by apply Hxy].
Qed.

Lemma sorted_remove l l' e : sorted (l ++ e :: l') → sorted (l ++ l').
Proof.
  rewrite !sorted_app_iff, sorted_cons_iff. intros (? & [? ?] & Hxy). split_and!; try done.
  intros x y Hx Hy. apply Hxy; [done|by right].
Qed.

(** ** Search *)
Section ops.
Context {W : Type} `{NodeAllocLaws W} `{StrictWeak}.
Implicit Types tr : wre_tree W.

Definition equiv (x y : Z) : Prop := lower x y = false ∧ lower y x = false.

Lemma lower_le x y : lower x y = true → le x y.
Proof. apply sw_asym. Qed.

Lemma lower_le_trans x y z : le x y → lower y z = true → lower x z = true.
Proof.
  intros Hxy Hyz. destruct (lower x z) eqn:Ezx; [done|].
  assert (le z y) as Hzy by (by eapply (sw_trans z x y)). unfold le in Hzy. congruence.
Qed.

Lemma le_lower_trans x y z : lower x y = true → le y z → lower x z = true.
Proof.
  intros Hxy Hyz. destruct (lower x z) eqn:Ezx; [done|].
  assert (le y x) as Hyx by (by eapply (sw_trans y z x)). unfold le in Hyx. congruence.
Qed.

Lemma find_node_from_ok tr d ctx t fuel :
  tree_at tr ctx t → sorted (inorder t) → ht t < Z.of_nat fuel →
  ∃ p, find_node_from lower fuel tr (tptr t) d = Ret p ∧
    ((p = NULL ∧ ∀ e, e ∈ inorder t → ¬ equiv e.1 d) ∨
     ∃ ctx' i l r, tree_at tr ctx' (T p i l r) ∧ plug ctx' (T p i l r) = plug ctx t ∧
       equiv (i_data i) d).
Proof.
  revert ctx fuel. induction t as [|a i l IHl r IHr]; intros ctx [|fuel] Hat Hs Hf; try lia.
  { pose proof (ht_nonneg E). lia. }
  { exists NULL. split; [done|]. left. split; [done|]. by intros e ?%not_elem_of_nil. }
  { pose proof (ht_nonneg (T a i l r)). lia. }
  pose proof Hat as (_ & (Ha & Hc & _) & _). cbn [find_node_from tptr].
  destruct (a =? NULL) eqn:Ea; zb; [done|]. unfold rd. rewrite Hc. cbn [deref obind cell data left right].
  cbn [inorder] in Hs. apply sorted_app_iff in Hs as (Hsl & Hsr & Hxy). apply sorted_cons_iff in Hsr as [Hsr Hir].
  cbn [ht] in Hf.
  destruct (lower (i_data i) d) eqn:E1; [|destruct (lower d (i_data i)) eqn:E2]; cbn [negb].
  - destruct (IHr (Fr SR a i l :: ctx) fuel) as (p & Hrun & Hp); [by apply tree_at_up|done|lia|].
    exists p. split; [done|]. destruct Hp as [[-> Hno]|Hp]; [left|by right]. split; [done|].
    intros e [He|[->|He]%elem_of_cons]%elem_of_app [Heq1 Heq2]; [| |by apply (Hno e He)].
    + assert (le e.1 (i_data i)) as Hle by (apply (Hxy e (i_data i, i_ow i)); [done|by left]).
      pose proof (lower_le_trans _ _ _ Hle E1). congruence.
    + cbn in *. congruence.
  - destruct (IHl (Fr SL a i r :: ctx) fuel) as (p & Hrun & Hp); [by apply tree_at_up|done|lia|].
    exists p. split; [done|]. destruct Hp as [[-> Hno]|Hp]; [left|by right]. split; [done|].
    intros e [He|[->|He]%elem_of_cons]%elem_of_app [Heq1 Heq2]; [by apply (Hno e He)| |].
    + cbn in *. congruence.
    + pose proof (le_lower_trans _ _ _ E2 (Hir e He)). congruence.
  - exists a. split; [done|]. right. exists ctx, i, l, r. by split_and!.
Qed.

(** ** The invariant *)
Record wre_inv tr (t : tree) (L : gset Z) (M : gmap Z (gset Z * nat)) (room : nat) : Prop := {
  wi_at : tree_at tr [] t;
  wi_ok : ok t;
  wi_sorted : sorted (inorder t);
  wi_live : ∀ y, y ∈ addrs t → y ∈ L;
  wi_world : na_inv (tworld tr) M;
  wi_alloc : M !! nodeAlloc tr = Some (L, room);
  wi_max : Z.of_nat (length (addrs t)) + Z.of_nat room < WRE_MAX;
}.

(** [wre_rep tr es room]: the tree holds the entries [es], in order, and its
    allocator can serve at least [room] more nodes. *)
Definition wre_rep tr (es : list (Z * Z)) (room : nat) : Prop :=
  ∃ t L M room', wre_inv tr t L M room' ∧ (room <= room')%nat ∧ inorder t = es.

Lemma wi_height tr t L M room : wre_inv tr t L M room → ht t < 66.
Proof. intros Hi. apply ok_height; [apply Hi|]. pose proof (wi_max _ _ _ _ _ Hi). lia. Qed.

(** ** Insertion *)
Lemma put_descend_ok tr d ctx t fuel :
  tree_at tr ctx t → sorted (inorder (plug ctx t)) → ht t < Z.of_nat fuel →
  (∀ x, x ∈ cbefore ctx → le x.1 d) → (∀ y, y ∈ cafter ctx → le d y.1) →
  ∃ ctx', put_descend lower fuel tr (cslot ctx) (tptr t) (cpar ctx) (cwhich ctx) d
      = Ret (cslot ctx', cpar ctx', cwhich ctx') ∧
    tree_at tr ctx' E ∧ plug ctx' E = plug ctx t ∧
    (∀ x, x ∈ cbefore ctx' → le x.1 d) ∧ (∀ y, y ∈ cafter ctx' → le d y.1).
Proof.
  revert ctx fuel. induction t as [|a i l IHl r IHr]; intros ctx [|fuel] Hat Hs Hf Hb Haf.
  { cbn in Hf; lia. }
  { exists ctx. by split_and!. }
  { pose proof (ht_nonneg (T a i l r)). lia. }
  pose proof Hat as (_ & (Ha & Hc & _) & _). cbn [put_descend tptr].
  destruct (a =? NULL) eqn:Ea; zb; [done|]. unfold rd. rewrite Hc. cbn [deref obind cell data left right].
  pose proof Hs as Hs'. rewrite inorder_plug in Hs'. cbn [inorder] in Hs'.
  apply sorted_app_iff in Hs' as (_ & Hs' & _). apply sorted_app_iff in Hs' as (Hs' & _ & _).
  apply sorted_app_iff in Hs' as (_ & Hsr & Hxy). apply sorted_cons_iff in Hsr as [_ Hir]. cbn [ht] in Hf.
  destruct (lower (i_data i) d) eqn:E1.
  - apply (IHr (Fr SR a i l :: ctx)); [by apply tree_at_up|done|lia| |done].
    cbn [cbefore]. intros x [Hx|[Hx| ->%list_elem_of_singleton]%elem_of_app]%elem_of_app; [by apply Hb| |].
    + eapply sw_trans; [apply (Hxy x (i_data i, i_ow i)); [done|by left]|by apply lower_le].
    + by apply lower_le.
  - apply (IHl (Fr SL a i r :: ctx)); [by apply tree_at_up|done|lia| |].
    + cbn [cbefore]. rewrite app_nil_r. done.
    + cbn [cafter]. intros y [[->|Hy]%elem_of_cons|Hy]%elem_of_app; [done| |by apply Haf].
      eapply sw_trans; [|by apply Hir]. done.
Qed.

(** The new node [p] is linked into an empty position, then filled. *)
Definition attach (slot : wslot) (p par d w : Z) tr : outcome (wre_tree W) :=
  let! tr := wstore slot p tr in
  let! tr := wr p (set_parent par) tr in
  wr p (λ n, WNode w w (height n) (left n) (right n) (parent n) (which n) d) tr.

Lemma attach_ok tr ctx p d w :
  tree_at tr ctx E → p ≠ NULL → p ∉ caddrs ctx →
  heap tr !! p = Some (WNode 0 0 0 NULL NULL NULL (cwhich ctx) NULL) →
  ∃ tr', attach (cslot ctx) p (cpar ctx) d w tr = Ret tr' ∧
    tree_at tr' ctx (T p (Info w w 0 d) E E) ∧ same_frame tr tr'.
Proof.
  intros (Hc & _ & Hnd) Hp Hni Hn. cbn in Hnd.
  destruct (wstore_ok tr ctx _ p Hc Hnd) as (tr1 & Hrun & Hc' & Hf & Hs).
  unfold attach. rewrite Hrun. cbn [obind]. rewrite <- Hf in Hn by done.
  rewrite (wr_ok _ _ _ _ Hn). cbn [obind]. erewrite wr_ok by (cbn; apply lookup_insert_eq).
  eexists. split; [done|]. split; [|done]. split; [|split].
  - eapply repc_frame; [exact Hc'|]. intros y Hy. cbn.
    by rewrite !lookup_insert_ne by (intros ->; done).
  - cbn. rewrite lookup_insert_eq. done.
  - cbn. by apply NoDup_cons.
Qed.

Lemma leaf_ok p w d : is_u64 w → ok (T p (Info w w 0 d) E E).
Proof. intros Hw. cbn. split_and!; try done. by rewrite u64_small. Qed.

Lemma put_ok tr es room d w :
  wre_rep tr es (S room) → is_u64 w →
  ∃ tr' l1 l2, wre_put lower tr d w = Ret tr' ∧ es = l1 ++ l2 ∧
    wre_rep tr' (l1 ++ (d, w) :: l2) room ∧ size tr' = u64 (size tr + 1).
Proof.
  intros (t & L & M & room' & Hinv & Hroom & <-) Hwu. destruct room' as [|room']; [lia|]. pose proof (wi_height _ _ _ _ _ Hinv) as Hht.
  pose proof Hinv as [Hat Hok Hso HL Hw HM Hmax]. unfold wre_put.
  destruct (put_descend_ok tr d [] t WRE_FUEL) as (ctx & Hrun & HatE & Hpl & Hb & Haf); try done.
  { unfold WRE_FUEL. lia. } { by intros x ?%not_elem_of_nil. } { by intros x ?%not_elem_of_nil. }
  cbn [plug] in Hpl. pose proof Hat as (Hroot & _). cbn [repc] in Hroot. cbn [cslot cpar cwhich] in Hrun. rewrite Hroot, Hrun. cbn [obind].
  unfold node_create. destruct (na_malloc_ok _ _ _ _ _ Hw HM) as (p & w' & -> & Hp & Hp0 & _ & _ & Hw').
  cbn [obind]. destruct (p =? NULL) eqn:Ep; zb; [done|]. cbn [negb obind].
  set (tr1 := set_heap _ (set_tworld w' tr)).
  assert (p ∉ caddrs ctx) as Hpc.
  { intros Hin. apply Hp, HL. rewrite <- Hpl, addrs_plug. by cbn. }
  assert (tree_at tr1 ctx E) as Hat1.
  { destruct HatE as (HcE & _ & HnE). split; [|done]. eapply repc_frame; [exact HcE|].
    intros y Hy. apply lookup_insert_ne. by intros ->. }
  destruct (attach_ok tr1 ctx p d w Hat1 Hp0 Hpc) as (tr2 & Hrun2 & Hat2 & Hs2); [apply lookup_insert_eq|].
  unfold attach in Hrun2. apply obind_Ret_inv in Hrun2 as (st & -> & Hrun2). cbn [obind].
  apply obind_Ret_inv in Hrun2 as (st' & -> & Hrun2). cbn [obind]. rewrite Hrun2. cbn [obind].
  assert (addrs t ≡ₚ caddrs ctx) as Hperm by (by rewrite <- Hpl, addrs_plug).
  assert (ok (plug ctx E)) as Hokc by by rewrite Hpl. apply ok_plug in Hokc as [_ Hcok].
  pose proof (ctx_length ctx E) as Hcl. rewrite Hpl in Hcl. cbn in Hcl.
  destruct (balance_upwards_ok ctx tr2 (T p (Info w w 0 d) E E) WRE_FUEL)
    as (tr3 & t' & Hrun3 & Hat3 & Hok3 & Hin3 & Had3 & Hs3); try done.
  { by apply leaf_ok. }
  { eapply start_of_cok; [exact Hcok|]. cbn. lia. }
  { unfold WRE_FUEL. lia. }
  { cbn. rewrite <- Hperm. unfold WRE_MAX in Hmax. lia. }
  cbn [tptr] in Hrun3. rewrite Hrun3. cbn [obind].
  exists (set_size (u64 (size tr3 + 1)) tr3), (cbefore ctx), (cafter ctx).
  assert (inorder t = cbefore ctx ++ cafter ctx) as Hint by (by rewrite <- Hpl, inorder_plug).
  destruct Hs2 as (Ha2 & Hz2 & Hw2), Hs3 as (Ha3 & Hz3 & Hw3).
  split; [done|]. split; [done|]. split; [|cbn; by rewrite Hz3, Hz2].
  exists t', ({[p]} ∪ L), (<[nodeAlloc tr := ({[p]} ∪ L, room')]> M), room'. split; [split|split; [lia|]]; cbn.
  - exact Hat3.
  - done.
  - rewrite Hin3, inorder_plug. cbn. rewrite Hint in Hso. by apply sorted_insert.
  - intros y. rewrite Had3. cbn. rewrite elem_of_cons, <- Hperm. intros [->|Hy]; [by apply elem_of_union_l, elem_of_singleton|by apply elem_of_union_r, HL].
  - by rewrite Hw3, Hw2.
  - rewrite Ha3, Ha2. cbn. by rewrite lookup_insert_eq.
  - rewrite Had3. cbn. rewrite <- Hperm. lia.
  - by rewrite Hin3, inorder_plug.
Qed.

(** [wre_put] adds the entry at its place in the order, keeps the tree
    balanced with right metadata and links, and counts it; with enough room it
    always succeeds. *)
Theorem wre_put_correct tr es room d w :
  wre_rep tr es (S room) → is_u64 w →
  ∃ tr' l1 l2, wre_put lower tr d w = Ret tr' ∧ es = l1 ++ l2 ∧
    wre_rep tr' (l1 ++ (d, w) :: l2) room ∧ size tr' = u64 (size tr + 1).
Proof. apply put_ok. Qed.

Lemma find_ok tr es room d :
  wre_rep tr es room →
  ∃ r, wre_find lower tr d = Ret r ∧
    ((∃ e, e ∈ es ∧ equiv e.1 d ∧ r = e.1) ∨ (r = NULL ∧ ∀ e, e ∈ es → ¬ equiv e.1 d)).
Proof.
  intros (t & L & M & room' & Hinv & Hroom & <-). pose proof (wi_height _ _ _ _ _ Hinv) as Hht.
  pose proof Hinv as [Hat Hok Hso _ _ _ _]. pose proof Hat as (Hroot & _). cbn [repc] in Hroot.
  unfold wre_find, find_node. rewrite Hroot.
  destruct (find_node_from_ok tr d [] t WRE_FUEL Hat Hso) as (p & -> & Hp); [unfold WRE_FUEL; lia|].
  cbn [obind]. destruct Hp as [[-> Hno]|(ctx & i & l & r & Hatp & Hpl & Heq)].
  - exists NULL. split; [done|]. by right.
  - pose proof Hatp as (_ & (Hp0 & Hc & _) & _). destruct (p =? NULL) eqn:Ep; zb; [done|]. cbn [negb].
    unfold rd. rewrite Hc. cbn. eexists. split; [done|]. left. exists (i_data i, i_ow i).
    split_and!; [|done|done]. cbn [plug] in Hpl. rewrite <- Hpl, inorder_plug. cbn. set_solver.
Qed.

(** [wre_find] returns the data of an entry that the comparison cannot tell
    from the argument, and [NULL] when the tree holds none. *)
Theorem wre_find_correct tr es room d :
  wre_rep tr es room →
  ∃ r, wre_find lower tr d = Ret r ∧
    ((∃ e, e ∈ es ∧ equiv e.1 d ∧ r = e.1) ∨ (r = NULL ∧ ∀ e, e ∈ es → ¬ equiv e.1 d)).
Proof. apply find_ok. Qed.

End ops.
End order.
