(* ===== verification/WreRemove.v ===== *)
(** * Removal from the weighted ranking tree *)
From S2P Require Import Prelude Alloc Wre WreTree WreHeap WrePut.

Lemma plug_app ctx ctx' t : plug (ctx ++ ctx') t = plug ctx' (plug ctx t).
Proof. revert t. induction ctx as [|f ctx IH]; intros t; cbn; [done|]. apply IH. Qed.

(** The node the code balances from: the subtree in the hole, else its sibling,
    else its parent. *)
Definition cstart (ctx : list frame) (t : tree) : Z :=
  match t, ctx with
  | T a _ _ _, _ => a
  | E, [] => NULL
  | E, Fr _ a _ o :: _ => match o with T b _ _ _ => b | E => a end
  end.

Lemma reach_sym x y h : reach x y h → reach y x h.
Proof. unfold reach. lia. Qed.

Lemma start_flip s a i o ctx t :
  ok t → start_ok (Fr s a i o :: ctx) t → start_ok (Fr (opp s) a i t :: ctx) o.
Proof.
  intros Ht (Ho & Hd & hh & Hc & Hr). split; [done|]. split; [lia|]. exists hh. split; [done|].
  intros h Hh. by apply Hr, reach_sym.
Qed.

(** [cok] does not look at the nodes of the path. *)
Lemma cok_swap fs s a i b j o ctx hh :
  cok (fs ++ Fr s a i o :: ctx) hh → cok (fs ++ Fr s b j o :: ctx) hh.
Proof.
  revert hh. induction fs as [|[s' a' i' o'] fs IH]; intros hh; cbn; [done|].
  intros (? & ? & ?). split_and!; [done|done|by apply IH].
Qed.

Section remove.
Context {W : Type} `{NodeAllocLaws W}.
Implicit Types tr : wre_tree W.

(** ** Balancing after an unlinking *)
Definition rebalance (p : Z) tr : outcome (wre_tree W) :=
  let! tr := update_node_subtree_metadata p tr in balance_upwards WRE_FUEL p tr.

Lemma rebalance_tree ctx tr t :
  tree_at tr ctx t → t ≠ E → ok t → start_ok ctx t → (2 * length ctx < WRE_FUEL)%nat →
  Z.of_nat (length (addrs t ++ caddrs ctx)) < 2 ^ 59 →
  ∃ tr' t', rebalance (tptr t) tr = Ret tr' ∧ tree_at tr' [] t' ∧ ok t' ∧
    inorder t' = inorder (plug ctx t) ∧ addrs t' ≡ₚ addrs t ++ caddrs ctx ∧ same_frame tr tr'.
Proof.
  intros Hat Hte Hok Hst Hf Hsz. destruct t as [|a i l r]; [done|]. unfold rebalance.
  pose proof (ht_le_size (T a i l r)) as Hht. pose proof Hsz as Hsz'. rewrite length_app in Hsz'.
  cbn [tptr]. rewrite (update_at_ok _ _ _ _ _ _ Hat Hok) by lia. cbn [obind].
  by apply (balance_upwards_ok ctx tr (T a i l r)).
Qed.

Lemma rebalance_ok ctx tr t :
  tree_at tr ctx t → ok t → start_ok ctx t → cstart ctx t ≠ NULL → (2 * length ctx < WRE_FUEL)%nat →
  Z.of_nat (length (addrs t ++ caddrs ctx)) < 2 ^ 59 →
  ∃ tr' t', rebalance (cstart ctx t) tr = Ret tr' ∧ tree_at tr' [] t' ∧ ok t' ∧
    inorder t' = inorder (plug ctx t) ∧ addrs t' ≡ₚ addrs t ++ caddrs ctx ∧ same_frame tr tr'.
Proof.
  intros Hat Hok Hst Hne Hf Hsz. destruct t as [|a i l r]; [|by apply (rebalance_tree ctx tr (T a i l r))].
  destruct ctx as [|[s a i o] ctx]; [done|]. destruct o as [|b j ol or].
  - cbn [cstart]. apply tree_at_up in Hat. cbn [plug1] in Hat.
    assert (tnode s a i E E = T a i E E) as Et by by destruct s. rewrite Et in Hat.
    destruct (update_at _ _ _ _ _ _ Hat) as (tr1 & Hrun & Hat1 & Hs1).
    destruct Hst as (_ & _ & hh & Hcok & Hr). unfold rebalance. rewrite Hrun. cbn [obind].
    assert (ok (T a (meta i E E) E E)) as Hok1 by (apply ok_meta; cbn; done || lia).
    cbn in Hf, Hsz.
    destruct (balance_upwards_ok ctx tr1 (T a (meta i E E) E E) WRE_FUEL) as
      (tr' & t' & ? & ? & ? & Hin & Had & ?); try done; [|lia|].
    { eapply start_of_cok; [exact Hcok|]. apply Hr. unfold reach. cbn. lia. }
    exists tr', t'. split_and!; try done; [|by eapply same_frame_trans].
    rewrite Hin. cbn [plug plug1]. rewrite Et. by rewrite !inorder_plug.
  - pose proof Hst as (Hoo & _). pose proof (start_flip _ _ _ _ _ _ Hok Hst) as Hst'.
    pose proof (proj1 (tree_at_flip _ _ _ _ _ _ _) Hat) as Hat'.
    destruct (rebalance_tree _ tr (T b j ol or) Hat') as (tr' & t' & ? & ? & ? & Hin & Had & ?); try done.
    { revert Hsz. cbn. rewrite !length_app. cbn. rewrite ?length_app. lia. }
    exists tr', t'. split_and!; try done.
    + rewrite Hin. cbn [plug plug1]. by rewrite tnode_opp.
    + rewrite Had. symmetry. apply (Permutation_middle (addrs (T b j ol or)) (caddrs ctx) a).
Qed.

(** ** Surgery *)

(** The fields of a detached node. *)
Definition info_of (n : wre_node) : info := Info (subtreeWeight n) (ownWeight n) (height n) (data n).

Lemma info_cell s i c c' par wh : info_of (cell s i c c' par wh) = i.
Proof. destruct s, i; done. Qed.

(** A node without left child is bypassed. *)
Definition splice (slot : wslot) (rr par : Z) (wh : which_node_e) tr : outcome (wre_tree W) :=
  let! tr := wstore slot rr tr in
  if negb (rr =? NULL) then
    let! tr := wr rr (set_parent par) tr in wr rr (set_which wh) tr
  else Ret tr.

Lemma splice_ok tr ctx b ib rr :
  tree_at tr ctx (T b ib E rr) →
  ∃ tr', splice (cslot ctx) (tptr rr) (cpar ctx) (cwhich ctx) tr = Ret tr' ∧
    tree_at tr' ctx rr ∧ heap tr' !! b = heap tr !! b ∧ same_frame tr tr'.
Proof.
  intros (Hc & (Hb0 & Hb & _ & Hr) & Hnd). cbn in Hnd. apply NoDup_cons in Hnd as [Hbn Hnd].
  pose proof Hnd as Hnd'. apply NoDup_app in Hnd' as (Hndr & Hapart & Hndc).
  destruct (wstore_ok tr ctx _ (tptr rr) Hc Hndc) as (tr1 & Hrun1 & Hc1 & Hf1 & Hs1).
  unfold splice. rewrite Hrun1. cbn [obind].
  assert (heap tr1 !! b = heap tr !! b) as Eb by (apply Hf1; set_solver).
  destruct rr as [|x ix xl xr]; cbn [tptr].
  { exists tr1. by split_and!. }
  pose proof Hr as (Hx0 & Hx & Hxl & Hxr). destruct (x =? NULL) eqn:Ex; zb; [done|]. cbn [negb].
  assert (x ∈ addrs (T x ix xl xr)) as Hxin by by left.
  rewrite <- Hf1 in Hx by (by apply Hapart). rewrite (wr_ok _ _ _ _ Hx). cbn [obind].
  erewrite wr_ok by (cbn; apply lookup_insert_eq). eexists. split; [done|].
  assert (∀ q, q ≠ x → heap (set_heap (<[x:=set_which (cwhich ctx) (set_parent (cpar ctx)
    (cell SL ix (tptr xl) (tptr xr) b RIGHT_NODE))]> (<[x:=set_parent (cpar ctx)
    (cell SL ix (tptr xl) (tptr xr) b RIGHT_NODE)]> (heap tr1))) tr1) !! q = heap tr1 !! q) as Hfq.
  { intros q Hq. cbn. by rewrite !lookup_insert_ne by done. }
  split; [|split; [|done]].
  - split; [|split].
    + eapply repc_frame; [exact Hc1|]. intros q Hq. apply Hfq. intros ->. by apply (Hapart x).
    + eapply (rept_reparent (heap tr)); [exact Hr|done| |].
      * intros q Hq Hqx. cbn [tptr] in Hqx. etrans; [by apply Hfq|]. by apply Hf1, Hapart.
      * intros n Hn _. cbn [tptr] in *. cbn. rewrite lookup_insert_eq. rewrite <- Hf1, Hx in Hn by (by apply Hapart).
        by injection Hn as <-.
    + done.
  - etrans; [apply Hfq|exact Eb]. set_solver.
Qed.

(** [put_in_place]: the detached node [b] takes the place of [a]. *)
Lemma put_in_place_ok tr ctx a i l r b nb :
  tree_at tr ctx (T a i l r) → b ≠ NULL → b ∉ addrs (T a i l r) ++ caddrs ctx →
  heap tr !! b = Some nb →
  ∃ tr', put_in_place a b tr = Ret tr' ∧ tree_at tr' ctx (T b (info_of nb) l r) ∧ same_frame tr tr'.
Proof.
  intros (Hc & (Ha0 & Ha & Hl & Hr) & Hnd) Hb0 Hbn Hb.
  assert (b ≠ a ∧ (b ∉ addrs l) ∧ (b ∉ addrs r) ∧ b ∉ caddrs ctx) as (Hba & Hbl & Hbr & Hbc) by set_solver.
  cbn in Hnd. rewrite <- app_assoc in Hnd. apply NoDup_cons in Hnd as [Han Hnd].
  pose proof Hnd as Hnd'. apply NoDup_app in Hnd' as (Hndl & Hlx & Hnd').
  apply NoDup_app in Hnd' as (Hndr & Hrx & Hndc).
  assert (∀ u wh, rept (heap tr) u a wh → tptr u ≠ NULL → is_Some (heap tr !! tptr u)) as Hsome.
  { intros u wh Hu. destruct u; cbn; [done|]. intros _. destruct Hu as (_ & -> & _). done. }
  unfold put_in_place. unfold rd at 1. rewrite Ha. cbn [deref obind cell parent which right left].
  destruct (writes_ok [(b, set_parent (cpar ctx)); (b, set_which (cwhich ctx)); (b, set_right (tptr r));
                       (tptr r, set_parent b); (b, set_left (tptr l)); (tptr l, set_parent b)] tr)
    as (tr1 & Hrun1 & Hroot1 & Hs1 & H1').
  { intros p f Hin Hp. repeat (apply elem_of_cons in Hin as [Hin|Hin]; [injection Hin as -> _; eauto|]).
    by apply not_elem_of_nil in Hin. }
  cbn [writes] in Hrun1. replay Hrun1.
  assert (∀ u q, (q ∉ addrs u) → q ≠ NULL → q ≠ tptr u) as Hout.
  { intros u q Hq Hq0 ->. by apply Hq, tptr_in. }
  assert (repc (heap tr1) (rootNode tr1) ctx a) as Hc1.
  { rewrite Hroot1. eapply repc_frame; [exact Hc|]. intros q Hq.
    assert (q ≠ NULL) by (eapply repc_nonnull; [exact Hc|done]).
    assert ((q ∉ addrs l) ∧ (q ∉ addrs r) ∧ q ≠ b) as (? & ? & ?) by set_solver.
    eapply writes_frame; [exact H1'|done|]. cbn. rewrite !not_elem_of_cons.
    split_and!; try done; [by apply Hout|by apply Hout|by intros ?%not_elem_of_nil]. }
  destruct (wstore_ok tr1 ctx _ b Hc1 Hndc) as (tr2 & Hrun2 & Hc2 & Hf2 & Hs2).
  exists tr2. split; [|split; [|by eapply same_frame_trans]].
  { rewrite <- Hrun2. by destruct ctx as [|[[] x ix o] ctx]. }
  assert (∀ u wh, rept (heap tr) u a wh → NoDup (addrs u) →
    (∀ q, q ∈ addrs u → (q ∉ caddrs ctx) ∧ q ≠ b ∧ (q ≠ tptr u → q ≠ tptr l ∧ q ≠ tptr r)) →
    (∀ n, tptr u ≠ NULL → heap tr !! tptr u = Some n → heap tr1 !! tptr u = Some (set_parent b n)) →
    rept (heap tr2) u b wh) as Hre.
  { intros u wh Hu Hndu Hq He. eapply (rept_reparent (heap tr)); [exact Hu|done| |].
    - intros q Hin Hqu. destruct (Hq q Hin) as (Hqc & Hqb & Hqx). destruct (Hqx Hqu). rewrite Hf2 by done.
      eapply writes_frame; [exact H1'|eapply rept_nonnull; [exact Hu|done]|]. cbn. rewrite !not_elem_of_cons.
      split_and!; try done. by intros ?%not_elem_of_nil.
    - intros n Hn Hue. assert (tptr u ≠ NULL) as Hu0 by (destruct u; [done|]; by destruct Hu).
      rewrite Hf2 by (apply Hq; by apply tptr_in). rewrite (He n Hu0 Hn).
      destruct u as [|x ix xl xr]; [done|]. destruct Hu as (_ & Hx & _). cbn in Hn. rewrite Hn in Hx.
      by injection Hx as ->. }
  assert (b ≠ tptr l ∧ b ≠ tptr r) as [? ?] by (split; by apply Hout).
  assert (tptr l ≠ NULL → tptr l ≠ tptr r) as Hlr.
  { intros Hl0 Heq. apply (Hlx (tptr l) (tptr_in l Hl0)), elem_of_app. left. rewrite Heq in *. by apply tptr_in. }
  split; [done|]. split.
  - cbn. split; [done|]. rewrite Hf2, H1', Hb by done. cbn [fmap option_fmap option_map].
    split; [f_equal; eff; done|]. split.
    + apply Hre; [done|done| |].
      * intros q Hq. assert ((q ∉ addrs r) ∧ (q ∉ caddrs ctx) ∧ q ≠ b) as (? & ? & ?) by set_solver.
        split_and!; try done. intros ?. split; [done|]. apply Hout; [done|]. eapply rept_nonnull; [exact Hl|done].
      * intros n Hl0 Hn. rewrite H1', Hn by done. cbn [fmap option_fmap option_map]. f_equal.
        specialize (Hlr Hl0). by eff.
    + apply Hre; [done|done| |].
      * intros q Hq. assert ((q ∉ addrs l) ∧ (q ∉ caddrs ctx) ∧ q ≠ b) as (? & ? & ?) by set_solver.
        split_and!; try done. intros ?. split; [|done]. apply Hout; [done|]. eapply rept_nonnull; [exact Hr|done].
      * intros n Hr0 Hn. rewrite H1', Hn by done. cbn [fmap option_fmap option_map]. f_equal.
        assert (tptr l ≠ tptr r) by (intros Heq; rewrite Heq in Hlr; by apply Hlr). by eff.
  - cbn. rewrite <- app_assoc. apply NoDup_cons. split; [set_solver|done].
Qed.

(** ** The cases of [wre_remove] *)

(** The outcome of unlinking the node [a] with entry [e] from [t0]: a position
    from which the balancing starts at [p]. *)
Definition unlinked tr tr' (ctx : list frame) (a i l r : _) (p : Z) : Prop :=
  ∃ ctx' t', tree_at tr' ctx' t' ∧ ok t' ∧ start_ok ctx' t' ∧ p = cstart ctx' t' ∧
    inorder (plug ctx' t') = cbefore ctx ++ inorder l ++ inorder r ++ cafter ctx ∧
    a :: addrs t' ++ caddrs ctx' ≡ₚ addrs (T a i l r) ++ caddrs ctx ∧
    Z.of_nat (length ctx') <= ht (plug ctx (T a i l r)) ∧ same_frame tr tr'.

Lemma ok_leaf_child l r a i : ok (T a i l r) → l = E → r ≠ E → ∃ b j, r = T b j E E.
Proof.
  intros (_ & Hr & _ & _ & Hd) -> Hne. destruct r as [|b j rl rr]; [done|]. cbn in Hd.
  pose proof (ht_nonneg rl). pose proof (ht_nonneg rr).
  rewrite (ht_zero rl), (ht_zero rr) by lia. eauto.
Qed.

Lemma ok_leaf_child' l r a i : ok (T a i l r) → r = E → l ≠ E → ∃ b j, l = T b j E E.
Proof.
  intros (Hl & _ & _ & _ & Hd) -> Hne. destruct l as [|b j ll lr]; [done|]. cbn in Hd.
  pose proof (ht_nonneg ll). pose proof (ht_nonneg lr).
  rewrite (ht_zero ll), (ht_zero lr) by lia. eauto.
Qed.

(** One child: it is a leaf and replaces its parent. *)
Lemma remove_one_child tr ctx s a i b j :
  tree_at tr ctx (tnode s a i E (T b j E E)) → ok (plug ctx (tnode s a i E (T b j E E))) →
  ∃ tr1 tr2, wr a (set_wchild (opp s) NULL) tr = Ret tr1 ∧ put_in_place a b tr1 = Ret tr2 ∧
    match s with SL => unlinked tr tr2 ctx a i E (T b j E E) b
               | SR => unlinked tr tr2 ctx a i (T b j E E) E b end.
Proof.
  intros Hat Hok. pose proof (ctx_length ctx (tnode s a i E (T b j E E))) as Hlen.
  apply ok_plug in Hok as [Hok Hcok]. rewrite ht_tnode in Hcok. cbn in Hcok.
  pose proof Hat as (Hc & Hr & Hnd). apply rept_tnode in Hr as (Ha0 & Ha & _ & Hb).
  pose proof Hb as (Hb0 & Hbc & _). rewrite addrs_tnode in Hnd. cbn in Hnd.
  apply NoDup_cons in Hnd as [Han Hnd]. pose proof Hnd as Hndb. apply NoDup_cons in Hndb as [Hbn Hndc].
  rewrite tptr_tnode in Hc. rewrite (wr_ok _ _ _ _ Ha). eexists.
  set (tr1 := set_heap _ tr).
  assert (tree_at tr1 ctx (T a i E E)) as Hat1.
  { split; [|split].
    - eapply repc_frame; [exact Hc|]. intros y Hy. apply lookup_insert_ne. set_solver.
    - cbn. rewrite lookup_insert_eq. split; [done|]. split; [by destruct s|done].
    - cbn. apply NoDup_cons. split; [set_solver|done]. }
  assert (heap tr1 !! b = Some (cell SL j NULL NULL a (wside (opp s)))) as Hb1.
  { cbn. rewrite lookup_insert_ne by set_solver. exact Hbc. }
  assert (b ∉ addrs (T a i E E) ++ caddrs ctx) as Hbo by (cbn; set_solver).
  destruct (put_in_place_ok tr1 ctx a i E E b _ Hat1 Hb0 Hbo Hb1) as (tr2 & Hrun & Hat2 & Hs2).
  exists tr2. split; [done|]. split; [done|]. rewrite info_cell in Hat2.
  assert (∀ l r, (l = E ∧ r = T b j E E) ∨ (l = T b j E E ∧ r = E) → T a i l r = tnode s a i E (T b j E E) →
    unlinked tr tr2 ctx a i l r b) as Hgo; [|destruct s; apply Hgo; auto].
  intros l r Hlr Heq. exists ctx, (T b j E E). apply ok_tnode in Hok as (_ & Hokb & _).
  split_and!; try done.
  - eapply start_of_cok; [exact Hcok|]. cbn. lia.
  - rewrite inorder_plug. cbn. destruct Hlr as [[-> ->]|[-> ->]]; done.
  - rewrite Heq, addrs_tnode. done.
  - rewrite Heq. pose proof (ht_nonneg (tnode s a i E (T b j E E))). lia.
Qed.

(** No child. *)
Lemma remove_no_child tr ctx a i :
  tree_at tr ctx (T a i E E) → ok (plug ctx (T a i E E)) →
  ∃ p tr', detach_childless (cell SL i NULL NULL (cpar ctx) (cwhich ctx)) tr = Ret (p, tr') ∧
    unlinked tr tr' ctx a i E E p.
Proof.
  intros Hat Hok. pose proof (ctx_length ctx (T a i E E)) as Hlen. cbn in Hlen.
  apply ok_plug in Hok as [_ Hcok]. cbn in Hcok.
  pose proof Hat as (Hc & (Ha0 & Ha & _) & Hnd). cbn in Hnd. apply NoDup_cons in Hnd as [Han Hndc].
  assert (∀ tr' p, repc (heap tr') (rootNode tr') ctx NULL → p = cstart ctx E → same_frame tr tr' →
    unlinked tr tr' ctx a i E E p) as Hgo.
  { intros tr' p Hc' -> Hs. exists ctx, E. split_and!; try done.
    - eapply start_of_cok; [exact Hcok|]. cbn. lia.
    - by rewrite inorder_plug.
    - lia. }
  destruct (wstore_ok tr ctx _ NULL Hc Hndc) as (tr1 & Hrun & Hc1 & _ & Hs1).
  unfold detach_childless. destruct ctx as [|[s x ix o] ctx]; cbn [cwhich cpar which parent cell].
  - cbn in Hrun |- *. injection Hrun as <-. eexists _, _. split; [done|]. by apply Hgo.
  - destruct Hc as (Hx0 & Hx & Hoo & _).
    assert (∀ p, wchild (opp s) (cell s ix a (tptr o) (cpar ctx) (cwhich ctx)) = p →
      (if negb (p =? NULL) then p else x) = cstart (Fr s x ix o :: ctx) E) as Hp.
    { intros p <-. destruct (wchild_cell s ix a (tptr o) (cpar ctx) (cwhich ctx)) as (_ & -> & _).
      cbn. destruct o as [|y iy ol or]; cbn; [done|]. destruct Hoo as (Hy0 & _).
      destruct (y =? NULL) eqn:Ey; zb; [done|]. done. }
    destruct s; cbn [wside]; unfold rd; rewrite Hx; cbn [deref obind];
      cbn [cslot wstore] in Hrun; rewrite Hrun; cbn [obind]; eexists _, _; (split; [done|]);
      apply Hgo; try done; by apply Hp.
Qed.

(** Two children: the smallest node of the right subtree. *)
Definition all_left (fs : list frame) : Prop := Forall (λ f, match f with Fr s _ _ _ => s = SL end) fs.

Lemma all_left_before fs : all_left fs → cbefore fs = [].
Proof.
  induction 1 as [|[s a i o] fs Hs _ IH]; cbn; [done|]. subst s. by rewrite IH.
Qed.

Lemma leftmost_ok tr ctx t fuel :
  tree_at tr ctx t → t ≠ E → ht t < Z.of_nat fuel →
  ∃ fs b ib rr, leftmost fuel tr (tptr t) = Ret b ∧ t = plug fs (T b ib E rr) ∧
    tree_at tr (fs ++ ctx) (T b ib E rr) ∧ all_left fs.
Proof.
  revert ctx fuel. induction t as [|a i l IHl r _]; intros ctx [|fuel] Hat Hne Hf; try done.
  { pose proof (ht_nonneg (T a i l r)). lia. }
  pose proof Hat as (_ & (Ha & Hc & Hl & _) & _). cbn [leftmost tptr]. unfold rd. rewrite Hc. cbn [deref obind cell left].
  destruct l as [|b j ll lr]; cbn [tptr].
  { exists [], a, i, r. by split_and!; [| | |constructor]. }
  destruct Hl as (Hb0 & _). destruct (b =? NULL) eqn:Eb; zb; [done|].
  destruct (IHl (Fr SL a i r :: ctx) fuel) as (fs & c & ic & rr & Hrun & Heq & Hatc & Hall);
    [by apply tree_at_up|done|cbn [ht] in *; lia|].
  exists (fs ++ [Fr SL a i r]), c, ic, rr. split; [done|]. split; [|split].
  - rewrite plug_app, <- Heq. done.
  - by rewrite <- app_assoc.
  - apply Forall_app. split; [done|]. by constructor.
Qed.

Lemma tree_at_app tr fs ctx t : tree_at tr (fs ++ ctx) t ↔ tree_at tr ctx (plug fs t).
Proof. by rewrite tree_at_plug, plug_app, <- tree_at_plug. Qed.

Lemma detach_replacer_ok tr ctx a i l r :
  tree_at tr ctx (T a i l r) → l ≠ E → r ≠ E → ht r < Z.of_nat WRE_FUEL →
  ∃ fs b ib rr tr' nb, r = plug fs (T b ib E rr) ∧ all_left fs ∧
    detach_replacer a tr = Ret (b, cstart (fs ++ Fr SR b ib l :: ctx) rr, tr') ∧
    tree_at tr' ctx (T a i l (plug fs rr)) ∧ heap tr' !! b = Some nb ∧ info_of nb = ib ∧
    b ≠ NULL ∧ same_frame tr tr'.
Proof.
  intros Hat Hle Hre Hf. pose proof Hat as (_ & (Ha0 & Ha & Hl & Hr) & _).
  destruct (leftmost_ok tr (Fr SR a i l :: ctx) r WRE_FUEL) as (fs & b & ib & rr & Hrun & Heq & Hatb & Hall);
    [by apply tree_at_up|done|done|].
  pose proof Hatb as (Hcb & (Hb0 & Hb & _) & _).
  set (cb := fs ++ Fr SR a i l :: ctx) in *.
  destruct (splice_ok tr cb b ib rr Hatb) as (tr1 & Hspl & Hat1 & Hbs & Hs1).
  exists fs, b, ib, rr, tr1, (cell SL ib NULL (tptr rr) (cpar cb) (cwhich cb)).
  split; [done|]. split; [done|].
  assert (tree_at tr1 ctx (T a i l (plug fs rr))) as Hat1'.
  { apply tree_at_app in Hat1. by apply tree_at_up in Hat1. }
  split; [|split_and!; try done; [by rewrite Hbs|by apply info_cell]].
  unfold detach_replacer. unfold rd at 1. rewrite Ha. cbn [deref obind cell right]. rewrite Hrun. cbn [obind].
  unfold rd at 1. rewrite Hb. cbn [deref obind cell right which parent].
  assert ((match cwhich cb with
     | LEFT_NODE => wr (cpar cb) (set_left (tptr rr)) tr
     | RIGHT_NODE => let! tr0 := wr (cpar cb) (set_right (tptr rr)) tr in wr a (set_right (tptr rr)) tr0
     | ROOT_NODE => Stop AssertFailed end) = wstore (cslot cb) (tptr rr) tr) as ->.
  { unfold cb. destruct fs as [|[s x ix o] fs]; cbn [app cwhich cpar cslot wstore wside].
    - rewrite (wr_ok _ _ _ _ Ha). cbn [obind]. erewrite wr_ok by (cbn; apply lookup_insert_eq).
      unfold set_heap. cbn. by rewrite insert_insert_eq.
    - apply Forall_cons in Hall as [-> _]. done. }
  unfold splice in Hspl. apply obind_Ret_inv in Hspl as (trs & -> & Hspl). cbn [obind].
  assert ((if negb (tptr rr =? NULL) then
             let! tr0 := wr (tptr rr) (set_parent (cpar cb)) trs in wr (tptr rr) (set_which (cwhich cb)) tr0
           else Ret trs) = Ret tr1) as -> by done. cbn [obind].
  destruct rr as [|y iy yl yr]; cbn [tptr].
  2:{ destruct Hat1 as (_ & (Hy0 & _) & _). destruct (y =? NULL) eqn:Ey; zb; [done|]. done. }
  change (negb (NULL =? NULL)) with false. cbn [obind].
  destruct Hat1 as (Hc1 & _ & _). unfold cb in Hc1 |- *.
  destruct fs as [|[s x ix o] fs]; cbn [app repc cpar tptr] in Hc1 |- *; destruct Hc1 as (Hx0 & Hx & Ho & _);
    unfold rd; rewrite Hx; cbn [deref obind].
  - cbn [cell right left]. change (negb (NULL =? NULL)) with false. cbn match.
    destruct l as [|z iz zl zr]; [done|]. destruct Hl as (Hz0 & _). cbn.
    destruct (z =? NULL) eqn:Ez; zb; [done|]. done.
  - apply Forall_cons in Hall as [-> _]. cbn [cell right left].
    destruct o as [|z iz zl zr]; cbn; [done|]. destruct Ho as (Hz0 & _).
    destruct (z =? NULL) eqn:Ez; zb; [done|]. done.
Qed.

Lemma remove_two_children tr ctx a i l r :
  tree_at tr ctx (T a i l r) → ok (plug ctx (T a i l r)) → l ≠ E → r ≠ E →
  ht (plug ctx (T a i l r)) < 66 →
  ∃ b p tr1 tr2, detach_replacer a tr = Ret (b, p, tr1) ∧ b ≠ NULL ∧
    put_in_place a b tr1 = Ret tr2 ∧ unlinked tr tr2 ctx a i l r p.
Proof.
  intros Hat Hok Hle Hre Hht. pose proof (ctx_length ctx (T a i l r)) as Hcl.
  pose proof (ok_plug _ _ Hok) as [Hokn _]. cbn [ht] in Hcl.
  pose proof (ht_nonneg l). pose proof (ht_nonneg r).
  destruct (detach_replacer_ok tr ctx a i l r Hat Hle Hre) as
    (fs & b & ib & rr & tr1 & nb & Heq & Hall & Hrun & Hat1 & Hnb & Hib & Hb0 & Hs1); [unfold WRE_FUEL; lia|].
  assert (addrs r ≡ₚ b :: addrs (plug fs rr)) as Hadr.
  { rewrite Heq, !addrs_plug. done. }
  assert (b ∉ addrs (T a i l (plug fs rr)) ++ caddrs ctx) as Hbo.
  { destruct Hat as (_ & _ & Hnd). cbn in Hnd |- *. rewrite Hadr in Hnd.
    rewrite <- app_assoc in Hnd |- *. apply NoDup_cons in Hnd as [Han Hnd].
    apply NoDup_app in Hnd as (_ & Hlx & Hnd). cbn in Hnd. apply NoDup_cons in Hnd as [Hbn _]. set_solver. }
  destruct (put_in_place_ok tr1 ctx a i l (plug fs rr) b nb Hat1 Hb0 Hbo Hnb) as (tr2 & Hrun2 & Hat2 & Hs2).
  eexists b, _, tr1, tr2. split; [exact Hrun|]. split; [done|]. split; [done|].
  rewrite Hib in Hat2. exists (fs ++ Fr SR b ib l :: ctx), rr.
  assert (ok (plug (fs ++ Fr SR a i l :: ctx) (T b ib E rr))) as Hokp.
  { rewrite plug_app. cbn [plug plug1 tnode]. by rewrite <- Heq. }
  apply ok_plug in Hokp as [Hokb Hcok]. apply (cok_swap _ _ _ _ b ib) in Hcok.
  pose proof Hokb as (_ & Hokrr & _ & _ & Hd). cbn in Hd, Hcok. pose proof (ht_nonneg rr).
  split_and!; try done.
  - apply tree_at_app. by apply tree_at_up.
  - eapply start_of_cok; [exact Hcok|]. lia.
  - rewrite plug_app. cbn [plug plug1 tnode]. rewrite !inorder_plug. cbn [inorder].
    rewrite Heq, !inorder_plug, (all_left_before fs Hall). cbn. by simplify_list_eq.
  - rewrite <- addrs_plug, plug_app. cbn [plug plug1 tnode]. rewrite addrs_plug. cbn. rewrite Hadr.
    rewrite <- (Permutation_middle (addrs l)). done.
  - rewrite length_app. cbn [length]. pose proof (ctx_length fs (T b ib E rr)) as Hfl.
    rewrite <- Heq in Hfl. cbn [ht] in Hfl. lia.
  - by eapply same_frame_trans.
Qed.

Lemma cstart_null tr ctx t : tree_at tr ctx t → cstart ctx t = NULL → ctx = [] ∧ t = E.
Proof.
  intros (Hc & Hr & _). destruct t as [|a i l r]; cbn; [|by destruct Hr].
  destruct ctx as [|[s a i o] ctx]; [done|]. destruct Hc as (Ha & _ & Ho & _).
  destruct o as [|b j ol or]; [done|]. by destruct Ho.
Qed.

(** Balancing after the unlinking, and the release of the node. *)
Lemma remove_finish tr tr2 ctx a i l r p :
  unlinked tr tr2 ctx a i l r p → ht (plug ctx (T a i l r)) < 66 →
  Z.of_nat (length (addrs (plug ctx (T a i l r)))) < WRE_MAX →
  ∃ tr3 t3, (if negb (p =? NULL) then rebalance p tr2 else Ret tr2) = Ret tr3 ∧
    tree_at tr3 [] t3 ∧ ok t3 ∧
    inorder t3 = cbefore ctx ++ inorder l ++ inorder r ++ cafter ctx ∧
    a :: addrs t3 ≡ₚ addrs (plug ctx (T a i l r)) ∧ same_frame tr tr3.
Proof.
  intros (ctx' & t' & Hat & Hok & Hst & -> & Hin & Had & Hlen & Hs) Hht Hsz.
  assert (a :: addrs t' ++ caddrs ctx' ≡ₚ addrs (plug ctx (T a i l r))) as Had'.
  { by rewrite addrs_plug. }
  destruct (cstart ctx' t' =? NULL) eqn:Ec; zb; cbn [negb].
  - destruct (cstart_null _ _ _ Hat Ec) as [-> ->]. exists tr2, E. by split_and!.
  - destruct (rebalance_ok ctx' tr2 t' Hat Hok Hst Ec) as (tr3 & t3 & ? & ? & ? & Hin3 & Had3 & Hs3).
    + unfold WRE_FUEL. lia.
    + unfold WRE_MAX in Hsz. rewrite <- Had' in Hsz. cbn in Hsz. lia.
    + exists tr3, t3. split_and!; try done; [congruence|by rewrite Had3|by eapply same_frame_trans].
Qed.

Section order.
Context (lower : Z → Z → bool) `{!StrictWeak lower}.

(** The part of [wre_remove] that unlinks the node [cnode] with fields [n]. *)
Definition unlink_node (cnode : Z) (n : wre_node) tr : outcome (Z * Z * wre_tree W) :=
  if left n =? NULL then
    if negb (right n =? NULL) then
      let! tr := wr cnode (set_right NULL) tr in Ret (right n, right n, tr)
    else let! (b, tr) := detach_childless n tr in Ret (NULL, b, tr)
  else if right n =? NULL then
    let! tr := wr cnode (set_left NULL) tr in Ret (left n, left n, tr)
  else detach_replacer cnode tr.

Lemma unlink_node_ok tr ctx a i l r :
  tree_at tr ctx (T a i l r) → ok (plug ctx (T a i l r)) → ht (plug ctx (T a i l r)) < 66 →
  ∃ rep p tr1 tr2, unlink_node a (cell SL i (tptr l) (tptr r) (cpar ctx) (cwhich ctx)) tr = Ret (rep, p, tr1) ∧
    (if negb (rep =? NULL) then put_in_place a rep tr1 else Ret tr1) = Ret tr2 ∧
    (p = NULL → rep = NULL) ∧ unlinked tr tr2 ctx a i l r p.
Proof.
  intros Hat Hok Hht. pose proof (ok_plug _ _ Hok) as [Hokn _].
  pose proof Hat as (_ & (Ha0 & Ha & Hl & Hr) & _). unfold unlink_node.
  change (left (cell SL i (tptr l) (tptr r) (cpar ctx) (cwhich ctx))) with (tptr l).
  change (right (cell SL i (tptr l) (tptr r) (cpar ctx) (cwhich ctx))) with (tptr r).
  destruct l as [|b j ll lr] eqn:El; cbn [tptr].
  - change (NULL =? NULL) with true. cbn match. destruct r as [|b j rl rr] eqn:Er; cbn [tptr].
    + change (negb (NULL =? NULL)) with false. cbn match.
      destruct (remove_no_child tr ctx a i Hat Hok) as (p & tr1 & -> & Hu). cbn [obind].
      exists NULL, p, tr1, tr1. by split_and!.
    + destruct (ok_leaf_child E (T b j rl rr) a i Hokn) as (b' & j' & Heq); [done..|].
      injection Heq as <- <- -> ->. destruct Hr as (Hb0 & _). destruct (b =? NULL) eqn:Eb; zb; [done|]. cbn [negb].
      destruct (remove_one_child tr ctx SL a i b j Hat Hok) as (tr1 & tr2 & Hrun1 & Hrun2 & Hu).
      change (set_wchild (opp SL) NULL) with (set_right NULL) in Hrun1. rewrite Hrun1. cbn [obind]. exists b, b, tr1, tr2. rewrite (proj2 (Z.eqb_neq b NULL)) by done. by split_and!.
  - destruct Hl as (Hb0 & _). destruct (b =? NULL) eqn:Eb; zb; [done|].
    destruct r as [|c k rl rr] eqn:Er; cbn [tptr].
    + change (NULL =? NULL) with true. cbn match.
      destruct (ok_leaf_child' (T b j ll lr) E a i Hokn) as (b' & j' & Heq); [done..|].
      injection Heq as <- <- -> ->.
      destruct (remove_one_child tr ctx SR a i b j Hat Hok) as (tr1 & tr2 & Hrun1 & Hrun2 & Hu).
      change (set_wchild (opp SR) NULL) with (set_left NULL) in Hrun1. rewrite Hrun1. cbn [obind]. exists b, b, tr1, tr2. rewrite (proj2 (Z.eqb_neq b NULL)) by done. by split_and!.
    + destruct Hr as (Hc0 & _). destruct (c =? NULL) eqn:Ec; zb; [done|].
      destruct (remove_two_children tr ctx a i (T b j ll lr) (T c k rl rr) Hat Hok) as (b' & p & tr1 & tr2 & -> & Hb' & Hrun2 & Hu);
        [done|done|done|].
      exists b', p, tr1, tr2. rewrite (proj2 (Z.eqb_neq b' NULL)) by done. split_and!; try done.
      intros ->. destruct Hu as (ctx' & t' & Hat' & _ & _ & Hp & _ & Had & _).
      destruct (cstart_null _ _ _ Hat' (eq_sym Hp)) as [-> ->]. apply Permutation_length in Had.
      cbn in Had. rewrite !length_app in Had. cbn in Had. lia.
Qed.

Lemma wre_remove_eq tr d :
  wre_remove lower tr d =
  let! cnode := find_node lower tr d in
  if cnode =? NULL then Ret (NULL, tr) else
  let! n := rd tr cnode in
  let! (replacer, balanced_node, tr) := unlink_node cnode n tr in
  let! tr := (if negb (replacer =? NULL) then put_in_place cnode replacer tr else Ret tr) in
  let! tr := (if negb (balanced_node =? NULL) then rebalance balanced_node tr
     else if negb (replacer =? NULL) then
       let! rn := rd tr replacer in
       let! tr := (if negb (left rn =? NULL) then
                     let! tr := update_node_subtree_metadata (left rn) tr in
                     balance_upwards WRE_FUEL balanced_node tr
                   else Ret tr) in
       update_node_subtree_metadata replacer tr
     else Ret tr) in
  let! tr := node_destroy cnode tr in
  Ret (data n, set_size (u64 (size tr - 1)) tr).
Proof. done. Qed.

Lemma wre_remove_ok tr es room d :
  wre_rep lower tr es room →
  (wre_remove lower tr d = Ret (NULL, tr) ∧ ∀ e, e ∈ es → ¬ equiv lower e.1 d) ∨
  ∃ l1 e l2 tr', es = l1 ++ e :: l2 ∧ equiv lower e.1 d ∧
    wre_remove lower tr d = Ret (e.1, tr') ∧ wre_rep lower tr' (l1 ++ l2) (S room) ∧
    size tr' = u64 (size tr - 1).
Proof.
  intros (t & L & M & room' & Hinv & Hroom & <-). pose proof (wi_height _ _ _ _ _ _ Hinv) as Hht.
  pose proof Hinv as [Hat Hok Hso HL Hw HM Hmax]. pose proof Hat as (Hroot & _). cbn [repc] in Hroot.
  rewrite wre_remove_eq. unfold find_node. rewrite Hroot.
  destruct (find_node_from_ok lower tr d [] t WRE_FUEL Hat Hso) as (a & -> & Hp); [unfold WRE_FUEL; lia|].
  cbn [obind]. destruct Hp as [[-> Hno]|(ctx & i & l & r & Hatp & Hpl & Heq)]; [by left|right].
  cbn [plug] in Hpl. subst t. pose proof Hatp as (_ & (Ha0 & Ha & _) & _).
  destruct (a =? NULL) eqn:Ea; zb; [done|]. unfold rd at 1. rewrite Ha. cbn [deref obind].
  destruct (unlink_node_ok tr ctx a i l r Hatp Hok Hht) as (rep & p & tr1 & tr2 & -> & Hrun2 & Hpr & Hu).
  cbn [obind]. rewrite Hrun2. cbn [obind].
  destruct (remove_finish tr tr2 ctx a i l r p Hu Hht ltac:(lia)) as (tr3 & t3 & Hrun3 & Hat3 & Hok3 & Hin3 & Had3 & Hs3).
  match goal with |- context [obind ?m _] =>
    lazymatch m with (if negb (p =? NULL) then _ else _) => replace m with (@Ret (wre_tree W) tr3) end end.
  2:{ rewrite <- Hrun3. destruct (p =? NULL) eqn:Ep; zb; cbn [negb]; [|done]. by rewrite (Hpr Ep). }
  cbn [obind]. destruct Hs3 as (Hal & Hsz & Hwo). unfold node_destroy. rewrite Hwo.
  assert (a ∈ L) as HaL by (apply HL; rewrite <- Had3; by left).
  destruct (na_free_ok _ _ _ _ _ _ Hw HM HaL) as (w' & -> & Hw'). cbn [obind].
  exists (cbefore ctx ++ inorder l), (i_data i, i_ow i), (inorder r ++ cafter ctx).
  assert (inorder (plug ctx (T a i l r)) =
    (cbefore ctx ++ inorder l) ++ (i_data i, i_ow i) :: inorder r ++ cafter ctx) as Hes.
  { rewrite inorder_plug. cbn. by simplify_list_eq. }
  eexists. split; [done|]. split; [done|]. split; [done|]. split; [|cbn; by rewrite Hsz].
  exists t3, (L ∖ {[a]}), (<[nodeAlloc tr := (L ∖ {[a]}, S room')]> M), (S room'). split; [split|split; [lia|]]; cbn.
  - exact Hat3.
  - done.
  - rewrite Hin3. rewrite Hes in Hso. apply sorted_remove in Hso. by rewrite <- app_assoc in Hso.
  - intros y Hy. apply elem_of_difference. split; [apply HL; rewrite <- Had3; by right|].
    rewrite elem_of_singleton. intros ->. pose proof Hat as (_ & _ & Hnd). cbn in Hnd. rewrite app_nil_r in Hnd.
    rewrite <- Had3 in Hnd. by apply NoDup_cons in Hnd as [? _].
  - exact Hw'.
  - rewrite Hal. by rewrite lookup_insert_eq.
  - rewrite <- Had3 in Hmax. cbn in Hmax. lia.
  - rewrite Hin3. by rewrite <- app_assoc.
Qed.

(** C10: [wre_remove] of data the tree does not hold changes nothing and returns
    [NULL]; otherwise it takes out exactly one entry equivalent to the data,
    returns that entry's data, keeps the order, balance, metadata and links of
    the rest, and gives the node back to the allocator. *)
Theorem wre_remove_correct tr es room d :
  wre_rep lower tr es room →
  (wre_remove lower tr d = Ret (NULL, tr) ∧ ∀ e, e ∈ es → ¬ equiv lower e.1 d) ∨
  ∃ l1 e l2 tr', es = l1 ++ e :: l2 ∧ equiv lower e.1 d ∧
    wre_remove lower tr d = Ret (e.1, tr') ∧ wre_rep lower tr' (l1 ++ l2) (S room) ∧
    size tr' = u64 (size tr - 1).
Proof. apply wre_remove_ok. Qed.

End order.
End remove.
