(* ===== verification/WreWeight.v ===== *)
(** * Search by weight in the ranking tree

    [wre_calculate_total_size] and the assertions it checks, and
    [wre_find_weighted] in exact arithmetic. *)
From S2P Require Import Prelude Alloc Wre WreTree WreHeap WrePut.
From Stdlib Require Import QArith Lqa.
Local Open Scope Z_scope.

Definition total (l : list (Z * Z)) : Z := foldr (λ e s, e.2 + s) 0 l.

Lemma total_app l l' : total (l ++ l') = total l + total l'.
Proof. induction l as [|e l IH]; cbn; [done|]. fold (total (l ++ l')) (total l). lia. Qed.

Lemma wt_total t : wt t = total (inorder t).
Proof.
  induction t as [|a i l IHl r IHr]; cbn; [done|]. rewrite total_app. cbn. fold (total (inorder r)). lia.
Qed.

Section weight.
Context {W : Type} `{NodeAllocLaws W}.
Implicit Types tr : wre_tree W.

(** ** The consistency check *)
Lemma subtree_size_ok tr ctx t fuel :
  tree_at tr ctx t → ok t → ht t < Z.of_nat fuel → ht t < 2 ^ 30 →
  wre_calculate_subtree_size fuel tr (tptr t) = Ret (u64 (wt t)).
Proof.
  revert ctx fuel. induction t as [|a i l IHl r IHr]; intros ctx [|fuel] Hat Hok Hf Hb.
  { cbn in Hf; lia. } { done. } { pose proof (ht_nonneg (T a i l r)). lia. }
  pose proof Hat as (_ & (Ha & Hc & Hl & Hr) & _). pose proof Hok as (Hol & Hor & Hh & Hsw & Hd).
  cbn [ht] in Hf, Hb. pose proof (ht_nonneg l). pose proof (ht_nonneg r).
  cbn [wre_calculate_subtree_size tptr]. destruct (a =? NULL) eqn:Ea; zb; [done|].
  unfold rd at 1. rewrite Hc. cbn [deref obind cell left right ownWeight subtreeWeight height].
  rewrite (IHl (Fr SL a i r :: ctx)) by (first [by apply tree_at_up|done|lia]). cbn [obind].
  rewrite (IHr (Fr SR a i l :: ctx)) by (first [by apply tree_at_up|done|lia]). cbn [obind].
  assert (∀ s u, rept (heap tr) u a (wside s) → ok u → ht u < 2 ^ 30 →
    (if negb (tptr u =? NULL) then
       let! ln := rd tr (tptr u) in
       let! _ := c_assert (bool_decide (which ln = wside s)) in
       let! _ := c_assert (parent ln =? a) in Ret (i32 (height ln + 1))
     else Ret 0) = Ret (ht u)) as Hsub.
  { intros s u Hu Hou Hbu. destruct u as [|b j ul ur]; cbn [tptr]; [done|].
    destruct Hu as (Hb0 & Hbc & _). destruct (b =? NULL) eqn:Eb; zb; [done|]. cbn [negb].
    unfold rd. rewrite Hbc. cbn [deref obind cell which parent height].
    rewrite bool_decide_true by done. unfold c_assert. rewrite Z.eqb_refl. cbn [obind].
    destruct Hou as (_ & _ & -> & _). cbn [ht] in *. pose proof (ht_nonneg ul).
    unfold i32. rewrite Z.mod_small by lia. f_equal. lia. }
  assert (u64 (u64 (u64 (wt l) + u64 (wt r)) + i_ow i) = i_sw i) as ->.
  { rewrite Hsw. cbn. rewrite u64_add_l, <- Z.add_assoc, u64_add_l.
    rewrite Z.add_assoc, (Z.add_comm (wt l)), <- Z.add_assoc, u64_add_l. f_equal. lia. }
  unfold c_assert at 1. rewrite Z.eqb_refl. cbn [obind].
  pose proof (Hsub SL l Hl Hol ltac:(lia)) as Esl. pose proof (Hsub SR r Hr Hor ltac:(lia)) as Esr.
  cbn [wside] in Esl, Esr. rewrite Esl. cbn [obind]. rewrite Esr. cbn [obind].
  assert (u64 (if ht r <? ht l then ht l else ht r) = i_hh i) as ->.
  { rewrite Hh. case_if; rewrite u64_small by (unfold is_u64; lia); lia. }
  unfold c_assert. rewrite Z.eqb_refl. cbn [obind].
  unfold i32. rewrite Z.mod_small by lia. rewrite (proj2 (Z.ltb_lt _ 2)) by lia. cbn [obind].
  by rewrite Hsw.
Qed.

Lemma total_size_ok lower tr es room :
  wre_rep lower tr es room → wre_calculate_total_size tr = Ret (u64 (total es)).
Proof.
  intros (t & L & M & room' & Hinv & Hroom & <-). pose proof (wi_height _ _ _ _ _ _ Hinv) as Hht.
  pose proof Hinv as [Hat Hok _ _ _ _ _]. pose proof Hat as (Hroot & _). cbn [repc] in Hroot.
  unfold wre_calculate_total_size. rewrite Hroot, <- wt_total.
  apply (subtree_size_ok tr []); try done; unfold WRE_FUEL; lia.
Qed.

(** on every tree the operations build, [wre_calculate_total_size] returns the
    sum of the weights (as a [size_t]) and none of its assertions on links,
    heights, weights and balance fires. *)
Theorem wre_total_size_correct lower tr es room :
  wre_rep lower tr es room → wre_calculate_total_size tr = Ret (u64 (total es)).
Proof. apply total_size_ok. Qed.

(** ** Search by weight, in exact arithmetic *)
#[local] Existing Instance rational.

Definition weights_ok (l : list (Z * Z)) : Prop := Forall (λ e, 0 <= e.2) l.

Lemma total_nonneg l : weights_ok l → 0 <= total l.
Proof. induction 1 as [|e l He _ IH]; cbn; [done|]. fold (total l). lia. Qed.

Lemma Qltb_spec x y : dbl_ltb x y = true ↔ (x < y)%Q.
Proof.
  cbn. rewrite negb_true_iff. destruct (Qle_bool y x) eqn:E.
  - apply Qle_bool_iff in E. split; [done|]. intros. lra.
  - split; [|done]. intros _. destruct (Qlt_le_dec x y) as [|Hle]; [done|].
    apply Qle_bool_iff in Hle. congruence.
Qed.

(** Descending keeps the target weight: to the left it is scaled, to the right
    it is shifted and scaled. *)
Lemma scale_left q lw sw :
  (0 < sw)%Q → (0 <= q)%Q → (q < lw / sw)%Q →
  (0 < lw)%Q ∧ (0 <= q / (lw / sw))%Q ∧ (q / (lw / sw) <= 1)%Q ∧ (q / (lw / sw) * lw == q * sw)%Q.
Proof.
  intros Hsw Hq Hlt. assert (0 < lw / sw)%Q as Hd by lra.
  assert (0 < lw)%Q as Hlw.
  { assert (lw == (lw / sw) * sw)%Q as -> by (field; lra). apply Qmult_lt_0_compat; lra. }
  split_and!; [done| | |field; split; lra].
  - apply Qle_shift_div_l; [lra|]. lra.
  - apply Qle_shift_div_r; [lra|]. lra.
Qed.

Lemma scale_right q pw sw rw :
  (0 < sw)%Q → (q <= 1)%Q → (pw / sw < q)%Q → (sw == pw + rw)%Q →
  (0 < rw)%Q ∧ (0 <= (q - pw / sw) / (1 - pw / sw))%Q ∧ ((q - pw / sw) / (1 - pw / sw) <= 1)%Q ∧
  ((q - pw / sw) / (1 - pw / sw) * rw == q * sw - pw)%Q.
Proof.
  intros Hsw Hq Hlt Hsum. assert (0 < 1 - pw / sw)%Q as Hd by lra.
  assert (rw == (1 - pw / sw) * sw)%Q as Hrw.
  { assert ((1 - pw / sw) * sw == sw - pw)%Q as -> by (field; lra). lra. }
  split_and!.
  - rewrite Hrw. apply Qmult_lt_0_compat; lra.
  - apply Qle_shift_div_l; [lra|]. lra.
  - apply Qle_shift_div_r; [lra|]. lra.
  - rewrite Hrw. field. split; [lra|]. intros Heq.
    assert (1 - pw / sw == (sw - pw) / sw)%Q as He by (field; lra). rewrite He, Heq in Hd.
    unfold Qdiv in Hd. lra.
Qed.

Lemma find_weighted_ok tr ctx t fuel q best pct :
  tree_at tr ctx t → ok t → weights_ok (inorder t) → 0 < wt t < 2 ^ 64 →
  (0 <= q)%Q → (q <= 1)%Q → ht t < Z.of_nat fuel →
  ∃ p pct', find_weighted_loop fuel tr q best (tptr t) pct = Ret (p, pct') ∧
    ∃ ctx' i l r l1 l2, tree_at tr ctx' (T p i l r) ∧
      inorder t = l1 ++ (i_data i, i_ow i) :: l2 ∧
      (inject_Z (total l1) <= q * inject_Z (wt t))%Q ∧
      (q * inject_Z (wt t) <= inject_Z (total l1 + i_ow i))%Q.
Proof.
  revert ctx fuel q best. induction t as [|a i l IHl r IHr]; intros ctx [|fuel] q best Hat Hok Hw Hwt Hq0 Hq1 Hf.
  { cbn in Hf; lia. } { cbn in Hwt. lia. } { pose proof (ht_nonneg (T a i l r)). lia. }
  pose proof Hat as (_ & (Ha & Hc & Hl & Hr) & _). pose proof Hok as (Hol & Hor & _ & Hsw & _).
  cbn [inorder] in Hw. apply Forall_app in Hw as [Hwl Hwr]. apply Forall_cons in Hwr as [How Hwr]. cbn in How.
  pose proof (total_nonneg _ Hwl) as Htl. pose proof (total_nonneg _ Hwr) as Htr.
  rewrite <- wt_total in Htl, Htr. cbn [wt] in Hwt. cbn [ht] in Hf.
  cbn [find_weighted_loop tptr]. destruct (a =? NULL) eqn:Ea; zb; [done|].
  unfold rd at 1. rewrite Hc. cbn [deref obind cell subtreeWeight left right ownWeight].
  rewrite Hsw. cbn [wt]. rewrite (u64_small (wt l + wt r + i_ow i)) by (unfold is_u64; lia).
  destruct (wt l + wt r + i_ow i =? 0) eqn:E0; zb; [lia|].
  destruct (depth_dep _ tr l a LEFT_NODE eq_refl Hl) as [_ ->]. cbn [obind].
  rewrite (ok_swt l Hol), (u64_small (wt l)) by (unfold is_u64; lia).
  rewrite (u64_small (wt l + i_ow i)) by (unfold is_u64; lia).
  set (sw := wt l + wt r + i_ow i) in *. cbn [dbl_of_size dbl_div dbl_sub rational].
  assert (0 < inject_Z sw)%Q as Hsw0 by (change 0%Q with (inject_Z 0); rewrite <- Zlt_Qlt; lia).
  assert (inject_Z sw == inject_Z (wt l + i_ow i) + inject_Z (wt r))%Q as Hsum.
  { rewrite <- inject_Z_plus. unfold sw. f_equiv. lia. }
  destruct (@dbl_ltb rational q (inject_Z (wt l) / inject_Z sw)%Q) eqn:E1;
    [|destruct (@dbl_ltb rational (inject_Z (wt l + i_ow i) / inject_Z sw)%Q q) eqn:E2].
  - apply Qltb_spec in E1. destruct (scale_left _ _ _ Hsw0 Hq0 E1) as (Hlw & Hq0' & Hq1' & Hscale).
    change 0%Q with (inject_Z 0) in Hlw. rewrite <- Zlt_Qlt in Hlw.
    destruct (IHl (Fr SL a i r :: ctx) fuel (q / (inject_Z (wt l) / inject_Z sw))%Q a)
      as (p & pct' & Hrun & ctx' & j & l' & r' & l1 & l2 & Hatp & Hin & Hlo & Hhi);
      [by apply tree_at_up|done|done|lia|done|done|lia|].
    exists p, pct'. split; [exact Hrun|].
    exists ctx', j, l', r', l1, (l2 ++ (i_data i, i_ow i) :: inorder r). split; [done|].
    split; [cbn; rewrite Hin; by simplify_list_eq|]. cbn [wt]. fold sw. rewrite <- Hscale. done.
  - apply Qltb_spec in E2. destruct (scale_right _ _ _ _ Hsw0 Hq1 E2 Hsum) as (Hrw & Hq0' & Hq1' & Hscale).
    change 0%Q with (inject_Z 0) in Hrw. rewrite <- Zlt_Qlt in Hrw.
    destruct (IHr (Fr SR a i l :: ctx) fuel
      ((q - inject_Z (wt l + i_ow i) / inject_Z sw) / (inject_Z 1 - inject_Z (wt l + i_ow i) / inject_Z sw))%Q a)
      as (p & pct' & Hrun & ctx' & j & l' & r' & l1 & l2 & Hatp & Hin & Hlo & Hhi);
      [by apply tree_at_up|done|done|lia|exact Hq0'|exact Hq1'|lia|].
    exists p, pct'. split; [exact Hrun|].
    exists ctx', j, l', r', (inorder l ++ (i_data i, i_ow i) :: l1), l2. split; [done|].
    split; [cbn; rewrite Hin; by simplify_list_eq|]. cbn [wt]. fold sw.
    change (inject_Z 1) with 1%Q in Hlo, Hhi. rewrite Hscale in Hlo, Hhi.
    rewrite total_app. cbn [total foldr snd]. fold (total l1). rewrite <- (wt_total l).
    rewrite !inject_Z_plus in *. lra.
  - assert (inject_Z (wt l) <= q * inject_Z sw)%Q as Hlo.
    { destruct (Qlt_le_dec q (inject_Z (wt l) / inject_Z sw)) as [Hlt|Hle]; [apply Qltb_spec in Hlt; congruence|].
      assert (inject_Z (wt l) == inject_Z (wt l) / inject_Z sw * inject_Z sw)%Q as -> by (field; lra).
      by apply Qmult_le_compat_r; [|lra]. }
    assert (q * inject_Z sw <= inject_Z (wt l + i_ow i))%Q as Hhi.
    { destruct (Qlt_le_dec (inject_Z (wt l + i_ow i) / inject_Z sw) q) as [Hlt|Hle]; [apply Qltb_spec in Hlt; congruence|].
      assert (inject_Z (wt l + i_ow i) == inject_Z (wt l + i_ow i) / inject_Z sw * inject_Z sw)%Q as -> by (field; lra).
      by apply Qmult_le_compat_r; [|lra]. }
    eexists a, _. split; [done|]. exists ctx, i, l, r, (inorder l), (inorder r).
    rewrite <- wt_total. done.
Qed.


End weight.
