(* ===== verification/WreSpec.v ===== *)
(** * The ranking tree over a slab allocator

    Creation, whole runs of operations against a specification on sorted lists,
    and what the neighbour search of the interpolation really returns. *)
From S2P Require Import Prelude Bigary Alloc Slab Wre WreTree WreHeap WrePut WreRemove WreWeight.

Definition NODEALLOC_OFFSET : Z := 8.
Definition SIZEOF_WRE_NODE : Z := 64.

(** [tree] is what [jemk_malloc] returned and [garbage] what the memory holds
    where [size] lies: no statement of [wre_create] sets that field. *)
Definition wre_create (o : OS) (tree garbage : Z) (w : slab_world) : outcome (wre_tree slab_world) :=
  if tree =? NULL then Stop BadDeref else
  let! (ret, w) := @slab_alloc_init o (tree + NODEALLOC_OFFSET) SIZEOF_WRE_NODE 0 w in
  let! _ := c_assert (ret =? 0) in
  Ret (WTree NULL (tree + NODEALLOC_OFFSET) garbage ∅ w).

Definition wre_destroy `{OS} (tr : wre_tree slab_world) : outcome slab_world :=
  slab_alloc_destroy (nodeAlloc tr) (tworld tr).

(** How many nodes an allocator of the default size holds. *)
Definition WRE_ROOM : Z := BIGARY_DEFAULT_MAX / (SIZEOF_META + SIZEOF_WRE_NODE).

(** ** Operations and their specification on lists of entries *)
Inductive wop :=
  | WPut (d w : Z)
  | WRemove (d : Z)
  | WFind (d : Z)
  | WTotal.

Section spec.
Context (lower : Z → Z → bool).

(** [wstep es op r es']: on the entries [es], [op] may return [r] and leave [es']. *)
Inductive wstep : list (Z * Z) → wop → Z → list (Z * Z) → Prop :=
  | ws_put l1 l2 d w : sorted lower (l1 ++ (d, w) :: l2) →
      wstep (l1 ++ l2) (WPut d w) 0 (l1 ++ (d, w) :: l2)
  | ws_remove l1 e l2 d : equiv lower e.1 d → wstep (l1 ++ e :: l2) (WRemove d) e.1 (l1 ++ l2)
  | ws_remove_none es d : (∀ e, e ∈ es → ¬ equiv lower e.1 d) → wstep es (WRemove d) NULL es
  | ws_find es e d : e ∈ es → equiv lower e.1 d → wstep es (WFind d) e.1 es
  | ws_find_none es d : (∀ e, e ∈ es → ¬ equiv lower e.1 d) → wstep es (WFind d) NULL es
  | ws_total es : wstep es WTotal (u64 (total es)) es.

Inductive wsteps : list (Z * Z) → list wop → list Z → list (Z * Z) → Prop :=
  | wss_nil es : wsteps es [] [] es
  | wss_cons es op r es1 ops rs es2 :
      wstep es op r es1 → wsteps es1 ops rs es2 → wsteps es (op :: ops) (r :: rs) es2.

Definition wop_ok (op : wop) : Prop := match op with WPut _ w => is_u64 w | _ => True end.

Section run.
Context `{OS}.

Definition wop_run (op : wop) (tr : wre_tree slab_world) : outcome (Z * wre_tree slab_world) :=
  match op with
  | WPut d w => let! tr := wre_put lower tr d w in Ret (0, tr)
  | WRemove d => wre_remove lower tr d
  | WFind d => let! r := wre_find lower tr d in Ret (r, tr)
  | WTotal => let! r := wre_calculate_total_size tr in Ret (r, tr)
  end.

Fixpoint wops_run (ops : list wop) (tr : wre_tree slab_world) : outcome (list Z * wre_tree slab_world) :=
  match ops with
  | [] => Ret ([], tr)
  | op :: ops =>
      let! (r, tr) := wop_run op tr in
      let! (rs, tr) := wops_run ops tr in
      Ret (r :: rs, tr)
  end.
End run.

Section refinement.
Context (o o1 : OS) (base : Z) `{!StrictWeak lower}.
Hypothesis grant : grants o1 base.
Hypothesis mmap_fixed_ok : ∀ a n, @os_mmap_fixed o a n = true.
#[local] Existing Instance o.
#[local] Instance wlaws : NodeAllocLaws slab_world := slab_laws mmap_fixed_ok.

Lemma wre_rep_weaken tr es room room' :
  wre_rep lower tr es room → (room' <= room)%nat → wre_rep lower tr es room'.
Proof using Type.
  intros (t & L & M & r & ? & ? & ?) ?. exists t, L, M, r. split_and!; [done|lia|done].
Qed.

Lemma wre_rep_sorted tr es room : wre_rep lower tr es room → sorted lower es.
Proof using Type. intros (t & L & M & r & Hinv & _ & <-). apply Hinv. Qed.

Lemma create_ok addr garbage room :
  addr ≠ NULL → Z.of_nat room <= WRE_ROOM →
  ∃ tr, wre_create o1 addr garbage (World ∅ ∅) = Ret tr ∧ wre_rep lower tr [] room.
Proof.
  intros Ha Hroom. unfold wre_create. destruct (addr =? NULL) eqn:Ea; zb; [done|].
  destruct (slab_init_default o1 base (World ∅ ∅) ∅ (addr + NODEALLOC_OFFSET) SIZEOF_WRE_NODE)
    as (w1 & -> & Hw1 & _); try done.
  cbn. eexists. split; [done|].
  exists E, ∅, (<[addr + NODEALLOC_OFFSET := (∅, Z.to_nat WRE_ROOM)]> ∅), (Z.to_nat WRE_ROOM).
  split; [|split; [lia|done]]. split.
  - split; [done|]. split; [done|]. apply NoDup_nil_2.
  - done.
  - constructor.
  - intros y []%not_elem_of_nil.
  - exact Hw1.
  - cbn. by rewrite lookup_insert_eq.
  - cbn [addrs length]. rewrite Z2Nat.id by done. done.
Qed.

(** One operation, one step of the specification. *)
Lemma wop_sim op tr es room :
  wre_rep lower tr es (S room) → wop_ok op →
  ∃ r tr' es', wop_run op tr = Ret (r, tr') ∧ wstep es op r es' ∧ wre_rep lower tr' es' room.
Proof.
  intros Hrep Hop. pose proof (wre_rep_weaken _ _ _ room Hrep ltac:(lia)) as Hrep0.
  destruct op as [d w|d|d|]; cbn [wop_run wop_ok] in *.
  - destruct (put_ok lower tr es room d w Hrep Hop) as (tr' & l1 & l2 & -> & -> & Hrep' & _).
    eexists _, tr', _. split; [done|]. split; [|exact Hrep']. constructor. by eapply wre_rep_sorted.
  - destruct (wre_remove_ok lower tr es (S room) d Hrep) as
      [[-> Hno]|(l1 & e & l2 & tr' & -> & Heq & -> & Hrep' & _)].
    + exists NULL, tr, es. split; [done|]. split; [by constructor|done].
    + exists e.1, tr', (l1 ++ l2). split; [done|]. split; [by constructor|].
      eapply wre_rep_weaken; [done|lia].
  - destruct (find_ok lower tr es (S room) d Hrep) as (r & -> & [(e & He & Heq & ->)|[-> Hno]]);
      eexists _, tr, es; (split; [done|]); (split; [|done]); by constructor.
  - rewrite (total_size_ok lower tr es _ Hrep). eexists _, tr, es. split; [done|]. split; [constructor|done].
Qed.

Lemma wops_sim ops tr es :
  wre_rep lower tr es (length ops) → Forall wop_ok ops →
  ∃ rs tr' es', wops_run ops tr = Ret (rs, tr') ∧ wsteps es ops rs es' ∧ wre_rep lower tr' es' 0.
Proof.
  revert tr es. induction ops as [|op ops IH]; intros tr es Hrep Hops.
  - exists [], tr, es. split; [done|]. split; [constructor|done].
  - apply Forall_cons in Hops as [Hop Hops].
    destruct (wop_sim op tr es (length ops) Hrep Hop) as (r & tr1 & es1 & Hrun & Hst & Hrep1).
    destruct (IH tr1 es1 Hrep1 Hops) as (rs & tr2 & es2 & Hruns & Hsts & Hrep2).
    exists (r :: rs), tr2, es2. cbn [wops_run]. rewrite Hrun. cbn [obind]. rewrite Hruns.
    split; [done|]. split; [by econstructor|done].
Qed.

(** C2: refinement.  Any run of insertions, removals, searches and consistency
    checks on a tree made by [wre_create] over a slab allocator completes
    without a failed assertion or a bad pointer, and its results are ones the
    specification on sorted lists allows, for runs up to the capacity of the
    allocator. *)
Theorem wre_refines_sorted_list addr garbage ops :
  addr ≠ NULL → Z.of_nat (length ops) <= WRE_ROOM → Forall wop_ok ops →
  ∃ tr rs tr' es, wre_create o1 addr garbage (World ∅ ∅) = Ret tr ∧
    wops_run ops tr = Ret (rs, tr') ∧ wsteps [] ops rs es.
Proof.
  intros Ha Hlen Hops.
  destruct (create_ok addr garbage (length ops) Ha Hlen) as (tr & Hnew & Hrep).
  destruct (wops_sim ops tr [] Hrep Hops) as (rs & tr' & es & ? & ? & _). eauto 10.
Qed.

End refinement.
End spec.

(** ** Concrete runs *)
#[export] Instance ltb_strict_weak : StrictWeak Z.ltb.
Proof. split; unfold le; intros *; rewrite ?Z.ltb_lt, ?Z.ltb_ge; lia. Qed.

#[local] Abbreviation demo_tree := (wre_create (kernel_at (2 ^ 40)) 8192 7 (World ∅ ∅)).
#[local] Abbreviation demo_laws := (wlaws kernel (λ _ _, eq_refl)).

Definition demo_ops : list wop := [WPut 2 10; WPut 1 20; WPut 3 30; WFind 3; WTotal; WRemove 2; WFind 2; WTotal].

Lemma wre_refines_sorted_list_witness :
  ∃ tr rs tr' es, demo_tree = Ret tr ∧ @wops_run Z.ltb kernel demo_ops tr = Ret (rs, tr') ∧
    wsteps Z.ltb [] demo_ops rs es.
Proof.
  apply (wre_refines_sorted_list Z.ltb kernel (kernel_at (2 ^ 40)) (2 ^ 40)
           (kernel_grants (2 ^ 40) ltac:(done) ltac:(done) ltac:(done)) (λ _ _, eq_refl) 8192 7 demo_ops);
    [done|done|repeat constructor; done].
Defined.

Lemma demo_tree_ok room :
  Z.of_nat room <= WRE_ROOM → ∃ tr, demo_tree = Ret tr ∧ @wre_rep Z.ltb _ _ demo_laws tr [] room.
Proof.
  apply (create_ok Z.ltb kernel (kernel_at (2 ^ 40)) (2 ^ 40)); [by apply kernel_grants|done].
Qed.

(** A tree with the entries 1 and 2, both of weight 1. *)
Lemma demo_two_entries :
  ∃ tr, @wre_rep Z.ltb _ _ demo_laws tr [(1, 1); (2, 1)] 0.
Proof.
  destruct (demo_tree_ok 2 ltac:(done)) as (tr & _ & Hrep).
  destruct (wops_sim Z.ltb kernel (λ _ _, eq_refl) [WPut 1 1; WPut 2 1] tr [] Hrep) as
    (rs & tr' & es & _ & Hst & Hrep'); [repeat constructor; done|].
  exists tr'. enough (es = [(1, 1); (2, 1)]) as -> by done.
  inversion Hst as [|? ? ? es1 ? ? ? H1 H2]; subst. inversion H2 as [|? ? ? es2 ? ? ? H3 H4]; subst.
  inversion H4; subst. inversion H1 as [l1 l2 ? ? _ El| | | | |]; subst.
  apply app_eq_nil in El as [-> ->]. cbn in *.
  inversion H3 as [l1 l2 ? ? Hs El| | | | |]; subst. destruct l1 as [|e [|e' l1]]; cbn in El; simplify_eq.
  - cbn in Hs. apply sorted_cons_iff in Hs as [_ Hs]. by specialize (Hs (1, 1) ltac:(by left)).
  - done.
Qed.


Lemma wre_put_correct_witness :
  ∃ tr tr', demo_tree = Ret tr ∧ @wre_put _ (@slab_NodeAlloc kernel) Z.ltb tr 5 9 = Ret tr'.
Proof.
  destruct (demo_tree_ok 1 ltac:(done)) as (tr & Hnew & Hrep).
  destruct (wre_put_correct Z.ltb tr [] 0 5 9 Hrep ltac:(done)) as (tr' & l1 & l2 & Hrun & _).
  by exists tr, tr'.
Defined.

Lemma wre_find_correct_witness :
  ∃ (tr : wre_tree slab_world) r, wre_find Z.ltb tr 2 = Ret r ∧
    ((∃ e, e ∈ [(1, 1); (2, 1)] ∧ equiv Z.ltb e.1 2 ∧ r = e.1) ∨
     (r = NULL ∧ ∀ e, e ∈ [(1, 1); (2, 1)] → ¬ equiv Z.ltb e.1 2)).
Proof.
  destruct demo_two_entries as (tr & Hrep). exists tr. exact (wre_find_correct Z.ltb tr _ 0 2 Hrep).
Defined.

Lemma wre_remove_correct_witness :
  ∃ tr, @wre_rep Z.ltb _ _ demo_laws tr [(1, 1); (2, 1)] 0 ∧
    ((@wre_remove _ (@slab_NodeAlloc kernel) Z.ltb tr 2 = Ret (NULL, tr) ∧
      ∀ e, e ∈ [(1, 1); (2, 1)] → ¬ equiv Z.ltb e.1 2) ∨
     ∃ l1 e l2 tr', [(1, 1); (2, 1)] = l1 ++ e :: l2 ∧ equiv Z.ltb e.1 2 ∧
       @wre_remove _ (@slab_NodeAlloc kernel) Z.ltb tr 2 = Ret (e.1, tr') ∧
       @wre_rep Z.ltb _ _ demo_laws tr' (l1 ++ l2) 1 ∧ size tr' = u64 (size tr - 1)).
Proof.
  destruct demo_two_entries as (tr & Hrep). exists tr. split; [done|].
  exact (wre_remove_correct Z.ltb tr _ 0 2 Hrep).
Defined.

Lemma wre_total_size_correct_witness :
  ∃ (tr : wre_tree slab_world), wre_calculate_total_size tr = Ret 2.
Proof.
  destruct demo_two_entries as (tr & Hrep). exists tr. exact (wre_total_size_correct Z.ltb tr _ 0 Hrep).
Defined.


(** the neighbour that the interpolation uses is not the next entry: for a
    left child whose parent has a right subtree, [wre_find_node_right] jumps over
    the parent.  With the entries 1, 2, 3 of equal weight, ratio 1/6 falls in the
    middle of entry 1 and the result pairs it with 3, although 2 is its
    successor in the order. *)
Theorem interpolation_skips_parent :
  ∃ tr tr', demo_tree = Ret tr ∧
    @wops_run Z.ltb kernel [WPut 1 1; WPut 2 1; WPut 3 1; WFind 2] tr = Ret ([0; 0; 0; 2], tr') ∧
    ∃ pct, @wre_find_weighted_interpolated _ rational tr' (QArith_base.Qmake 1 6)
             = Ret (@WInterp rational 1 3 pct false) ∧ QArith_base.Qeq pct (QArith_base.Qmake 1 2).
Proof.
  eexists _, _. split; [reflexivity|]. split; [vm_compute; reflexivity|].
  eexists. split; [vm_compute; reflexivity|]. reflexivity.
Qed.

(** a ratio that falls exactly on the boundary between two entries makes
    [wre_find_weighted_interpolated] fail its assertion that no right neighbour
    exists: with two entries of equal weight and ratio 0.5 in binary64, the left
    one is found at 100% although the right one is there. *)
Theorem interpolation_boundary_asserts :
  ∃ tr tr', demo_tree = Ret tr ∧
    @wops_run Z.ltb kernel [WPut 1 1; WPut 2 1] tr = Ret ([0; 0], tr') ∧
    @wre_find_weighted_interpolated _ binary64 tr'
      (@dbl_div binary64 (@dbl_of_size binary64 1) (@dbl_of_size binary64 2)) = Stop AssertFailed.
Proof.
  eexists _, _. split; [reflexivity|]. split; [vm_compute; reflexivity|]. vm_compute. reflexivity.
Qed.
