(* ===== verification/Queue.v ===== *)
(** * The event queue ([src/lockless_srmw_queue.c], [src/ranking_queue.c])

    A ring buffer with many writers and one reader.  Every function is
    translated twice from the same lines: [lq_push] and [lq_pop] as calls that
    run alone, and [lq_push_step] and [lq_pop_step] as the same code cut at its
    atomic accesses, for the interleavings of [qstep].  The interleaving is
    sequentially consistent: the fences of the source are not modelled. *)
From S2P Require Import Prelude.

Definition META_STATE_FREE : Z := 0.
Definition META_STATE_UNDER_WRITING : Z := 1.
Definition META_STATE_READY : Z := 2.
Definition META_STATE_UNDER_READING : Z := 3.

Definition SIZEOF_LQ_ENTRY : Z := 16.

(** [lq_entry_t]; [data] is the offset of the entry's bytes in the data block. *)
Record lq_entry := LqEntry {
  metadata_state : Z;
  data : Z;
}.

(** [lq_buffer_t]; [bytes] is the block that the field [data] points to. *)
Record lq_buffer := LqBuffer {
  entries : list lq_entry;
  bytes : list Z;
  size : Z;
  entrySize : Z;
  head : Z;
  tail : Z;
  used : Z;
  unavailableRead : Z;
}.

Definition set_entries (b : lq_buffer) (l : list lq_entry) : lq_buffer :=
  LqBuffer l (bytes b) (size b) (entrySize b) (head b) (tail b) (used b) (unavailableRead b).
Definition set_bytes (b : lq_buffer) (l : list Z) : lq_buffer :=
  LqBuffer (entries b) l (size b) (entrySize b) (head b) (tail b) (used b) (unavailableRead b).
Definition set_head (b : lq_buffer) (v : Z) : lq_buffer :=
  LqBuffer (entries b) (bytes b) (size b) (entrySize b) v (tail b) (used b) (unavailableRead b).
Definition set_tail (b : lq_buffer) (v : Z) : lq_buffer :=
  LqBuffer (entries b) (bytes b) (size b) (entrySize b) (head b) v (used b) (unavailableRead b).
Definition set_used (b : lq_buffer) (v : Z) : lq_buffer :=
  LqBuffer (entries b) (bytes b) (size b) (entrySize b) (head b) (tail b) v (unavailableRead b).
Definition set_unavailable (b : lq_buffer) (v : Z) : lq_buffer :=
  LqBuffer (entries b) (bytes b) (size b) (entrySize b) (head b) (tail b) (used b) v.

(** [buff->entries[i]], and the store to its [metadata_state]. *)
Definition entry_at (b : lq_buffer) (i : Z) : outcome lq_entry :=
  if i <? 0 then Stop BadDeref else deref (entries b !! Z.to_nat i).

Definition set_state (b : lq_buffer) (i st : Z) : outcome lq_buffer :=
  let! e := entry_at b i in
  Ret (set_entries b (<[Z.to_nat i := LqEntry st (data e)]> (entries b))).

(** [memcpy] out of and into the data block; a copy that leaves the block is a
    bad access. *)
Definition memcpy_out (b : lq_buffer) (off : Z) : outcome (list Z) :=
  if (off <? 0) || (Z.of_nat (length (bytes b)) <? off + entrySize b) then Stop BadDeref
  else Ret (take (Z.to_nat (entrySize b)) (drop (Z.to_nat off) (bytes b))).

Definition memcpy_in (b : lq_buffer) (off : Z) (v : list Z) : outcome lq_buffer :=
  let v := take (Z.to_nat (entrySize b)) v in
  if (off <? 0) || (Z.of_nat (length (bytes b)) <? off + entrySize b) then Stop BadDeref
  else Ret (set_bytes b (list_inserts (Z.to_nat off) v (bytes b))).

(** ** Calls that run alone *)

Definition lq_cancel_reserve_write (b : lq_buffer) : lq_buffer :=
  set_used b (u64 (used b - 1)).

Definition lq_reserve_write (b : lq_buffer) : bool * lq_buffer :=
  let prev_size := used b in
  let b := set_used b (u64 (used b + 1)) in
  if prev_size <? size b then (true, b) else (false, lq_cancel_reserve_write b).

Definition lq_cancel_reserve_read (b : lq_buffer) : lq_buffer :=
  set_unavailable b (u64 (unavailableRead b - 1)).

Definition lq_reserve_read (b : lq_buffer) : bool * lq_buffer :=
  let prev_size := unavailableRead b in
  let b := set_unavailable b (u64 (unavailableRead b + 1)) in
  if prev_size <? size b then (true, b) else (false, lq_cancel_reserve_read b).

(** The index after [idx], as both loops compute it. *)
Definition next_idx (b : lq_buffer) (idx : Z) : Z := u64 (idx + 1) mod size b.

(** The result is the index of the entry, [None] for a null pointer. *)
Definition lq_request_entry_read (b : lq_buffer) : outcome (option Z * lq_buffer) :=
  let (ok, b) := lq_reserve_read b in
  if negb ok then Ret (None, b) else
  let head_idx_old := head b in
  let b := set_head b (next_idx b head_idx_old) in
  let! e := entry_at b head_idx_old in
  if negb (metadata_state e =? META_STATE_READY) then
    let b := set_head b head_idx_old in
    Ret (None, lq_cancel_reserve_read b)
  else Ret (Some head_idx_old, b).

Definition lq_request_entry_write (b : lq_buffer) : outcome (option Z * lq_buffer) :=
  let (ok, b) := lq_reserve_write b in
  if negb ok then Ret (None, b) else
  let tail_idx_old := tail b in
  let b := set_tail b (next_idx b tail_idx_old) in
  let! e := entry_at b tail_idx_old in
  if negb (metadata_state e =? META_STATE_FREE) then Stop AssertFailed
  else Ret (Some tail_idx_old, b).

Definition lq_post_entry_write (b : lq_buffer) (entry : Z) : outcome lq_buffer :=
  let! b := set_state b entry META_STATE_READY in
  Ret (set_unavailable b (u64 (unavailableRead b - 1))).

Definition lq_post_entry_read (b : lq_buffer) (entry : Z) : outcome lq_buffer :=
  let! b := set_state b entry META_STATE_FREE in
  Ret (set_used b (u64 (used b - 1))).

(** [jemk_malloc] of the two blocks; the contents are whatever was there, and a
    null result is a block without cells. *)
Class QueueMalloc := {
  malloc_entries : Z → list lq_entry;
  malloc_bytes : Z → list Z;
}.

(** The loop that initialises each entry, from [i] up for [k] rounds. *)
Fixpoint init_entries (entry_size i : Z) (k : nat) (b : lq_buffer) : outcome lq_buffer :=
  match k with
  | O => Ret b
  | S k =>
      let! _ := entry_at b i in
      let e := LqEntry META_STATE_FREE (u64 (i * entry_size)) in
      init_entries entry_size (i + 1) k (set_entries b (<[Z.to_nat i := e]> (entries b)))
  end.

Definition lq_init `{QueueMalloc} (entry_size nentries : Z) : outcome lq_buffer :=
  let ents := malloc_entries (u64 (nentries * SIZEOF_LQ_ENTRY)) in
  let dat := malloc_bytes (u64 (entry_size * nentries)) in
  init_entries entry_size 0 (Z.to_nat nentries)
    (LqBuffer ents dat nentries entry_size 0 0 0 nentries).

(** [lq_destroy] frees both blocks: nothing of the buffer can be accessed. *)
Definition lq_destroy (b : lq_buffer) : lq_buffer := set_bytes (set_entries b []) [].

Definition lq_pop (b : lq_buffer) : outcome (option (list Z) * lq_buffer) :=
  let! (temp, b) := lq_request_entry_read b in
  match temp with
  | None => Ret (None, b)
  | Some temp =>
      let! e := entry_at b temp in
      let! out := memcpy_out b (data e) in
      let! b := lq_post_entry_read b temp in
      Ret (Some out, b)
  end.

Definition lq_push (b : lq_buffer) (v : list Z) : outcome (bool * lq_buffer) :=
  let! (temp, b) := lq_request_entry_write b in
  match temp with
  | None => Ret (false, b)
  | Some temp =>
      let! e := entry_at b temp in
      let! b := memcpy_in b (data e) v in
      let! b := lq_post_entry_write b temp in
      Ret (true, b)
  end.

(** ** The same code, one atomic access at a time *)

(** Where a writer is in [lq_push]; [v] is its argument. *)
Inductive wpc :=
  | WDone (ret : bool)                (** outside; the last call returned [ret] *)
  | WReserve (v : list Z)             (** before the fetch-and-add on [used] *)
  | WCancel                           (** the buffer is full: take the reservation back *)
  | WLoad (v : list Z)                (** before reading [tail] *)
  | WCas (v : list Z) (old : Z)       (** before the compare-and-swap of [tail] *)
  | WCheck (v : list Z) (idx : Z)     (** before reading the state of the claimed entry *)
  | WReject                           (** the entry was not free *)
  | WCopy (v : list Z) (idx : Z)      (** before [memcpy] *)
  | WPost (v : list Z) (idx : Z)      (** before [metadata_state = META_STATE_READY] *)
  | WPublish.                         (** before [unavailableRead--] *)

(** Where the reader is in [lq_pop]. *)
Inductive rpc :=
  | RDone (ret : option (list Z))
  | RReserve
  | RCancel
  | RLoad
  | RCas (old : Z)
  | RCheck (idx : Z)
  | RRestore (idx : Z)                (** before [buff->head = head_idx_old] *)
  | RUnreserve
  | RCopy (idx : Z)
  | RPost (idx : Z) (out : list Z)    (** before [metadata_state = META_STATE_FREE] *)
  | RRelease (out : list Z).          (** before [used--] *)

(** One atomic access of a writer.  [weak] lets the weak compare-and-swap fail
    although the values agree. *)
Definition lq_push_step (b : lq_buffer) (weak : bool) (pc : wpc) : outcome (lq_buffer * wpc) :=
  match pc with
  | WDone r => Ret (b, WDone r)
  | WReserve v =>
      let prev_size := used b in
      let b := set_used b (u64 (used b + 1)) in
      Ret (b, if prev_size <? size b then WLoad v else WCancel)
  | WCancel => Ret (lq_cancel_reserve_write b, WDone false)
  | WLoad v => Ret (b, WCas v (tail b))
  | WCas v old =>
      if (tail b =? old) && negb weak
      then Ret (set_tail b (next_idx b old), WCheck v old)
      else Ret (b, WLoad v)
  | WCheck v idx =>
      let! e := entry_at b idx in
      if negb (metadata_state e =? META_STATE_FREE)
      then Ret (lq_cancel_reserve_write b, WReject)
      else Ret (b, WCopy v idx)
  | WReject => Stop AssertFailed
  | WCopy v idx =>
      let! e := entry_at b idx in
      let! b := memcpy_in b (data e) v in
      Ret (b, WPost v idx)
  | WPost v idx =>
      let! b := set_state b idx META_STATE_READY in
      Ret (b, WPublish)
  | WPublish => Ret (set_unavailable b (u64 (unavailableRead b - 1)), WDone true)
  end.

Definition lq_pop_step (b : lq_buffer) (weak : bool) (pc : rpc) : outcome (lq_buffer * rpc) :=
  match pc with
  | RDone r => Ret (b, RDone r)
  | RReserve =>
      let prev_size := unavailableRead b in
      let b := set_unavailable b (u64 (unavailableRead b + 1)) in
      Ret (b, if prev_size <? size b then RLoad else RCancel)
  | RCancel => Ret (lq_cancel_reserve_read b, RDone None)
  | RLoad => Ret (b, RCas (head b))
  | RCas old =>
      if (head b =? old) && negb weak
      then Ret (set_head b (next_idx b old), RCheck old)
      else Ret (b, RLoad)
  | RCheck idx =>
      let! e := entry_at b idx in
      if negb (metadata_state e =? META_STATE_READY)
      then Ret (b, RRestore idx)
      else Ret (b, RCopy idx)
  | RRestore idx => Ret (set_head b idx, RUnreserve)
  | RUnreserve => Ret (lq_cancel_reserve_read b, RDone None)
  | RCopy idx =>
      let! e := entry_at b idx in
      let! out := memcpy_out b (data e) in
      Ret (b, RPost idx out)
  | RPost idx out =>
      let! b := set_state b idx META_STATE_FREE in
      Ret (b, RRelease out)
  | RRelease out => Ret (set_used b (u64 (used b - 1)), RDone (Some out))
  end.

(** The buffer with its threads.  [claimed] lists the values in the order in
    which their writers advanced [tail], [popped] those the reader copied out. *)
Record sys := Sys {
  buf : lq_buffer;
  writers : list wpc;
  reader : rpc;
  claimed : list (list Z);
  popped : list (list Z);
}.

(** What a step adds to the two lists. *)
Definition claims (pc pc' : wpc) : list (list Z) :=
  match pc, pc' with
  | WCas _ _, WCheck v _ => [v]
  | _, _ => []
  end.
Definition pops (pc pc' : rpc) : list (list Z) :=
  match pc, pc' with
  | RCopy _, RPost _ out => [out]
  | _, _ => []
  end.

Inductive qstep : sys → sys → Prop :=
  | push_call s i r v :
      writers s !! i = Some (WDone r) → Z.of_nat (length v) = entrySize (buf s) →
      qstep s (Sys (buf s) (<[i := WReserve v]> (writers s)) (reader s) (claimed s) (popped s))
  | push_run s i pc weak b pc' :
      writers s !! i = Some pc → lq_push_step (buf s) weak pc = Ret (b, pc') →
      qstep s (Sys b (<[i := pc']> (writers s)) (reader s) (claimed s ++ claims pc pc') (popped s))
  | pop_call s r :
      reader s = RDone r →
      qstep s (Sys (buf s) (writers s) RReserve (claimed s) (popped s))
  | pop_run s weak b pc' :
      lq_pop_step (buf s) weak (reader s) = Ret (b, pc') →
      qstep s (Sys b (writers s) pc' (claimed s) (popped s ++ pops (reader s) pc')).

(** The system after [lq_init], with [k] writer threads. *)
Definition sys_init (b : lq_buffer) (k : nat) : sys :=
  Sys b (replicate k (WDone false)) (RDone None) [] [].
