(* ===== verification/QueueSafe.v ===== *)
(** * Interleavings of the event queue

    The invariant of the ring buffer under any interleaving of its writers and
    its reader, in terms of positions: the [q]-th claimed value lives in the
    entry [q mod size]; positions below [length popped] have been copied out. *)
From S2P Require Import Prelude Queue.

(** ** Positions in a window no longer than the buffer *)
Lemma mod_window n f t q q' :
  f <= q < t → f <= q' < t → t - f <= n → q mod n = q' mod n → q = q'.
Proof.
  intros. destruct (decide (n = 0)) as [->|]; [lia|].
  pose proof (Z.div_mod q n ltac:(lia)). pose proof (Z.div_mod q' n ltac:(lia)).
  assert (q - q' = n * (q / n - q' / n)) by lia.
  assert (q / n - q' / n = 0) by nia. lia.
Qed.

Lemma next_idx_mod b q :
  0 < size b → is_u64 (size b) → next_idx b (q mod size b) = (q + 1) mod size b.
Proof.
  unfold next_idx, is_u64. intros.
  pose proof (Z.mod_pos_bound q (size b) ltac:(lia)).
  assert (u64 (q mod size b + 1) = q mod size b + 1 ∨ size b = 2 ^ 64) as [->|]
    by (left; apply u64_small; unfold is_u64; lia).
  - by rewrite Zplus_mod_idemp_l.
  - lia.
Qed.

(** ** Cells of the data block *)
Definition cell (bs : list Z) (es i : Z) : list Z :=
  take (Z.to_nat es) (drop (Z.to_nat (i * es)) bs).

Lemma cell_inserts bs es n i j v :
  0 <= i < n → 0 <= j < n → 0 <= es →
  Z.of_nat (length bs) = n * es → Z.of_nat (length v) = es →
  cell (list_inserts (Z.to_nat (i * es)) v bs) es j = if i =? j then v else cell bs es j.
Proof.
  intros Hi Hj He Hb Hv. unfold cell. apply list_eq. intros k.
  destruct (decide (k < Z.to_nat es)%nat) as [Hk|Hk].
  - rewrite lookup_take_lt, lookup_drop by done. case_if; subst.
    + rewrite list_lookup_inserts by nia. by replace (_ + _ - _)%nat with k by lia.
    + rewrite lookup_take_lt, lookup_drop by done. destruct (decide (i < j)).
      * by rewrite list_lookup_inserts_ge by nia.
      * by rewrite list_lookup_inserts_lt by nia.
  - rewrite lookup_take_ge by lia. case_if.
    + symmetry. apply lookup_ge_None. lia.
    + by rewrite lookup_take_ge by lia.
Qed.

(** ** What each thread holds *)
Definition wres (pc : wpc) : Z := match pc with WLoad _ | WCas _ _ => 1 | _ => 0 end.
Definition wcan (pc : wpc) : Z := match pc with WCancel => 1 | _ => 0 end.
Definition wunposted (pc : wpc) : Z :=
  match pc with WCheck _ _ | WCopy _ _ | WPost _ _ | WPublish => 1 | _ => 0 end.

(** The entry a writer owns, with its value and whether it is copied in. *)
Definition wown (pc : wpc) : option (list Z * Z * bool) :=
  match pc with
  | WCheck v i | WCopy v i => Some (v, i, false)
  | WPost v i => Some (v, i, true)
  | _ => None
  end.

Definition warg (pc : wpc) : option (list Z) :=
  match pc with
  | WReserve v | WLoad v | WCas v _ | WCheck v _ | WCopy v _ | WPost v _ => Some v
  | _ => None
  end.

(** The reader has advanced [head] past the current position; holds a read
    reservation; has copied a value out and not yet given the entry back. *)
Definition rtaken (pc : rpc) : Z := match pc with RCheck _ | RRestore _ | RCopy _ => 1 | _ => 0 end.
Definition rres (pc : rpc) : Z :=
  match pc with
  | RLoad | RCas _ | RCheck _ | RRestore _ | RUnreserve | RCopy _ => 1
  | _ => 0
  end.
Definition rcan (pc : rpc) : Z := match pc with RCancel => 1 | _ => 0 end.
Definition rhold (pc : rpc) : Z := match pc with RPost _ _ | RRelease _ => 1 | _ => 0 end.

Definition state_at (b : lq_buffer) (i : Z) : option Z :=
  metadata_state <$> entries b !! Z.to_nat i.

(** The entries, given the claimed values, the read position [P], the release
    position [F] and what the writers own. *)
Record slots (b : lq_buffer) (cl : list (list Z)) (P F : Z)
    (own : list (option (list Z * Z * bool))) : Prop := {
  sl_size : 0 <= size b < 2 ^ 64 ∧ 0 <= entrySize b;
  sl_len : Z.of_nat (length (entries b)) = size b;
  sl_off i e : entries b !! i = Some e → data e = Z.of_nat i * entrySize b;
  sl_bytes : Z.of_nat (length (bytes b)) = size b * entrySize b;
  sl_own w v i c :
    own !! w = Some (Some (v, i, c)) →
    ∃ q, P <= q < Z.of_nat (length cl) ∧ i = q mod size b ∧ cl !! Z.to_nat q = Some v ∧
      state_at b i = Some META_STATE_FREE ∧ (c = true → cell (bytes b) (entrySize b) i = v);
  sl_disj w w' v v' i c c' :
    own !! w = Some (Some (v, i, c)) → own !! w' = Some (Some (v', i, c')) → w = w';
  sl_ready q :
    P <= q < Z.of_nat (length cl) →
    (∃ w v c, own !! w = Some (Some (v, q mod size b, c))) ∨
    (state_at b (q mod size b) = Some META_STATE_READY ∧
     cl !! Z.to_nat q = Some (cell (bytes b) (entrySize b) (q mod size b)));
  sl_free i :
    0 <= i < size b → (∀ q, F <= q < Z.of_nat (length cl) → q mod size b ≠ i) →
    state_at b i = Some META_STATE_FREE;
  sl_window : 0 <= F <= P ∧ P <= Z.of_nat (length cl) ∧ Z.of_nat (length cl) - F <= size b;
}.

(** ** How the entries change *)
Section slots.
Context (b : lq_buffer) (cl : list (list Z)) (P F : Z)
        (own : list (option (list Z * Z * bool))) (Hs : slots b cl P F own).

Lemma slots_frame b' own' :
  entries b' = entries b → bytes b' = bytes b → size b' = size b →
  entrySize b' = entrySize b → own' = own → slots b' cl P F own'.
Proof.
  intros He Hb Hn Hes ->. destruct Hs. split; unfold state_at in *; by rewrite ?He, ?Hb, ?Hn, ?Hes.
Qed.

Lemma size_pos : F < Z.of_nat (length cl) → 0 < size b.
Proof. destruct Hs. lia. Qed.

Lemma entry_some i : 0 <= i < size b → ∃ e, entries b !! Z.to_nat i = Some e ∧ data e = i * entrySize b.
Proof.
  intros Hi. destruct (lookup_lt_is_Some_2 (entries b) (Z.to_nat i)) as [e He].
  { destruct Hs. lia. }
  exists e. split; [done|]. rewrite (sl_off _ _ _ _ _ Hs _ _ He), Z2Nat.id by lia. done.
Qed.

Lemma fresh_pos q :
  Z.of_nat (length cl) - F < size b → F <= q < Z.of_nat (length cl) →
  q mod size b ≠ Z.of_nat (length cl) mod size b.
Proof.
  intros Hr Hq Heq.
  apply (mod_window (size b) F (Z.of_nat (length cl) + 1)) in Heq; lia.
Qed.

Lemma slots_claim w v :
  Z.of_nat (length cl) - F < size b → own !! w = Some None →
  slots b (cl ++ [v]) P F (<[w := Some (v, Z.of_nat (length cl) mod size b, false)]> own).
Proof.
  intros Hr Hw. pose proof (sl_window _ _ _ _ _ Hs) as (HF & HP & HW).
  assert (Hlen : Z.of_nat (length (cl ++ [v])) = Z.of_nat (length cl) + 1)
    by (rewrite length_app; simpl; lia).
  assert (Hnew : ∀ w' v' c, own !! w' ≠ Some (Some (v', Z.of_nat (length cl) mod size b, c))).
  { intros w' v' c Hw'. destruct (sl_own _ _ _ _ _ Hs _ _ _ _ Hw') as (q & Hq & Hi & _).
    apply (fresh_pos q); [lia..|done]. }
  assert (Hlk : (w < length own)%nat) by by eapply lookup_lt_Some.
  split; try (apply Hs).
  - intros w' v' i c. destruct (decide (w' = w)) as [->|Hne].
    + rewrite list_lookup_insert_eq by done. intros [= <- <- <-].
      exists (Z.of_nat (length cl)). rewrite Hlen. split_and!; try lia; try done.
      * rewrite Nat2Z.id. by rewrite lookup_app_r, Nat.sub_diag by lia.
      * apply (sl_free _ _ _ _ _ Hs); [apply Z.mod_pos_bound; lia|].
        intros q Hq. by apply fresh_pos.
    + rewrite list_lookup_insert_ne by done. intros Hw'.
      destruct (sl_own _ _ _ _ _ Hs _ _ _ _ Hw') as (q & Hq & Hi & Hc & Hst & Hcp).
      exists q. rewrite Hlen. split_and!; try lia; try done.
      by rewrite lookup_app_l by lia.
  - intros w1 w2 v1 v2 i c1 c2 H1 H2.
    apply list_lookup_insert_Some in H1 as [(-> & H1 & _)|[N1 H1]];
      apply list_lookup_insert_Some in H2 as [(-> & H2 & _)|[N2 H2]]; simplify_eq; [done|..].
    + by destruct (Hnew _ _ _ H2).
    + by destruct (Hnew _ _ _ H1).
    + by eapply (sl_disj _ _ _ _ _ Hs).
  - intros q Hq. rewrite Hlen in Hq. destruct (decide (q = Z.of_nat (length cl))) as [->|Hne].
    + left. exists w, v, false. by rewrite list_lookup_insert_eq.
    + destruct (sl_ready _ _ _ _ _ Hs q) as [(w' & v' & c & Hw')|(Hst & Hc)]; [lia|..].
      * left. exists w', v', c. rewrite list_lookup_insert_ne; [done|]. intros ->. congruence.
      * right. split; [done|]. rewrite lookup_app_l by lia. done.
  - intros i Hi Hq. apply (sl_free _ _ _ _ _ Hs i Hi). intros q Hq'. apply Hq. lia.
  - rewrite Hlen. lia.
Qed.

(** The copy of a writer touches its own cell only. *)
Lemma slots_copy w v i :
  own !! w = Some (Some (v, i, false)) → Z.of_nat (length v) = entrySize b →
  ∃ e l, entries b !! Z.to_nat i = Some e ∧ 0 <= i ∧
    memcpy_in b (data e) v = Ret (set_bytes b l) ∧
    slots (set_bytes b l) cl P F (<[w := Some (v, i, true)]> own).
Proof.
  intros Hw Hv. destruct (sl_own _ _ _ _ _ Hs _ _ _ _ Hw) as (q & Hq & -> & Hc & Hst & _).
  pose proof (sl_window _ _ _ _ _ Hs) as (HF & HP & HW). pose proof (sl_size _ _ _ _ _ Hs) as (Hn & He).
  pose proof (sl_bytes _ _ _ _ _ Hs) as Hbs.
  pose proof (Z.mod_pos_bound q (size b) ltac:(lia)) as Hi.
  destruct (entry_some _ Hi) as (e & Hent & Hoff). eexists e, _. split; [done|]. split; [lia|].
  unfold memcpy_in. rewrite Hoff, take_ge by lia.
  assert (((q mod size b * entrySize b <? 0) ||
     (Z.of_nat (length (bytes b)) <? q mod size b * entrySize b + entrySize b)) = false) as ->.
  { apply orb_false_intro; apply Z.ltb_ge; nia. }
  split; [reflexivity|].
  assert (Hcell : ∀ j, 0 <= j < size b → cell (list_inserts (Z.to_nat (q mod size b * entrySize b)) v (bytes b))
      (entrySize b) j = if q mod size b =? j then v else cell (bytes b) (entrySize b) j).
  { intros j Hj. by apply cell_inserts with (size b). }
  assert (Hlk : (w < length own)%nat) by by eapply lookup_lt_Some.
  split; simpl; try apply Hs.
  - by rewrite length_inserts.
  - intros w' v' i c. destruct (decide (w' = w)) as [->|Hne].
    + rewrite list_lookup_insert_eq by done. intros [= <- <- <-]. exists q. rewrite Hcell by done.
      rewrite Z.eqb_refl. done.
    + rewrite list_lookup_insert_ne by done. intros Hw'.
      destruct (sl_own _ _ _ _ _ Hs _ _ _ _ Hw') as (q' & Hq' & -> & Hc' & Hst' & Hcp).
      exists q'. split_and!; try lia; try done. intros Hct.
      rewrite Hcell by (apply Z.mod_pos_bound; lia). case_if; [|auto]. destruct Hne.
      eapply (sl_disj _ _ _ _ _ Hs); [done|]. by rewrite Hw, E.
  - intros w1 w2 v1 v2 i c1 c2 H1 H2.
    apply list_lookup_insert_Some in H1 as [(-> & H1 & _)|[N1 H1]];
      apply list_lookup_insert_Some in H2 as [(-> & H2 & _)|[N2 H2]]; simplify_eq; [done|..];
      by eapply (sl_disj _ _ _ _ _ Hs).
  - intros q' Hq'. destruct (sl_ready _ _ _ _ _ Hs q' Hq') as [(w' & v' & c & Hw')|(Hst' & Hc')].
    + left. destruct (decide (w' = w)) as [->|].
      * exists w, v, true. rewrite list_lookup_insert_eq by done. congruence.
      * exists w', v', c. by rewrite list_lookup_insert_ne.
    + right. split; [done|]. rewrite Hcell by (apply Z.mod_pos_bound; lia).
      case_if; [|done]. rewrite E, Hst' in Hst. discriminate Hst.
Qed.

(** Setting the state of entry [i]. *)
Lemma set_state_ok i st :
  0 <= i < size b →
  ∃ l, set_state b i st = Ret (set_entries b l) ∧ length l = length (entries b) ∧
    (∀ j e, l !! j = Some e → data e = Z.of_nat j * entrySize b) ∧
    (∀ j, 0 <= j → state_at (set_entries b l) j = if i =? j then Some st else state_at b j).
Proof.
  intros Hi. destruct (entry_some _ Hi) as (e & Hent & Hoff).
  assert (Hlt : (Z.to_nat i < length (entries b))%nat) by by eapply lookup_lt_Some.
  unfold set_state, entry_at. rewrite (proj2 (Z.ltb_ge i 0)), Hent by lia. simpl.
  eexists. split; [reflexivity|]. split; [by rewrite length_insert|]. split.
  - intros j e' Hj. apply list_lookup_insert_Some in Hj as [(<- & <- & _)|[_ Hj]].
    + simpl. rewrite Hoff, Z2Nat.id by lia. done.
    + by apply (sl_off _ _ _ _ _ Hs).
  - intros j Hj. unfold state_at. simpl. case_if; subst.
    + by rewrite list_lookup_insert_eq.
    + by rewrite list_lookup_insert_ne by lia.
Qed.

(** A writer publishes its entry. *)
Lemma slots_post w v i :
  own !! w = Some (Some (v, i, true)) →
  ∃ l, set_state b i META_STATE_READY = Ret (set_entries b l) ∧
    (∀ j, 0 <= j → state_at (set_entries b l) j =
       if i =? j then Some META_STATE_READY else state_at b j) ∧
    slots (set_entries b l) cl P F (<[w := None]> own).
Proof.
  intros Hw. destruct (sl_own _ _ _ _ _ Hs _ _ _ _ Hw) as (q & Hq & -> & Hc & _ & Hcp).
  pose proof (sl_window _ _ _ _ _ Hs) as (HF & HP & HW).
  pose proof (Z.mod_pos_bound q (size b) ltac:(lia)) as Hi.
  destruct (set_state_ok _ META_STATE_READY Hi) as (l & Hrun & Hlen & Hoff & Hst).
  exists l. split; [done|]. split; [done|].
  split; simpl in *; try apply Hs.
  - rewrite Hlen. apply Hs.
  - apply Hoff.
  - intros w' v' i c Hw'. apply list_lookup_insert_Some in Hw' as [(-> & Hw' & _)|[N Hw']]; [done|].
    destruct (sl_own _ _ _ _ _ Hs _ _ _ _ Hw') as (q' & Hq' & -> & Hc' & Hst' & Hcp').
    exists q'. split_and!; try lia; try done.
    rewrite Hst by (apply Z.mod_pos_bound; lia). case_if; [|done].
    destruct N. eapply (sl_disj _ _ _ _ _ Hs); [done|]. by rewrite Hw', E.
  - intros w1 w2 v1 v2 i c1 c2 H1 H2.
    apply list_lookup_insert_Some in H1 as [(-> & H1 & _)|[N1 H1]]; [done|].
    apply list_lookup_insert_Some in H2 as [(-> & H2 & _)|[N2 H2]]; [done|].
    by eapply (sl_disj _ _ _ _ _ Hs).
  - intros q' Hq'. rewrite Hst by (apply Z.mod_pos_bound; lia).
    destruct (decide (q' = q)) as [->|Hne].
    { right. rewrite Z.eqb_refl. by rewrite Hc, Hcp. }
    destruct (sl_ready _ _ _ _ _ Hs q' Hq') as [(w' & v' & c & Hw')|(Hst' & Hc')].
    + left. exists w', v', c. rewrite list_lookup_insert_ne; [done|]. intros ->.
      rewrite Hw in Hw'. destruct Hne. injection Hw' as _ Hm.
      by apply (mod_window (size b) F (Z.of_nat (length cl))); [lia..|].
    + right. split; [by case_if|done].
  - intros i Hr Hq'. rewrite Hst by lia. case_if; [|by apply Hs].
    destruct (Hq' q); [lia|done].
Qed.

(** The reader moves past a published entry. *)
Lemma slots_read :
  state_at b (P mod size b) = Some META_STATE_READY → F = P → 0 < size b →
  P < Z.of_nat (length cl) ∧
  cl !! Z.to_nat P = Some (cell (bytes b) (entrySize b) (P mod size b)) ∧
  slots b cl (P + 1) F own.
Proof.
  intros Hst HFP Hn. pose proof (sl_window _ _ _ _ _ Hs) as (HF & HP & HW).
  pose proof (Z.mod_pos_bound P (size b) ltac:(lia)) as Hi.
  assert (HPt : P < Z.of_nat (length cl)).
  { destruct (decide (P < Z.of_nat (length cl))); [done|].
    rewrite (sl_free _ _ _ _ _ Hs) in Hst; [discriminate Hst|done|lia]. }
  assert (Hnot : ∀ w v c, own !! w ≠ Some (Some (v, P mod size b, c))).
  { intros w v c Hw. destruct (sl_own _ _ _ _ _ Hs _ _ _ _ Hw) as (q & _ & _ & _ & Hf & _).
    rewrite Hst in Hf. discriminate Hf. }
  split; [done|]. split.
  { destruct (sl_ready _ _ _ _ _ Hs P) as [(w & v & c & Hw)|[_ ?]]; [lia| |done].
    by destruct (Hnot _ _ _ Hw). }
  split; try apply Hs; [| |lia].
  - intros w v i c Hw. destruct (sl_own _ _ _ _ _ Hs _ _ _ _ Hw) as (q & Hq & -> & Hrest).
    exists q. split; [|done]. destruct (decide (q = P)) as [->|]; [|lia]. by destruct (Hnot _ _ _ Hw).
  - intros q Hq. apply Hs. lia.
Qed.

(** The reader frees the entry it has copied. *)
Lemma slots_release :
  F = P - 1 →
  ∃ l, set_state b ((P - 1) mod size b) META_STATE_FREE = Ret (set_entries b l) ∧
    state_at (set_entries b l) ((P - 1) mod size b) = Some META_STATE_FREE ∧
    slots (set_entries b l) cl P F own.
Proof.
  intros HFP. pose proof (sl_window _ _ _ _ _ Hs) as (HF & HP & HW).
  pose proof (Z.mod_pos_bound (P - 1) (size b) ltac:(lia)) as Hi.
  destruct (set_state_ok _ META_STATE_FREE Hi) as (l & Hrun & Hlen & Hoff & Hst).
  assert (Hne : ∀ q, P <= q < Z.of_nat (length cl) → (P - 1) mod size b ≠ q mod size b).
  { intros q Hq Heq. apply (mod_window (size b) F (Z.of_nat (length cl))) in Heq; lia. }
  exists l. split; [done|]. split; [by rewrite Hst, Z.eqb_refl by lia|].
  split; simpl in *; try apply Hs.
  - rewrite Hlen. apply Hs.
  - apply Hoff.
  - intros w v i c Hw. destruct (sl_own _ _ _ _ _ Hs _ _ _ _ Hw) as (q & Hq & -> & Hc & Hf & Hcp).
    exists q. rewrite Hst by (apply Z.mod_pos_bound; lia). by case_if.
  - intros q Hq. rewrite Hst by (apply Z.mod_pos_bound; lia).
    case_if; [by destruct (Hne q)|]. by apply Hs.
  - intros i Hr Hq. rewrite Hst by lia. case_if; [done|]. by apply Hs.
Qed.

Lemma slots_freed :
  F = P - 1 → state_at b ((P - 1) mod size b) = Some META_STATE_FREE → slots b cl P P own.
Proof.
  intros HFP Hst. pose proof (sl_window _ _ _ _ _ Hs) as (HF & HP & HW).
  split; try apply Hs; [|lia].
  intros i Hi Hq. destruct (decide ((P - 1) mod size b = i)) as [<-|]; [done|].
  apply (sl_free _ _ _ _ _ Hs i Hi). intros q Hq'.
  destruct (decide (q = P - 1)) as [->|]; [done|]. apply Hq. lia.
Qed.
End slots.
