(* ===== verification/QueueInv.v ===== *)
(** * The invariant of the event queue

    [qinv] relates the counters and the entries of the buffer to what its threads
    hold; every step of every thread keeps it, and [lq_init] establishes it. *)
From S2P Require Import Prelude Queue QueueSafe.

Abbreviation npopped s := (Z.of_nat (length (popped s))) (only parsing).
Abbreviation nclaimed s := (Z.of_nat (length (claimed s))) (only parsing).

Definition reader_ok (b : lq_buffer) (P : Z) (pc : rpc) : Prop :=
  match pc with
  | RCas i | RCheck i | RRestore i => i = P mod size b
  | RCopy i => i = P mod size b ∧ state_at b i = Some META_STATE_READY
  | RPost i _ => i = (P - 1) mod size b
  | RRelease _ => state_at b ((P - 1) mod size b) = Some META_STATE_FREE
  | _ => True
  end.

Record qinv (s : sys) : Prop := {
  q_bound : size (buf s) + Z.of_nat (length (writers s)) + 1 < 2 ^ 64;
  q_args i pc v :
    writers s !! i = Some pc → warg pc = Some v → Z.of_nat (length v) = entrySize (buf s);
  q_noreject i : writers s !! i ≠ Some WReject;
  q_slots : slots (buf s) (claimed s) (npopped s) (npopped s - rhold (reader s)) (wown <$> writers s);
  q_head : head (buf s) = (npopped s + rtaken (reader s)) mod size (buf s);
  q_tail : tail (buf s) = nclaimed s mod size (buf s);
  q_used : used (buf s) =
    zsum wres (writers s) + zsum wcan (writers s) + (nclaimed s - (npopped s - rhold (reader s)));
  q_cap : zsum wres (writers s) + (nclaimed s - (npopped s - rhold (reader s))) <= size (buf s);
  q_unav : unavailableRead (buf s) =
    size (buf s) - (nclaimed s - zsum wunposted (writers s)) + npopped s + rres (reader s) + rcan (reader s);
  q_avail : npopped s + rres (reader s) <= nclaimed s - zsum wunposted (writers s);
  q_reader : reader_ok (buf s) (npopped s) (reader s);
  q_fifo : popped s = take (length (popped s)) (claimed s);
}.

Lemma wres_01 pc : 0 <= wres pc <= 1. Proof. destruct pc; simpl; lia. Qed.
Lemma wcan_01 pc : 0 <= wcan pc <= 1. Proof. destruct pc; simpl; lia. Qed.
Lemma wunposted_01 pc : 0 <= wunposted pc <= 1. Proof. destruct pc; simpl; lia. Qed.

(** Replacing what one thread does keeps the facts about the arguments. *)
Lemma args_insert (b : lq_buffer) (ws : list wpc) (i : nat) pc pc' :
  ws !! i = Some pc →
  (∀ (j : nat) pc v, ws !! j = Some pc → warg pc = Some v → Z.of_nat (length v) = entrySize b) →
  (∀ v, warg pc' = Some v → warg pc = Some v ∨ Z.of_nat (length v) = entrySize b) →
  ∀ (j : nat) pc0 v, <[i := pc']> ws !! j = Some pc0 → warg pc0 = Some v → Z.of_nat (length v) = entrySize b.
Proof.
  intros Hi Ha Hv j pc0 v Hj Hw. apply list_lookup_insert_Some in Hj as [(-> & <- & _)|[_ Hj]]; eauto.
  destruct (Hv _ Hw); eauto.
Qed.

Lemma noreject_insert (ws : list wpc) (i : nat) pc' :
  (∀ j : nat, ws !! j ≠ Some WReject) → pc' ≠ WReject → ∀ j : nat, <[i := pc']> ws !! j ≠ Some WReject.
Proof. intros Hn Hp j Hj. apply list_lookup_insert_Some in Hj; naive_solver. Qed.

Lemma own_insert_same (ws : list wpc) (i : nat) pc pc' :
  ws !! i = Some pc → wown pc' = wown pc → wown <$> <[i := pc']> ws = wown <$> ws.
Proof.
  intros Hi Ho. rewrite list_fmap_insert, Ho. apply list_insert_id.
  by rewrite list_lookup_fmap, Hi.
Qed.

Lemma reader_ok_frame b b' P pc :
  entries b' = entries b → size b' = size b → reader_ok b P pc → reader_ok b' P pc.
Proof. intros He Hn. unfold reader_ok, state_at. by rewrite He, Hn. Qed.

(** A step of writer [i] from [pc] to [pc'] that leaves the entries alone. *)
Ltac counters i pc :=
  match goal with
  | Hw : writers ?s !! i = Some pc |- _ =>
      pose proof (zsum_pos wres _ _ _ wres_01 Hw); pose proof (zsum_pos wcan _ _ _ wcan_01 Hw);
      pose proof (zsum_pos wunposted _ _ _ wunposted_01 Hw);
      pose proof (zsum_bound wres (writers s) wres_01);
      pose proof (zsum_bound wcan (writers s) wcan_01);
      pose proof (zsum_bound wunposted (writers s) wunposted_01)
  end; simpl in *.

Section steps.
Context (s : sys) (Hq : qinv s).

Lemma res_can_bound :
  zsum wres (writers s) + zsum wcan (writers s) <= Z.of_nat (length (writers s)).
Proof.
  clear Hq. induction (writers s) as [|pc l IH]; simpl; [lia|]. destruct pc; simpl; lia.
Qed.

Lemma push_quiet i pc b pc' :
  writers s !! i = Some pc →
  wown pc' = wown pc → pc' ≠ WReject →
  wres pc' <= wres pc ∨ used (buf s) < size (buf s) →
  (∀ v, warg pc' = Some v → warg pc = Some v ∨ Z.of_nat (length v) = entrySize (buf s)) →
  entries b = entries (buf s) → bytes b = bytes (buf s) → size b = size (buf s) →
  entrySize b = entrySize (buf s) → head b = head (buf s) → tail b = tail (buf s) →
  used b = used (buf s) - wres pc - wcan pc + wres pc' + wcan pc' →
  unavailableRead b = unavailableRead (buf s) - wunposted pc + wunposted pc' →
  wunposted pc' <= wunposted pc →
  qinv (Sys b (<[i := pc']> (writers s)) (reader s) (claimed s) (popped s)).
Proof.
  intros Hi Hown Hrej Hres Harg He Hb Hn Hes Hh Ht Hu Hv Hun. destruct Hq. counters i pc.
  pose proof (wres_01 pc'). pose proof (wres_01 pc).
  assert (Hl : (i < length (writers s))%nat) by by eapply lookup_lt_Some.
  split; simpl; rewrite ?length_insert, ?(zsum_insert _ _ _ _ pc' Hi), ?Hn, ?Hu, ?Hv, ?Hh, ?Ht; try lia.
  - rewrite Hes. eapply args_insert; eauto.
  - by apply noreject_insert.
  - erewrite own_insert_same by done. by eapply slots_frame.
  - by eapply reader_ok_frame.
  - done.
Qed.

Ltac quiet :=
  eapply push_quiet; [eassumption| | | |intros ? ?; simplify_eq/=; auto|..];
  simpl; solve [done | lia | auto].

(** The counters stay within a machine word. *)
Lemma used_range : 0 <= used (buf s) <= size (buf s) + Z.of_nat (length (writers s)).
Proof.
  pose proof (q_used _ Hq). pose proof (q_cap _ Hq).
  pose proof (zsum_bound wres (writers s) wres_01). pose proof (zsum_bound wcan (writers s) wcan_01).
  pose proof (sl_window _ _ _ _ _ (q_slots _ Hq)). lia.
Qed.

Lemma unavailable_range :
  rres (reader s) + rcan (reader s) + zsum wunposted (writers s) <= unavailableRead (buf s)
    <= size (buf s) + rcan (reader s).
Proof.
  pose proof (q_unav _ Hq). pose proof (q_avail _ Hq).
  pose proof (sl_window _ _ _ _ _ (q_slots _ Hq)). destruct (reader s); simpl in *; lia.
Qed.

Lemma rcan_01 : 0 <= rcan (reader s) <= 1.
Proof. destruct (reader s); simpl; lia. Qed.

Lemma state_of_entry i st :
  0 <= i → state_at (buf s) i = Some st → ∃ e, entry_at (buf s) i = Ret e ∧ metadata_state e = st.
Proof.
  unfold state_at, entry_at. intros Hi Hst. rewrite (proj2 (Z.ltb_ge i 0)) by done.
  destruct (entries (buf s) !! Z.to_nat i) as [e|]; simplify_eq/=. eauto.
Qed.

(** What a writer that owns an entry knows. *)
Lemma owner_facts i pc v idx c :
  writers s !! i = Some pc → wown pc = Some (v, idx, c) →
  0 <= idx < size (buf s) ∧ state_at (buf s) idx = Some META_STATE_FREE.
Proof.
  intros Hi Ho. pose proof (q_slots _ Hq) as Hs.
  destruct (sl_own _ _ _ _ _ Hs i v idx c) as (q & Hr & -> & _ & Hst & _).
  { by rewrite list_lookup_fmap, Hi, <- Ho. }
  split; [|done]. apply Z.mod_pos_bound. pose proof (sl_window _ _ _ _ _ Hs).
  destruct (reader s); simpl in *; lia.
Qed.

Lemma push_claim i v :
  writers s !! i = Some (WCas v (tail (buf s))) →
  qinv (Sys (set_tail (buf s) (next_idx (buf s) (tail (buf s))))
    (<[i := WCheck v (tail (buf s))]> (writers s)) (reader s) (claimed s ++ [v]) (popped s)).
Proof.
  intros Hi. pose proof (q_slots _ Hq) as Hs. pose proof (sl_size _ _ _ _ _ Hs).
  pose proof (sl_window _ _ _ _ _ Hs). pose proof (rcan_01). destruct Hq. counters i (WCas v (tail (buf s))).
  assert (Hlen : nclaimed s + 1 = Z.of_nat (length (claimed s ++ [v])))
    by (rewrite length_app; simpl; lia).
  split; simpl; rewrite ?length_insert, ?(zsum_insert _ _ _ _ _ Hi), <- ?Hlen; simpl; try lia.
  - eapply args_insert; eauto.
  - by apply noreject_insert.
  - rewrite list_fmap_insert. simpl. rewrite q_tail0.
    eapply slots_frame; [apply (slots_claim _ _ _ _ _ Hs i v)|..]; simpl; try done; [lia|].
    by rewrite list_lookup_fmap, Hi.
  - rewrite q_tail0. apply next_idx_mod; unfold is_u64; lia.
  - by eapply reader_ok_frame.
  - rewrite take_app_le by lia. done.
Qed.

Lemma push_copy i v idx :
  writers s !! i = Some (WCopy v idx) →
  ∃ e b, entry_at (buf s) idx = Ret e ∧ memcpy_in (buf s) (data e) v = Ret b ∧
    qinv (Sys b (<[i := WPost v idx]> (writers s)) (reader s) (claimed s) (popped s)).
Proof.
  intros Hi. pose proof (q_slots _ Hq) as Hs.
  destruct (slots_copy _ _ _ _ _ Hs i v idx) as (e & l & He & Hidx & Hrun & Hs').
  { by rewrite list_lookup_fmap, Hi. }
  { by eapply (q_args _ Hq). }
  exists e, (set_bytes (buf s) l). split; [|split; [done|]].
  { unfold entry_at. by rewrite (proj2 (Z.ltb_ge idx 0)), He by lia. }
  destruct Hq. counters i (WCopy v idx).
  split; simpl; rewrite ?length_insert, ?(zsum_insert _ _ _ _ _ Hi); simpl; try lia; try done.
  - eapply args_insert; eauto.
  - by apply noreject_insert.
  - by rewrite list_fmap_insert.
Qed.

Lemma reader_ok_post b P t n idx q pc :
  size b = n → idx = q mod n → P <= q < t → t - (P - rhold pc) <= n → 0 < n →
  (∀ j, 0 <= j → state_at b j = if idx =? j then Some META_STATE_READY else state_at (buf s) j) →
  size (buf s) = n → reader_ok (buf s) P pc → reader_ok b P pc.
Proof.
  intros Hn -> Hqt Hw Hpos Hst Hn' Hr. destruct pc; simpl in *; try (by rewrite ?Hn, ?Hn' in *).
  - rewrite Hn, Hn' in *. destruct Hr as [-> Hr]. split; [done|].
    rewrite Hst by (apply Z.mod_pos_bound; lia). by case_if.
  - rewrite Hn, Hn' in *. rewrite Hst by (apply Z.mod_pos_bound; lia). case_if; [|done].
    apply (mod_window n (P - 1) t) in E; lia.
Qed.

Lemma push_post i v idx :
  writers s !! i = Some (WPost v idx) →
  ∃ b, set_state (buf s) idx META_STATE_READY = Ret b ∧
    qinv (Sys b (<[i := WPublish]> (writers s)) (reader s) (claimed s) (popped s)).
Proof.
  intros Hi. pose proof (q_slots _ Hq) as Hs.
  assert (Hown : (wown <$> writers s) !! i = Some (Some (v, idx, true)))
    by by rewrite list_lookup_fmap, Hi.
  destruct (slots_post _ _ _ _ _ Hs i v idx Hown) as (l & Hrun & Hst & Hs').
  destruct (sl_own _ _ _ _ _ Hs _ _ _ _ Hown) as (q & Hqr & Hidx & _).
  pose proof (sl_window _ _ _ _ _ Hs) as Hw.
  exists (set_entries (buf s) l). split; [done|]. destruct Hq. counters i (WPost v idx).
  assert (Hro : reader_ok (set_entries (buf s) l) (npopped s) (reader s)).
  { apply reader_ok_post with (nclaimed s) (size (buf s)) idx q; try done; simpl; lia. }
  split; simpl; rewrite ?length_insert, ?(zsum_insert _ _ _ _ _ Hi); simpl; try lia; try done.
  - eapply args_insert; naive_solver.
  - by apply noreject_insert.
  - by rewrite list_fmap_insert.
Qed.

(** Every step of a writer returns and keeps the invariant. *)
Lemma push_step_ok i pc weak :
  writers s !! i = Some pc →
  ∃ b pc', lq_push_step (buf s) weak pc = Ret (b, pc') ∧
    qinv (Sys b (<[i := pc']> (writers s)) (reader s) (claimed s ++ claims pc pc') (popped s)).
Proof.
  intros Hi. pose proof used_range. pose proof unavailable_range. pose proof rcan_01.
  pose proof (q_bound _ Hq). pose proof (sl_size _ _ _ _ _ (q_slots _ Hq)).
  counters i pc. destruct pc as [r|v| |v|v old|v idx| |v idx|v idx|]; simpl in *.
  - eexists _, _. split; [done|]. rewrite app_nil_r. quiet.
  - eexists _, _. split; [done|]. rewrite (u64_small (_ + 1)) by (unfold is_u64; lia).
    case_if; rewrite app_nil_r; quiet.
  - eexists _, _. split; [done|]. rewrite app_nil_r. unfold lq_cancel_reserve_write.
    pose proof (q_used _ Hq). pose proof (sl_window _ _ _ _ _ (q_slots _ Hq)).
    rewrite u64_small by (unfold is_u64; lia). quiet.
  - eexists _, _. split; [done|]. rewrite app_nil_r. quiet.
  - destruct ((tail (buf s) =? old) && negb weak) eqn:Ec.
    + apply andb_true_iff in Ec as [<-%Z.eqb_eq _]. eexists _, _. split; [done|]. by apply push_claim.
    + eexists _, _. split; [done|]. rewrite app_nil_r. quiet.
  - destruct (owner_facts i _ v idx false Hi eq_refl) as [Hr Hst].
    destruct (state_of_entry idx _ (proj1 Hr) Hst) as (e & He & Hm). rewrite He. simpl. rewrite Hm. simpl.
    eexists _, _. split; [done|]. rewrite app_nil_r. quiet.
  - by destruct (q_noreject _ Hq i).
  - destruct (push_copy i v idx Hi) as (e & b & He & Hrun & Hb). rewrite He. simpl. rewrite Hrun.
    eexists _, _. split; [done|]. by rewrite app_nil_r.
  - destruct (push_post i v idx Hi) as (b & Hrun & Hb). rewrite Hrun.
    eexists _, _. split; [done|]. by rewrite app_nil_r.
  - eexists _, _. split; [done|]. rewrite app_nil_r, u64_small by (unfold is_u64; destruct (reader s); simpl in *; lia).
    quiet.
Qed.

(** A step of the reader that leaves the entries alone. *)
Lemma pop_quiet b pc' :
  rhold pc' = rhold (reader s) →
  entries b = entries (buf s) → bytes b = bytes (buf s) → size b = size (buf s) →
  entrySize b = entrySize (buf s) → tail b = tail (buf s) → used b = used (buf s) →
  head b = (npopped s + rtaken pc') mod size (buf s) →
  unavailableRead b = unavailableRead (buf s) - rres (reader s) - rcan (reader s) + rres pc' + rcan pc' →
  npopped s + rres pc' <= nclaimed s - zsum wunposted (writers s) →
  reader_ok (buf s) (npopped s) pc' →
  qinv (Sys b (writers s) pc' (claimed s) (popped s)).
Proof.
  intros Hh He Hb Hn Hes Ht Hu Hhd Hv Hav Hro. destruct Hq.
  split; simpl; rewrite ?Hn, ?Hes, ?Hh; try done; try lia.
  - by eapply slots_frame.
  - by eapply reader_ok_frame.
Qed.

Ltac calm Hr :=
  simpl; rewrite app_nil_r; apply pop_quiet; rewrite ?Hr; simpl; try done; try lia; try congruence.

Lemma reader_size : 0 < rres (reader s) + rhold (reader s) → 0 < size (buf s).
Proof.
  intros. pose proof (q_avail _ Hq). pose proof (sl_window _ _ _ _ _ (q_slots _ Hq)).
  pose proof (zsum_bound wunposted (writers s) wunposted_01).
  destruct (reader s); simpl in *; lia.
Qed.

Lemma pop_copy idx :
  reader s = RCopy idx →
  ∃ e out, entry_at (buf s) idx = Ret e ∧ memcpy_out (buf s) (data e) = Ret out ∧
    claimed s !! length (popped s) = Some out ∧
    qinv (Sys (buf s) (writers s) (RPost idx out) (claimed s) (popped s ++ [out])).
Proof.
  intros Hr. pose proof (q_slots _ Hq) as Hs. pose proof reader_size as Hpos.
  pose proof (q_reader _ Hq) as Hro. rewrite Hr in *. destruct Hro as [Hidx Hst]. simpl in Hpos, Hs.
  rewrite Hidx in Hst.
  destruct (slots_read _ _ _ _ _ Hs Hst) as (HPt & Hcl & Hs'); [lia..|].
  pose proof (Z.mod_pos_bound (npopped s) (size (buf s)) ltac:(lia)) as Hb. rewrite <- Hidx in Hb.
  destruct (entry_some _ _ _ _ _ Hs _ Hb) as (e & He & Hoff).
  pose proof (sl_bytes _ _ _ _ _ Hs). pose proof (sl_size _ _ _ _ _ Hs) as [_ Hes].
  exists e, (cell (bytes (buf s)) (entrySize (buf s)) idx). split.
  { unfold entry_at. by rewrite (proj2 (Z.ltb_ge idx 0)), He by lia. }
  split.
  { unfold memcpy_out. rewrite Hoff, (proj2 (Z.ltb_ge _ 0)), (proj2 (Z.ltb_ge _ (_ + _))) by nia. done. }
  rewrite Nat2Z.id, <- Hidx in Hcl. split; [done|].
  assert (Hlen : npopped s + 1 = Z.of_nat (length (popped s ++ [cell (bytes (buf s)) (entrySize (buf s)) idx])))
    by (rewrite length_app; simpl; lia).
  destruct Hq. rewrite Hr in *. simpl in *.
  split; simpl; rewrite <- ?Hlen; try done; try lia.
  - by replace (npopped s + 1 - 1) with (npopped s - 0) by lia.
  - by rewrite Z.add_0_r.
  - by replace (npopped s + 1 - 1) with (npopped s) by lia.
  - replace (length _) with (S (length (popped s))) by lia.
    rewrite (take_S_r _ _ _ Hcl), <- q_fifo0. done.
Qed.

Lemma pop_post idx out :
  reader s = RPost idx out →
  ∃ b, set_state (buf s) idx META_STATE_FREE = Ret b ∧
    qinv (Sys b (writers s) (RRelease out) (claimed s) (popped s)).
Proof.
  intros Hr. pose proof (q_slots _ Hq) as Hs. pose proof (q_reader _ Hq) as Hro. rewrite Hr in *.
  simpl in Hro, Hs. subst idx. destruct (slots_release _ _ _ _ _ Hs eq_refl) as (l & Hrun & Hst & Hs').
  eexists. split; [done|]. destruct Hq. rewrite Hr in *. split; simpl in *; done || lia.
Qed.

Lemma pop_release out :
  reader s = RRelease out →
  qinv (Sys (set_used (buf s) (u64 (used (buf s) - 1))) (writers s) (RDone (Some out)) (claimed s) (popped s)).
Proof.
  intros Hr. pose proof (q_slots _ Hq) as Hs. pose proof used_range. pose proof (q_bound _ Hq).
  pose proof (q_used _ Hq). pose proof (sl_window _ _ _ _ _ Hs).
  pose proof (zsum_bound wres (writers s) wres_01). pose proof (zsum_bound wcan (writers s) wcan_01).
  rewrite Hr in *. simpl in *. rewrite u64_small by (unfold is_u64; lia).
  pose proof (q_reader _ Hq) as Hro. rewrite Hr in Hro.
  pose proof (slots_freed _ _ _ _ _ Hs eq_refl Hro) as Hs'.
  destruct Hq. rewrite Hr in *. split; simpl in *; rewrite ?Z.sub_0_r; done || lia || idtac.
  by eapply slots_frame.
Qed.

Lemma pop_step_ok weak :
  ∃ b pc', lq_pop_step (buf s) weak (reader s) = Ret (b, pc') ∧
    qinv (Sys b (writers s) pc' (claimed s) (popped s ++ pops (reader s) pc')).
Proof.
  pose proof (q_head _ Hq) as Hh. pose proof unavailable_range as Hun. pose proof (q_bound _ Hq).
  pose proof (sl_size _ _ _ _ _ (q_slots _ Hq)) as [Hn _]. pose proof (q_unav _ Hq) as Hu.
  pose proof (q_avail _ Hq) as Hav. pose proof (q_reader _ Hq) as Hro. pose proof reader_size as Hpos.
  pose proof (zsum_bound wunposted (writers s) wunposted_01).
  destruct (reader s) as [r| | | |old|idx|idx| |idx|idx out|out] eqn:Hr; simpl in *.
  - eexists _, _. split; [done|]. calm Hr.
  - eexists _, _. split; [done|]. rewrite (u64_small (_ + 1)) by (unfold is_u64; lia).
    case_if; calm Hr.
  - eexists _, _. split; [done|]. unfold lq_cancel_reserve_read.
    rewrite u64_small by (unfold is_u64; lia). calm Hr.
  - eexists _, _. split; [done|]. calm Hr. by rewrite Hh, Z.add_0_r.
  - destruct ((head (buf s) =? old) && negb weak); eexists _, _; (split; [done|]); calm Hr.
    subst old. rewrite next_idx_mod by (unfold is_u64; lia). done.
  - pose proof (Z.mod_pos_bound (npopped s) (size (buf s)) ltac:(lia)) as Hb. rewrite <- Hro in Hb.
    destruct (entry_some _ _ _ _ _ (q_slots _ Hq) _ Hb) as (e & He & _).
    unfold entry_at. rewrite (proj2 (Z.ltb_ge idx 0)), He by lia. simpl.
    destruct (negb _) eqn:Hm; eexists _, _; (split; [done|]); calm Hr.
    split; [done|]. apply negb_false_iff, Z.eqb_eq in Hm. unfold state_at. by rewrite He, <- Hm.
  - eexists _, _. split; [done|]. calm Hr. by rewrite Hro, Z.add_0_r.
  - eexists _, _. split; [done|]. unfold lq_cancel_reserve_read.
    rewrite u64_small by (unfold is_u64; lia). calm Hr.
  - destruct (pop_copy idx Hr) as (e & out & He & Hrun & _ & Hq'). rewrite He. simpl. rewrite Hrun.
    eexists _, _. split; done.
  - destruct (pop_post idx out Hr) as (b & Hrun & Hq'). rewrite Hrun.
    eexists _, _. split; [done|]. by rewrite app_nil_r.
  - eexists _, _. split; [done|]. rewrite app_nil_r. by apply pop_release.
Qed.
End steps.

Lemma qstep_inv s s' : qinv s → qstep s s' → qinv s'.
Proof.
  intros Hq Hst. revert Hq.
  destruct Hst as [s0 i r v Hi Hv|s0 i pc weak b pc' Hi Hrun|s0 r Hr|s0 weak b pc' Hrun]; intros Hq.
  - eapply push_quiet; eauto; simpl; try done; try lia. intros ? [= <-]. by right.
  - destruct (push_step_ok _ Hq i pc weak Hi) as (b' & pc'' & Hrun' & Hq').
    rewrite Hrun in Hrun'. by injection Hrun' as <- <-.
  - pose proof (q_head _ Hq). pose proof (q_avail _ Hq). destruct s0; simpl in *; subst.
    apply (pop_quiet _ Hq); simpl in *; done || lia.
  - destruct (pop_step_ok _ Hq weak) as (b' & pc'' & Hrun' & Hq').
    rewrite Hrun in Hrun'. by injection Hrun' as <- <-.
Qed.

Lemma qsteps_inv s s' : rtc qstep s s' → qinv s → qinv s'.
Proof. induction 1; eauto using qstep_inv. Qed.

(** The dimensions of the buffer and the number of writers do not change. *)
Definition dims (b : lq_buffer) : Z * Z := (size b, entrySize b).

Lemma set_state_dims b i st b' : set_state b i st = Ret b' → dims b' = dims b.
Proof. unfold set_state. intros. run_inv. done. Qed.

Lemma memcpy_in_dims b off v b' : memcpy_in b off v = Ret b' → dims b' = dims b.
Proof. unfold memcpy_in. case_if; intros; run_inv; done. Qed.

Lemma qstep_frame s s' :
  qstep s s' → dims (buf s') = dims (buf s) ∧ length (writers s') = length (writers s).
Proof.
  intros [s0 i r v Hi Hv|s0 i pc weak b pc' Hi Hrun|s0 r Hr|s0 weak b pc' Hrun]; simpl;
    rewrite ?length_insert; (split; [|done]); try done.
  - destruct pc; simpl in Hrun; try case_match; run_inv; simpl; try done;
      repeat case_match; run_inv; simpl; eauto using set_state_dims, memcpy_in_dims.
  - destruct (reader s0); simpl in Hrun; try case_match; run_inv; simpl; try done;
      repeat case_match; run_inv; simpl; eauto using set_state_dims, memcpy_in_dims.
Qed.

Lemma qsteps_frame s s' :
  rtc qstep s s' → dims (buf s') = dims (buf s) ∧ length (writers s') = length (writers s).
Proof.
  induction 1 as [|s1 s2 s3 Hst _ IH]; [done|]. apply qstep_frame in Hst. intuition congruence.
Qed.

(** ** Initialisation *)

(** [jemk_malloc] returns blocks of the size asked for. *)
Class QueueMallocLaws `{QueueMalloc} := {
  malloc_entries_len z : 0 <= z → Z.of_nat (length (malloc_entries z)) = z / SIZEOF_LQ_ENTRY;
  malloc_bytes_len z : 0 <= z → Z.of_nat (length (malloc_bytes z)) = z;
}.

Lemma init_entries_ok es k i b :
  0 <= i → 0 <= es → (i + Z.of_nat k) * es < 2 ^ 64 →
  Z.of_nat (length (entries b)) = i + Z.of_nat k →
  (∀ j, (j < Z.to_nat i)%nat → entries b !! j = Some (LqEntry META_STATE_FREE (Z.of_nat j * es))) →
  ∃ l, init_entries es i k b = Ret (set_entries b l) ∧
    l = (λ j, LqEntry META_STATE_FREE (Z.of_nat j * es)) <$> seq 0 (length (entries b)).
Proof.
  revert i b. induction k as [|k IH]; intros i b Hi He Hb Hlen Hpre; simpl.
  - exists (entries b). split; [by destruct b|]. apply list_eq. intros j.
    rewrite list_lookup_fmap. destruct (decide (j < length (entries b))%nat).
    + rewrite lookup_seq_lt by done. apply Hpre. lia.
    + rewrite !lookup_ge_None_2; rewrite ?length_seq; done || lia.
  - destruct (lookup_lt_is_Some_2 (entries b) (Z.to_nat i)) as [e Hent]; [lia|].
    unfold entry_at at 1. rewrite (proj2 (Z.ltb_ge i 0)), Hent by lia. simpl.
    replace (i + Z.of_nat (S k)) with (i + 1 + Z.of_nat k) in * by lia.
    assert (Hiu : is_u64 (i * es)) by (unfold is_u64; nia).
    set (b' := set_entries _ _).
    destruct (IH (i + 1) b') as (l & Hrun & Hl); try lia; subst b'; simpl in *;
      rewrite ?length_insert in *; try lia.
    + intros j Hj. destruct (decide (j = Z.to_nat i)) as [->|].
      * rewrite list_lookup_insert_eq, u64_small by (done || lia). by rewrite Z2Nat.id by lia.
      * rewrite list_lookup_insert_ne by done. apply Hpre. lia.
    + exists l. by rewrite Hrun.
Qed.

Section init.
Context `{QueueMallocLaws} (es n : Z).
Context (Hes : 0 <= es) (Hn : 0 <= n) (Hbig : n * SIZEOF_LQ_ENTRY < 2 ^ 64) (Hbytes : es * n < 2 ^ 64).

Lemma init_inv k :
  n + Z.of_nat k + 1 < 2 ^ 64 → ∃ b, lq_init es n = Ret b ∧ size b = n ∧ entrySize b = es ∧ qinv (sys_init b k).
Proof.
  intros Hk. unfold lq_init. unfold SIZEOF_LQ_ENTRY in *.
  rewrite !u64_small by (unfold is_u64; nia).
  pose proof (malloc_entries_len (n * 16) ltac:(lia)) as Hl. unfold SIZEOF_LQ_ENTRY in Hl.
  rewrite Z.div_mul in Hl by lia.
  edestruct (init_entries_ok es (Z.to_nat n) 0) as (l & Hrun & Hle); [..|rewrite Hrun]; simpl; try lia.
  eexists. split; [done|]. split; [done|]. split; [done|].
  assert (Hz : ∀ f, f (WDone false) = 0 → zsum f (replicate k (WDone false)) = 0).
  { intros f Hf. clear -Hf. induction k; simpl; lia. }
  assert (Hown : ∀ i o, (wown <$> replicate k (WDone false)) !! i = Some o → o = None).
  { intros i o Ho. rewrite fmap_replicate in Ho. by apply lookup_replicate in Ho as [-> _]. }
  split; simpl; rewrite ?length_replicate, ?Hz by done; try lia; try done.
  - intros i pc v Hi. apply lookup_replicate in Hi as [-> _]. done.
  - intros i Hi. by apply lookup_replicate in Hi as [? _].
  - subst l. split; simpl; try lia; try (by intros; exfalso; naive_solver).
    + rewrite length_fmap, length_seq. done.
    + intros i e He. rewrite list_lookup_fmap in He. apply fmap_Some in He as (j & Hj & ->).
      apply lookup_seq in Hj as [-> _]. done.
    + rewrite malloc_bytes_len by lia. lia.
    + intros i Hi _. unfold state_at. simpl. rewrite list_lookup_fmap, lookup_seq_lt by lia. done.
Qed.

(** The states the threads can bring the buffer into. *)
Definition reachable (k : nat) (s : sys) : Prop :=
  ∃ b, lq_init es n = Ret b ∧ rtc qstep (sys_init b k) s.

Lemma reachable_inv k s : n + Z.of_nat k + 1 < 2 ^ 64 → reachable k s → qinv s.
Proof.
  intros Hk (b & Hb & Hs). destruct (init_inv k Hk) as (b' & Hb' & _ & _ & Hq).
  rewrite Hb in Hb'. injection Hb' as <-. by eapply qsteps_inv.
Qed.
End init.
