(* ===== verification/QueueSpec.v ===== *)
(** * What the event queue promises

    From the invariant of [QueueInv]: no assertion fails under any interleaving,
    no access leaves the buffer, values come out in the order in which they
    were claimed, and between calls the buffer is a bounded first-in first-out
    queue. *)
From S2P Require Import Prelude Queue QueueSafe QueueInv.

(** ** Running one thread to the end of its call *)
Fixpoint run_push (k : nat) (b : lq_buffer) (pc : wpc) (cl : list (list Z)) :
    outcome (lq_buffer * wpc * list (list Z)) :=
  match k with
  | O => Ret (b, pc, cl)
  | S k =>
      let! (b', pc') := lq_push_step b false pc in
      run_push k b' pc' (cl ++ claims pc pc')
  end.

Fixpoint run_pop (k : nat) (b : lq_buffer) (pc : rpc) (po : list (list Z)) :
    outcome (lq_buffer * rpc * list (list Z)) :=
  match k with
  | O => Ret (b, pc, po)
  | S k =>
      let! (b', pc') := lq_pop_step b false pc in
      run_pop k b' pc' (po ++ pops pc pc')
  end.

(** The calls are the steps of one thread, run without interruption. *)
Lemma lq_push_run b v :
  lq_push b v =
  (let! (b', pc, _) := run_push 7 b (WReserve v) [] in
   match pc with WDone r => Ret (r, b') | _ => Stop OutOfFuel end).
Proof.
  unfold lq_push, lq_request_entry_write, lq_reserve_write. simpl.
  case_if; simpl; [|done]. rewrite Z.eqb_refl. simpl.
  destruct (entry_at _ _) as [e|] eqn:He; simpl; [|done].
  destruct (negb _); simpl; [done|]. rewrite He. simpl.
  destruct (memcpy_in _ _ _) as [b1|]; simpl; [|done].
  unfold lq_post_entry_write. by destruct (set_state _ _ _) as [b2|].
Qed.

Lemma lq_pop_run b :
  lq_pop b =
  (let! (b', pc, _) := run_pop 7 b RReserve [] in
   match pc with RDone r => Ret (r, b') | _ => Stop OutOfFuel end).
Proof.
  unfold lq_pop, lq_request_entry_read, lq_reserve_read. simpl.
  case_if; simpl; [|done]. rewrite Z.eqb_refl. simpl.
  destruct (entry_at _ _) as [e|] eqn:He; simpl; [|done].
  destruct (negb _); simpl; [done|]. rewrite He. simpl.
  destruct (memcpy_out _ _) as [out|]; simpl; [|done].
  unfold lq_post_entry_read. by destruct (set_state _ _ _) as [b2|].
Qed.

Lemma run_push_ok k s i pc cl :
  qinv s → writers s !! i = Some pc →
  ∃ b' pc' l, run_push k (buf s) pc cl = Ret (b', pc', cl ++ l) ∧
    let s' := Sys b' (<[i := pc']> (writers s)) (reader s) (claimed s ++ l) (popped s) in
    rtc qstep s s' ∧ qinv s'.
Proof.
  revert s pc cl. induction k as [|k IH]; intros s pc cl Hq Hi; simpl.
  - exists (buf s), pc, []. rewrite !app_nil_r, list_insert_id by done.
    destruct s; simpl in *. split; [done|]. split; [apply rtc_refl|done].
  - destruct (push_step_ok s Hq i pc false Hi) as (b1 & pc1 & Hrun & Hq1). rewrite Hrun. simpl.
    assert (Hl : (i < length (writers s))%nat) by by eapply lookup_lt_Some.
    specialize (IH (Sys b1 (<[i := pc1]> (writers s)) (reader s) (claimed s ++ claims pc pc1) (popped s))
      pc1 (cl ++ claims pc pc1) Hq1).
    simpl in IH. rewrite list_lookup_insert_eq in IH by done.
    destruct (IH eq_refl) as (b' & pc' & l & Hrun' & Hst & Hq').
    exists b', pc', (claims pc pc1 ++ l). rewrite !app_assoc. split; [done|].
    rewrite list_insert_insert_eq in Hst, Hq'. split; [|done].
    eapply rtc_l; [by eapply push_run|done].
Qed.

Lemma run_pop_ok k s po :
  qinv s →
  ∃ b' pc' l, run_pop k (buf s) (reader s) po = Ret (b', pc', po ++ l) ∧
    let s' := Sys b' (writers s) pc' (claimed s) (popped s ++ l) in
    rtc qstep s s' ∧ qinv s'.
Proof.
  revert s po. induction k as [|k IH]; intros s po Hq; simpl.
  - exists (buf s), (reader s), []. rewrite !app_nil_r.
    destruct s; simpl in *. split; [done|]. split; [apply rtc_refl|done].
  - destruct (pop_step_ok s Hq false) as (b1 & pc1 & Hrun & Hq1). rewrite Hrun. simpl.
    specialize (IH _ (po ++ pops (reader s) pc1) Hq1). simpl in IH.
    destruct IH as (b' & pc' & l & Hrun' & Hst & Hq').
    exists b', pc', (pops (reader s) pc1 ++ l). rewrite !app_assoc. split; [done|]. split; [|done].
    eapply rtc_l; [by eapply pop_run|done].
Qed.

(** ** The bounded first-in first-out queue *)
Definition fifo_push (n : Z) (q : list (list Z)) (v : list Z) : bool * list (list Z) :=
  if Z.of_nat (length q) <? n then (true, q ++ [v]) else (false, q).
Definition fifo_pop (q : list (list Z)) : option (list Z) * list (list Z) :=
  match q with
  | [] => (None, [])
  | v :: q => (Some v, q)
  end.

(** No call is in progress; the values that are in the buffer. *)
Definition quiet (s : sys) : Prop :=
  (∀ i pc, writers s !! i = Some pc → ∃ r, pc = WDone r) ∧ ∃ r, reader s = RDone r.
Definition pending (s : sys) : list (list Z) := drop (length (popped s)) (claimed s).

Lemma zsum_quiet s f : quiet s → (∀ r, f (WDone r) = 0) → zsum f (writers s) = 0.
Proof.
  intros [Hw _] Hf. induction (writers s) as [|pc l IH]; simpl; [done|].
  destruct (Hw O pc eq_refl) as [r ->]. rewrite Hf, IH; [done|]. intros i. apply (Hw (S i)).
Qed.

Lemma quiet_insert s i b pc r cl po :
  quiet s → reader s = RDone r → (∃ r, pc = WDone r) → quiet (Sys b (<[i := pc]> (writers s)) (RDone r) cl po).
Proof.
  intros [Hw _] _ Hpc. split; [|eauto]. intros j pc' Hj.
  apply list_lookup_insert_Some in Hj as [(_ & <- & _)|[_ Hj]]; eauto.
Qed.

Lemma quiet_used s :
  qinv s → quiet s →
  used (buf s) = Z.of_nat (length (pending s)) ∧
  unavailableRead (buf s) = size (buf s) - Z.of_nat (length (pending s)).
Proof.
  intros Hq Hs. pose proof (q_used _ Hq) as Hu. pose proof (q_unav _ Hq) as Hv.
  pose proof (sl_window _ _ _ _ _ (q_slots _ Hq)).
  rewrite !zsum_quiet in Hu by done. rewrite !zsum_quiet in Hv by done.
  destruct Hs as [_ [r Hr]]. unfold pending. rewrite length_drop. rewrite Hr in *. simpl in *. lia.
Qed.

Lemma push_when_quiet s i r v :
  qinv s → quiet s → writers s !! i = Some (WDone r) → Z.of_nat (length v) = entrySize (buf s) →
  let (ok, q') := fifo_push (size (buf s)) (pending s) v in
  ∃ s', rtc qstep s s' ∧ quiet s' ∧ lq_push (buf s) v = Ret (ok, buf s') ∧ pending s' = q'.
Proof.
  intros Hq Hs Hi Hv. destruct (quiet_used s Hq Hs) as [Hu _].
  pose proof (sl_window _ _ _ _ _ (q_slots _ Hq)) as Hwin.
  assert (Hlt : (i < length (writers s))%nat) by by eapply lookup_lt_Some.
  pose proof (push_call s i r v Hi Hv) as Hcall.
  destruct (run_push_ok 7 _ i (WReserve v) [] (qstep_inv _ _ Hq Hcall)) as (b' & pc' & l & Hrun & Hst & Hq').
  { simpl. by rewrite list_lookup_insert_eq. }
  simpl app in Hrun. rewrite lq_push_run. simpl buf in Hrun. rewrite Hrun. cbn [obind].
  cbn [buf writers reader claimed popped] in Hst. rewrite list_insert_insert_eq in Hst.
  assert (Hout : ∃ ok, pc' = WDone ok ∧ (ok, l) = if used (buf s) <? size (buf s) then (true, [v]) else (false, [])).
  { clear Hst Hq'. simpl in Hrun. destruct (used (buf s) <? size (buf s)); simpl in Hrun.
    - rewrite Z.eqb_refl in Hrun. simpl in Hrun. destruct (entry_at _ _) as [e|] eqn:He; [|done].
      simpl in Hrun. destruct (negb _); [done|]. simpl in Hrun. rewrite He in Hrun. simpl in Hrun.
      destruct (memcpy_in _ _ _); [|done]. simpl in Hrun. destruct (set_state _ _ _); [|done].
      simpl in Hrun. injection Hrun as <- <- <-. eauto.
    - injection Hrun as <- <- <-. eauto. }
  destruct Hout as (ok & -> & Hok). unfold fifo_push. rewrite <- Hu.
  destruct (used (buf s) <? size (buf s)); injection Hok as -> ->; eexists;
    (split; [eapply rtc_l; [exact Hcall|exact Hst]|]);
    (split; [destruct Hs as [Hw [r' Hr']]; rewrite Hr'; by apply quiet_insert; eauto; split; eauto|]);
    (split; [done|]); unfold pending; simpl.
  - rewrite drop_app_le by (destruct (reader s); simpl in *; lia). done.
  - by rewrite app_nil_r.
Qed.

Lemma head_ready s :
  qinv s → quiet s → pending s ≠ [] →
  state_at (buf s) (head (buf s)) = Some META_STATE_READY ∧ 0 <= head (buf s) < size (buf s).
Proof.
  intros Hq Hs Hp. pose proof (q_slots _ Hq) as Hsl. pose proof (sl_window _ _ _ _ _ Hsl) as Hw.
  assert (Hlt : npopped s < nclaimed s).
  { unfold pending in Hp. destruct (decide (npopped s < nclaimed s)); [done|].
    destruct Hp. apply drop_ge. lia. }
  destruct Hs as [Hwr [r Hr]]. pose proof (q_head _ Hq) as Hh. rewrite Hr in *. simpl in *.
  rewrite Hh, Z.add_0_r. split; [|apply Z.mod_pos_bound; lia].
  destruct (sl_ready _ _ _ _ _ Hsl (npopped s)) as [(w & v & c & Ho)|[? _]]; [lia| |done].
  rewrite list_lookup_fmap in Ho. apply fmap_Some in Ho as (pc & Hpc & Ho).
  destruct (Hwr _ _ Hpc) as [r' ->]. done.
Qed.

Lemma run_pop_empty b b' pc' l :
  run_pop 7 b RReserve [] = Ret (b', pc', l) → size b <= unavailableRead b → pc' = RDone None ∧ l = [].
Proof.
  intros Hrun Hu. simpl in Hrun. rewrite (proj2 (Z.ltb_ge _ _)) in Hrun by lia. by injection Hrun.
Qed.

Lemma run_pop_ready b b' pc' l :
  run_pop 7 b RReserve [] = Ret (b', pc', l) →
  state_at b (head b) = Some META_STATE_READY → 0 <= head b → unavailableRead b < size b →
  ∃ out, pc' = RDone (Some out) ∧ l = [out].
Proof.
  unfold state_at. intros Hrun Hst Hh Hu.
  destruct (entries b !! Z.to_nat (head b)) as [e|] eqn:He; simplify_eq/=.
  rewrite (proj2 (Z.ltb_lt _ _)) in Hrun by lia. simpl in Hrun. rewrite Z.eqb_refl in Hrun. simpl in Hrun.
  unfold entry_at at 1 in Hrun. rewrite (proj2 (Z.ltb_ge (head b) 0)) in Hrun by done. simpl in Hrun.
  rewrite He in Hrun. simpl in Hrun. rewrite Hst in Hrun. simpl in Hrun. run_inv.
  simpl in Ha. run_inv. simpl in Ha2. run_inv. eauto.
Qed.

Lemma pop_when_quiet s :
  qinv s → quiet s →
  let (out, q') := fifo_pop (pending s) in
  ∃ s', rtc qstep s s' ∧ quiet s' ∧ lq_pop (buf s) = Ret (out, buf s') ∧ pending s' = q'.
Proof.
  intros Hq Hs. destruct (quiet_used s Hq Hs) as [_ Hu]. pose proof (head_ready s Hq Hs) as Hready.
  pose proof (sl_window _ _ _ _ _ (q_slots _ Hq)) as Hwin.
  pose proof Hs as [Hwr [r Hr]]. pose proof (pop_call s r Hr) as Hcall.
  destruct (run_pop_ok 7 _ [] (qstep_inv _ _ Hq Hcall)) as (b' & pc' & l & Hrun & Hst & Hq').
  cbn [buf writers reader claimed popped app] in Hrun, Hst, Hq'.
  rewrite lq_pop_run, Hrun. cbn [obind].
  destruct (pending s) as [|v q] eqn:Hp; simpl in Hu |- *.
  - apply run_pop_empty in Hrun as [-> ->]; [|lia].
    eexists. split; [by eapply rtc_l|]. split; [by split; eauto|]. split; [done|].
    unfold pending in *. simpl. by rewrite app_nil_r.
  - destruct Hready as [Hst' Hb]; [done|]. apply run_pop_ready in Hrun as (v' & -> & ->); [|done|lia..].
    assert (Hcl : claimed s = popped s ++ v :: q).
    { rewrite <- (take_drop (length (popped s)) (claimed s)), <- (q_fifo _ Hq). by rewrite <- Hp. }
    pose proof (q_fifo _ Hq') as Hf. cbn [claimed popped] in Hf.
    rewrite Hcl, length_app, take_app_ge, Nat.add_comm, Nat.add_sub in Hf by (simpl; lia).
    apply app_inv_head in Hf. injection Hf as ->.
    eexists. split; [by eapply rtc_l|]. split; [by split; eauto|]. split; [done|].
    unfold pending. cbn [popped claimed]. rewrite Hcl.
    change (v :: q) with ([v] ++ q). rewrite app_assoc. apply drop_app_length.
Qed.

(** ** The promises *)
Section promises.
Context `{QueueMallocLaws} (es n : Z) (k : nat).
Context (Hes : 0 <= es) (Hn : 0 <= n) (Hbig : n * SIZEOF_LQ_ENTRY < 2 ^ 64) (Hbytes : es * n < 2 ^ 64).
Context (Hk : n + Z.of_nat k + 1 < 2 ^ 64).

(** C4: Whatever the [k] writers and the reader have done so far, the next access of
    every thread succeeds: the assertion in [lq_request_entry_write] that the
    claimed entry is free cannot fail, and no access leaves the two blocks. *)
Theorem lq_interleaving_safe s :
  reachable es n k s →
  (∀ i pc weak, writers s !! i = Some pc → ∃ b pc', lq_push_step (buf s) weak pc = Ret (b, pc')) ∧
  (∀ weak, ∃ b pc', lq_pop_step (buf s) weak (reader s) = Ret (b, pc')).
Proof.
  intros Hr. apply reachable_inv in Hr as Hq; try done. split.
  - intros i pc weak Hi. destruct (push_step_ok s Hq i pc weak Hi) as (b & pc' & ? & _). eauto.
  - intros weak. destruct (pop_step_ok s Hq weak) as (b & pc' & ? & _). eauto.
Qed.

(** C5: First in, first out under every interleaving: the values the reader has
    copied out are, in order, the first ones for which a writer advanced [tail],
    and never more than [n] values are between the two. *)
Theorem lq_fifo s :
  reachable es n k s →
  popped s `prefix_of` claimed s ∧ (length (claimed s) <= length (popped s) + Z.to_nat n)%nat.
Proof.
  intros Hr. assert (Hsz : size (buf s) = n).
  { destruct Hr as (b & Hb & Hst). destruct (init_inv es n Hes Hn Hbig Hbytes k Hk) as (b' & Hb' & Hsb & _).
    rewrite Hb in Hb'. injection Hb' as <-. rewrite <- Hsb.
    destruct (qsteps_frame _ _ Hst) as [Hd _]. by injection Hd. }
  apply reachable_inv in Hr as Hq; try done. pose proof (q_slots _ Hq) as Hs.
  pose proof (sl_window _ _ _ _ _ Hs). pose proof (q_cap _ Hq).
  pose proof (zsum_bound wres (writers s) wres_01). split.
  - exists (pending s). rewrite (q_fifo _ Hq) at 1. symmetry. apply take_drop.
  - destruct (reader s); simpl in *; lia.
Qed.

(** The copies never touch the same entry: two writers that own entries own
    different ones, and the entry the reader copies out belongs to no writer. *)
Theorem lq_exclusive s :
  reachable es n k s →
  (∀ i j pc pc' v v' idx c c', writers s !! i = Some pc → writers s !! j = Some pc' →
     wown pc = Some (v, idx, c) → wown pc' = Some (v', idx, c') → i = j) ∧
  (∀ i pc v idx c, writers s !! i = Some pc → wown pc = Some (v, idx, c) → reader s ≠ RCopy idx).
Proof.
  intros Hr. apply reachable_inv in Hr as Hq; try done. pose proof (q_slots _ Hq) as Hs. split.
  - intros i j pc pc' v v' idx c c' Hi Hj Ho Ho'.
    eapply (sl_disj _ _ _ _ _ Hs); rewrite list_lookup_fmap, ?Hi, ?Hj; simpl; by f_equal.
  - intros i pc v idx c Hi Ho Hrd. destruct (owner_facts s Hq i pc v idx c Hi Ho) as [_ Hst].
    pose proof (q_reader _ Hq) as Hro. rewrite Hrd in Hro. destruct Hro as [_ Hst'].
    rewrite Hst in Hst'. discriminate Hst'.
Qed.

(** Between calls, after any concurrent history, [lq_push] is the push of a
    bounded queue: it fails exactly when [size] values are pending, appends the
    value otherwise, and leaves a state from which the same holds again. *)
Theorem lq_push_refines_fifo s i r v :
  reachable es n k s → quiet s → writers s !! i = Some (WDone r) →
  Z.of_nat (length v) = entrySize (buf s) →
  let (ok, q') := fifo_push (size (buf s)) (pending s) v in
  ∃ s', reachable es n k s' ∧ quiet s' ∧ lq_push (buf s) v = Ret (ok, buf s') ∧ pending s' = q'.
Proof.
  intros Hr Hs Hi Hv. apply reachable_inv in Hr as Hq; try done.
  pose proof (push_when_quiet s i r v Hq Hs Hi Hv) as Hp. destruct (fifo_push _ _ _) as [ok q'].
  destruct Hp as (s' & Hst & Hs' & Hrun & Hp). exists s'. split; [|done].
  destruct Hr as (b & Hb & Hst0). exists b. split; [done|]. by etrans.
Qed.

(** Between calls [lq_pop] is the pop of that queue: it returns the oldest
    pending value and fails exactly when there is none. *)
Theorem lq_pop_refines_fifo s :
  reachable es n k s → quiet s →
  let (out, q') := fifo_pop (pending s) in
  ∃ s', reachable es n k s' ∧ quiet s' ∧ lq_pop (buf s) = Ret (out, buf s') ∧ pending s' = q'.
Proof.
  intros Hr Hs. apply reachable_inv in Hr as Hq; try done.
  pose proof (pop_when_quiet s Hq Hs) as Hp. destruct (fifo_pop _) as [out q'].
  destruct Hp as (s' & Hst & Hs' & Hrun & Hp). exists s'. split; [|done].
  destruct Hr as (b & Hb & Hst0). exists b. split; [done|]. by etrans.
Qed.
End promises.

(** ** Schedules *)

(** An interleaving as a list of choices, and its execution. *)
Inductive act :=
  | Push (i : nat) (v : list Z)
  | Run (i : nat) (weak : bool)
  | Pop
  | RunPop (weak : bool).

Definition act_run (a : act) (s : sys) : option sys :=
  match a with
  | Push i v =>
      match writers s !! i with
      | Some (WDone _) =>
          if Z.of_nat (length v) =? entrySize (buf s)
          then Some (Sys (buf s) (<[i := WReserve v]> (writers s)) (reader s) (claimed s) (popped s))
          else None
      | _ => None
      end
  | Run i weak =>
      match writers s !! i with
      | Some pc =>
          match lq_push_step (buf s) weak pc with
          | Ret (b, pc') =>
              Some (Sys b (<[i := pc']> (writers s)) (reader s) (claimed s ++ claims pc pc') (popped s))
          | Stop _ => None
          end
      | None => None
      end
  | Pop =>
      match reader s with
      | RDone _ => Some (Sys (buf s) (writers s) RReserve (claimed s) (popped s))
      | _ => None
      end
  | RunPop weak =>
      match lq_pop_step (buf s) weak (reader s) with
      | Ret (b, pc') => Some (Sys b (writers s) pc' (claimed s) (popped s ++ pops (reader s) pc'))
      | Stop _ => None
      end
  end.

Fixpoint schedule (l : list act) (s : sys) : option sys :=
  match l with
  | [] => Some s
  | a :: l => match act_run a s with Some s' => schedule l s' | None => None end
  end.

Lemma act_sound a s s' : act_run a s = Some s' → qstep s s'.
Proof.
  destruct a as [i v|i weak| |weak]; simpl; intros Ha.
  - destruct (writers s !! i) as [pc|] eqn:Hi; [|done]. destruct pc; try done.
    case_match eqn:Hl; simplify_eq. apply Z.eqb_eq in Hl. by eapply push_call.
  - destruct (writers s !! i) as [pc|] eqn:Hi; [|done].
    destruct (lq_push_step _ _ _) as [[b pc']|] eqn:Hrun; simplify_eq. by eapply push_run.
  - destruct (reader s) eqn:Hr; simplify_eq. by eapply pop_call.
  - destruct (lq_pop_step _ _ _) as [[b pc']|] eqn:Hrun; simplify_eq. by eapply pop_run.
Qed.

Lemma schedule_sound l s s' : schedule l s = Some s' → rtc qstep s s'.
Proof.
  revert s. induction l as [|a l IH]; intros s Hl; simplify_eq/=; [apply rtc_refl|].
  destruct (act_run a s) as [s1|] eqn:Ha; [|done]. eapply rtc_l; [by eapply act_sound|eauto].
Qed.

(** ** Concrete runs *)
#[global] Instance zero_malloc : QueueMalloc := {
  malloc_entries z := replicate (Z.to_nat (z / SIZEOF_LQ_ENTRY)) (LqEntry 0 0);
  malloc_bytes z := replicate (Z.to_nat z) 0;
}.

#[global] Instance zero_malloc_laws : QueueMallocLaws.
Proof.
  split; simpl; intros z Hz; rewrite length_replicate; [|lia].
  pose proof (Z.div_pos z SIZEOF_LQ_ENTRY Hz eq_refl). lia.
Qed.

(** Two writers on a buffer of two one-byte entries: writer 0 claims the first
    entry and is delayed, writer 1 completes its push. *)
Definition slow_writer : list act :=
  [Push 0 [7]; Run 0 false; Run 0 false; Run 0 false; Push 1 [8]] ++ replicate 7 (Run 1 false).

Definition demo_sys : sys :=
  match lq_init 1 2 with Ret b => sys_init b 2 | Stop _ => Sys (LqBuffer [] [] 0 0 0 0 0 0) [] RReserve [] [] end.

(** Then both writers finish and the reader takes the first value. *)
Definition full_run : list act :=
  slow_writer ++ replicate 5 (Run 0 false) ++ [Pop] ++ replicate 7 (RunPop false).

Lemma schedule_reachable l s : schedule l demo_sys = Some s → reachable 1 2 2 s.
Proof.
  intros Hl. destruct (lq_init 1 2) as [b|] eqn:Hb; [|by vm_compute in Hb].
  exists b. split; [done|]. apply (schedule_sound l). by unfold demo_sys in Hl; rewrite Hb in Hl.
Qed.

Definition after (l : list act) : sys := match schedule l demo_sys with Some s => s | None => demo_sys end.

Lemma after_reachable l : bool_decide (is_Some (schedule l demo_sys)) = true → reachable 1 2 2 (after l).
Proof.
  intros [s Hs]%bool_decide_eq_true. apply (schedule_reachable l). unfold after. by rewrite Hs.
Qed.

Lemma lq_interleaving_safe_witness :
  ∃ b pc', lq_pop_step (buf (after slow_writer)) false (reader (after slow_writer)) = Ret (b, pc').
Proof.
  apply (lq_interleaving_safe 1 2 2); try (vm_compute; congruence); try reflexivity.
  apply after_reachable. by vm_compute.
Defined.

Lemma lq_fifo_witness : popped (after full_run) `prefix_of` claimed (after full_run).
Proof.
  apply (lq_fifo 1 2 2); try (vm_compute; congruence); try reflexivity.
  apply after_reachable. by vm_compute.
Defined.

Lemma lq_exclusive_witness : reader (after slow_writer) ≠ RCopy 0.
Proof.
  refine (proj2 (lq_exclusive 1 2 2 _ _ _ _ _ (after slow_writer) _) 0%nat (WCheck [7] 0) [7] 0 false _ _);
    try (vm_compute; congruence); apply after_reachable; by vm_compute.
Defined.

Lemma quiet_full_run : quiet (after full_run).
Proof.
  split; [|vm_compute; by eexists].
  intros [|[|[]]] pc Hpc; vm_compute in Hpc; simplify_eq; by eexists.
Qed.

Lemma lq_push_refines_fifo_witness :
  ∃ s', reachable 1 2 2 s' ∧ quiet s' ∧ lq_push (buf (after full_run)) [9] = Ret (true, buf s') ∧
    pending s' = [[8]; [9]].
Proof.
  refine (lq_push_refines_fifo 1 2 2 _ _ _ _ _ (after full_run) 0%nat true [9] _ quiet_full_run _ _);
    try (vm_compute; congruence); try reflexivity.
  apply after_reachable. by vm_compute.
Defined.

Lemma lq_pop_refines_fifo_witness :
  ∃ s', reachable 1 2 2 s' ∧ quiet s' ∧ lq_pop (buf (after full_run)) = Ret (Some [8], buf s') ∧
    pending s' = [].
Proof.
  refine (lq_pop_refines_fifo 1 2 2 _ _ _ _ _ (after full_run) _ quiet_full_run);
    try (vm_compute; congruence); try reflexivity.
  apply after_reachable. by vm_compute.
Defined.

