(* ===== verification/Events.v ===== *)
(** * Events and the queue that carries them ([src/ranking_queue.c])

    The allocator threads tell the background thread what happened by copying
    an [EventEntry_t] byte for byte through the queue. *)
From S2P Require Import Prelude Queue QueueSafe QueueInv QueueSpec.

(** ** Little-endian words *)
Fixpoint le_bytes (n : nat) (z : Z) : list Z :=
  match n with
  | O => []
  | S n => z mod 256 :: le_bytes n (z / 256)
  end.

Definition le_val (l : list Z) : Z := foldr (λ b a, b + 256 * a) 0 l.

Lemma le_val_bytes n z : 0 <= z < 2 ^ (8 * Z.of_nat n) → le_val (le_bytes n z) = z.
Proof.
  revert z. induction n as [|n IH]; intros z Hz; simpl le_bytes; simpl le_val.
  - simpl in Hz. change (2 ^ (8 * 0)) with 1 in Hz. lia.
  - unfold le_val in *. simpl. replace (8 * Z.of_nat (S n)) with (8 * Z.of_nat n + 8) in Hz by lia.
    rewrite Z.pow_add_r in Hz by lia. change (2 ^ 8) with 256 in Hz.
    pose proof (Z.div_mod z 256 ltac:(lia)). rewrite IH; [lia|].
    split; [apply Z.div_pos; lia|]. apply Z.div_lt_upper_bound; lia.
Qed.

Lemma length_le_bytes n z : length (le_bytes n z) = n.
Proof. revert z. induction n; intros z; simpl; auto. Qed.

(** ** [EventEntry_t] *)
Definition EVENT_CREATE_ADD : Z := 0.
Definition EVENT_DESTROY_REMOVE : Z := 1.
Definition EVENT_REALLOC : Z := 2.
Definition EVENT_TOUCH : Z := 3.
Definition EVENT_SET_TOUCH_CALLBACK : Z := 4.

(** The tagged union, one constructor for each value of [EventType_t]. *)
Inductive EventEntry :=
  | CreateAdd (hash address size : Z) (isHot : bool)
  | DestroyRemove (address size : Z)
  | Realloc (addressOld addressNew sizeOld sizeNew : Z) (isHot : bool)
  | Touch (address timestamp : Z)
  | SetTouchCallback (address callback callbackArg : Z).

#[global] Instance EventEntry_eq_dec : EqDecision EventEntry.
Proof. solve_decision. Defined.

Definition b2z (b : bool) : Z := if b then 1 else 0.

(** The type tag and the words of the union. *)
Definition event_words (e : EventEntry) : Z * list Z :=
  match e with
  | CreateAdd h a s hot => (EVENT_CREATE_ADD, [h; a; s; b2z hot; 0])
  | DestroyRemove a s => (EVENT_DESTROY_REMOVE, [a; s; 0; 0; 0])
  | Realloc ao an so sn hot => (EVENT_REALLOC, [ao; an; so; sn; b2z hot])
  | Touch a t => (EVENT_TOUCH, [a; t; 0; 0; 0])
  | SetTouchCallback a c g => (EVENT_SET_TOUCH_CALLBACK, [a; c; g; 0; 0])
  end.

(** The object representation on the 64-bit target: a 4-byte tag, 4 bytes of
    padding, a union of 40 bytes.  A [bool] is its low byte; padding and the
    unused part of the union are written as zero. *)
Definition event_bytes (e : EventEntry) : list Z :=
  let (tag, ws) := event_words e in le_bytes 8 tag ++ concat (le_bytes 8 <$> ws).

Definition SIZEOF_EVENT : Z := 48.

Definition word (l : list Z) (i : nat) : Z := le_val (take 8 (drop (8 * S i) l)).
Definition flag (l : list Z) (i : nat) : bool := negb (default 0 (l !! (8 * S i)%nat) =? 0).

(** Reading the members; a tag that is none of the five is kept as [None]. *)
Definition event_of_bytes (l : list Z) : option EventEntry :=
  let tag := le_val (take 4 l) in
  if tag =? EVENT_CREATE_ADD then Some (CreateAdd (word l 0) (word l 1) (word l 2) (flag l 3))
  else if tag =? EVENT_DESTROY_REMOVE then Some (DestroyRemove (word l 0) (word l 1))
  else if tag =? EVENT_REALLOC then
    Some (Realloc (word l 0) (word l 1) (word l 2) (word l 3) (flag l 4))
  else if tag =? EVENT_TOUCH then Some (Touch (word l 0) (word l 1))
  else if tag =? EVENT_SET_TOUCH_CALLBACK then
    Some (SetTouchCallback (word l 0) (word l 1) (word l 2))
  else None.

Definition event_ok (e : EventEntry) : Prop := Forall is_u64 (event_words e).2.

Lemma drop_words ws i :
  drop (8 * i) (concat (le_bytes 8 <$> ws)) = concat (le_bytes 8 <$> drop i ws).
Proof.
  revert ws. induction i as [|i IH]; intros ws; [by rewrite Nat.mul_0_r, !drop_0|].
  destruct ws as [|w ws]; [by rewrite drop_nil|]. rewrite Nat.mul_succ_r, Nat.add_comm. apply IH.
Qed.

Lemma word_concat t ws i w :
  length t = 8%nat → ws !! i = Some w → is_u64 w →
  word (t ++ concat (le_bytes 8 <$> ws)) i = w.
Proof.
  intros Ht Hi Hw. unfold word. rewrite drop_app_ge by lia.
  replace (8 * S i - length t)%nat with (8 * i)%nat by lia.
  rewrite drop_words, (drop_S _ _ _ Hi), fmap_cons. by apply (le_val_bytes 8).
Qed.

Lemma flag_concat t ws i b :
  length t = 8%nat → ws !! i = Some (b2z b) → flag (t ++ concat (le_bytes 8 <$> ws)) i = b.
Proof.
  intros Ht Hi. unfold flag. rewrite lookup_app_r by lia.
  replace (8 * S i - length t)%nat with (8 * i + 0)%nat by lia.
  rewrite <- lookup_drop, drop_words, (drop_S _ _ _ Hi), fmap_cons. by destruct b.
Qed.

Lemma event_bytes_length e : Z.of_nat (length (event_bytes e)) = SIZEOF_EVENT.
Proof. destruct e; reflexivity. Qed.

Lemma event_roundtrip e : event_ok e → event_of_bytes (event_bytes e) = Some e.
Proof.
  unfold event_ok. destruct e; simpl event_words; simpl snd; intros Hws;
    repeat (apply Forall_cons in Hws as [? Hws]);
    unfold event_bytes, event_of_bytes; cbn [event_words];
    (change (take 4 (le_bytes 8 ?t ++ ?l)) with (take 4 (le_bytes 8 t)));
    (match goal with |- context [le_val (take 4 ?l)] => let v := eval vm_compute in (le_val (take 4 l)) in
       change (le_val (take 4 l)) with v end);
    unfold EVENT_CREATE_ADD, EVENT_DESTROY_REMOVE, EVENT_REALLOC, EVENT_TOUCH, EVENT_SET_TOUCH_CALLBACK;
    cbn [Z.eqb Pos.eqb];
    (erewrite !word_concat by (reflexivity || assumption));
    (erewrite ?flag_concat by reflexivity); reflexivity.
Qed.

(** ** The queue of events *)
Definition ranking_event_init `{QueueMalloc} (nentries : Z) : outcome lq_buffer :=
  lq_init SIZEOF_EVENT nentries.

(** [p] is what [jemk_malloc] returned for the control block. *)
Definition ranking_event_create `{QueueMalloc} (p nentries : Z) : outcome (Z * lq_buffer) :=
  if p =? NULL then Stop BadDeref
  else let! b := ranking_event_init nentries in Ret (p, b).

Definition ranking_event_fini (b : lq_buffer) : lq_buffer := lq_destroy b.

(** [ranking_event_destroy]: the control block itself is freed too. *)
Definition ranking_event_destroy (b : lq_buffer) : option lq_buffer :=
  let _ := ranking_event_fini b in None.

Definition ranking_event_push (b : lq_buffer) (e : EventEntry) : outcome (bool * lq_buffer) :=
  lq_push b (event_bytes e).

(** [false] and an untouched [event] when nothing could be popped. *)
Definition ranking_event_pop (b : lq_buffer) (event : option EventEntry) :
    outcome (bool * option EventEntry * lq_buffer) :=
  let! (out, b) := lq_pop b in
  match out with
  | Some l => Ret (true, event_of_bytes l, b)
  | None => Ret (false, event, b)
  end.

Section queue.
Context `{QueueMallocLaws} (n : Z) (k : nat).
Context (Hn : 0 <= n) (Hbytes : SIZEOF_EVENT * n < 2 ^ 64) (Hk : n + Z.of_nat k + 1 < 2 ^ 64).

(** An event that is pushed into a drained queue comes out unchanged: on any
    state between calls with nothing pending and room for one entry, a push of
    [e] succeeds and the next pop delivers exactly [e]. *)
Theorem ranking_event_roundtrip s i r e :
  reachable SIZEOF_EVENT n k s → quiet s → writers s !! i = Some (WDone r) →
  entrySize (buf s) = SIZEOF_EVENT → 0 < size (buf s) → pending s = [] → event_ok e →
  ∃ b b', ranking_event_push (buf s) e = Ret (true, b) ∧
    ∀ event, ranking_event_pop b event = Ret (true, Some e, b').
Proof.
  intros Hr Hs Hi He Hsz Hp Hok.
  assert (Hq : qinv s) by (eapply reachable_inv; [..|exact Hr]; unfold SIZEOF_EVENT, SIZEOF_LQ_ENTRY in *; lia).
  pose proof (push_when_quiet s i r (event_bytes e) Hq Hs Hi) as Hpush.
  rewrite event_bytes_length, Hp in Hpush. unfold fifo_push in Hpush.
  rewrite (proj2 (Z.ltb_lt _ _)) in Hpush by done.
  destruct (Hpush (eq_sym He)) as (s1 & Hst1 & Hs1 & Hrun1 & Hp1).
  pose proof (pop_when_quiet s1 (qsteps_inv _ _ Hst1 Hq) Hs1) as Hpop. rewrite Hp1 in Hpop.
  destruct Hpop as (s2 & _ & _ & Hrun2 & _). exists (buf s1), (buf s2). split; [done|].
  intros event. unfold ranking_event_pop. rewrite Hrun2. simpl. by rewrite event_roundtrip.
Qed.
End queue.

(** A queue of four events and one writer. *)
Definition event_sys : sys :=
  match ranking_event_init 4 with
  | Ret b => sys_init b 1
  | Stop _ => Sys (LqBuffer [] [] 0 0 0 0 0 0) [] RReserve [] []
  end.

Lemma ranking_event_roundtrip_witness :
  ∃ b b', ranking_event_push (buf event_sys) (CreateAdd 11 4096 64 true) = Ret (true, b) ∧
    ∀ event, ranking_event_pop b event = Ret (true, Some (CreateAdd 11 4096 64 true), b').
Proof.
  apply (ranking_event_roundtrip 4 1) with (s := event_sys) (i := 0%nat) (r := false).
  - lia.
  - reflexivity.
  - reflexivity.
  - eexists. split; [reflexivity|]. apply rtc_refl.
  - split; [|by eexists]. intros [|i] pc Hpc; [injection Hpc as <-; by eexists|by destruct i].
  - reflexivity.
  - reflexivity.
  - reflexivity.
  - reflexivity.
  - unfold event_ok, is_u64. simpl. repeat constructor; lia.
Defined.
