(* ===== verification/Float.v ===== *)
(** * IEEE 754 arithmetic of [float] and [double]

    The source computes ratios in [float] and [double].  Both are executable
    here: binary32 and binary64 with rounding to nearest even. *)
From S2P Require Import Prelude.
From Stdlib Require Import SpecFloat.
Local Open Scope Z_scope.

(** Sign, mantissa and exponent of a finite number, as an integer and a scale. *)
Definition signed (s : bool) (m : positive) : Z := if s then Z.neg m else Z.pos m.

(** Convert a value to the format with [prec] bits and maximal exponent [emax]. *)
Definition refit (prec emax : Z) (x : spec_float) : spec_float :=
  match x with
  | S754_finite s m e => binary_normalize prec emax (signed s m) e s
  | x => x
  end.

(** The integer part, towards zero; [None] for infinities and NaN. *)
Definition trunc (x : spec_float) : option Z :=
  match x with
  | S754_zero _ => Some 0
  | S754_finite s m e =>
      let a := if 0 <=? e then Z.pos m * 2 ^ e else Z.pos m / 2 ^ (- e) in
      Some (if s then - a else a)
  | _ => None
  end.

(** Conversion to [size_t]; outside its range the result is undefined. *)
Definition to_size (x : spec_float) : outcome Z :=
  match trunc x with
  | Some z => if (0 <=? z) && (z <? 2 ^ 64) then Ret z else Stop Undefined
  | None => Stop Undefined
  end.

Module F32.
Definition of_Z (z : Z) : spec_float := binary_normalize 24 128 z 0 false.
Definition of_f64 (x : spec_float) : spec_float := refit 24 128 x.
Definition add := SFadd 24 128.
Definition sub := SFsub 24 128.
Definition mul := SFmul 24 128.
Definition div := SFdiv 24 128.
Definition ltb := SFltb.
Definition leb := SFleb.
Definition gtb (x y : spec_float) : bool := SFltb y x.

(** [ceilf]. *)
Definition ceil (x : spec_float) : spec_float :=
  match x with
  | S754_finite s m e =>
      if 0 <=? e then x
      else let q := - ((- signed s m) / 2 ^ (- e)) in
           if q =? 0 then S754_zero s else of_Z q
  | x => x
  end.

(** The value whose object representation is the 32-bit word [w]. *)
Definition of_bits (w : Z) : spec_float :=
  let s := Z.testbit w 31 in
  let e := Z.land (Z.shiftr w 23) 255 in
  let m := Z.land w (2 ^ 23 - 1) in
  if e =? 255 then (if m =? 0 then S754_infinity s else S754_nan)
  else if e =? 0 then
    match m with Z.pos p => S754_finite s p (-149) | _ => S754_zero s end
  else match m + 2 ^ 23 with Z.pos p => S754_finite s p (e - 150) | _ => S754_zero s end.
End F32.

Module F64.
Definition of_Z (z : Z) : spec_float := binary_normalize 53 1024 z 0 false.
Definition of_f32 (x : spec_float) : spec_float := refit 53 1024 x.
Definition add := SFadd 53 1024.
Definition sub := SFsub 53 1024.
Definition mul := SFmul 53 1024.
Definition div := SFdiv 53 1024.
Definition ltb := SFltb.
Definition gtb (x y : spec_float) : bool := SFltb y x.
Definition zero : spec_float := S754_zero false.
Definition one : spec_float := of_Z 1.
End F64.

(** The values of the source's constants, as [float]. *)
Definition THRESHOLD_TRIGGER : spec_float := S754_finite false 10737418 (-29).  (** 0.02 *)
Definition THRESHOLD_DEGREE : spec_float := S754_finite false 10066330 (-26).   (** 0.15 *)

Example ceil_up : F32.ceil (F32.mul (F32.of_Z 1024) THRESHOLD_DEGREE) = F32.of_Z 154.
Proof. reflexivity. Qed.

Example bits_half : F32.of_bits 1056964608 = F32.div (F32.of_Z 1) (F32.of_Z 2).
Proof. reflexivity. Qed.

Example f32_third_as_double :
  F64.ltb (F64.of_f32 (F32.div (F32.of_Z 1) (F32.of_Z 3))) (F64.div (F64.of_Z 1) (F64.of_Z 3)) = false.
Proof. reflexivity. Qed.
