(* ===== verification/FloatSpec.v ===== *)
(** * Rounding of [double]

    Converting integers to [double] is monotone, and a quotient of two
    non-negative integers, the first at most the second, is never above one
    or below zero. *)
From S2P Require Import Prelude Float.
From Stdlib Require Import SpecFloat.

Lemma digits_log2 p : Zpos (digits2_pos p) = Z.log2 (Zpos p) + 1.
Proof.
  induction p as [p IH|p IH|]; cbn [digits2_pos]; [..|done].
  - change (Zpos p~1) with (2 * Zpos p + 1). rewrite Z.log2_succ_double, Pos2Z.inj_succ by lia. lia.
  - change (Zpos p~0) with (2 * Zpos p). rewrite Z.log2_double, Pos2Z.inj_succ by lia. lia.
Qed.

(** Enough and not too many bits. *)
Lemma digits_bounds m : 0 < m → 2 ^ (Zdigits2 m - 1) <= m < 2 ^ Zdigits2 m ∧ 0 < Zdigits2 m.
Proof.
  intros Hm. destruct m as [|p|p]; try lia. cbn [Zdigits2]. rewrite digits_log2, Z.add_simpl_r.
  split; [apply Z.log2_spec; lia|]. pose proof (Z.log2_nonneg (Zpos p)). lia.
Qed.

Lemma digits_unique m d : 0 < d → 2 ^ (d - 1) <= m < 2 ^ d → Zdigits2 m = d.
Proof.
  intros Hd Hm. assert (0 < 2 ^ (d - 1)) by (apply Z.pow_pos_nonneg; lia).
  destruct (digits_bounds m) as [Hb Hp]; [lia|].
  destruct (Z.lt_trichotomy (Zdigits2 m) d) as [Hlt|[?|Hgt]]; [|done|]; exfalso.
  - pose proof (Z.pow_le_mono_r 2 (Zdigits2 m) (d - 1)). lia.
  - pose proof (Z.pow_le_mono_r 2 d (Zdigits2 m - 1)). lia.
Qed.

Lemma digits_nonneg m : 0 <= m → 0 <= Zdigits2 m.
Proof. destruct m; simpl; lia. Qed.

(** ** Shifting right *)

(** The record stands for [num / (D * 2^n)]: its integer part, and where the
    rest lies. *)
Record tracks (num D n : Z) (r : shr_record) : Prop := {
  tr_pos : 0 <= shr_m r;
  tr_rest : ∃ rest, num = shr_m r * (2 ^ n * D) + rest ∧ 0 <= rest < 2 ^ n * D ∧
    (if shr_r r then 2 ^ n * D <= 2 * rest ∧ (shr_s r = false → 2 * rest = 2 ^ n * D)
     else 2 * rest < 2 ^ n * D) ∧
    (shr_r r || shr_s r = false → rest = 0);
}.

Lemma tracks_shr_1 num D n r : 0 <= n → 0 < D → tracks num D n r → tracks num D (n + 1) (shr_1 r).
Proof.
  intros Hn HD [Hm (rest & Hnum & Hrest & Hr & Hex)].
  assert (Hp : 2 ^ (n + 1) * D = 2 * (2 ^ n * D)) by (rewrite Z.pow_add_r by lia; lia).
  set (u := 2 ^ n * D) in *.
  assert (Hstep : ∃ q b, shr_m r = 2 * q + Z.b2z b ∧ 0 <= q ∧
    shr_1 r = Build_shr_record q b (shr_r r || shr_s r)).
  { destruct r as [[|[p|p|]|p] r s]; simpl in *; try lia;
      [exists 0, false|exists (Zpos p), true|exists (Zpos p), false|exists 0, true]; simpl; split_and!; lia || done. }
  destruct Hstep as (q & b & Hq & Hq0 & ->). split; [done|].
  exists (Z.b2z b * u + rest). cbn [shr_m shr_r shr_s]. rewrite Hp.
  split; [rewrite Hnum, Hq; ring|]. destruct b; cbn [Z.b2z orb]; (split; [destruct (shr_r r); lia|]).
  - split; [|done]. split; [lia|]. intros He. rewrite (Hex He). lia.
  - split; [lia|]. intros He. rewrite (Hex He). lia.
Qed.

Lemma tracks_iter p num D n r :
  0 <= n → 0 < D → tracks num D n r → tracks num D (n + Zpos p) (iter_pos shr_1 p r).
Proof.
  intros Hn HD. revert n r Hn. induction p as [p IH|p IH|]; intros n r Hn Ht; cbn [iter_pos].
  - replace (n + Zpos p~1) with (n + 1 + Zpos p + Zpos p) by lia. auto using tracks_shr_1 with lia.
  - replace (n + Zpos p~0) with (n + Zpos p + Zpos p) by lia. auto with lia.
  - auto using tracks_shr_1.
Qed.

Lemma tracks_shr num D r e k :
  0 < D → tracks num D 0 r → ∃ r', shr r e k = (r', e + Z.max 0 k) ∧ tracks num D (Z.max 0 k) r'.
Proof.
  intros HD Ht. destruct k as [|p|p]; cbn [shr].
  - exists r. by rewrite Z.add_0_r.
  - exists (iter_pos shr_1 p r). split; [done|]. by apply (tracks_iter p num D 0).
  - exists r. by rewrite Z.add_0_r.
Qed.

Lemma tracks_exact m : 0 <= m → tracks m 1 0 (shr_record_of_loc m loc_Exact).
Proof. intros Hm. split; [done|]. exists 0. simpl. split_and!; lia || done. Qed.

(** Rounding gives a nearest integer, from above only if there is a rest. *)
Lemma tracks_round num D n r :
  0 <= n → 0 < D → tracks num D n r →
  let m := round_nearest_even (shr_m r) (loc_of_shr_record r) in
  0 <= m ∧ 2 * Z.abs (m * (2 ^ n * D) - num) <= 2 ^ n * D ∧
  (∀ B, num <= B * (2 ^ n * D) → m <= B).
Proof.
  intros Hn HD [Hm (rest & Hnum & Hrest & Hr & Hex)].
  assert (0 < 2 ^ n * D) by lia. set (u := 2 ^ n * D) in *.
  assert (Hdown : ∀ B, num <= B * u → shr_m r <= B) by (intros B; nia).
  assert (Hup : shr_r r = true → ∀ B, num <= B * u → shr_m r + 1 <= B).
  { intros Hrt B HB. rewrite Hrt in Hr. destruct Hr as [Hr _]. nia. }
  destruct r as [m r s]. cbn [shr_m shr_r shr_s] in *. destruct r; [destruct Hr as [Hr Htie]|].
  - specialize (Hup eq_refl). destruct s; [|specialize (Htie eq_refl)]; cbn.
    + split_and!; [lia..|done].
    + case_match; split_and!; lia || done.
  - destruct s; cbn; split_and!; lia || done.
Qed.

(** ** Rounding to binary64 *)
Abbreviation fexp64 := (fexp 53 1024).
Abbreviation round64 := (binary_round_aux 53 1024 false).

Definition pack (m e : Z) : spec_float :=
  match m with
  | 0 => S754_zero false
  | Zpos p => if e <=? 971 then S754_finite false p e else S754_infinity false
  | Zneg _ => S754_nan
  end.

(** The exponent after shifting a mantissa into the format. *)
Definition fit (m e : Z) : Z := Z.max e (fexp64 (Zdigits2 m + e)).

Lemma round64_ok num D m e l :
  0 < D → tracks num D 0 (shr_record_of_loc m l) →
  ∃ m1, 0 <= m1 ∧ 2 * Z.abs (m1 * (2 ^ (fit m e - e) * D) - num) <= 2 ^ (fit m e - e) * D ∧
    (∀ B, num <= B * (2 ^ (fit m e - e) * D) → m1 <= B) ∧
    round64 m e l = pack (m1 / 2 ^ (fit m1 (fit m e) - fit m e)) (fit m1 (fit m e)).
Proof.
  intros HD Ht. unfold binary_round_aux, shr_fexp.
  assert (Hfit : ∀ m e, e + Z.max 0 (fexp64 (Zdigits2 m + e) - e) = fit m e) by (intros; unfold fit; lia).
  assert (Hfit' : ∀ m e, Z.max 0 (fexp64 (Zdigits2 m + e) - e) = fit m e - e) by (intros; unfold fit; lia).
  destruct (tracks_shr num D (shr_record_of_loc m l) e (fexp64 (Zdigits2 m + e) - e) HD Ht) as (r1 & -> & Ht1).
  rewrite Hfit. rewrite Hfit' in Ht1.
  assert (He1 : 0 <= fit m e - e) by (unfold fit; lia).
  destruct (tracks_round _ _ _ _ He1 HD Ht1) as (Hm1 & Hnear & Hb).
  set (m1 := round_nearest_even _ _) in *. exists m1. split; [done|]. split; [done|]. split; [done|].
  destruct (tracks_shr m1 1 (shr_record_of_loc m1 loc_Exact) (fit m e)
    (fexp64 (Zdigits2 m1 + fit m e) - fit m e) ltac:(lia) (tracks_exact _ Hm1)) as (r2 & -> & Ht2).
  rewrite Hfit. rewrite Hfit' in Ht2. destruct Ht2 as [Hp (rest & Hnum & Hrest & _)].
  rewrite Z.mul_1_r in *. assert (m1 / 2 ^ (fit m1 (fit m e) - fit m e) = shr_m r2) as ->; [|done].
  symmetry. apply (Z.div_unique _ _ _ rest); lia.
Qed.

(** A value up to one is rounded to at most one. *)
Lemma round64_le_one num D m e l :
  0 < D → tracks num D 0 (shr_record_of_loc m l) → -200 <= e <= -53 → num <= 2 ^ (- e) * D →
  F64.gtb (round64 m e l) F64.one = false ∧ F64.ltb (round64 m e l) F64.zero = false.
Proof.
  intros HD Ht He Hnum. destruct (round64_ok num D m e l HD Ht) as (m1 & Hm1 & _ & Hb & ->).
  assert (Hfexp : ∀ m e, -200 <= e <= -52 → 0 <= m <= 2 ^ (- e) → -200 <= fit m e <= -52).
  { clear. intros m e He Hm. unfold fit, fexp, emin.
    destruct (decide (m = 0)) as [->|]; [simpl; lia|].
    destruct (digits_bounds m) as [[Hd _] Hp]; [lia|].
    assert (Zdigits2 m - 1 <= - e); [|lia]. apply (Z.pow_le_mono_r_iff 2); lia. }
  assert (Hm : 0 <= m <= 2 ^ (- e)).
  { destruct Ht as [Hp (rest & Hn & Hrest & _)].
    replace (shr_m (shr_record_of_loc m l)) with m in * by (by destruct l as [|[]]).
    change (2 ^ 0) with 1 in *. nia. }
  pose proof (Hfexp m e ltac:(lia) Hm) as He1. set (e1 := fit m e) in *.
  assert (Hle : e <= e1) by (subst e1; unfold fit; lia).
  assert (Hm1' : m1 <= 2 ^ (- e1)).
  { apply Hb. replace (2 ^ (- e)) with (2 ^ (- e1) * 2 ^ (e1 - e)) in Hnum; [lia|].
    rewrite <- Z.pow_add_r by lia. f_equal. lia. }
  pose proof (Hfexp m1 e1 ltac:(lia) ltac:(lia)) as He2. set (e2 := fit m1 e1) in *.
  assert (Hle2 : e1 <= e2) by (subst e2; unfold fit; lia).
  assert (Hm2 : 0 <= m1 / 2 ^ (e2 - e1) <= 2 ^ (- e2)).
  { split; [apply Z.div_pos; lia|]. apply Z.div_le_upper_bound; [lia|].
    rewrite <- Z.pow_add_r by lia. by replace (e2 - e1 + - e2) with (- e1) by lia. }
  set (m2 := m1 / 2 ^ (e2 - e1)) in *. destruct m2 as [|p|p]; [done| |lia]. unfold pack.
  rewrite (proj2 (Z.leb_le e2 971)) by lia. split; [|done].
  unfold F64.gtb, SFltb. change F64.one with (S754_finite false 4503599627370496 (-52)). cbn [SFcompare].
  destruct (Z.compare_spec (-52) e2) as [<-|?|?]; [|lia|done].
  change (Pos.compare_cont Eq ?x ?y) with (Pos.compare x y).
  destruct (Pos.compare_spec 4503599627370496 p); [done| |done]. simpl in Hm2. lia.
Qed.

(** ** Integers as [double] *)

(** The value of a conversion, scaled to an integer: a multiple of the unit in
    the last place of the argument, next to it and within its power of two. *)
Record rounds (a m e : Z) : Prop := {
  rd_norm : 2 ^ 52 <= m < 2 ^ 53;
  rd_exp : -52 <= e <= 12;
  rd_near : 2 * Z.abs (m * 2 ^ (e + 52) - a * 2 ^ 52) <= 2 ^ (Zdigits2 a - 1);
  rd_grid : 53 <= Zdigits2 a → ∃ k, m * 2 ^ (e + 52) = k * 2 ^ (Zdigits2 a - 1);
  rd_mag : 2 ^ (Zdigits2 a + 51) <= m * 2 ^ (e + 52) <= 2 ^ (Zdigits2 a + 52);
}.

Lemma iter_xO p n : Zpos (Pos.iter xO p n) = Zpos p * 2 ^ Zpos n.
Proof.
  revert p. induction n as [|n IH] using Pos.peano_ind; intros p; [simpl; lia|].
  rewrite Pos.iter_succ, Pos2Z.inj_succ, Z.pow_succ_r by lia. rewrite (Pos2Z.inj_xO (Pos.iter _ _ _)), IH. lia.
Qed.

Lemma pack_norm m e : 2 ^ 52 <= m → e <= 971 → ∃ p, m = Zpos p ∧ pack m e = S754_finite false p e.
Proof. intros Hm He. destruct m as [|p|p]; try lia. exists p. simpl. by rewrite (proj2 (Z.leb_le _ _)). Qed.

Lemma fit64 m e d : Zdigits2 m = d → -1000 <= d + e → fit m e = Z.max e (d + e - 53).
Proof. intros <- He. unfold fit, fexp, emin. lia. Qed.

(** A mantissa just rounded to 53 bits, possibly carried to the next power. *)
Lemma pack_rounded m1 d :
  1 <= d <= 64 → 2 ^ 52 <= m1 <= 2 ^ 53 →
  ∃ p e, pack (m1 / 2 ^ (fit m1 (d - 53) - (d - 53))) (fit m1 (d - 53)) = S754_finite false p e ∧
    2 ^ 52 <= Zpos p < 2 ^ 53 ∧ -52 <= e <= 12 ∧ Zpos p * 2 ^ (e + 52) = m1 * 2 ^ (d - 1).
Proof.
  intros Hd Hm1. destruct (decide (m1 = 2 ^ 53)) as [->|Hne].
  - rewrite (fit64 _ _ 54) by (done || lia). replace (Z.max (d - 53) (54 + (d - 53) - 53)) with (d - 52) by lia.
    replace (d - 52 - (d - 53)) with 1 by lia. change (2 ^ 53 / 2 ^ 1) with (2 ^ 52).
    destruct (pack_norm (2 ^ 52) (d - 52)) as (p & Hp & ->); [lia..|]. exists p, (d - 52). split; [done|].
    rewrite <- Hp. split; [lia|]. split; [lia|].
    replace (d - 52 + 52) with (d - 1 + 1) by lia. rewrite Z.pow_add_r by lia. lia.
  - rewrite (fit64 _ _ 53) by (apply digits_unique || lia; simpl; lia).
    replace (Z.max (d - 53) (53 + (d - 53) - 53)) with (d - 53) by lia.
    rewrite Z.sub_diag, Z.div_1_r. destruct (pack_norm m1 (d - 53)) as (p & -> & ->); [lia..|].
    exists p, (d - 53). split; [done|]. split; [lia|]. split; [lia|]. by replace (d - 53 + 52) with (d - 1) by lia.
Qed.

Lemma of_Z_rounds a :
  0 < a < 2 ^ 64 → ∃ p e, F64.of_Z a = S754_finite false p e ∧ rounds a (Zpos p) e.
Proof.
  intros Ha. destruct (digits_bounds a) as [Hdig Hd1]; [lia|]. set (d := Zdigits2 a) in *.
  assert (Hd : 1 <= d <= 64).
  { split; [lia|]. assert (d - 1 < 64); [|lia]. apply (Z.pow_lt_mono_r_iff 2); lia. }
  set (k := Z.max 0 (53 - d)).
  assert (Hal : F64.of_Z a = round64 (a * 2 ^ k) (- k) loc_Exact).
  { unfold F64.of_Z. destruct a as [|p|p]; try lia. unfold binary_normalize, binary_round.
    change (Zpos (digits2_pos p)) with d. unfold shl_align.
    assert (fexp64 (d + 0) - 0 = d - 53) as -> by (unfold fexp, emin; lia).
    assert (fexp64 (d + 0) = d - 53) as -> by (unfold fexp, emin; lia).
    destruct (d - 53) as [|q|q] eqn:Eq; [replace k with 0 by lia; by rewrite Z.mul_1_r..|].
    rewrite iter_xO. replace k with (Zpos q) by lia. done. }
  rewrite Hal. assert (0 < a * 2 ^ k) by (pose proof (Z.pow_pos_nonneg 2 k); lia).
  destruct (round64_ok (a * 2 ^ k) 1 (a * 2 ^ k) (- k) loc_Exact) as (m1 & Hm1 & Hnear & Hb & ->);
    [done|apply tracks_exact; lia|].
  assert (Hdk : Zdigits2 (a * 2 ^ k) = d + k).
  { apply digits_unique; [lia|]. replace (d + k - 1) with (d - 1 + k) by lia. rewrite !Z.pow_add_r by lia. nia. }
  assert (fit (a * 2 ^ k) (- k) = d - 53) as He1 by (rewrite (fit64 _ _ (d + k)) by (done || lia); lia).
  rewrite He1 in *. replace (d - 53 - - k) with (d - 53 + k) in * by lia. rewrite Z.mul_1_r in *.
  (* scaled by the weight of the last place *)
  assert (Hs : 2 ^ 52 * 2 ^ (d - 53 + k) = 2 ^ (d - 1) * 2 ^ k).
  { rewrite <- !Z.pow_add_r by lia. f_equal. lia. }
  assert (Hu : 0 < 2 ^ (d - 53 + k)) by (apply Z.pow_pos_nonneg; lia).
  assert (Hk : 0 < 2 ^ k) by (apply Z.pow_pos_nonneg; lia).
  assert (Hd2 : 2 ^ d = 2 * 2 ^ (d - 1)) by (rewrite <- Z.pow_succ_r by lia; f_equal; lia).
  assert (Hm52 : 2 ^ 52 <= m1 <= 2 ^ 53).
  { split; [|apply Hb; change (2 ^ 53) with (2 * 2 ^ 52); nia].
    apply Z.nlt_ge. intros Hlt. assert (m1 <= 2 ^ 52 - 1) by lia. nia. }
  destruct (pack_rounded m1 d Hd Hm52) as (p & e & -> & Hp & He & HV).
  exists p, e. split; [done|]. fold d. split; fold d; try done; rewrite ?HV.
  - assert (Hw : 2 ^ (d - 1) * 2 ^ k = 2 ^ 52 * 2 ^ (d - 53 + k)) by lia.
    apply (Zmult_le_reg_r _ _ (2 ^ k)); [lia|].
    replace (2 * Z.abs (m1 * 2 ^ (d - 1) - a * 2 ^ 52) * 2 ^ k)
      with (2 * (2 ^ 52 * Z.abs (m1 * 2 ^ (d - 53 + k) - a * 2 ^ k))); [nia|].
    rewrite <- (Z.abs_eq (2 ^ 52)) at 1 by lia. rewrite <- Z.abs_mul, <- Z.mul_assoc.
    f_equal. rewrite <- (Z.abs_eq (2 ^ k)) at 2 by lia. rewrite <- Z.abs_mul. f_equal.
    rewrite !Z.mul_sub_distr_l, !Z.mul_sub_distr_r. nia.
  - intros _. by exists m1.
  - replace (d + 51) with (52 + (d - 1)) by lia. replace (d + 52) with (53 + (d - 1)) by lia.
    rewrite !Z.pow_add_r by lia. nia.
Qed.

Lemma rounds_mono a b m e m' e' :
  0 < a <= b → rounds a m e → rounds b m' e' → a ≠ b → m * 2 ^ (e + 52) <= m' * 2 ^ (e' + 52).
Proof.
  intros Hab [_ _ Hna Hga Hma] [_ _ Hnb Hgb Hmb] Hne.
  destruct (digits_bounds a) as [Hda Hpa]; [lia|]. destruct (digits_bounds b) as [Hdb Hpb]; [lia|].
  destruct (Z.lt_trichotomy (Zdigits2 a) (Zdigits2 b)) as [Hlt|[Heq|Hgt]].
  - pose proof (Z.pow_le_mono_r 2 (Zdigits2 a + 52) (Zdigits2 b + 51)). lia.
  - rewrite Heq in *. set (d := Zdigits2 b) in *. apply Z.nlt_ge. intros Hlt.
    destruct (decide (d < 53)) as [Hd|Hd].
    + pose proof (Z.pow_le_mono_r 2 (d - 1) 52). lia.
    + destruct (Hga ltac:(lia)) as [k Hk], (Hgb ltac:(lia)) as [k' Hk'].
      pose proof (Z.pow_pos_nonneg 2 (d - 1)). set (u := 2 ^ (d - 1)) in *.
      assert (k' + 1 <= k) by nia. assert (k' * u + u <= k * u) by nia. lia.
  - pose proof (Z.pow_le_mono_r 2 (Zdigits2 b) (Zdigits2 a - 1)). lia.
Qed.

(** Ordered values have ordered exponents, and compare so. *)
Lemma norm_exp_le m e m' e' :
  2 ^ 52 <= m → m' < 2 ^ 53 → -52 <= e → -52 <= e' → m * 2 ^ (e + 52) <= m' * 2 ^ (e' + 52) → e <= e'.
Proof.
  intros Hm Hm' He He' Hle. apply Z.nlt_ge. intros Hlt.
  assert (2 ^ (e + 52) = 2 * 2 ^ (e - e' - 1) * 2 ^ (e' + 52)) as Hp.
  { rewrite <- Z.pow_succ_r, <- Z.pow_add_r by lia. f_equal. lia. }
  pose proof (Z.pow_pos_nonneg 2 (e - e' - 1)). pose proof (Z.pow_pos_nonneg 2 (e' + 52)). nia.
Qed.

Lemma norm_ltb p e p' e' :
  2 ^ 52 <= Zpos p → Zpos p' < 2 ^ 53 → -52 <= e → -52 <= e' →
  Zpos p * 2 ^ (e + 52) <= Zpos p' * 2 ^ (e' + 52) →
  SFltb (S754_finite false p' e') (S754_finite false p e) = false.
Proof.
  intros Hp Hp' He He' Hle. pose proof (norm_exp_le _ _ _ _ Hp Hp' He He' Hle).
  unfold SFltb. cbn [SFcompare]. destruct (Z.compare_spec e' e) as [->|?|?]; [|lia|done].
  change (Pos.compare_cont Eq ?x ?y) with (Pos.compare x y).
  destruct (Pos.compare_spec p' p) as [?|Hlt|?]; [done| |done]. exfalso.
  pose proof (Z.pow_pos_nonneg 2 (e + 52)). nia.
Qed.

(** The location that a division gives. *)
Lemma tracks_div num D q r :
  0 < D → 0 <= q → num = D * q + r → 0 <= r < D →
  tracks num D 0 (shr_record_of_loc q (new_location D r)).
Proof.
  intros HD Hq Hnum Hr. unfold new_location, new_location_even, new_location_odd.
  assert (Hodd : Z.even D = false → 2 * r ≠ D) by (intros Ev <-; by rewrite Z.even_mul in Ev).
  destruct (Z.even D) eqn:Ev; [|specialize (Hodd eq_refl)]; case_if; subst.
  1, 3: split; [done|]; exists 0; rewrite Z.pow_0_r, Z.mul_1_l; cbn; split_and!; lia || done.
  - destruct (Z.compare_spec (2 * r) D); (split; [done|]); exists r; rewrite Z.pow_0_r, Z.mul_1_l; cbn;
      split_and!; lia || done.
  - destruct (Z.compare_spec (2 * r + 1) D); (split; [done|]); exists r; rewrite Z.pow_0_r, Z.mul_1_l; cbn;
      split_and!; lia || done.
Qed.

(** The quotient of two normal numbers, the first not above the second. *)
Lemma norm_div p e p' e' :
  2 ^ 52 <= Zpos p < 2 ^ 53 → 2 ^ 52 <= Zpos p' < 2 ^ 53 → -52 <= e <= 12 → -52 <= e' <= 12 →
  Zpos p * 2 ^ (e + 52) <= Zpos p' * 2 ^ (e' + 52) →
  let q := F64.div (S754_finite false p e) (S754_finite false p' e') in
  F64.gtb q F64.one = false ∧ F64.ltb q F64.zero = false.
Proof.
  intros Hp Hp' He He' Hle. pose proof (norm_exp_le _ _ _ _ (proj1 Hp) (proj2 Hp') (proj1 He) (proj1 He') Hle).
  unfold F64.div, SFdiv. unfold SFdiv_core_binary.
  rewrite (digits_unique (Zpos p) 53), (digits_unique (Zpos p') 53) by (simpl; lia).
  assert (Z.min (fexp64 (53 + e - (53 + e'))) (e - e') = e - e' - 53) as -> by (unfold fexp, emin; lia).
  replace (e - e' - (e - e' - 53)) with 53 by lia. rewrite Z.shiftl_mul_pow2 by lia.
  pose proof (Z_div_mod (Zpos p * 2 ^ 53) (Zpos p') ltac:(lia)) as Hdm.
  destruct (Z.div_eucl (Zpos p * 2 ^ 53) (Zpos p')) as [q r]. destruct Hdm as [Hq Hr]. cbn [xorb].
  apply (round64_le_one (Zpos p * 2 ^ 53) (Zpos p')); [lia| |lia|].
  - apply tracks_div; [lia|nia|done|done].
  - replace (- (e - e' - 53)) with (53 + (e' - e)) by lia. rewrite Z.pow_add_r by lia.
    assert (Hpow : 2 ^ (e' + 52) = 2 ^ (e' - e) * 2 ^ (e + 52)) by (rewrite <- Z.pow_add_r by lia; f_equal; lia).
    rewrite Hpow in Hle.
    assert (0 < 2 ^ (e + 52)) by (apply Z.pow_pos_nonneg; lia).
    assert (Zpos p <= Zpos p' * 2 ^ (e' - e)) by (apply (Zmult_le_reg_r _ _ (2 ^ (e + 52))); lia). nia.
Qed.

(** The exact order of integers, seen through their conversions. *)
Lemma of_Z_mono a b :
  0 <= a <= b → b < 2 ^ 64 →
  F64.gtb (F64.of_Z a) (F64.of_Z b) = false ∧
  let q := F64.div (F64.of_Z a) (F64.of_Z b) in F64.gtb q F64.one = false ∧ F64.ltb q F64.zero = false.
Proof.
  intros Hab Hb. destruct (decide (b = 0)) as [->|]; [assert (a = 0) as -> by lia; done|].
  destruct (of_Z_rounds b) as (p' & e' & Hfb & Hb'); [lia|]. rewrite Hfb.
  destruct (decide (a = 0)) as [->|]; [done|]. destruct (of_Z_rounds a) as (p & e & Ha & Ha'); [lia|].
  rewrite Ha. assert (Hle : Zpos p * 2 ^ (e + 52) <= Zpos p' * 2 ^ (e' + 52)).
  { destruct (decide (a = b)) as [->|]; [|apply (rounds_mono a b); done || lia].
    rewrite Hfb in Ha. injection Ha as -> ->. lia. }
  destruct Ha' as [Hp He _ _ _], Hb' as [Hp' He' _ _ _]. split.
  - apply norm_ltb; lia.
  - by apply norm_div.
Qed.
