(* ===== verification/Counters.v ===== *)
(** * Allocation counters ([src/memkind_memtier.c])

    The bytes in use per kind are counted in [g_alloc_size], fed from buckets
    [t_alloc_size] that threads share by a hash of their identity.  First the
    functions as calls that run alone, then their atomic accesses under any
    interleaving of threads. *)
From S2P Require Import Prelude Float.
From Stdlib Require Import SpecFloat.

Definition MEMKIND_MAX_KIND : Z := 512.
Definition MEMKIND_TOTAL_IDX : Z := MEMKIND_MAX_KIND.
Definition THREAD_BUCKETS : Z := 256.
Definition FLUSH_THRESHOLD : Z := 0.

(** The static variables of the file that count memory, and the two ratios
    that [tachanka] keeps.  The arrays start out as zeros. *)
Record counters := Counters {
  t_alloc_size : gmap (Z * Z) Z;
  g_alloc_size : gmap Z Z;
  g_totalTiers : Z;
  g_hotTierId : Z;
  g_hotTotalDesiredRatio : spec_float;
  g_hotTotalActualRatio : spec_float;
  g_totalSize : Z;
  g_dramToTotalDesiredRatio : spec_float;
  g_dramToTotalActualRatio : spec_float;
}.

Definition t_at (c : counters) (k b : Z) : Z := default 0 (t_alloc_size c !! (k, b)).
Definition g_at (c : counters) (k : Z) : Z := default 0 (g_alloc_size c !! k).

Definition set_t (c : counters) (k b v : Z) : counters :=
  Counters (<[(k, b) := v]> (t_alloc_size c)) (g_alloc_size c) (g_totalTiers c) (g_hotTierId c)
    (g_hotTotalDesiredRatio c) (g_hotTotalActualRatio c) (g_totalSize c)
    (g_dramToTotalDesiredRatio c) (g_dramToTotalActualRatio c).
Definition set_g (c : counters) (k v : Z) : counters :=
  Counters (t_alloc_size c) (<[k := v]> (g_alloc_size c)) (g_totalTiers c) (g_hotTierId c)
    (g_hotTotalDesiredRatio c) (g_hotTotalActualRatio c) (g_totalSize c)
    (g_dramToTotalDesiredRatio c) (g_dramToTotalActualRatio c).
Definition set_actual (c : counters) (total : Z) (r : spec_float) : counters :=
  Counters (t_alloc_size c) (g_alloc_size c) (g_totalTiers c) (g_hotTierId c)
    (g_hotTotalDesiredRatio c) r total (g_dramToTotalDesiredRatio c) (g_dramToTotalActualRatio c).
Definition set_hot (c : counters) (tiers tier : Z) (desired : spec_float) : counters :=
  Counters (t_alloc_size c) (g_alloc_size c) tiers tier desired
    (g_hotTotalActualRatio c) (g_totalSize c) (g_dramToTotalDesiredRatio c) (g_dramToTotalActualRatio c).
Definition set_dram (c : counters) (desired actual : spec_float) : counters :=
  Counters (t_alloc_size c) (g_alloc_size c) (g_totalTiers c) (g_hotTierId c)
    (g_hotTotalDesiredRatio c) (g_hotTotalActualRatio c) (g_totalSize c) desired actual.

Definition counters_init : counters :=
  Counters ∅ ∅ 0 0 F64.zero F64.zero 0 F64.one F64.one.

(** The loop over the buckets of a kind, [n] of them from [b] up. *)
Fixpoint reset_buckets (k b : Z) (n : nat) (c : counters) : counters :=
  match n with
  | O => c
  | S n => reset_buckets k (b + 1) n (set_t c k b 0)
  end.

Definition memtier_reset_size (kind_id : Z) (c : counters) : counters :=
  set_g (reset_buckets kind_id 0 (Z.to_nat THREAD_BUCKETS) c) kind_id 0.

(** SplitMix64 of the thread's identity. *)
Definition t_hash_64 (self : Z) : Z :=
  let x := u64 (self + 0x9e3779b97f4a7c15) in
  let x := u64 (Z.lxor x (Z.shiftr x 30) * 0xbf58476d1ce4e5b9) in
  let x := u64 (Z.lxor x (Z.shiftr x 27) * 0x94d049bb133111eb) in
  Z.land (Z.lxor x (Z.shiftr x 31)) (THREAD_BUCKETS - 1).

(** [check_dram_total_ratio] and [tachanka_set_dram_total_ratio] of
    [src/tachanka.c]; a NaN passes the check. *)
Definition check_dram_total_ratio (ratio : spec_float) : outcome unit :=
  if F64.ltb ratio F64.zero || F64.gtb ratio F64.one then Stop Exited else Ret ().

Definition tachanka_set_dram_total_ratio (desired actual : spec_float) (c : counters) : outcome counters :=
  let! _ := check_dram_total_ratio desired in
  let! _ := check_dram_total_ratio actual in
  Ret (set_dram c desired actual).

Definition update_actual_ratios (total_size : Z) (c : counters) : outcome counters :=
  let hot_tier_size := F64.of_Z (g_at c (g_hotTierId c)) in
  let! total_size :=
    if F64.gtb hot_tier_size (F64.of_Z total_size) then to_size hot_tier_size else Ret total_size in
  let c := set_actual c total_size (F64.div hot_tier_size (F64.of_Z total_size)) in
  tachanka_set_dram_total_ratio (g_hotTotalDesiredRatio c) (g_hotTotalActualRatio c) c.

Definition apply_temporary_buffer_alloc_size (kind_id bucket_id : Z) (c : counters) : outcome counters :=
  let size_f := t_at c kind_id bucket_id in
  let c := set_t c kind_id bucket_id 0 in
  let c := set_g c kind_id (u64 (g_at c kind_id + size_f)) in
  let old_total_size := g_at c MEMKIND_TOTAL_IDX in
  let c := set_g c MEMKIND_TOTAL_IDX (u64 (g_at c MEMKIND_TOTAL_IDX + size_f)) in
  let total_size := u64 (size_f + i64 old_total_size) in
  update_actual_ratios total_size c.

(** [old_talloc + size] is of type [size_t], so the comparison is unsigned. *)
Definition increment_alloc_size (self kind_id size : Z) (c : counters) : outcome counters :=
  let bucket_id := t_hash_64 self in
  let old_talloc := t_at c kind_id bucket_id in
  let c := set_t c kind_id bucket_id (i64 (old_talloc + size)) in
  if FLUSH_THRESHOLD <? u64 (old_talloc + size)
  then apply_temporary_buffer_alloc_size kind_id bucket_id c else Ret c.

(** Here both operands are [long long]. *)
Definition decrement_alloc_size (self kind_id size : Z) (c : counters) : outcome counters :=
  let bucket_id := t_hash_64 self in
  let old_talloc := t_at c kind_id bucket_id in
  let c := set_t c kind_id bucket_id (i64 (old_talloc - size)) in
  if i64 (old_talloc - i64 size) <? - FLUSH_THRESHOLD
  then apply_temporary_buffer_alloc_size kind_id bucket_id c else Ret c.

(** The sum over the buckets that [memtier_kind_allocated_size] takes. *)
Fixpoint drain_buckets (k b : Z) (n : nat) (size_all : Z) (c : counters) : Z * counters :=
  match n with
  | O => (size_all, c)
  | S n =>
      let size := t_at c k b in
      drain_buckets k (b + 1) n (i64 (size_all + size)) (set_t c k b 0)
  end.

Definition memtier_kind_allocated_size (k : Z) (c : counters) : Z * counters :=
  let (size_all, c) := drain_buckets k 0 (Z.to_nat THREAD_BUCKETS) 0 c in
  let size_ret := g_at c k in
  let c := set_g c k (u64 (g_at c k + size_all)) in
  (u64 (size_ret + size_all), c).

(** ** One atomic access at a time *)

(** Where a thread is: between calls; before the fetch-and-add on its bucket
    ([sz] is positive for an increment, negative for a decrement); before the
    exchange that empties the bucket; with [d] taken out of it, before the two
    additions. *)
Inductive cpc :=
  | CIdle
  | CAdd (k b sz : Z)
  | CFlush (k b : Z)
  | CGlobal (k d : Z)
  | CTotal (d : Z).

Definition count_step (c : counters) (pc : cpc) : counters * cpc :=
  match pc with
  | CIdle => (c, CIdle)
  | CAdd k b sz =>
      let old := t_at c k b in
      let flush :=
        if 0 <=? sz then FLUSH_THRESHOLD <? u64 (old + sz)
        else i64 (old - i64 (- sz)) <? - FLUSH_THRESHOLD in
      (set_t c k b (i64 (old + sz)), if flush then CFlush k b else CIdle)
  | CFlush k b => (set_t c k b 0, CGlobal k (t_at c k b))
  | CGlobal k d => (set_g c k (u64 (g_at c k + d)), CTotal d)
  | CTotal d => (set_g c MEMKIND_TOTAL_IDX (u64 (g_at c MEMKIND_TOTAL_IDX + d)), CIdle)
  end.

(** The counters with their threads; [log] lists the calls made so far. *)
Record csys := CSys {
  ctrs : counters;
  threads : list cpc;
  log : list (Z * Z);
}.

Inductive cstep : csys → csys → Prop :=
  | count_call s i self k sz :
      threads s !! i = Some CIdle → 0 <= k < MEMKIND_MAX_KIND → - 2 ^ 63 < sz < 2 ^ 63 →
      cstep s (CSys (ctrs s) (<[i := CAdd k (t_hash_64 self) sz]> (threads s)) (log s ++ [(k, sz)]))
  | count_run s i pc :
      threads s !! i = Some pc →
      cstep s (CSys (count_step (ctrs s) pc).1 (<[i := (count_step (ctrs s) pc).2]> (threads s)) (log s)).

Definition csys_init (n : nat) : csys := CSys counters_init (replicate n CIdle) [].
