(* ===== verification/CountersSpec.v ===== *)
(** * The allocation counters count

    Under any interleaving, what has been counted and what is still on its way
    adds up to the calls made, modulo the machine word; between calls every
    bucket is empty and the counters hold the totals. *)
From S2P Require Import Prelude Float Counters.

(** The cells of a kind, of all kinds, and their contents. *)
Definition row (k : Z) : list (Z * Z) := (λ b, (k, b)) <$> seqZ 0 THREAD_BUCKETS.
Definition cells : list (Z * Z) := k ← seqZ 0 MEMKIND_MAX_KIND; row k.
Definition tcell (c : counters) (x : Z * Z) : Z := t_at c x.1 x.2.

(** What the calls of a log add to a kind and to the total. *)
Definition of_kind (k : Z) (x : Z * Z) : Z := if x.1 =? k then x.2 else 0.
Definition net (k : Z) (l : list (Z * Z)) : Z := zsum (of_kind k) l.
Definition net_total (l : list (Z * Z)) : Z := zsum snd l.

(** What a thread still has to bring to a kind and to the total. *)
Definition inflight (k : Z) (pc : cpc) : Z :=
  match pc with
  | CAdd k' _ sz => if k' =? k then sz else 0
  | CGlobal k' d => if k' =? k then d else 0
  | _ => 0
  end.
Definition inflight_total (pc : cpc) : Z :=
  match pc with
  | CAdd _ _ sz => sz
  | CGlobal _ d | CTotal d => d
  | _ => 0
  end.

Definition valid_pc (pc : cpc) : Prop :=
  match pc with
  | CAdd k b sz => 0 <= k < MEMKIND_MAX_KIND ∧ 0 <= b < THREAD_BUCKETS ∧ - 2 ^ 63 < sz < 2 ^ 63
  | CFlush k b => 0 <= k < MEMKIND_MAX_KIND ∧ 0 <= b < THREAD_BUCKETS
  | CGlobal k _ => 0 <= k < MEMKIND_MAX_KIND
  | _ => True
  end.

Record cinv (s : csys) : Prop := {
  ci_kind k : 0 <= k < MEMKIND_MAX_KIND →
    ∃ z, g_at (ctrs s) k + zsum (tcell (ctrs s)) (row k) + zsum (inflight k) (threads s) =
      net k (log s) + z * 2 ^ 64;
  ci_total :
    ∃ z, g_at (ctrs s) MEMKIND_TOTAL_IDX + zsum (tcell (ctrs s)) cells +
      zsum inflight_total (threads s) = net_total (log s) + z * 2 ^ 64;
  ci_pending k b : t_at (ctrs s) k b ≠ 0 → ∃ i, threads s !! i = Some (CFlush k b);
  ci_range k b : - 2 ^ 63 <= t_at (ctrs s) k b < 2 ^ 63;
  ci_word k : is_u64 (g_at (ctrs s) k);
  ci_valid i pc : threads s !! i = Some pc → valid_pc pc;
}.

(** ** Cells *)
Lemma elem_of_row k k' b : (k', b) ∈ row k ↔ k' = k ∧ 0 <= b < THREAD_BUCKETS.
Proof.
  unfold row. rewrite list_elem_of_fmap. setoid_rewrite elem_of_seqZ. split.
  - intros (b' & [= -> ->] & ?). lia.
  - intros [-> ?]. exists b. split; [done|lia].
Qed.

Lemma row_nodup k : NoDup (row k).
Proof. apply NoDup_fmap_2; [by intros ? ? [=]|]. apply NoDup_seqZ. Qed.

Lemma elem_of_cells k b : (k, b) ∈ cells ↔ 0 <= k < MEMKIND_MAX_KIND ∧ 0 <= b < THREAD_BUCKETS.
Proof.
  unfold cells. rewrite list_elem_of_bind. setoid_rewrite elem_of_seqZ. setoid_rewrite elem_of_row.
  split; [naive_solver lia|]. intros [? ?]. exists k. split; [done|lia].
Qed.

Lemma cells_nodup : NoDup cells.
Proof.
  unfold cells. apply NoDup_bind.
  - intros k1 k2 [k b] _ _ H1 H2. apply elem_of_row in H1, H2. naive_solver.
  - intros k _. apply row_nodup.
  - apply NoDup_seqZ.
Qed.

Lemma t_at_set c k b v k' b' :
  t_at (set_t c k b v) k' b' = if decide ((k, b) = (k', b')) then v else t_at c k' b'.
Proof.
  unfold t_at. simpl. case_decide as Hd; [rewrite Hd, lookup_insert_eq|rewrite lookup_insert_ne]; done.
Qed.

Lemma g_at_set c k v k' : g_at (set_g c k v) k' = if decide (k = k') then v else g_at c k'.
Proof.
  unfold g_at. simpl. case_decide as Hd; [rewrite Hd, lookup_insert_eq|rewrite lookup_insert_ne]; done.
Qed.

Lemma tcell_set_g c k v l : zsum (tcell (set_g c k v)) l = zsum (tcell c) l.
Proof. done. Qed.

#[local] Opaque row cells.

Lemma row_set c k b v k' :
  0 <= b < THREAD_BUCKETS →
  zsum (tcell (set_t c k b v)) (row k') =
  zsum (tcell c) (row k') + (if k =? k' then v - t_at c k b else 0).
Proof.
  intros Hb. case_if; subst.
  - rewrite (zsum_update (tcell c) _ _ (k', b)); [| apply row_nodup | by apply elem_of_row |].
    + unfold tcell at 2 3. simpl. rewrite t_at_set, decide_True by done. lia.
    + intros [k1 b1] Hne. unfold tcell. simpl. rewrite t_at_set, decide_False; congruence.
  - rewrite Z.add_0_r. apply zsum_ext. intros [k1 b1] [-> _]%elem_of_row.
    unfold tcell. simpl. rewrite t_at_set, decide_False; congruence.
Qed.

Lemma cells_set c k b v :
  0 <= k < MEMKIND_MAX_KIND → 0 <= b < THREAD_BUCKETS →
  zsum (tcell (set_t c k b v)) cells = zsum (tcell c) cells + (v - t_at c k b).
Proof.
  intros Hk Hb. rewrite (zsum_update (tcell c) _ _ (k, b)); [| apply cells_nodup | by apply elem_of_cells |].
  - unfold tcell at 2 3. simpl. rewrite t_at_set, decide_True by done. lia.
  - intros [k1 b1] Hne. unfold tcell. simpl. rewrite t_at_set, decide_False; congruence.
Qed.

Lemma t_hash_64_range self : 0 <= t_hash_64 self < THREAD_BUCKETS.
Proof.
  unfold t_hash_64. change (THREAD_BUCKETS - 1) with (Z.ones 8).
  rewrite Z.land_ones by lia. apply Z.mod_pos_bound. done.
Qed.

(** ** Steps *)
Lemma valid_insert (ts : list cpc) (i : nat) pc' :
  (∀ j pc, ts !! j = Some pc → valid_pc pc) → valid_pc pc' →
  ∀ (j : nat) pc, <[i := pc']> ts !! j = Some pc → valid_pc pc.
Proof. intros Hv Hp j pc Hj. apply list_lookup_insert_Some in Hj; naive_solver. Qed.

(** A pending flush of another thread stays pending. *)
Lemma pending_insert (ts : list cpc) (i : nat) pc pc' k b :
  ts !! i = Some pc → (pc = CFlush k b → pc' = CFlush k b) →
  (∃ j : nat, ts !! j = Some (CFlush k b)) → ∃ j : nat, <[i := pc']> ts !! j = Some (CFlush k b).
Proof.
  intros Hi Hp (j & Hj). destruct (decide (j = i)) as [->|].
  - exists i. rewrite list_lookup_insert_eq by by eapply lookup_lt_Some.
    f_equal. apply Hp. congruence.
  - exists j. by rewrite list_lookup_insert_ne.
Qed.

Section steps.
Context (s : csys) (Hc : cinv s) (i : nat).

(** The first access leaves a non-empty bucket only with a flush to come. *)
Lemma add_pending k b sz k' b' :
  threads s !! i = Some (CAdd k b sz) →
  t_at (count_step (ctrs s) (CAdd k b sz)).1 k' b' ≠ 0 →
  ∃ j : nat, <[i := (count_step (ctrs s) (CAdd k b sz)).2]> (threads s) !! j = Some (CFlush k' b').
Proof.
  intros Hi. pose proof (ci_valid _ Hc _ _ Hi) as (Hk & Hb & Hsz). cbn [count_step fst snd].
  rewrite t_at_set. case_decide as Hd; intros Hnz.
  - injection Hd as <- <-. unfold FLUSH_THRESHOLD. destruct (if 0 <=? sz then _ else _) eqn:Hf.
    { exists i. rewrite list_lookup_insert_eq by by eapply lookup_lt_Some. done. }
    apply (pending_insert _ _ _ _ _ _ Hi); [done|]. apply (ci_pending _ Hc). intros Hz.
    pose proof (ci_range _ Hc k b). rewrite Hz in *. rewrite i64_small in Hnz by lia.
    destruct (0 <=? sz) eqn:E; zb.
    + rewrite u64_small in Hf; unfold is_u64; lia.
    + rewrite (i64_small (- sz)), i64_small in Hf by lia. lia.
  - apply (pending_insert _ _ _ _ _ _ Hi); [done|]. by apply (ci_pending _ Hc).
Qed.

Lemma count_add k b sz :
  threads s !! i = Some (CAdd k b sz) →
  cinv (CSys (count_step (ctrs s) (CAdd k b sz)).1
    (<[i := (count_step (ctrs s) (CAdd k b sz)).2]> (threads s)) (log s)).
Proof.
  intros Hi. pose proof (ci_valid _ Hc _ _ Hi) as Hv. pose proof Hv as (Hk & Hb & Hsz).
  pose proof (add_pending k b sz) as Hpend.
  set (old := t_at (ctrs s) k b). destruct (i64_eqm (old + sz)) as [z1 Hz1].
  set (pc' := (count_step (ctrs s) (CAdd k b sz)).2) in *.
  assert (Hpc : pc' = CFlush k b ∨ pc' = CIdle) by (subst pc'; simpl; destruct (if 0 <=? sz then _ else _); auto).
  assert (Hfl : ∀ k', inflight k' pc' = 0) by by destruct Hpc as [-> | ->].
  assert (Hft : inflight_total pc' = 0) by by destruct Hpc as [-> | ->].
  assert (Hvp : valid_pc pc') by by destruct Hpc as [-> | ->].
  assert (Hc1 : (count_step (ctrs s) (CAdd k b sz)).1 = set_t (ctrs s) k b (i64 (old + sz))) by done.
  split; cbn [ctrs threads log].
  - intros k' Hk'. destruct (ci_kind _ Hc k' Hk') as [z Hz]. rewrite Hc1.
    rewrite row_set, (zsum_insert _ _ _ _ _ Hi), Hfl by done. simpl.
    change (g_at (set_t _ _ _ _) k') with (g_at (ctrs s) k'). fold old.
    destruct (k =? k'); [exists (z + z1)|exists z]; lia.
  - destruct (ci_total _ Hc) as [z Hz]. rewrite Hc1, cells_set, (zsum_insert _ _ _ _ _ Hi), Hft by done.
    simpl. change (g_at (set_t _ _ _ _) ?k') with (g_at (ctrs s) k'). fold old. exists (z + z1). lia.
  - intros k' b'. by apply Hpend.
  - intros k' b'. rewrite Hc1, t_at_set. case_decide; [apply i64_range|apply (ci_range _ Hc)].
  - apply (ci_word _ Hc).
  - apply valid_insert; [apply (ci_valid _ Hc)|done].
Qed.

Lemma count_flush k b :
  threads s !! i = Some (CFlush k b) →
  cinv (CSys (set_t (ctrs s) k b 0) (<[i := CGlobal k (t_at (ctrs s) k b)]> (threads s)) (log s)).
Proof.
  intros Hi. pose proof (ci_valid _ Hc _ _ Hi) as (Hk & Hb).
  split; cbn [ctrs threads log].
  - intros k' Hk'. destruct (ci_kind _ Hc k' Hk') as [z Hz]. exists z.
    rewrite row_set, (zsum_insert _ _ _ _ _ Hi) by done. simpl.
    change (g_at (set_t _ _ _ _) k') with (g_at (ctrs s) k'). destruct (k =? k'); lia.
  - destruct (ci_total _ Hc) as [z Hz]. exists z. rewrite cells_set, (zsum_insert _ _ _ _ _ Hi) by done.
    simpl. change (g_at (set_t _ _ _ _) ?k') with (g_at (ctrs s) k'). lia.
  - intros k' b'. rewrite t_at_set. case_decide as Hd; intros Hnz; [done|].
    apply (pending_insert _ _ _ _ _ _ Hi); [congruence|]. by apply (ci_pending _ Hc).
  - intros k' b'. rewrite t_at_set. case_decide; [lia|apply (ci_range _ Hc)].
  - apply (ci_word _ Hc).
  - apply valid_insert; [apply (ci_valid _ Hc)|done].
Qed.

(** The additions to the counters. *)
Lemma count_global k d :
  threads s !! i = Some (CGlobal k d) →
  cinv (CSys (set_g (ctrs s) k (u64 (g_at (ctrs s) k + d))) (<[i := CTotal d]> (threads s)) (log s)).
Proof.
  intros Hi. pose proof (ci_valid _ Hc _ _ Hi) as Hk. destruct (u64_eqm (g_at (ctrs s) k + d)) as [z1 Hz1].
  split; cbn [ctrs threads log].
  - intros k' Hk'. destruct (ci_kind _ Hc k' Hk') as [z Hz].
    rewrite tcell_set_g, (zsum_insert _ _ _ _ _ Hi), g_at_set. simpl.
    case_decide as Hd; [subst k'; rewrite Z.eqb_refl; exists (z + z1); lia|].
    rewrite (proj2 (Z.eqb_neq k k')) by done. exists z. lia.
  - destruct (ci_total _ Hc) as [z Hz]. exists z. rewrite tcell_set_g, (zsum_insert _ _ _ _ _ Hi), g_at_set.
    rewrite decide_False by (unfold MEMKIND_TOTAL_IDX in *; simpl in Hk; lia). simpl. lia.
  - intros k' b' Hnz. apply (pending_insert _ _ _ _ _ _ Hi); [done|]. by apply (ci_pending _ Hc).
  - apply (ci_range _ Hc).
  - intros k'. rewrite g_at_set. case_decide; [apply u64_range|apply (ci_word _ Hc)].
  - apply valid_insert; [apply (ci_valid _ Hc)|done].
Qed.

Lemma count_total d :
  threads s !! i = Some (CTotal d) →
  cinv (CSys (set_g (ctrs s) MEMKIND_TOTAL_IDX (u64 (g_at (ctrs s) MEMKIND_TOTAL_IDX + d)))
    (<[i := CIdle]> (threads s)) (log s)).
Proof.
  intros Hi. destruct (u64_eqm (g_at (ctrs s) MEMKIND_TOTAL_IDX + d)) as [z1 Hz1].
  split; cbn [ctrs threads log].
  - intros k' Hk'. destruct (ci_kind _ Hc k' Hk') as [z Hz]. exists z.
    rewrite tcell_set_g, (zsum_insert _ _ _ _ _ Hi), g_at_set.
    rewrite decide_False by (unfold MEMKIND_TOTAL_IDX; lia). simpl. lia.
  - destruct (ci_total _ Hc) as [z Hz]. rewrite tcell_set_g, (zsum_insert _ _ _ _ _ Hi), g_at_set.
    rewrite decide_True by done. simpl. exists (z + z1). lia.
  - intros k' b' Hnz. apply (pending_insert _ _ _ _ _ _ Hi); [done|]. by apply (ci_pending _ Hc).
  - apply (ci_range _ Hc).
  - intros k'. rewrite g_at_set. case_decide; [apply u64_range|apply (ci_word _ Hc)].
  - apply valid_insert; [apply (ci_valid _ Hc)|done].
Qed.

Lemma count_begin self k sz :
  threads s !! i = Some CIdle → 0 <= k < MEMKIND_MAX_KIND → - 2 ^ 63 < sz < 2 ^ 63 →
  cinv (CSys (ctrs s) (<[i := CAdd k (t_hash_64 self) sz]> (threads s)) (log s ++ [(k, sz)])).
Proof.
  intros Hi Hk Hsz. split; cbn [ctrs threads log].
  - intros k' Hk'. destruct (ci_kind _ Hc k' Hk') as [z Hz]. exists z.
    rewrite (zsum_insert _ _ _ _ _ Hi). unfold net. rewrite zsum_app. unfold net in Hz.
    simpl. unfold of_kind at 2. simpl. destruct (k =? k'); lia.
  - destruct (ci_total _ Hc) as [z Hz]. exists z. rewrite (zsum_insert _ _ _ _ _ Hi).
    unfold net_total in *. rewrite zsum_app. simpl. lia.
  - intros k' b' Hnz. apply (pending_insert _ _ _ _ _ _ Hi); [done|]. by apply (ci_pending _ Hc).
  - apply (ci_range _ Hc).
  - apply (ci_word _ Hc).
  - apply valid_insert; [apply (ci_valid _ Hc)|]. pose proof (t_hash_64_range self). simpl. lia.
Qed.
End steps.

Lemma cstep_inv s s' : cinv s → cstep s s' → cinv s'.
Proof.
  intros Hc Hst. revert Hc. destruct Hst as [s i self k sz Hi Hk Hsz|s i pc Hi]; intros Hc.
  - by apply count_begin.
  - destruct pc as [|k b sz|k b|k d|d]; simpl.
    + rewrite list_insert_id by done. by destruct s.
    + by apply (count_add s Hc i k b sz).
    + by apply count_flush.
    + by apply count_global.
    + by apply count_total.
Qed.

Lemma cinit_inv n : cinv (csys_init n).
Proof.
  assert (Hz : ∀ f, f CIdle = 0 → zsum f (replicate n CIdle) = 0).
  { intros f Hf. apply zsum_zero. intros pc Hpc. apply elem_of_replicate in Hpc as [-> _]. done. }
  assert (Ht : ∀ l, zsum (tcell counters_init) l = 0) by (intros l; by apply zsum_zero).
  split; simpl.
  - intros k _. exists 0. by rewrite Ht, Hz.
  - exists 0. by rewrite Ht, Hz.
  - done.
  - done.
  - done.
  - intros i pc Hi. by apply lookup_replicate in Hi as [-> _].
Qed.

Lemma csteps_inv n s : rtc cstep (csys_init n) s → cinv s.
Proof.
  intros Hst. cut (cinv (csys_init n)); [|apply cinit_inv].
  induction Hst; eauto using cstep_inv.
Qed.

(** C9: The counters count: after any interleaving of increments and decrements by
    [n] threads, once no call is in progress, every bucket is empty, the counter
    of each kind is the sum of its calls and the total is the sum of all calls,
    each modulo the machine word. *)
Theorem counters_conserved n s :
  rtc cstep (csys_init n) s → (∀ i pc, threads s !! i = Some pc → pc = CIdle) →
  (∀ k b, t_at (ctrs s) k b = 0) ∧
  (∀ k, 0 <= k < MEMKIND_MAX_KIND → g_at (ctrs s) k = u64 (net k (log s))) ∧
  g_at (ctrs s) MEMKIND_TOTAL_IDX = u64 (net_total (log s)).
Proof.
  intros Hst Hidle. apply csteps_inv in Hst as Hc.
  assert (Ht : ∀ k b, t_at (ctrs s) k b = 0).
  { intros k b. destruct (decide (t_at (ctrs s) k b = 0)) as [|Hnz]; [done|].
    destruct (ci_pending _ Hc k b Hnz) as [i Hi]. by apply Hidle in Hi. }
  assert (Hrow : ∀ l, zsum (tcell (ctrs s)) l = 0) by (intros l; apply zsum_zero; intros x _; apply Ht).
  assert (Hfl : ∀ f, f CIdle = 0 → zsum f (threads s) = 0).
  { intros f Hf. apply zsum_zero. intros pc [i Hi]%list_elem_of_lookup. by rewrite (Hidle _ _ Hi). }
  split; [done|]. split.
  - intros k Hk. destruct (ci_kind _ Hc k Hk) as [z Hz]. rewrite Hrow, Hfl in Hz by done.
    apply (u64_unique _ _ z); [apply (ci_word _ Hc)|lia].
  - destruct (ci_total _ Hc) as [z Hz]. rewrite Hrow, Hfl in Hz by done.
    apply (u64_unique _ _ z); [apply (ci_word _ Hc)|lia].
Qed.

(** One thread counts 100 bytes for kind 3, then takes 40 back. *)
Fixpoint run_thread (n : nat) (s : csys) : csys :=
  match n with
  | O => s
  | S n => run_thread n (CSys (count_step (ctrs s) (default CIdle (threads s !! 0%nat))).1
             (<[0%nat := (count_step (ctrs s) (default CIdle (threads s !! 0%nat))).2]> (threads s)) (log s))
  end.

Lemma run_thread_sound n s : threads s ≠ [] → rtc cstep s (run_thread n s).
Proof.
  revert s. induction n as [|n IH]; intros s Hs; [apply rtc_refl|].
  destruct s as [c [|pc ts] l]; [done|]. eapply rtc_l; [by apply (count_run _ 0%nat pc)|].
  by apply IH.
Qed.

Definition demo_call (sz : Z) (s : csys) : csys :=
  run_thread 4 (CSys (ctrs s) (<[0%nat := CAdd 3 (t_hash_64 77) sz]> (threads s)) (log s ++ [(3, sz)])).

Lemma counters_conserved_witness :
  g_at (ctrs (demo_call (- 40) (demo_call 100 (csys_init 1)))) 3 = u64 60.
Proof.
  refine (proj1 (proj2 (counters_conserved 1 _ _ _)) 3 _); [| |done].
  - eapply rtc_l; [by apply (count_call _ 0%nat 77 3 100)|].
    etrans; [by apply (run_thread_sound 4)|].
    eapply rtc_l; [by apply (count_call _ 0%nat 77 3 (- 40))|]. by apply (run_thread_sound 4).
  - intros [|i] pc Hpc; vm_compute in Hpc; [by injection Hpc as <-|by destruct i].
Defined.
