(* ===== verification/Index.v ===== *)
(** * The index interface

    [tachanka] finds types by hash and blocks by address in two critnibs.  Its
    theorems use only the laws below; [critnib] discharges them, and a finite
    map with the same operations serves for evaluation. *)
From S2P Require Import Prelude Alloc Critnib CritnibTree CritnibCorrect CritnibRead CritnibRemove.

(** The calls that the clients make; an insertion never overwrites. *)
Class AddrIndex (C : Type) := {
  ix_get : C → Z → outcome Z;
  ix_insert : C → Z → Z → outcome (Z * C);
  ix_remove : C → Z → outcome (Z * C);
  ix_find_le : C → Z → outcome Z;
}.

(** [ix_rep c m n]: the index holds the bindings [m] and can serve [n] more
    insertions and removals. *)
Class AddrIndexLaws (C : Type) `{AddrIndex C} := {
  ix_rep : C → gmap Z Z → nat → Prop;
  ix_get_ok c m n k : ix_rep c m n → ix_get c k = Ret (default NULL (m !! k));
  ix_insert_ok c m n k v :
    ix_rep c m (S n) → is_u64 k →
    ∃ c', ix_insert c k v = Ret (if decide (is_Some (m !! k)) then EEXIST else 0, c') ∧
      ix_rep c' (if decide (is_Some (m !! k)) then m else <[k := v]> m) n;
  ix_remove_ok c m n k :
    ix_rep c m (S n) →
    ∃ c', ix_remove c k = Ret (default NULL (m !! k), c') ∧ ix_rep c' (delete k m) n;
  ix_find_le_ok c m n k :
    ix_rep c m n → is_u64 k →
    ∃ r, ix_find_le c k = Ret (default NULL (snd <$> r)) ∧ nearest m Z.le (λ k', k' <= k) r;
}.

(** ** The critnib *)
Section critnib.
Context {W : Type} `{NodeAllocLaws W}.

#[global] Instance critnib_index : AddrIndex (critnib W) := {
  ix_get := critnib_get;
  ix_insert c k v := critnib_insert c k v false;
  ix_remove := critnib_remove;
  ix_find_le := critnib_find_le;
}.

Definition critnib_holds (c : critnib W) (m : gmap Z Z) (n : nat) : Prop :=
  critnib_rep c m n n ∧ 0 <= remove_count c ∧ remove_count c + Z.of_nat n + DELETED_LIFE < 2 ^ 64.

Lemma critnib_rep_mono (c : critnib W) m n : critnib_rep c m (S n) (S n) → critnib_rep c m n n.
Proof.
  intros (t & dn & dl & Ln & Ll & M & rn & rl & ? & ? & ? & ?).
  eapply critnib_rep_intro; eauto; lia.
Qed.

#[global] Program Instance critnib_index_laws : AddrIndexLaws (critnib W) := {
  ix_rep := critnib_holds;
}.
Next Obligation. intros c m n k (Hrep & Hc0 & Hrc). apply (get_ok c m n n); [done|lia]. Qed.
Next Obligation.
  intros c m n k v (Hrep & Hc0 & Hrc) Hk.
  destruct (insert_ok c m n n k v false Hrep Hk) as (r & c' & Hrun & Hpost & Hrc').
  exists c'. unfold insert_post in Hpost. unfold ix_insert, critnib_index. rewrite Hrun. unfold critnib_holds.
  destruct (m !! k) eqn:Hmk; destruct Hpost as [-> Hrep'].
  - rewrite !decide_True by (by eexists). split_and!; done || lia.
  - rewrite !decide_False by (by intros [? ?]). split_and!; done || lia.
Qed.
Next Obligation.
  intros c m n k (Hrep & Hc0 & Hrc).
  destruct (critnib_remove_ok c m (S n) (S n) k Hrep) as (r & c' & Hrun & [-> Hrep'] & Hrc').
  exists c'. split; [done|]. split; [by apply critnib_rep_mono|]. unfold DELETED_LIFE in *.
  destruct Hrc' as [->| ->]; [lia|]. rewrite u64_small by (unfold is_u64; lia). lia.
Qed.
Next Obligation. intros c m n k (Hrep & Hc0 & Hrc) Hk. apply (critnib_find_le_ok c m n n); [done|done|lia]. Qed.

End critnib.

(** ** A finite map *)
Definition map_find_le (m : gmap Z Z) (k : Z) : option (Z * Z) :=
  map_fold (λ k' v r, if k' <=? k then
    match r with Some (k0, _) => if k0 <? k' then Some (k', v) else r | None => Some (k', v) end else r) None m.

#[global] Instance map_index : AddrIndex (gmap Z Z) := {
  ix_get m k := Ret (default NULL (m !! k));
  ix_insert m k v := Ret (match m !! k with Some _ => (EEXIST, m) | None => (0, <[k := v]> m) end);
  ix_remove m k := Ret (default NULL (m !! k), delete k m);
  ix_find_le m k := Ret (default NULL (snd <$> map_find_le m k));
}.

Lemma map_find_le_nearest m k : nearest m Z.le (λ k', k' <= k) (map_find_le m k).
Proof.
  unfold map_find_le. refine (map_fold_weak_ind (λ r m, nearest m Z.le (λ k', k' <= k) r) _ _ _ _ m).
  - intros k' v Hk. by rewrite lookup_empty in Hk.
  - intros k' v m' r Hk' IH. unfold nearest in *. destruct (k' <=? k) eqn:E; zb.
    + destruct r as [[k0 v0]|].
      * destruct IH as (H1 & H2 & H3). destruct (k0 <? k') eqn:E2; zb.
        -- split; [by rewrite lookup_insert_eq|]. split; [done|]. intros k2 v2 Hk2 Hle.
           apply lookup_insert_Some in Hk2 as [[<- _]|[_ Hk2]]; [lia|]. specialize (H3 _ _ Hk2 Hle). lia.
        -- split; [rewrite lookup_insert_ne by congruence; done|]. split; [done|]. intros k2 v2 Hk2 Hle.
           apply lookup_insert_Some in Hk2 as [[<- _]|[_ Hk2]]; [done|]. eauto.
      * split; [by rewrite lookup_insert_eq|]. split; [done|]. intros k2 v2 Hk2 Hle.
        apply lookup_insert_Some in Hk2 as [[<- _]|[_ Hk2]]; [lia|]. by destruct (IH _ _ Hk2).
    + destruct r as [[k0 v0]|].
      * destruct IH as (H1 & H2 & H3). split; [rewrite lookup_insert_ne by congruence; done|].
        split; [done|]. intros k2 v2 Hk2 Hle. apply lookup_insert_Some in Hk2 as [[<- _]|[_ Hk2]]; [lia|]. eauto.
      * intros k2 v2 Hk2. apply lookup_insert_Some in Hk2 as [[<- _]|[_ Hk2]]; [lia|]. eauto.
Qed.

#[global] Program Instance map_index_laws : AddrIndexLaws (gmap Z Z) := {
  ix_rep m m' n := m = m';
}.
Next Obligation. by intros c m n k ->. Qed.
Next Obligation.
  intros c m n k v -> _. simpl. destruct (m !! k) eqn:Hmk.
  - rewrite !decide_True by (by eexists). eauto.
  - rewrite !decide_False by (by intros [? ?]). eauto.
Qed.
Next Obligation. intros c m n k ->. simpl. eauto. Qed.
Next Obligation. intros c m n k -> _. simpl. eexists. split; [done|]. apply map_find_le_nearest. Qed.
