(* ===== verification/Tachanka.v ===== *)
(** * Blocks, allocation types and their hotness ([src/tachanka.c], [src/pebs.c])

    A block is a live allocation, a type groups the blocks whose allocation
    call stacks hash to the same value.  The background thread of [src/pebs.c]
    pops events and calls the functions here.  The ranking is the class [Ranking]
    with the interface of [ranking.h]; [Ranking.v] models [src/ranking.cpp]. *)
From S2P Require Import Prelude Float Alloc Index Queue QueueSpec Events.
From S2P Require Import Critnib.
From Stdlib Require Import SpecFloat.

Inductive TimestampState := TIMESTAMP_NOT_SET | TIMESTAMP_INIT | TIMESTAMP_INIT_DONE.
Inductive Hotness_e := HOTNESS_HOT | HOTNESS_COLD | HOTNESS_NOT_FOUND.

Record ttype := TType {
  hash : Z;
  num_allocs : Z;
  total_size : Z;
  dram_size : Z;
  t2 : Z;
  t1 : Z;
  t0 : Z;
  touchCb : Z;
  touchCbArg : Z;
  f : spec_float;
  timestamp_state : TimestampState;
  hotness_history_coeffs : list spec_float;
}.

Record tblock := TBlock {
  addr : Z;
  bsize : Z;
  type : Z;
  is_hot : bool;
}.

Definition set_counts (t : ttype) (n total dram : Z) : ttype :=
  TType (hash t) n total dram (t2 t) (t1 t) (t0 t) (touchCb t) (touchCbArg t) (f t)
    (timestamp_state t) (hotness_history_coeffs t).
Definition set_f (t : ttype) (v : spec_float) : ttype :=
  TType (hash t) (num_allocs t) (total_size t) (dram_size t) (t2 t) (t1 t) (t0 t) (touchCb t)
    (touchCbArg t) v (timestamp_state t) (hotness_history_coeffs t).

(** A type after [memset] and the assignments that follow it. *)
Definition new_ttype (h : Z) : ttype :=
  TType h 0 0 0 0 0 0 NULL NULL F64.zero TIMESTAMP_NOT_SET (replicate 4 F64.zero).

(** [EXPONENTIAL_COEFFS_NUMBER * HOTNESS_INITIAL_SINGLE_VALUE] and
    [HOTNESS_TOUCH_SINGLE_VALUE]. *)
Definition HOTNESS_INITIAL : spec_float := F64.mul (F64.of_Z 4) (F64.of_Z 10).
Definition HOTNESS_TOUCH_SINGLE_VALUE : spec_float := F64.one.

(** The interface of the ranking; its threshold is a validity flag and a value. *)
Class Ranking (R : Type) := {
  ranking_create : spec_float → R;
  ranking_add : R → spec_float → Z → R;
  ranking_remove : R → spec_float → Z → R;
  ranking_touch : R → ttype → Z → spec_float → R * ttype;
  ranking_set_touch_callback : R → Z → Z → ttype → R * ttype;
  ranking_get_hot_threshold : R → bool * spec_float;
  ranking_calculate_hot_threshold_dram_total : R → spec_float → spec_float → R;
}.

(** The handles of the two slab allocators. *)
Definition TTYPE_ALLOC : Z := 1.
Definition TBLOCK_ALLOC : Z := 2.

(** The static variables of [src/tachanka.c], with the stores that the slab
    pointers refer to. *)
Record tachanka (C W R : Type) := Tachanka {
  types : gmap Z ttype;
  blocks : gmap Z tblock;
  hash_to_type : C;
  addr_to_block : C;
  tslabs : W;
  ranking : R;
  ranking_event_buff : lq_buffer;
  initialized : bool;
}.
Arguments Tachanka {C W R}. Arguments types {C W R}. Arguments blocks {C W R}.
Arguments hash_to_type {C W R}. Arguments addr_to_block {C W R}. Arguments tslabs {C W R}.
Arguments ranking {C W R}. Arguments ranking_event_buff {C W R}. Arguments initialized {C W R}.

Section ops.
Context {C W R : Type} `{AddrIndex C} `{NodeAlloc W} `{Ranking R}.
Implicit Types s : tachanka C W R.

Definition set_types (m : gmap Z ttype) s : tachanka C W R :=
  Tachanka m (blocks s) (hash_to_type s) (addr_to_block s) (tslabs s) (ranking s)
    (ranking_event_buff s) (initialized s).
Definition set_blocks (m : gmap Z tblock) s : tachanka C W R :=
  Tachanka (types s) m (hash_to_type s) (addr_to_block s) (tslabs s) (ranking s)
    (ranking_event_buff s) (initialized s).
Definition set_hash_to_type (c : C) s : tachanka C W R :=
  Tachanka (types s) (blocks s) c (addr_to_block s) (tslabs s) (ranking s)
    (ranking_event_buff s) (initialized s).
Definition set_addr_to_block (c : C) s : tachanka C W R :=
  Tachanka (types s) (blocks s) (hash_to_type s) c (tslabs s) (ranking s)
    (ranking_event_buff s) (initialized s).
Definition set_slabs (w : W) s : tachanka C W R :=
  Tachanka (types s) (blocks s) (hash_to_type s) (addr_to_block s) w (ranking s)
    (ranking_event_buff s) (initialized s).
Definition set_ranking (r : R) s : tachanka C W R :=
  Tachanka (types s) (blocks s) (hash_to_type s) (addr_to_block s) (tslabs s) r
    (ranking_event_buff s) (initialized s).
Definition set_event_buff (b : lq_buffer) s : tachanka C W R :=
  Tachanka (types s) (blocks s) (hash_to_type s) (addr_to_block s) (tslabs s) (ranking s)
    b (initialized s).

(** Reading and writing a type or a block through its pointer. *)
Definition get_type s (p : Z) : outcome ttype := deref (types s !! p).
Definition put_type (p : Z) (t : ttype) s : tachanka C W R := set_types (<[p := t]> (types s)) s.
Definition get_block s (p : Z) : outcome tblock := deref (blocks s !! p).
Definition put_block (p : Z) (b : tblock) s : tachanka C W R := set_blocks (<[p := b]> (blocks s)) s.

(** The first part of [register_block]: the type of the hash, made when absent. *)
Definition find_or_create_type (h : Z) s : outcome (Z * tachanka C W R) :=
  let! t := ix_get (hash_to_type s) h in
  if negb (t =? NULL) then Ret (t, s) else
  let! (t, w) := na_malloc TTYPE_ALLOC (tslabs s) in
  let s := set_slabs w s in
  if t =? NULL then Stop BadDeref else
  let s := put_type t (new_ttype h) s in
  let! (ret, c) := ix_insert (hash_to_type s) h t in
  let s := set_hash_to_type c s in
  let! (t, s) :=
    if ret =? EEXIST then
      let! w := na_free t (tslabs s) in
      let s := set_types (delete t (types s)) (set_slabs w s) in
      let! t := ix_get (hash_to_type s) h in
      if t =? NULL then Stop Exited else Ret (t, s)
    else Ret (t, s) in
  let! ty := get_type s t in
  Ret (t, put_type t (set_f ty HOTNESS_INITIAL) s).

Definition register_block (h address sz : Z) (hot : bool) s : outcome (tachanka C W R) :=
  let! (t, s) := find_or_create_type h s in
  let! ty := get_type s t in
  let s := put_type t (set_counts ty (u64 (num_allocs ty + 1)) (u64 (total_size ty + sz))
             (if hot then u64 (dram_size ty + sz) else dram_size ty)) s in
  let! (bl, w) := na_malloc TBLOCK_ALLOC (tslabs s) in
  let s := set_slabs w s in
  if bl =? NULL then Stop BadDeref else
  let s := put_block bl (TBlock address sz t hot) s in
  let! (_, c) := ix_insert (addr_to_block s) address bl in
  Ret (set_addr_to_block c s).

Definition realloc_block (address new_addr sz : Z) s : outcome (tachanka C W R) :=
  let! (bl, c) := ix_remove (addr_to_block s) address in
  let s := set_addr_to_block c s in
  if bl =? NULL then Ret s else
  let! b := get_block s bl in
  let s := put_block bl (TBlock new_addr (bsize b) (type b) (is_hot b)) s in
  let! ty := get_type s (type b) in
  let ty := set_counts ty (num_allocs ty) (u64 (total_size ty - bsize b)) (dram_size ty) in
  let ty := set_counts ty (num_allocs ty) (u64 (total_size ty + sz)) (dram_size ty) in
  let s := put_type (type b) ty s in
  let! (_, c) := ix_insert (addr_to_block s) new_addr bl in
  Ret (set_addr_to_block c s).

Definition register_block_in_ranking (address sz : Z) s : outcome (tachanka C W R) :=
  let! bl := ix_find_le (addr_to_block s) address in
  if bl =? NULL then Ret s else
  let! b := get_block s bl in
  let! _ := c_assert (negb (type b =? NULL)) in
  let! ty := get_type s (type b) in
  Ret (set_ranking (ranking_add (ranking s) (f ty) sz) s).

(** The assertions on unsigned counters ([>= 0]) cannot fail and are omitted. *)
Definition unregister_block (address : Z) s : outcome (tachanka C W R) :=
  let! (bl, c) := ix_remove (addr_to_block s) address in
  let s := set_addr_to_block c s in
  if bl =? NULL then Ret s else
  let! b := get_block s bl in
  let! ty := get_type s (type b) in
  let ty := set_counts ty (u64 (num_allocs ty - 1)) (u64 (total_size ty - bsize b))
              (if is_hot b then u64 (dram_size ty - bsize b) else dram_size ty) in
  let s := put_type (type b) ty s in
  let s := set_ranking (ranking_remove (ranking s) (f ty) (bsize b)) s in
  let s := put_block bl (TBlock 0 0 0 (is_hot b)) s in
  let! w := na_free bl (tslabs s) in
  Ret (set_blocks (delete bl (blocks s)) (set_slabs w s)).

(** The results of the two [slab_alloc_init] calls and the two [critnib_new]
    calls are arguments. *)
Definition tachanka_init `{QueueMalloc} (ret1 ret2 : Z) (w : W) (blocks_new types_new : outcome C)
    (old_window_hotness_weight : spec_float) (event_queue_size : Z) : outcome (tachanka C W R) :=
  let! _ := c_assert (ret1 =? 0) in
  let! _ := c_assert (ret2 =? 0) in
  let! c1 := blocks_new in
  let! c2 := types_new in
  let r := ranking_create old_window_hotness_weight in
  let! b := ranking_event_init event_queue_size in
  Ret (Tachanka ∅ ∅ c2 c1 w r b true).

(** How [f] compares with the threshold. *)
Definition classify (v : spec_float) s : Hotness_e :=
  let (valid, thresh) := ranking_get_hot_threshold (ranking s) in
  if negb valid || SFeqb v thresh then HOTNESS_NOT_FOUND
  else if F64.gtb v thresh then HOTNESS_HOT else HOTNESS_COLD.

Definition tachanka_get_hotness_type (address : Z) s : outcome Hotness_e :=
  let! bl := ix_find_le (addr_to_block s) address in
  if bl =? NULL then Ret HOTNESS_NOT_FOUND else
  let! b := get_block s bl in
  if u64 (addr b + bsize b) <=? address then Ret HOTNESS_NOT_FOUND else
  let! ty := get_type s (type b) in
  Ret (classify (f ty) s).

Definition tachanka_get_hot_thresh s : spec_float := (ranking_get_hot_threshold (ranking s)).2.

Definition tachanka_get_hotness_type_hash (h : Z) s : outcome Hotness_e :=
  let! t := ix_get (hash_to_type s) h in
  if t =? NULL then Ret HOTNESS_NOT_FOUND else
  let! ty := get_type s t in
  let (valid, thresh) := ranking_get_hot_threshold (ranking s) in
  if negb valid || SFeqb (f ty) thresh then Ret HOTNESS_NOT_FOUND
  else if F64.gtb (f ty) thresh then Ret HOTNESS_HOT
  else let! _ := c_assert (F64.ltb (f ty) thresh) in Ret HOTNESS_COLD.

(** [total_size_all_types] is what [memtier_kind_get_total_size] returns. *)
Definition touch (address timestamp from_malloc total_size_all_types : Z) s : outcome (tachanka C W R) :=
  let! bl := ix_find_le (addr_to_block s) address in
  if bl =? NULL then let! _ := c_assert (from_malloc =? 0) in Ret s else
  let! b := get_block s bl in
  if u64 (addr b + bsize b) <=? address then let! _ := c_assert (from_malloc =? 0) in Ret s else
  let! ty := get_type s (type b) in
  if 0 <? total_size ty then
    if negb (from_malloc =? 0) then Stop AssertFailed
    else
      let hotness := F64.div (F64.mul HOTNESS_TOUCH_SINGLE_VALUE (F64.of_Z total_size_all_types))
                       (F64.of_Z (total_size ty)) in
      let (r, ty) := ranking_touch (ranking s) ty timestamp hotness in
      Ret (put_type (type b) ty (set_ranking r s))
  else Ret s.

Definition tachanka_get_addr_hotness (address : Z) s : outcome (option spec_float) :=
  let! bl := ix_find_le (addr_to_block s) address in
  if bl =? NULL then Ret None else
  let! b := get_block s bl in
  let! _ := c_assert (negb (type b =? NULL)) in
  let! ty := get_type s (type b) in
  Ret (Some (f ty)).

Definition tachanka_set_touch_callback (address cb arg : Z) s : outcome (Z * tachanka C W R) :=
  let! bl := ix_find_le (addr_to_block s) address in
  if bl =? NULL then Ret (-1, s) else
  let! b := get_block s bl in
  let! _ := c_assert (negb (type b =? NULL)) in
  let! ty := get_type s (type b) in
  let (r, ty) := ranking_set_touch_callback (ranking s) cb arg ty in
  Ret (0, put_type (type b) ty (set_ranking r s)).

Definition tachanka_update_threshold (desired actual : spec_float) s : tachanka C W R :=
  set_ranking (ranking_calculate_hot_threshold_dram_total (ranking s) desired actual) s.

Definition tachanka_ranking_event_push (e : EventEntry) s : outcome (bool * tachanka C W R) :=
  if negb (initialized s) then Stop Exited else
  let! (ret, b) := ranking_event_push (ranking_event_buff s) e in
  Ret (ret, set_event_buff b s).

Definition tachanka_ranking_event_pop (event : option EventEntry) s :
    outcome (bool * option EventEntry * tachanka C W R) :=
  if negb (initialized s) then Stop Exited else
  let! (ret, e, b) := ranking_event_pop (ranking_event_buff s) event in
  Ret (ret, e, set_event_buff b s).

(** ** The event loop of [pebs_monitor] *)

(** The five cases of the switch on [event.type]; an unknown tag exits. *)
Definition handle_event (total : Z) (event : option EventEntry) s : outcome (tachanka C W R) :=
  match event with
  | Some (CreateAdd h a sz hot) =>
      let! s := register_block h a sz hot s in
      register_block_in_ranking a sz s
  | Some (DestroyRemove a _) => unregister_block a s
  | Some (Realloc ao an _ sn hot) =>
      let! s := unregister_block ao s in
      let! s := register_block 0 an sn hot s in
      register_block_in_ranking an sn s
  | Some (SetTouchCallback a cb arg) =>
      let! (_, s) := tachanka_set_touch_callback a cb arg s in Ret s
  | Some (Touch a ts) => touch a ts 0 total s
  | None => Stop Exited
  end.

(** At most [n] events per cycle; the number handled. *)
Fixpoint drain_events (total : Z) (n : nat) (event : option EventEntry) s : outcome (nat * tachanka C W R) :=
  match n with
  | O => Ret (O, s)
  | S n =>
      let! (ok, event, s) := tachanka_ranking_event_pop event s in
      if negb ok then Ret (O, s) else
      let! s := handle_event total event s in
      let! (k, s) := drain_events total n event s in
      Ret (S k, s)
  end.
End ops.
