(* ===== verification/TachankaSpec.v ===== *)
(** * What the event loop keeps true

    The counters of every type are the sums over its registered blocks, the two
    indexes and the stores agree, and no event makes a handler fail. *)
From S2P Require Import Prelude Float Alloc Critnib CritnibRead Index Queue QueueSafe QueueInv QueueSpec Events Tachanka.

(** ** Sums over the blocks *)

(** What a block contributes to the counters of type [p]. *)
Definition w_count (p : Z) (b : tblock) : Z := if type b =? p then 1 else 0.
Definition w_size (p : Z) (b : tblock) : Z := if type b =? p then bsize b else 0.
Definition w_dram (p : Z) (b : tblock) : Z := if (type b =? p) && is_hot b then bsize b else 0.

Definition counted (blks : gmap Z tblock) (p : Z) (ty : ttype) : Prop :=
  num_allocs ty = u64 (msum (w_count p) blks) ∧
  total_size ty = u64 (msum (w_size p) blks) ∧
  dram_size ty = u64 (msum (w_dram p) blks).

(** Touching a type and setting its callback leave its identity and its
    counters alone. *)
Definition same_counts (ty ty' : ttype) : Prop :=
  hash ty' = hash ty ∧ num_allocs ty' = num_allocs ty ∧ total_size ty' = total_size ty ∧
  dram_size ty' = dram_size ty.

Class RankingLaws (R : Type) `{Ranking R} := {
  ranking_touch_keeps r ty ts h : same_counts ty (ranking_touch r ty ts h).2;
  ranking_callback_keeps r cb arg ty : same_counts ty (ranking_set_touch_callback r cb arg ty).2;
}.

Section invariant.
Context {C W R : Type} `{AddrIndexLaws C} `{NodeAllocLaws W} `{RankingLaws R}.
Implicit Types s : tachanka C W R.

(** [tinv s n]: the invariant, with room for [n] more operations. *)
Record tinv_at (n : nat) (typs : gmap Z ttype) (blks : gmap Z tblock) (ch ca : C) (w : W)
    (Hm Bm : gmap Z Z) : Prop := {
  ti_ch : ∃ k, (n <= k)%nat ∧ ix_rep ch Hm k;
  ti_ca : ∃ k, (n <= k)%nat ∧ ix_rep ca Bm k;
  ti_w : ∃ M k1 k2, na_inv w M ∧ (n <= k1)%nat ∧ (n <= k2)%nat ∧
    M !! TTYPE_ALLOC = Some (dom typs, k1) ∧ M !! TBLOCK_ALLOC = Some (dom blks, k2);
  ti_null : typs !! NULL = None ∧ blks !! NULL = None;
  ti_hash h p : Hm !! h = Some p → ∃ ty, typs !! p = Some ty ∧ hash ty = h;
  ti_types p ty : typs !! p = Some ty → Hm !! hash ty = Some p;
  ti_addr a p : Bm !! a = Some p → ∃ b, blks !! p = Some b ∧ addr b = a;
  ti_blocks p b : blks !! p = Some b → is_Some (typs !! type b);
  ti_counts p ty : typs !! p = Some ty → counted blks p ty;
}.

Definition tinv (n : nat) s : Prop :=
  ∃ Hm Bm, tinv_at n (types s) (blocks s) (hash_to_type s) (addr_to_block s) (tslabs s) Hm Bm.

Lemma tinv_mono n n' s : (n' <= n)%nat → tinv n s → tinv n' s.
Proof.
  intros Hle (Hm & Bm & Hi). exists Hm, Bm. destruct Hi. split; try done.
  - destruct ti_ch0 as (k & ? & ?). exists k. split; [lia|done].
  - destruct ti_ca0 as (k & ? & ?). exists k. split; [lia|done].
  - destruct ti_w0 as (M & k1 & k2 & ? & ? & ? & ? & ?). exists M, k1, k2. split_and!; done || lia.
Qed.

(** The invariant does not depend on the ranking or the queue. *)
Lemma tinv_same n s s' :
  types s' = types s → blocks s' = blocks s → hash_to_type s' = hash_to_type s →
  addr_to_block s' = addr_to_block s → tslabs s' = tslabs s → tinv n s → tinv n s'.
Proof. unfold tinv. by intros -> -> -> -> ->. Qed.

(** Replacing a type by one with the same identity and counters. *)
Lemma tinv_touch n s p ty ty' :
  tinv n s → types s !! p = Some ty → same_counts ty ty' → tinv n (put_type p ty' s).
Proof.
  intros (Hm & Bm & Hi) Hp (Hh & Hn & Ht & Hd). exists Hm, Bm. destruct Hi. split; simpl; try done.
  - by rewrite dom_insert_lookup_L by eauto.
  - split; [|apply ti_null0]. rewrite lookup_insert_ne; [apply ti_null0|]. intros ->. destruct ti_null0; congruence.
  - intros h q Hq. destruct (ti_hash0 h q Hq) as (ty0 & Hty & Hh0).
    destruct (decide (q = p)) as [->|]; [|exists ty0; by rewrite lookup_insert_ne].
    exists ty'. rewrite lookup_insert_eq. split; [done|]. congruence.
  - intros q tq Hq. apply lookup_insert_Some in Hq as [[<- <-]|[_ Hq]]; [rewrite Hh|]; eauto.
  - intros q b Hb. apply ti_blocks0 in Hb. destruct (decide (p = type b)) as [<-|].
    + rewrite lookup_insert_eq. by eexists.
    + by rewrite lookup_insert_ne.
  - intros q tq Hq. apply lookup_insert_Some in Hq as [[<- <-]|[_ Hq]]; [|eauto].
    unfold counted. rewrite Hn, Ht, Hd. by apply ti_counts0.
Qed.

(** ** What the parts of the handlers change *)

(** No block has the address [a]. *)
Definition unused (a : Z) s : Prop := ∀ q b, blocks s !! q = Some b → addr b ≠ a.

(** [typs] is [types s] with the type [p] of the hash [h] added unless it was there. *)
Definition type_added (h p : Z) (typs : gmap Z ttype) s : Prop :=
  typs = types s ∨ types s !! p = None ∧ typs = <[p := set_f (new_ttype h) HOTNESS_INITIAL]> (types s).

(** A block at [q] under the type [p], counted there, and found by its address. *)
Definition registered (h a sz : Z) (hot : bool) s s' : Prop :=
  ∃ p ty q typs, type_added h p typs s ∧ typs !! p = Some ty ∧ p ≠ NULL ∧ q ≠ NULL ∧
    types s' = <[p := set_counts ty (u64 (num_allocs ty + 1)) (u64 (total_size ty + sz))
                        (if hot then u64 (dram_size ty + sz) else dram_size ty)]> typs ∧
    blocks s !! q = None ∧ blocks s' = <[q := TBlock a sz p hot]> (blocks s) ∧
    ranking s' = ranking s ∧
    (unused a s → ix_find_le (addr_to_block s') a = Ret q ∧
      ∀ k, ix_get (addr_to_block s') k = if decide (k = a) then Ret q else ix_get (addr_to_block s) k).

(** Nothing but the index, or the block at [a] taken away with its share of
    its type and of the ranking. *)
Definition unregistered (a : Z) s s' : Prop :=
  (∀ k, ix_get (addr_to_block s') k = if decide (k = a) then Ret NULL else ix_get (addr_to_block s) k) ∧
  (ix_get (addr_to_block s) a = Ret NULL ∧ types s' = types s ∧ blocks s' = blocks s ∧ ranking s' = ranking s ∨
  ∃ q b ty, ix_get (addr_to_block s) a = Ret q ∧ blocks s !! q = Some b ∧ addr b = a ∧ types s !! type b = Some ty ∧
    types s' = <[type b := set_counts ty (u64 (num_allocs ty - 1)) (u64 (total_size ty - bsize b))
                             (if is_hot b then u64 (dram_size ty - bsize b) else dram_size ty)]> (types s) ∧
    blocks s' = delete q (blocks s) ∧ ranking s' = ranking_remove (ranking s) (f ty) (bsize b)).

(** ** The type of a hash *)
Lemma find_or_create_ok n s h :
  tinv (S n) s → is_u64 h →
  ∃ p ty s', find_or_create_type h s = Ret (p, s') ∧ tinv n s' ∧ types s' !! p = Some ty ∧
    hash ty = h ∧ blocks s' = blocks s ∧ p ≠ NULL ∧
    type_added h p (types s') s ∧ ranking s' = ranking s ∧ addr_to_block s' = addr_to_block s.
Proof.
  intros Hi Hh. pose proof Hi as (Hm & Bm & Ht). unfold find_or_create_type.
  destruct (ti_ch _ _ _ _ _ _ _ _ Ht) as (k & Hk & Hrep). rewrite (ix_get_ok _ _ _ h Hrep). simpl.
  destruct (Hm !! h) as [p|] eqn:Hp; simpl.
  - destruct (ti_hash _ _ _ _ _ _ _ _ Ht h p Hp) as (ty & Hty & <-).
    assert (p ≠ NULL) as Hnz by (intros ->; destruct (ti_null _ _ _ _ _ _ _ _ Ht); congruence).
    rewrite (proj2 (Z.eqb_neq p 0)) by done. exists p, ty, s. split_and!; try done; [|by left].
    by apply (tinv_mono (S n)); [lia|].
  - destruct (ti_w _ _ _ _ _ _ _ _ Ht) as (M & k1 & k2 & Hw & Hk1 & Hk2 & HM1 & HM2).
    destruct k1 as [|k1]; [lia|]. destruct k as [|k]; [lia|].
    destruct (na_malloc_ok _ _ _ _ _ Hw HM1) as (p & w' & Hal & Hfresh & Hnz & _ & _ & Hw').
    rewrite Hal. simpl. rewrite (proj2 (Z.eqb_neq p 0)) by done.
    destruct (ix_insert_ok _ _ k h p Hrep Hh) as (c' & Hins & Hrep').
    assert (Hno : ¬ is_Some (Hm !! h)) by (rewrite Hp; by intros [? ?]).
    rewrite decide_False in Hins by done. rewrite decide_False in Hrep' by done.
    simpl. rewrite Hins. simpl. unfold get_type. simpl. rewrite lookup_insert_eq. simpl.
    apply not_elem_of_dom in Hfresh.
    eexists p, _, _. split; [reflexivity|]. simpl.
    split; [|rewrite lookup_insert_eq; split_and!; try done; right; by rewrite insert_insert_eq].
    exists (<[h := p]> Hm), Bm. destruct Ht. split; simpl; try done.
    + exists k. split; [lia|done].
    + destruct ti_ca0 as (k' & ? & ?). exists k'. split; [lia|done].
    + eexists _, k1, k2. split; [exact Hw'|]. split; [lia|]. split; [lia|]. split.
      * by rewrite lookup_insert_eq, !dom_insert_L, union_assoc_L, (union_idemp_L {[p]}).
      * by rewrite lookup_insert_ne.
    + split; [|apply ti_null0]. rewrite !lookup_insert_ne by done. apply ti_null0.
    + intros h' q Hq. apply lookup_insert_Some in Hq as [[<- <-]|[Hne Hq]].
      * eexists. by rewrite lookup_insert_eq.
      * destruct (ti_hash0 h' q Hq) as (ty & Hty & Hh'). exists ty.
        rewrite !lookup_insert_ne; [done|congruence..].
    + rewrite insert_insert_eq. intros q tq Hq. apply lookup_insert_Some in Hq as [[<- <-]|[Hne Hq]].
      * apply lookup_insert_eq.
      * rewrite lookup_insert_ne; [eauto|]. intros Heq. apply ti_types0 in Hq. congruence.
    + intros q b Hb. destruct (ti_blocks0 q b Hb) as [tb Htb].
      rewrite !lookup_insert_ne; [by eexists|congruence..].
    + rewrite insert_insert_eq. intros q tq Hq. apply lookup_insert_Some in Hq as [[<- <-]|[Hne Hq]]; [|eauto].
      assert (Hnone : ∀ q b, blocks s !! q = Some b → (type b =? p) = false).
      { intros q b Hb. apply Z.eqb_neq. intros <-. destruct (ti_blocks0 q b Hb). congruence. }
      unfold counted, w_count, w_size, w_dram. rewrite !msum_zero; [done|..];
        intros q b Hb; by rewrite (Hnone q b Hb).
Qed.

(** Adding and removing a block together with its share of the counters. *)
Lemma counted_add blks p q b ty :
  counted blks p ty → blks !! q = None →
  counted (<[q := b]> blks) p
    (if type b =? p then
       set_counts ty (u64 (num_allocs ty + 1)) (u64 (total_size ty + bsize b))
         (if is_hot b then u64 (dram_size ty + bsize b) else dram_size ty)
     else ty).
Proof.
  intros (Hn & Ht & Hd) Hq. unfold counted. rewrite !msum_insert by done.
  unfold w_count at 1, w_size at 1, w_dram at 1.
  destruct (type b =? p); simpl; [|done]. rewrite Hn, Ht, Hd, !u64_add_l.
  split_and!; [f_equal; lia..|]. destruct (is_hot b); f_equal; lia.
Qed.

Lemma counted_del blks p q b ty :
  counted blks p ty → blks !! q = Some b →
  counted (delete q blks) p
    (if type b =? p then
       set_counts ty (u64 (num_allocs ty - 1)) (u64 (total_size ty - bsize b))
         (if is_hot b then u64 (dram_size ty - bsize b) else dram_size ty)
     else ty).
Proof.
  intros (Hn & Ht & Hd) Hq. unfold counted. rewrite !(msum_delete _ _ _ _ Hq).
  unfold w_count at 2, w_size at 2, w_dram at 2.
  destruct (type b =? p); simpl; [|by rewrite !Z.sub_0_r].
  rewrite Hn, Ht, Hd, <- !Z.add_opp_r, !u64_add_l. split_and!; [done..|].
  destruct (is_hot b); [done|]. by rewrite Z.opp_0, Z.add_0_r.
Qed.

(** ** Registering *)
(** A key that was just inserted is the nearest below itself. *)
Lemma find_le_inserted c (m : gmap Z Z) k a q :
  ix_rep c (<[a := q]> m) k → is_u64 a → ix_find_le c a = Ret q.
Proof.
  intros Hrep Ha. destruct (ix_find_le_ok _ _ _ a Hrep Ha) as (r & -> & Hnear).
  destruct r as [[k' v]|]; cbn in Hnear |- *.
  - destruct Hnear as (Hv & Hle & Hbest). specialize (Hbest a q (lookup_insert_eq _ _ _) ltac:(lia)).
    assert (k' = a) as -> by lia. rewrite lookup_insert_eq in Hv. by injection Hv as <-.
  - specialize (Hnear a q (lookup_insert_eq _ _ _)). lia.
Qed.

Lemma register_block_ok n s h a sz hot :
  tinv (S (S n)) s → is_u64 h → is_u64 a →
  ∃ s', register_block h a sz hot s = Ret s' ∧ tinv n s' ∧ registered h a sz hot s s'.
Proof.
  intros Hi Hh Ha. unfold register_block.
  destruct (find_or_create_ok _ _ _ Hi Hh) as (p & ty & s1 & Hrun & (Hm & Bm & Ht) & Hty & _ & Hbl & Hpz & Hta & Hrk & Hix).
  rewrite Hrun. simpl. unfold get_type. rewrite Hty. simpl.
  destruct (ti_w _ _ _ _ _ _ _ _ Ht) as (M & k1 & k2 & Hw & Hk1 & Hk2 & HM1 & HM2).
  destruct k2 as [|k2]; [lia|].
  destruct (na_malloc_ok _ _ _ _ _ Hw HM2) as (q & w' & Hal & Hfresh & Hnz & _ & _ & Hw').
  rewrite Hal. simpl. rewrite (proj2 (Z.eqb_neq q 0)) by done.
  destruct (ti_ca _ _ _ _ _ _ _ _ Ht) as (k & Hk & Hrep). destruct k as [|k]; [lia|].
  destruct (ix_insert_ok _ _ k a q Hrep Ha) as (c' & Hins & Hrep'). rewrite Hins. simpl.
  eexists. split; [reflexivity|]. apply not_elem_of_dom in Hfresh. split; cycle 1.
  { exists p, ty, q, (types s1). split_and!; try done; [by rewrite <- Hbl|by rewrite <- Hbl|]. intros Hun.
    assert (Bm !! a = None) as Hnone.
    { destruct (Bm !! a) eqn:E; [|done]. destruct (ti_addr _ _ _ _ _ _ _ _ Ht _ _ E) as (b & Hb & Hba).
      rewrite Hbl in Hb. by destruct (Hun _ _ Hb). }
    rewrite decide_False in Hrep' by (rewrite Hnone; by intros []).
    split; [exact (find_le_inserted _ _ _ _ _ Hrep' Ha)|]. intros k0. cbn [set_addr_to_block addr_to_block]. rewrite (ix_get_ok _ _ _ k0 Hrep'), <- Hix.
    rewrite (ix_get_ok _ _ _ k0 Hrep). destruct (decide (k0 = a)) as [->|]; [by rewrite lookup_insert_eq|by rewrite lookup_insert_ne]. }
  exists Hm, (if decide (is_Some (Bm !! a)) then Bm else <[a := q]> Bm). destruct Ht.
  pose proof (ti_counts0 p ty Hty) as Hcnt.
  split; simpl.
  - destruct ti_ch0 as (k' & ? & ?). exists k'. split; [lia|done].
  - exists k. split; [lia|done].
  - eexists _, k1, k2. split; [exact Hw'|]. split; [lia|]. split; [lia|]. split.
    + by rewrite lookup_insert_ne, dom_insert_lookup_L by eauto.
    + by rewrite lookup_insert_eq, dom_insert_L.
  - rewrite !lookup_insert_ne by done. done.
  - intros h' r Hr. destruct (ti_hash0 h' r Hr) as (tr & Htr & Hhr).
    destruct (decide (r = p)) as [->|]; [|exists tr; by rewrite lookup_insert_ne].
    eexists. rewrite lookup_insert_eq. split; [done|]. simpl. congruence.
  - intros r tr Hr. apply lookup_insert_Some in Hr as [[<- <-]|[_ Hr]]; simpl; eauto.
  - intros a' r Hr. assert (Hold : Bm !! a' = Some r → ∃ b, <[q := TBlock a sz p hot]> (blocks s1) !! r = Some b ∧ addr b = a').
    { intros Hb. destruct (ti_addr0 a' r Hb) as (b & Hbr & Hab). exists b.
      rewrite lookup_insert_ne; [done|congruence]. }
    case_decide as Hd; [auto|]. apply lookup_insert_Some in Hr as [[<- <-]|[_ Hr]]; [|auto].
    eexists. by rewrite lookup_insert_eq.
  - intros r b Hr. destruct (decide (type b = p)) as [->|]; [rewrite lookup_insert_eq; by eexists|].
    rewrite lookup_insert_ne by done.
    apply lookup_insert_Some in Hr as [[<- <-]|[_ Hr]]; [done|eauto].
  - intros r tr Hr. destruct (decide (r = p)) as [->|Hne].
    + rewrite lookup_insert_eq in Hr. injection Hr as <-.
      pose proof (counted_add _ p q (TBlock a sz p hot) ty Hcnt Hfresh) as Hadd. simpl in Hadd.
      by rewrite Z.eqb_refl in Hadd.
    + rewrite lookup_insert_ne in Hr by done.
      pose proof (counted_add _ r q (TBlock a sz p hot) tr (ti_counts0 r tr Hr) Hfresh) as Hadd. simpl in Hadd.
      by rewrite (proj2 (Z.eqb_neq p r)) in Hadd by done.
Qed.

Lemma unregister_block_ok n s a :
  tinv (S n) s → ∃ s', unregister_block a s = Ret s' ∧ tinv n s' ∧ unregistered a s s'.
Proof.
  intros (Hm & Bm & Ht). unfold unregister_block.
  destruct (ti_ca _ _ _ _ _ _ _ _ Ht) as (k & Hk & Hrep). destruct k as [|k]; [lia|].
  destruct (ix_remove_ok _ _ k a Hrep) as (c' & Hrem & Hrep'). rewrite Hrem. simpl.
  assert (Hget : ∀ k0, ix_get c' k0 = if decide (k0 = a) then Ret NULL else ix_get (addr_to_block s) k0).
  { intros k0. rewrite (ix_get_ok _ _ _ k0 Hrep'), (ix_get_ok _ _ _ k0 Hrep).
    destruct (decide (k0 = a)) as [->|]; [by rewrite lookup_delete_eq|by rewrite lookup_delete_ne]. }
  pose proof (ix_get_ok _ _ _ a Hrep) as Hwas.
  destruct (ti_w _ _ _ _ _ _ _ _ Ht) as (M & k1 & k2 & Hw & Hk1 & Hk2 & HM1 & HM2).
  destruct (Bm !! a) as [q|] eqn:Hq; simpl.
  - destruct (ti_addr _ _ _ _ _ _ _ _ Ht a q Hq) as (b & Hb & Hab).
    assert (q ≠ NULL) as Hnz by (intros ->; destruct (ti_null _ _ _ _ _ _ _ _ Ht); congruence).
    rewrite (proj2 (Z.eqb_neq q 0)) by done. unfold get_block. simpl. rewrite Hb. simpl.
    destruct (ti_blocks _ _ _ _ _ _ _ _ Ht q b Hb) as [ty Hty].
    unfold get_type. simpl. rewrite Hty. simpl.
    destruct (na_free_ok _ _ _ _ _ q Hw HM2) as (w' & Hfree & Hw'); [by apply elem_of_dom|].
    rewrite Hfree. simpl. eexists. split; [reflexivity|]. split; cycle 1.
    { split; [done|]. right. exists q, b, ty. by rewrite <- (delete_insert_eq (blocks s) q (TBlock 0 0 0 (is_hot b))). }
    exists Hm, (delete a Bm). destruct Ht. split; simpl.
    + destruct ti_ch0 as (k' & ? & ?). exists k'. split; [lia|done].
    + exists k. split; [lia|done].
    + eexists _, k1, (S k2). split; [exact Hw'|]. split; [lia|]. split; [lia|]. split.
      * by rewrite lookup_insert_ne, dom_insert_lookup_L by eauto.
      * rewrite lookup_insert_eq, dom_delete_L, dom_insert_lookup_L by eauto. done.
    + split; [rewrite lookup_insert_ne; [apply ti_null0|]; intros Hz; destruct ti_null0; congruence|].
      rewrite lookup_delete_ne, lookup_insert_ne by done. apply ti_null0.
    + intros h' r Hr. destruct (ti_hash0 h' r Hr) as (tr & Htr & Hhr).
      destruct (decide (r = type b)) as [->|]; [|exists tr; by rewrite lookup_insert_ne].
      eexists. rewrite lookup_insert_eq. split; [done|]. simpl. congruence.
    + intros r tr Hr. apply lookup_insert_Some in Hr as [[<- <-]|[_ Hr]]; simpl; eauto.
    + intros a' r Hr. apply lookup_delete_Some in Hr as [Hne Hr].
      destruct (ti_addr0 a' r Hr) as (b' & Hb' & Hab'). exists b'.
      rewrite lookup_delete_ne, lookup_insert_ne; [done|congruence..].
    + rewrite delete_insert_eq. intros r b' Hr. apply lookup_delete_Some in Hr as [Hne Hr].
      destruct (decide (type b' = type b)) as [->|]; [rewrite lookup_insert_eq; by eexists|].
      rewrite lookup_insert_ne by done. eauto.
    + rewrite delete_insert_eq. intros r tr Hr. destruct (decide (r = type b)) as [->|Hne].
      * rewrite lookup_insert_eq in Hr. injection Hr as <-.
        pose proof (counted_del _ (type b) q b ty (ti_counts0 _ _ Hty) Hb) as Hdel.
        by rewrite Z.eqb_refl in Hdel.
      * rewrite lookup_insert_ne in Hr by done.
        pose proof (counted_del _ r q b tr (ti_counts0 _ _ Hr) Hb) as Hdel.
        by rewrite (proj2 (Z.eqb_neq (type b) r)) in Hdel by done.
  - eexists. split; [reflexivity|]. split; [|split; [done|by left]]. exists Hm, (delete a Bm). rewrite delete_id by done.
    rewrite delete_id in Hrep' by done. destruct Ht. split; simpl; try done.
    + destruct ti_ch0 as (k' & ? & ?). exists k'. split; [lia|done].
    + exists k. split; [lia|done].
    + exists M, k1, k2. split_and!; done || lia.
Qed.

(** ** Looking up the block of an address *)
Lemma find_block_ok n s a :
  tinv n s → is_u64 a →
  ix_find_le (addr_to_block s) a = Ret NULL ∨
  ∃ q b ty, ix_find_le (addr_to_block s) a = Ret q ∧ q ≠ NULL ∧ blocks s !! q = Some b ∧
    addr b <= a ∧ type b ≠ NULL ∧ types s !! type b = Some ty.
Proof.
  intros (Hm & Bm & Ht) Ha. destruct (ti_ca _ _ _ _ _ _ _ _ Ht) as (k & _ & Hrep).
  destruct (ix_find_le_ok _ _ _ a Hrep Ha) as ([[a' q]|] & Hf & Hnear); [|by left].
  right. destruct Hnear as (Hq & Hle & _). destruct (ti_addr _ _ _ _ _ _ _ _ Ht a' q Hq) as (b & Hb & <-).
  destruct (ti_blocks _ _ _ _ _ _ _ _ Ht q b Hb) as [ty Hty].
  destruct (ti_null _ _ _ _ _ _ _ _ Ht) as [Hn1 Hn2]. exists q, b, ty. split_and!; try done; congruence.
Qed.

Lemma register_in_ranking_ok n s a sz :
  tinv n s → is_u64 a → ∃ s', register_block_in_ranking a sz s = Ret s' ∧ tinv n s'.
Proof.
  intros Hi Ha. unfold register_block_in_ranking.
  destruct (find_block_ok n s a Hi Ha) as [->|(q & b & ty & -> & Hq & Hb & _ & Hz & Hty)]; simpl; [eauto|].
  rewrite (proj2 (Z.eqb_neq q 0)) by done. unfold get_block, get_type. rewrite Hb. simpl.
  rewrite (proj2 (Z.eqb_neq (type b) 0)) by done. simpl. rewrite Hty. simpl. eauto using tinv_same.
Qed.

Lemma touch_ok n s a ts total :
  tinv n s → is_u64 a → ∃ s', touch a ts 0 total s = Ret s' ∧ tinv n s'.
Proof.
  intros Hi Ha. unfold touch.
  destruct (find_block_ok n s a Hi Ha) as [->|(q & b & ty & -> & Hq & Hb & _ & Hz & Hty)]; simpl; [eauto|].
  rewrite (proj2 (Z.eqb_neq q 0)) by done. unfold get_block, get_type. rewrite Hb. simpl.
  destruct (_ <=? a); [eauto|]. rewrite Hty. simpl. destruct (0 <? total_size ty); [|eauto].
  pose proof (ranking_touch_keeps (ranking s) ty ts
    (F64.div (F64.mul HOTNESS_TOUCH_SINGLE_VALUE (F64.of_Z total)) (F64.of_Z (total_size ty)))) as Hk.
  destruct (ranking_touch _ _ _ _) as [r ty']. eexists. split; [reflexivity|].
  by apply (tinv_touch n (set_ranking r s) _ ty).
Qed.

Lemma set_callback_ok n s a cb arg :
  tinv n s → is_u64 a → ∃ r s', tachanka_set_touch_callback a cb arg s = Ret (r, s') ∧ tinv n s'.
Proof.
  intros Hi Ha. unfold tachanka_set_touch_callback.
  destruct (find_block_ok n s a Hi Ha) as [->|(q & b & ty & -> & Hq & Hb & _ & Hz & Hty)]; simpl; [eauto|].
  rewrite (proj2 (Z.eqb_neq q 0)) by done. unfold get_block, get_type. rewrite Hb. simpl.
  rewrite (proj2 (Z.eqb_neq (type b) 0)) by done. simpl. rewrite Hty. simpl.
  pose proof (ranking_callback_keeps (ranking s) cb arg ty) as Hk.
  destruct (ranking_set_touch_callback _ _ _ _) as [r ty']. eexists _, _. split; [reflexivity|].
  by apply (tinv_touch n (set_ranking r s) _ ty).
Qed.

Lemma handle_event_ok n total e s :
  tinv (3 + n) s → event_ok e → ∃ s', handle_event total (Some e) s = Ret s' ∧ tinv n s'.
Proof.
  unfold event_ok. intros Hi Hok.
  destruct e as [h a sz hot|a sz|ao an so sn hot|a ts|a cb arg]; simpl in Hok |- *;
    repeat (apply Forall_cons in Hok as [? Hok]).
  - destruct (register_block_ok (S n) s h a sz hot Hi) as (s1 & -> & Hi1 & _); [done..|]. simpl.
    destruct (register_in_ranking_ok _ s1 a sz Hi1) as (s2 & -> & Hi2); [done|].
    exists s2. split; [done|]. by apply (tinv_mono (S n)); [lia|].
  - destruct (unregister_block_ok (S (S n)) s a Hi) as (s1 & -> & Hi1 & _).
    exists s1. split; [done|]. by apply (tinv_mono (S (S n))); [lia|].
  - destruct (unregister_block_ok (S (S n)) s ao Hi) as (s1 & -> & Hi1 & _). simpl.
    destruct (register_block_ok n s1 0 an sn hot Hi1) as (s2 & -> & Hi2 & _); [done..|]. simpl.
    by apply register_in_ranking_ok.
  - apply touch_ok; [|done]. by apply (tinv_mono (3 + n)); [lia|].
  - destruct (set_callback_ok _ s a cb arg Hi) as (r & s1 & -> & Hi1); [done|]. simpl.
    exists s1. split; [done|]. by apply (tinv_mono (3 + n)); [lia|].
Qed.


(** ** The loop over the queue *)

(** The handlers do not touch the queue. *)
Lemma find_or_create_frame h s p s' :
  find_or_create_type h s = Ret (p, s') →
  ranking_event_buff s' = ranking_event_buff s ∧ initialized s' = initialized s.
Proof.
  unfold find_or_create_type. intros Hrun. repeat (run_inv; case_match; run_inv); simpl; done.
Qed.

Lemma register_frame h a sz hot s s' :
  register_block h a sz hot s = Ret s' →
  ranking_event_buff s' = ranking_event_buff s ∧ initialized s' = initialized s.
Proof.
  unfold register_block. intros Hrun. run_inv. case_match; run_inv. simpl.
  by eapply find_or_create_frame.
Qed.

Lemma register_in_ranking_frame a sz s s' :
  register_block_in_ranking a sz s = Ret s' →
  ranking_event_buff s' = ranking_event_buff s ∧ initialized s' = initialized s.
Proof. unfold register_block_in_ranking. intros Hrun. run_inv. case_match; run_inv; done. Qed.

Lemma unregister_frame a s s' :
  unregister_block a s = Ret s' →
  ranking_event_buff s' = ranking_event_buff s ∧ initialized s' = initialized s.
Proof. unfold unregister_block. intros Hrun. run_inv. case_match; run_inv; done. Qed.

Lemma handle_event_frame total e s s' :
  handle_event total e s = Ret s' →
  ranking_event_buff s' = ranking_event_buff s ∧ initialized s' = initialized s.
Proof.
  destruct e as [[h a sz hot|a sz|ao an so sn hot|a ts|a cb arg]|]; simpl; intros Hrun; [..|done].
  - run_inv. apply register_in_ranking_frame in Hrun as [-> ->]. by eapply register_frame.
  - by eapply unregister_frame.
  - run_inv. apply register_in_ranking_frame in Hrun as [-> ->].
    apply register_frame in Ha0 as [-> ->]. by eapply unregister_frame.
  - unfold touch in Hrun. run_inv. repeat (case_match; run_inv); done.
  - unfold tachanka_set_touch_callback in Hrun. run_inv. repeat (case_match; run_inv); done.
Qed.

(** The event queue between calls, holding the events [es]. *)
Definition queued (b : lq_buffer) (es : list EventEntry) : Prop :=
  ∃ q, buf q = b ∧ qinv q ∧ quiet q ∧ pending q = event_bytes <$> es.

Lemma drain_events_ok total k n s es event :
  initialized s = true → queued (ranking_event_buff s) es → Forall event_ok es →
  tinv (3 * k + n) s →
  ∃ s', drain_events total k event s = Ret (Nat.min k (length es), s') ∧ tinv n s' ∧
    queued (ranking_event_buff s') (drop k es).
Proof.
  revert s es event.
  induction k as [|k IH]; intros s es event Hin Hq Hes Hi; [exists s; by rewrite drop_0|].
  cbn [drain_events]. unfold tachanka_ranking_event_pop at 1. rewrite Hin. simpl negb. cbn iota.
  destruct Hq as (q & Hb & Hqi & Hqq & Hp). unfold ranking_event_pop. rewrite <- Hb.
  pose proof (pop_when_quiet q Hqi Hqq) as Hpop. rewrite Hp in Hpop.
  destruct es as [|e es]; simpl in Hpop.
  - destruct Hpop as (q' & Hst & Hq' & -> & Hp'). simpl. eexists. split; [reflexivity|]. split.
    + apply (tinv_mono (3 * S k + n)); [lia|]. by eapply tinv_same; [..|exact Hi].
    + exists q'. split_and!; try done. by eapply qsteps_inv.
  - destruct Hpop as (q' & Hst & Hq' & -> & Hp'). simpl. apply Forall_cons in Hes as [He Hes].
    rewrite event_roundtrip by done.
    destruct (handle_event_ok (3 * k + n) total e (set_event_buff (buf q') s)) as (s1 & Hrun & Hi1);
      [|done|].
    { apply (tinv_mono (3 * S k + n)); [lia|]. by eapply tinv_same; [..|exact Hi]. }
    rewrite Hrun. simpl. destruct (handle_event_frame _ _ _ _ Hrun) as [Hbuf Hini].
    destruct (IH s1 es (Some e)) as (s2 & Hrun2 & Hi2 & Hq2); [by rewrite Hini| |done|done|].
    { rewrite Hbuf. exists q'. split_and!; try done. by eapply qsteps_inv. }
    rewrite Hrun2. simpl. eauto.
Qed.

(** One cycle of the background thread: with [es] queued, the loop pops the
    first [k] events in order, handles each of them without a fault, keeps the
    books, and leaves the rest in the queue. *)
Theorem drain_events_in_order total k n s es event :
  initialized s = true → queued (ranking_event_buff s) es → Forall event_ok es →
  tinv (3 * k + n) s →
  ∃ s', drain_events total k event s = Ret (Nat.min k (length es), s') ∧ tinv n s' ∧
    queued (ranking_event_buff s') (drop k es).
Proof. apply drain_events_ok. Qed.
End invariant.
