(* ===== verification/TachankaDemo.v ===== *)
(** * Runs of the event loop on its real data structures

    A [tachanka] whose indexes are critnibs and whose nodes come from the slab
    allocator, with two events queued; and a sequence of calls of
    [realloc_block] that leaves the counters wrong. *)
From S2P Require Import Prelude Float Bigary Alloc Slab Critnib CritnibCorrect CritnibSpec Index Queue QueueInv QueueSpec Events Tachanka TachankaSpec.
From Stdlib Require Import SpecFloat.

(** A ranking that remembers nothing. *)
#[local] Instance no_ranking : Ranking unit := {
  ranking_create _ := ();
  ranking_add _ _ _ := ();
  ranking_remove _ _ _ := ();
  ranking_touch _ ty _ _ := ((), ty);
  ranking_set_touch_callback _ _ _ ty := ((), ty);
  ranking_get_hot_threshold _ := (false, F64.zero);
  ranking_calculate_hot_threshold_dram_total _ _ _ := ();
}.
#[local] Instance no_ranking_laws : RankingLaws unit.
Proof. by split. Qed.

Definition SIZEOF_TTYPE : Z := 120.
Definition SIZEOF_TBLOCK : Z := 32.

#[local] Abbreviation demo_laws := (CritnibSpec.laws kernel (λ _ _, eq_refl)).
#[local] Existing Instance kernel.
#[local] Instance slab_demo_laws : NodeAllocLaws slab_world := demo_laws.

(** The two slab allocators of [tachanka_init]. *)
Lemma demo_slabs :
  ∃ w M k, na_inv w M ∧ (100 <= k)%nat ∧ M !! TTYPE_ALLOC = Some (∅, k) ∧
    ∃ k', (100 <= k')%nat ∧ M !! TBLOCK_ALLOC = Some (∅, k').
Proof.
  destruct (slab_init_default (kernel_at (2 ^ 40)) (2 ^ 40) (World ∅ ∅) ∅ TTYPE_ALLOC SIZEOF_TTYPE)
    as (w1 & _ & Hw1 & _ & a1 & Ha1 & Har1 & Hd1); try done.
  destruct (slab_init_default (kernel_at (2 ^ 41)) (2 ^ 41) w1
    (<[TTYPE_ALLOC := (∅, Z.to_nat (BIGARY_DEFAULT_MAX / (SIZEOF_META + SIZEOF_TTYPE)))]> ∅)
    TBLOCK_ALLOC SIZEOF_TBLOCK) as (w2 & _ & Hw2 & _ & _); try done.
  { intros t b [y Ht] Hb x Hx Hin. apply lookup_insert_Some in Ht as [[<- _]|[_ Ht]]; [|done].
    rewrite Ha1 in Hb. injection Hb as <-. unfold in_area in Hin. rewrite Har1, Hd1 in Hin.
    change BIGARY_DEFAULT_MAX with 17179869184 in *. lia. }
  eexists w2, _, _. split; [exact Hw2|]. split; [|split; [rewrite lookup_insert_ne, lookup_insert_eq by done; reflexivity|]].
  - change 100%nat with (Z.to_nat 100). apply Z2Nat.inj_le; done.
  - eexists. split; [|by rewrite lookup_insert_eq].
    change 100%nat with (Z.to_nat 100). apply Z2Nat.inj_le; done.
Qed.

(** The queue with one writer, holding [es]. *)
Lemma demo_queue es :
  Forall event_ok es → (length es <= 4)%nat →
  ∃ b, queued b es.
Proof.
  intros Hes Hlen.
  assert (∃ q, qinv q ∧ quiet q ∧ size (buf q) = 4 ∧ entrySize (buf q) = SIZEOF_EVENT ∧
    (∃ r, writers q !! 0%nat = Some (WDone r)) ∧ pending q = event_bytes <$> es) as (q & ? & ? & _ & _ & _ & ?).
  2:{ exists (buf q), q. done. }
  induction es as [|e es IH] using rev_ind.
  - destruct (init_inv SIZEOF_EVENT 4 ltac:(done) ltac:(done) ltac:(done) ltac:(done) 1 ltac:(done))
      as (b & _ & Hsz & Hent & Hq).
    exists (sys_init b 1). split_and!; try done; [|by exists false].
    split; [|by eexists]. intros [|i] pc Hpc; [injection Hpc as <-; by eexists|by destruct i].
  - rewrite length_app in Hlen. simpl in Hlen. apply Forall_app in Hes as [Hes He]. apply Forall_singleton in He.
    destruct IH as (q & Hq & Hqt & Hsz & Hent & [r Hr] & Hp); [done|lia|].
    pose proof (push_when_quiet q 0 r (event_bytes e) Hq Hqt Hr) as Hpush.
    rewrite event_bytes_length, Hent in Hpush. specialize (Hpush eq_refl).
    unfold fifo_push in Hpush. rewrite Hp, length_fmap, Hsz, (proj2 (Z.ltb_lt _ _)) in Hpush by lia.
    destruct Hpush as (q' & Hst & Hqt' & _ & Hp'). exists q'.
    split; [by eapply qsteps_inv|]. split; [done|].
    destruct (qsteps_frame _ _ Hst) as [Hd Hlw]. injection Hd as -> ->.
    split_and!; try done; [|by rewrite fmap_app].
    destruct (lookup_lt_is_Some_2 (writers q') 0) as [pc Hpc].
    { rewrite Hlw. by eapply lookup_lt_Some. }
    destruct Hqt' as [Hw _]. destruct (Hw _ _ Hpc) as [r' ->]. by exists r'.
Qed.

Definition demo_events : list EventEntry := [CreateAdd 7 4096 64 true; DestroyRemove 4096 64].

Lemma demo_events_ok : Forall event_ok demo_events.
Proof. repeat constructor; done. Qed.

(** A fresh [tachanka] on critnibs and slabs, with any ranking and queue. *)
Lemma demo_state {R} (r : R) b :
  ∃ s : tachanka (critnib slab_world) slab_world R,
    tinv 100 s ∧ types s = ∅ ∧ blocks s = ∅ ∧ ranking s = r ∧ ranking_event_buff s = b ∧ initialized s = true.
Proof.
  destruct (demo_new_ok 100 100 ltac:(done) ltac:(done)) as (c & _ & Hrep & Hrc).
  destruct demo_slabs as (w & M & k & Hw & Hk & HM1 & k' & Hk' & HM2).
  exists (Tachanka ∅ ∅ c c w r b true). split; [|done].
  assert (Hc : critnib_holds c ∅ 100) by (split; [exact Hrep|rewrite Hrc; done]).
  exists ∅, ∅. split; simpl; try done.
  - by exists 100%nat.
  - by exists 100%nat.
  - by exists M, k, k'.
Qed.

(** The same with the two events queued. *)
Lemma demo_tachanka :
  ∃ s : tachanka (critnib slab_world) slab_world unit,
    tinv 100 s ∧ initialized s = true ∧ queued (ranking_event_buff s) demo_events.
Proof.
  destruct (demo_queue demo_events demo_events_ok ltac:(simpl; lia)) as (b & Hb).
  destruct (demo_state () b) as (s & Hs & _ & _ & _ & Hq & Hi). exists s. by rewrite Hq.
Qed.


Lemma drain_events_in_order_witness :
  ∃ s s' : tachanka (critnib slab_world) slab_world unit,
    drain_events 0 5 None s = Ret (2%nat, s') ∧ tinv 85 s'.
Proof.
  destruct demo_tachanka as (s & Hs & Hi & Hq).
  destruct (drain_events_in_order 0 5 85 s demo_events None Hi Hq demo_events_ok Hs) as (s' & Hrun & Hs' & _).
  by exists s, s'.
Defined.

(** ** [realloc_block] *)

(** Finite maps as indexes and one slab region serve for evaluation. *)
Definition demo_start : tachanka (gmap Z Z) slab_world unit :=
  match @slab_alloc_init (kernel_at (2 ^ 40)) TTYPE_ALLOC SIZEOF_TTYPE (2 ^ 21) (World ∅ ∅) with
  | Ret (_, w1) =>
      match @slab_alloc_init (kernel_at (2 ^ 41)) TBLOCK_ALLOC SIZEOF_TBLOCK (2 ^ 21) w1 with
      | Ret (_, w2) => Tachanka ∅ ∅ ∅ ∅ w2 () (LqBuffer [] [] 0 0 0 0 0 0) true
      | Stop _ => Tachanka ∅ ∅ ∅ ∅ w1 () (LqBuffer [] [] 0 0 0 0 0 0) true
      end
  | Stop _ => Tachanka ∅ ∅ ∅ ∅ (World ∅ ∅) () (LqBuffer [] [] 0 0 0 0 0 0) true
  end.

(** Register 100 bytes, shrink the block to 40 and give it back. *)
Definition shrink_and_free : outcome (tachanka (gmap Z Z) slab_world unit) :=
  let! s := register_block 7 4096 100 false demo_start in
  let! s := realloc_block 4096 8192 40 s in
  unregister_block 8192 s.

(** [realloc_block] moves the new size into the total of the type but leaves the
    old size in the block, so removing the block takes away the wrong amount:
    with no block left, the type counts 2^64 - 60 bytes. *)
Theorem realloc_block_loses_track :
  ∃ s ty, shrink_and_free = Ret s ∧ blocks s = ∅ ∧
    map_to_list (types s) = [ty] ∧ total_size ty.2 = 2 ^ 64 - 60 ∧ num_allocs ty.2 = 0.
Proof.
  destruct shrink_and_free as [s|] eqn:Hrun; [|by vm_compute in Hrun].
  assert (Hs : Ret s = shrink_and_free) by done. clear Hrun. vm_compute in Hs. injection Hs as ->.
  eexists _, _. split; [reflexivity|]. split; [reflexivity|]. split; [vm_compute; reflexivity|]. done.
Qed.
