(* ===== verification/Memtier.v ===== *)
(** * Tiered memory: data, policies and builders ([src/memkind_memtier.c])

    A [memtier_memory] chooses the kind of each allocation by one of three
    policies; a [memtier_builder] collects the tiers and makes the memory.
    Function pointers are the constructors of the three small types below. *)
From S2P Require Import Prelude Float Counters Tachanka.
From Stdlib Require Import SpecFloat.

Definition THRESHOLD_CHECK_CNT : Z := 20.
Definition THRESHOLD_STEP : Z := 1024.

(** What this file uses of a [struct memkind]: its address and its partition. *)
Record memkind := Kind {
  kaddr : Z;
  partition : Z;
}.
#[global] Instance memkind_eq_dec : EqDecision memkind.
Proof. solve_decision. Defined.

Record memtier_tier_cfg := TierCfg {
  kind : memkind;
  kind_ratio : spec_float;
}.

Record memtier_threshold_cfg := ThresholdCfg {
  val : Z;
  min : Z;
  max : Z;
  exp_norm_ratio : spec_float;
  current_ratio_diff : spec_float;
}.

Inductive get_kind_fn :=
  | memtier_single | memtier_policy_static_ratio
  | memtier_policy_dynamic_threshold | memtier_policy_data_hotness.
Inductive post_alloc_fn := memtier_empty_post_alloc | memtier_policy_data_hotness_post_alloc.
Inductive update_cfg_fn := static_ratio_update_config | data_hotness_update_config
  | dynamic_threshold_update_config.

Record memtier_memory := MemtierMemory {
  cfg_size : Z;
  cfg : list memtier_tier_cfg;
  thres : list memtier_threshold_cfg;
  thres_check_cnt : Z;
  thres_init_check_cnt : Z;
  thres_trigger : spec_float;
  thres_degree : spec_float;
  hot_tier_id : Z;
  cold_tier_id : Z;
  get_kind : get_kind_fn;
  post_alloc : post_alloc_fn;
  update_cfg : update_cfg_fn;
}.

(** [memtier_policy_t]. *)
Definition MEMTIER_POLICY_STATIC_RATIO : Z := 0.
Definition MEMTIER_POLICY_DYNAMIC_THRESHOLD : Z := 1.
Definition MEMTIER_POLICY_DATA_HOTNESS : Z := 2.

Inductive create_mem_fn := builder_static_create | builder_dynamic_create | builder_hot_create.
Inductive ctl_set_fn := builder_static_ctl | builder_dynamic_ctl | builder_hot_ctl.

Record memtier_builder := MemtierBuilder {
  b_cfg_size : Z;
  b_cfg : list memtier_tier_cfg;
  b_thres : list memtier_threshold_cfg;
  check_cnt : Z;
  trigger : spec_float;
  degree : spec_float;
  create_mem : create_mem_fn;
  update_builder : bool;             (** [builder_dynamic_update], or null *)
  ctl_set : ctl_set_fn;
}.

Definition set_cfg (m : memtier_memory) (l : list memtier_tier_cfg) : memtier_memory :=
  MemtierMemory (cfg_size m) l (thres m) (thres_check_cnt m) (thres_init_check_cnt m) (thres_trigger m)
    (thres_degree m) (hot_tier_id m) (cold_tier_id m) (get_kind m) (post_alloc m) (update_cfg m).
Definition set_thres (m : memtier_memory) (l : list memtier_threshold_cfg) : memtier_memory :=
  MemtierMemory (cfg_size m) (cfg m) l (thres_check_cnt m) (thres_init_check_cnt m) (thres_trigger m)
    (thres_degree m) (hot_tier_id m) (cold_tier_id m) (get_kind m) (post_alloc m) (update_cfg m).
Definition set_check_cnt (m : memtier_memory) (v : Z) : memtier_memory :=
  MemtierMemory (cfg_size m) (cfg m) (thres m) v (thres_init_check_cnt m) (thres_trigger m)
    (thres_degree m) (hot_tier_id m) (cold_tier_id m) (get_kind m) (post_alloc m) (update_cfg m).
Definition set_check (m : memtier_memory) (v : Z) (t d : spec_float) : memtier_memory :=
  MemtierMemory (cfg_size m) (cfg m) (thres m) v v t d
    (hot_tier_id m) (cold_tier_id m) (get_kind m) (post_alloc m) (update_cfg m).
Definition set_tiers (m : memtier_memory) (hot cold : Z) : memtier_memory :=
  MemtierMemory (cfg_size m) (cfg m) (thres m) (thres_check_cnt m) (thres_init_check_cnt m) (thres_trigger m)
    (thres_degree m) hot cold (get_kind m) (post_alloc m) (update_cfg m).

(** [THRESHOLD_NUM(obj)], an unsigned subtraction. *)
Definition THRESHOLD_NUM (cfg_size : Z) : Z := u32 (cfg_size - 1).

(** [p[i]] of an array. *)
Definition index {A} (l : list A) (i : Z) : outcome A :=
  if i <? 0 then Stop BadDeref else deref (l !! Z.to_nat i).

(** ** Choosing a kind *)
Definition memtier_single_get_kind (m : memtier_memory) : outcome memkind :=
  let! c := index (cfg m) 0 in Ret (kind c).

(** The loop over the tiers, [n] of them from [i] up. *)
Fixpoint static_ratio_loop (m : memtier_memory) (c : counters) (size_0 i : Z) (n : nat) (dest_tier : Z) :
    outcome Z :=
  match n with
  | O => Ret dest_tier
  | S n =>
      let! t := index (cfg m) i in
      let size_tier := g_at c (partition (kind t)) in
      let dest_tier :=
        if F32.ltb (F32.mul (F32.of_Z size_tier) (kind_ratio t)) (F32.of_Z size_0)
        then i else dest_tier in
      static_ratio_loop m c size_0 (i + 1) n dest_tier
  end.

Definition memtier_policy_static_ratio_get_kind (m : memtier_memory) (c : counters) : outcome memkind :=
  let! t0 := index (cfg m) 0 in
  let size_0 := g_at c (partition (kind t0)) in
  let! dest_tier := static_ratio_loop m c size_0 1 (Z.to_nat (cfg_size m - 1)) 0 in
  let! t := index (cfg m) dest_tier in
  Ret (kind t).

(** The loop that looks for the first threshold above [size]. *)
Fixpoint threshold_loop (m : memtier_memory) (size i : Z) (n : nat) : outcome Z :=
  match n with
  | O => Ret i
  | S n =>
      let! t := index (thres m) i in
      if size <? val t then Ret i else threshold_loop m size (i + 1) n
  end.

Definition memtier_policy_dynamic_threshold_get_kind (m : memtier_memory) (size : Z) : outcome memkind :=
  let! i := threshold_loop m size 0 (Z.to_nat (THRESHOLD_NUM (cfg_size m))) in
  let! t := index (cfg m) i in
  Ret (kind t).

(** [hash] is the hash of the call stack and the size, [hotness] its class in
    the ranking. *)
Definition memtier_policy_data_hotness_get_kind (m : memtier_memory) (c : counters)
    (hotness : Hotness_e) : outcome memkind :=
  match hotness with
  | HOTNESS_COLD => let! t := index (cfg m) (cold_tier_id m) in Ret (kind t)
  | HOTNESS_NOT_FOUND => memtier_policy_static_ratio_get_kind m c
  | HOTNESS_HOT => let! t := index (cfg m) (hot_tier_id m) in Ret (kind t)
  end.

(** ** Adapting the thresholds *)
Definition set_val (t : memtier_threshold_cfg) (v : Z) : memtier_threshold_cfg :=
  ThresholdCfg v (min t) (max t) (exp_norm_ratio t) (current_ratio_diff t).
Definition set_diff (t : memtier_threshold_cfg) (d : spec_float) : memtier_threshold_cfg :=
  ThresholdCfg (val t) (min t) (max t) (exp_norm_ratio t) d.

(** The change of a threshold, in bytes: [(size_t)ceilf(val * degree)]. *)
Definition threshold_change (v : Z) (degree : spec_float) : outcome Z :=
  to_size (F32.ceil (F32.mul (F32.of_Z v) degree)).

(** The second half of the loop body: move the threshold and clamp it. *)
Definition move_threshold (deg : spec_float) (prev_alloc_size : Z) (current_ratio : spec_float)
    (t : memtier_threshold_cfg) : outcome memtier_threshold_cfg :=
  let! threshold := threshold_change (val t) deg in
  if (prev_alloc_size =? 0) || F32.gtb current_ratio (exp_norm_ratio t) then
    let higher_threshold := u64 (val t + threshold) in
    if higher_threshold <=? max t then Ret (set_val t higher_threshold) else Ret t
  else
    let lower_threshold := u64 (val t - threshold) in
    if min t <=? lower_threshold then Ret (set_val t lower_threshold) else Ret t.

(** The loop body for one pair of adjacent tiers. *)
Definition update_threshold (trig deg : spec_float) (prev_alloc_size next_alloc_size : Z)
    (t : memtier_threshold_cfg) : outcome memtier_threshold_cfg :=
  if 0 <? prev_alloc_size then
    let current_ratio := F32.div (F32.of_Z next_alloc_size) (F32.of_Z prev_alloc_size) in
    let prev_ratio_diff := current_ratio_diff t in
    let t := set_diff t (SFabs (F32.sub current_ratio (exp_norm_ratio t))) in
    if F32.ltb (current_ratio_diff t) trig || F32.ltb (current_ratio_diff t) prev_ratio_diff
    then Ret t
    else move_threshold deg prev_alloc_size current_ratio t
  else move_threshold deg prev_alloc_size (F32.of_Z (-1)) t.

Fixpoint update_thresholds (c : counters) (i : Z) (n : nat) (m : memtier_memory) : outcome memtier_memory :=
  match n with
  | O => Ret m
  | S n =>
      let! t0 := index (cfg m) i in
      let! t1 := index (cfg m) (i + 1) in
      let! t := index (thres m) i in
      let! t := update_threshold (thres_trigger m) (thres_degree m)
                  (g_at c (partition (kind t0))) (g_at c (partition (kind t1))) t in
      update_thresholds c (i + 1) n (set_thres m (<[Z.to_nat i := t]> (thres m)))
  end.

Definition memtier_policy_dynamic_threshold_update_config (c : counters) (m : memtier_memory) :
    outcome memtier_memory :=
  let m := set_check_cnt m (u32 (thres_check_cnt m - 1)) in
  if 0 <? thres_check_cnt m then Ret m else
  let! m := update_thresholds c 0 (Z.to_nat (THRESHOLD_NUM (cfg_size m))) m in
  Ret (set_check_cnt m (thres_init_check_cnt m)).

(** [memory->update_cfg(memory)]; two of the three functions are empty. *)
Definition run_update_cfg (c : counters) (m : memtier_memory) : outcome memtier_memory :=
  match update_cfg m with
  | dynamic_threshold_update_config => memtier_policy_dynamic_threshold_update_config c m
  | static_ratio_update_config | data_hotness_update_config => Ret m
  end.
