(* ===== verification/CString.v ===== *)
(** * Strings as the C library reads them

    The pieces of [<string.h>], [<stdlib.h>] and [<stdio.h>] that the
    configuration parsers use: [strtok_r], [strtoull] with base 0, and the
    conversions of [sscanf] that occur in their formats. *)
From S2P Require Import Prelude.
From Stdlib Require Export String Ascii.
Open Scope string_scope.
Open Scope Z_scope.

Definition code (c : ascii) : Z := Z.of_nat (nat_of_ascii c).

Definition isspace (c : ascii) : bool :=
  let z := code c in (z =? 32) || ((9 <=? z) && (z <=? 13)).
Definition isdigit (c : ascii) : bool := let z := code c in (48 <=? z) && (z <=? 57).

(** The value of a digit in bases up to 16. *)
Definition digit (c : ascii) : option Z :=
  let z := code c in
  if isdigit c then Some (z - 48)
  else if (97 <=? z) && (z <=? 102) then Some (z - 87)
  else if (65 <=? z) && (z <=? 70) then Some (z - 55)
  else None.

(** The longest prefix of characters that satisfy [p], and the rest. *)
Fixpoint span (p : ascii → bool) (s : string) : string * string :=
  match s with
  | EmptyString => (EmptyString, EmptyString)
  | String c s' =>
      if p c then let (a, b) := span p s' in (String c a, b) else (EmptyString, s)
  end.

Definition slen (s : string) : Z := Z.of_nat (String.length s).

(** [s + n]; moving past the terminating zero is out of bounds. *)
Fixpoint advance (n : nat) (s : string) : outcome string :=
  match n, s with
  | O, _ => Ret s
  | S n, String _ s => advance n s
  | S _, EmptyString => Stop BadDeref
  end.

(** [strcmp(s, t) == 0]. *)
Definition streq (s t : string) : bool := String.eqb s t.

(** ** [strtok_r] with a single separator

    [str] is the first argument and [save] the content of the save pointer,
    [None] for a null pointer.  The result is the token, null at the end, with
    the new save pointer. *)
Definition strtok_r (str : option string) (sep : ascii) (save : option string) :
    outcome (option string * option string) :=
  match (match str with Some s => Some s | None => save end) with
  | None => Stop BadDeref
  | Some s =>
      let is_sep c := Ascii.eqb c sep in
      let (_, s) := span is_sep s in
      match s with
      | EmptyString => Ret (None, Some EmptyString)
      | _ =>
          let (tok, rest) := span (λ c, negb (is_sep c)) s in
          match rest with
          | EmptyString => Ret (Some tok, Some EmptyString)
          | String _ rest => Ret (Some tok, Some rest)
          end
      end
  end.

(** ** [strtoull(s, &endptr, 0)] *)

(** Reads digits of the base; the value, whether there was one, the rest. *)
Fixpoint read_digits (base acc : Z) (any : bool) (s : string) : Z * bool * string :=
  match s with
  | String c s' =>
      match digit c with
      | Some d => if d <? base then read_digits base (acc * base + d) true s' else (acc, any, s)
      | None => (acc, any, s)
      end
  | EmptyString => (acc, any, s)
  end.

Definition ishex (s : string) : bool :=
  match s with String c _ => match digit c with Some _ => true | None => false end | _ => false end.

(** The base that the prefix selects, and the text after the prefix. *)
Definition base_prefix (s : string) : Z * string :=
  match s with
  | String c0 s0 =>
      if Ascii.eqb c0 "0" then
        match s0 with
        | String x s1 =>
            if (Ascii.eqb x "x" || Ascii.eqb x "X") && ishex s1 then (16, s1) else (8, s)
        | EmptyString => (8, s)
        end
      else (10, s)
  | EmptyString => (10, s)
  end.

Definition ULLONG_MAX : Z := 2 ^ 64 - 1.

(** The value, [endptr != str], and [errno != 0]. *)
Definition strtoull (s : string) : Z * bool * bool :=
  let (_, s) := span isspace s in
  let (neg, s) :=
    match s with
    | String c s' =>
        if Ascii.eqb c "-" then (true, s') else if Ascii.eqb c "+" then (false, s') else (false, s)
    | EmptyString => (false, s)
    end in
  let (base, s) := base_prefix s in
  let '(v, any, _) := read_digits base 0 false s in
  if negb any then (0, false, false)
  else if ULLONG_MAX <? v then (ULLONG_MAX, true, true)
  else (if neg then u64 (- v) else v, true, false).

(** ** Pieces of [sscanf] *)

(** A literal of the format, without blanks. *)
Fixpoint literal (lit s : string) : option string :=
  match lit, s with
  | EmptyString, _ => Some s
  | String a lit, String b s => if Ascii.eqb a b then literal lit s else None
  | String _ _, EmptyString => None
  end.

(** [%d]: blanks, a sign, decimal digits. *)
Definition scan_int (s : string) : option (Z * string) :=
  let (_, s) := span isspace s in
  let (neg, s) :=
    match s with
    | String c s' =>
        if Ascii.eqb c "-" then (true, s') else if Ascii.eqb c "+" then (false, s') else (false, s)
    | EmptyString => (false, s)
    end in
  let '(v, any, rest) := read_digits 10 0 false s in
  if any then Some (i32 (if neg then - v else v), rest) else None.

(** [%s]: blanks, then a word. *)
Definition scan_word (s : string) : option (string * string) :=
  let (_, s) := span isspace s in
  let (w, rest) := span (λ c, negb (isspace c)) s in
  match w with EmptyString => None | _ => Some (w, rest) end.

(** At most [n] characters of a string. *)
Fixpoint first_chars (n : nat) (s : string) : string * string :=
  match n, s with
  | S n, String c s => let (a, b) := first_chars n s in (String c a, b)
  | _, _ => (EmptyString, s)
  end.

(** ** Decimal output *)
Definition ascii_of_digit (d : Z) : ascii := ascii_of_nat (Z.to_nat (d + 48)).

(** [%d] of a non-negative number, most significant digit first; [fuel] bounds
    the number of digits. *)
Fixpoint print_dec (fuel : nat) (n : Z) (acc : string) : string :=
  match fuel with
  | O => acc
  | S fuel =>
      let acc := String (ascii_of_digit (n mod 10)) acc in
      if n <? 10 then acc else print_dec fuel (n / 10) acc
  end.

Definition print_int (n : Z) : string := print_dec 20 n EmptyString.

(** ** Facts *)
Lemma digit_ascii d : 0 <= d < 10 → digit (ascii_of_digit d) = Some d.
Proof.
  intros Hd. assert (d = 0 ∨ d = 1 ∨ d = 2 ∨ d = 3 ∨ d = 4 ∨ d = 5 ∨ d = 6 ∨ d = 7 ∨ d = 8 ∨ d = 9)
    as Hc by lia.
  repeat destruct Hc as [->|Hc]; try reflexivity. by subst.
Qed.

Lemma read_last n a any s :
  0 <= n →
  read_digits 10 a any (String (ascii_of_digit (n mod 10)) s) = read_digits 10 (a * 10 + n mod 10) true s.
Proof.
  intros Hn. pose proof (Z.mod_pos_bound n 10 ltac:(lia)). cbn [read_digits].
  rewrite digit_ascii by done. by rewrite (proj2 (Z.ltb_lt _ _)) by lia.
Qed.

(** Reading back what [print_dec] puts in front of [s]. *)
Lemma read_print fuel n any s :
  0 <= n < 10 * 10 ^ Z.of_nat fuel →
  ∃ k, ∀ a, read_digits 10 a any (print_dec (S fuel) n s) = read_digits 10 (a * k + n) true s.
Proof.
  revert n any s. induction fuel as [|fuel IH]; intros n any s Hn; cbn [print_dec].
  - rewrite (proj2 (Z.ltb_lt _ _)) by (simpl in Hn; lia). exists 10. intros a.
    rewrite read_last by lia. do 2 f_equal. apply Z.mod_small. simpl in Hn. lia.
  - rewrite Nat2Z.inj_succ, Z.pow_succ_r in Hn by lia. case_if.
    + exists 10. intros a. rewrite read_last by lia. do 2 f_equal. apply Z.mod_small. lia.
    + destruct (IH (n / 10) any (String (ascii_of_digit (n mod 10)) s)) as [k Hk].
      { split; [apply Z.div_pos; lia|apply Z.div_lt_upper_bound; lia]. }
      exists (10 * k). intros a. cbn [print_dec] in Hk. rewrite Hk, read_last by lia.
      pose proof (Z.div_mod n 10 ltac:(lia)). f_equal. lia.
Qed.

Lemma read_print_int n any s :
  0 <= n < 2 ^ 64 → read_digits 10 0 any (print_int n ++ s) = read_digits 10 n true s.
Proof.
  intros Hn. unfold print_int.
  assert (Happ : ∀ fuel m t, print_dec fuel m t ++ s = print_dec fuel m (t ++ s)).
  { induction fuel as [|fuel IH]; intros m t; [done|]. cbn [print_dec]. case_if; [done|]. by rewrite IH. }
  rewrite Happ. destruct (read_print 19 n any ("" ++ s)) as [k Hk]; [simpl in *; lia|].
  rewrite Hk, Z.mul_0_l. done.
Qed.

(** The first character of a printed number is a digit, and not a zero unless
    the number is zero. *)
Lemma print_int_head n :
  0 <= n < 2 ^ 64 →
  ∃ d s, 0 <= d < 10 ∧ print_int n = String (ascii_of_digit d) s ∧ (n = 0 ∧ s = "" ∨ 0 < d).
Proof.
  intros Hn. unfold print_int.
  assert (Hgen : ∀ fuel m t, 0 < m < 10 ^ Z.of_nat fuel →
    ∃ d s, 0 < d < 10 ∧ print_dec fuel m t = String (ascii_of_digit d) s).
  { clear. induction fuel as [|fuel IH]; intros m t Hm; [simpl in Hm; lia|].
    rewrite Nat2Z.inj_succ, Z.pow_succ_r in Hm by lia. cbn [print_dec]. case_if.
    - exists m, t. rewrite Z.mod_small by lia. split; [lia|done].
    - apply IH. split; [apply Z.div_str_pos; lia|apply Z.div_lt_upper_bound; lia]. }
  destruct (decide (n = 0)) as [->|].
  - exists 0, "". split; [lia|]. split; [done|]. by left.
  - destruct (Hgen 20%nat n "") as (d & s & Hd & Hs); [simpl; lia|].
    exists d, s. split; [lia|]. split; [done|]. right. lia.
Qed.

Lemma append_cons c s t : String c s ++ t = String c (s ++ t).
Proof. reflexivity. Qed.

Lemma append_empty s : s ++ "" = s.
Proof. induction s as [|c s IH]; [done|]. by rewrite append_cons, IH. Qed.

(** A printed number is read back by [strtoull] and by [%d]. *)
Lemma strtoull_print n : 0 <= n < 2 ^ 64 → strtoull (print_int n) = (n, true, false).
Proof.
  intros Hn. destruct (print_int_head n Hn) as (d & s & Hd & Hs & Hz).
  pose proof (read_print_int n false "" Hn) as Hr. rewrite Hs in *.
  rewrite append_empty in Hr. destruct Hz as [[-> ->]|Hp].
  - assert (d = 0 ∨ 0 < d) as [->|] by lia; [done|].
    exfalso. cbn [read_digits] in Hr. rewrite digit_ascii, (proj2 (Z.ltb_lt _ _)) in Hr by lia.
    injection Hr. lia.
  - assert (Hc : isspace (ascii_of_digit d) = false ∧ Ascii.eqb (ascii_of_digit d) "-" = false ∧
      Ascii.eqb (ascii_of_digit d) "+" = false ∧ Ascii.eqb (ascii_of_digit d) "0" = false).
    { assert (d = 1 ∨ d = 2 ∨ d = 3 ∨ d = 4 ∨ d = 5 ∨ d = 6 ∨ d = 7 ∨ d = 8 ∨ d = 9) as Hc by lia.
      repeat destruct Hc as [->|Hc]; try done. by subst. }
    destruct Hc as (H1 & H2 & H3 & H4). unfold strtoull. cbn [span]. rewrite H1, H2, H3.
    unfold base_prefix. rewrite H4, Hr. cbn [read_digits negb].
    by rewrite (proj2 (Z.ltb_ge _ _)) by (unfold ULLONG_MAX; lia).
Qed.
