(* ===== verification/MemtierBuilder.v ===== *)
(** * Building a tiered memory ([src/memkind_memtier.c])

    The builders of the three policies, the named parameters that
    [memtier_ctl_set] sets, and the number parsers.  The result of each call of
    [jemk_malloc], [jemk_calloc] and [jemk_realloc] is an argument: [None] or
    [false] when it returns a null pointer. *)
From S2P Require Import Prelude Float CString Counters Events Tachanka Memtier.
From Stdlib Require Import SpecFloat.

(** A tier of a zeroed array. *)
Definition null_tier : memtier_tier_cfg := TierCfg (Kind NULL 0) (S754_zero false).
Definition null_threshold : memtier_threshold_cfg :=
  ThresholdCfg 0 0 0 (S754_zero false) (S754_zero false).

(** [mem] is the fresh block with whatever it contains. *)
Definition memtier_memory_init (tier_size : Z) (is_dynamic_threshold is_data_hotness : bool)
    (mem : option memtier_memory) (cfg_ok : bool) : option memtier_memory :=
  if tier_size =? 0 then None else
  match mem with
  | None => None
  | Some m =>
      if negb cfg_ok then None else
      let '(gk, pa, uc, cnt) :=
        if is_dynamic_threshold then
          (memtier_policy_dynamic_threshold, memtier_empty_post_alloc,
           dynamic_threshold_update_config, THRESHOLD_CHECK_CNT)
        else if is_data_hotness then
          (memtier_policy_data_hotness, memtier_policy_data_hotness_post_alloc,
           data_hotness_update_config, thres_check_cnt m)
        else
          (if tier_size =? 1 then memtier_single else memtier_policy_static_ratio,
           memtier_empty_post_alloc, static_ratio_update_config, thres_check_cnt m) in
      Some (MemtierMemory tier_size (replicate (Z.to_nat tier_size) null_tier) [] cnt
              (thres_init_check_cnt m) (thres_trigger m) (thres_degree m)
              (hot_tier_id m) (cold_tier_id m) gk pa uc)
  end.

(** The loop that copies the kinds with their ratios to the first tier. *)
Fixpoint normalize_loop (b : memtier_builder) (r0 : spec_float) (i : Z) (n : nat) (m : memtier_memory) :
    outcome memtier_memory :=
  match n with
  | O => Ret m
  | S n =>
      let! c := index (b_cfg b) i in
      let! _ := index (cfg m) i in
      let t := TierCfg (kind c) (F32.div r0 (kind_ratio c)) in
      normalize_loop b r0 (i + 1) n (set_cfg m (<[Z.to_nat i := t]> (cfg m)))
  end.

Definition normalize (b : memtier_builder) (m : memtier_memory) : outcome memtier_memory :=
  let! c0 := index (b_cfg b) 0 in
  let! m := normalize_loop b (kind_ratio c0) 1 (Z.to_nat (cfg_size m - 1)) m in
  let! _ := index (cfg m) 0 in
  Ret (set_cfg m (<[0%nat := TierCfg (kind c0) (F32.of_Z 1)]> (cfg m))).

Definition builder_static_create_memory (b : memtier_builder) (mem : option memtier_memory) (cfg_ok : bool) :
    outcome (option memtier_memory) :=
  match memtier_memory_init (b_cfg_size b) false false mem cfg_ok with
  | None => Ret None
  | Some m => let! m := normalize b m in Ret (Some m)
  end.

(** The loop that copies the thresholds. *)
Fixpoint copy_thresholds (b : memtier_builder) (i : Z) (n : nat) : outcome (list memtier_threshold_cfg) :=
  match n with
  | O => Ret []
  | S n =>
      let! t := index (b_thres b) i in
      let! c := index (b_cfg b) i in
      let! c' := index (b_cfg b) (i + 1) in
      let! l := copy_thresholds b (i + 1) n in
      Ret (ThresholdCfg (val t) (min t) (max t) (F32.div (kind_ratio c') (kind_ratio c))
             (S754_zero false) :: l)
  end.

(** The validation loop; [prev] is the threshold before. *)
Fixpoint validate (prev : option memtier_threshold_cfg) (l : list memtier_threshold_cfg) : bool :=
  match l with
  | [] => true
  | t :: l =>
      if val t <? min t then false
      else if max t <? val t then false
      else if match prev with Some p => min t <? max p | None => false end then false
      else validate (Some t) l
  end.

Definition builder_dynamic_create_memory (b : memtier_builder) (thres_ok : bool)
    (mem : option memtier_memory) (cfg_ok : bool) : outcome (option memtier_memory) :=
  if b_cfg_size b <? 2 then Ret None else
  if negb thres_ok then Ret None else
  match memtier_memory_init (b_cfg_size b) true false mem cfg_ok with
  | None => Ret None
  | Some m =>
      let m := set_check m (check_cnt b) (trigger b) (degree b) in
      let! l := copy_thresholds b 0 (Z.to_nat (THRESHOLD_NUM (b_cfg_size b))) in
      let m := set_thres m l in
      if negb (validate None l) then Ret None
      else if F32.ltb (thres_degree m) (S754_zero false) then Ret None
      else if F32.ltb (thres_trigger m) (S754_zero false) then Ret None
      else let! m := normalize b m in Ret (Some m)
  end.

(** ** Named parameters *)

Definition NAME_SUBSTR : Z := 256.

(** [val] is the object that the caller passes: its bytes are read as the type
    that the name asks for. *)
Definition as_size_t (v : list Z) : Z := le_val (take 8 v).
Definition as_unsigned (v : list Z) : Z := le_val (take 4 v).
Definition as_float (v : list Z) : spec_float := F32.of_bits (le_val (take 4 v)).

Definition set_b_thres (b : memtier_builder) (l : list memtier_threshold_cfg) : memtier_builder :=
  MemtierBuilder (b_cfg_size b) (b_cfg b) l (check_cnt b) (trigger b) (degree b)
    (create_mem b) (update_builder b) (ctl_set b).
Definition set_params (b : memtier_builder) (cnt : Z) (t d : spec_float) : memtier_builder :=
  MemtierBuilder (b_cfg_size b) (b_cfg b) (b_thres b) cnt t d (create_mem b) (update_builder b) (ctl_set b).

(** The part after ["thresholds"]: the index and the field.  [chr_read] keeps
    the length of the name when the closing bracket is missing. *)
Definition ctl_set_threshold (b : memtier_builder) (query : string) (chr_read : Z) (v : list Z) :
    outcome (Z * memtier_builder) :=
  let '(th_indx, chr_read) :=
    match literal "[" query with
    | Some s =>
        match scan_int s with
        | Some (n, s') =>
            match literal "]" s' with
            | Some rest => (n, slen query - slen rest)
            | None => (n, chr_read)
            end
        | None => (-1, chr_read)
        end
    | None => (-1, chr_read)
    end in
  if th_indx <? 0 then Ret (-1, b) else
  if b_cfg_size b <=? u32 (th_indx + 1) then Ret (-1, b) else
  let! query := advance (Z.to_nat chr_read) query in
  let! t := index (b_thres b) th_indx in
  let put t' := set_b_thres b (<[Z.to_nat th_indx := t']> (b_thres b)) in
  match literal "." query with
  | None => Ret (-1, b)
  | Some s =>
      match scan_word s with
      | None => Ret (-1, b)
      | Some (w, _) =>
          if NAME_SUBSTR <=? slen w then Stop OutOfBounds
          else if streq w "val" then
            Ret (0, put (ThresholdCfg (as_size_t v) (min t) (max t) (exp_norm_ratio t) (current_ratio_diff t)))
          else if streq w "min" then
            Ret (0, put (ThresholdCfg (val t) (as_size_t v) (max t) (exp_norm_ratio t) (current_ratio_diff t)))
          else if streq w "max" then
            Ret (0, put (ThresholdCfg (val t) (min t) (as_size_t v) (exp_norm_ratio t) (current_ratio_diff t)))
          else Ret (-1, b)
      end
  end.

Definition builder_dynamic_ctl_set (b : memtier_builder) (name : string) (v : list Z) :
    outcome (Z * memtier_builder) :=
  match literal "policy.dynamic_threshold." name with
  | None => Ret (-1, b)
  | Some query =>
      let (name_substr, rest) := span (λ c, negb (Ascii.eqb c "[")) query in
      if NAME_SUBSTR <=? slen name_substr then Stop OutOfBounds
      else if streq name_substr "thresholds" then ctl_set_threshold b rest (slen name_substr) v
      else if streq name_substr "check_cnt" then
        Ret (0, set_params b (as_unsigned v) (trigger b) (degree b))
      else if streq name_substr "trigger" then
        Ret (0, set_params b (check_cnt b) (as_float v) (degree b))
      else if streq name_substr "degree" then
        Ret (0, set_params b (check_cnt b) (trigger b) (as_float v))
      else Ret (-1, b)
  end.

Definition builder_static_ctl_set (b : memtier_builder) (name : string) (v : list Z) :
    outcome (Z * memtier_builder) := Ret (-1, b).
Definition builder_hot_ctl_set (b : memtier_builder) (name : string) (v : list Z) :
    outcome (Z * memtier_builder) := Ret (-1, b).

Definition memtier_ctl_set (b : memtier_builder) (name : string) (v : list Z) : outcome (Z * memtier_builder) :=
  match ctl_set b with
  | builder_static_ctl => builder_static_ctl_set b name v
  | builder_dynamic_ctl => builder_dynamic_ctl_set b name v
  | builder_hot_ctl => builder_hot_ctl_set b name v
  end.

(** ** Numbers *)

(** [strtod] of the C library: the value, [endptr != str], [errno != 0]. *)
Class LibC := { strtod : string → spec_float * bool * bool }.

Definition parse_double `{LibC} (str : string) : option spec_float :=
  let '(v, any, err) := strtod str in if negb any || err then None else Some v.

Definition starts_minus (str : string) : bool :=
  match str with String c _ => Ascii.eqb c "-" | EmptyString => false end.

Definition parse_ull (str : string) : option Z :=
  if starts_minus str then None else
  let '(v, any, err) := strtoull str in if negb any || err then None else Some v.

(** ** Tiers *)

(** [junk] is the uninitialised tail of the reallocated array. *)
Definition builder_dynamic_update (realloc_ok : bool) (junk : memtier_threshold_cfg) (b : memtier_builder) :
    Z * memtier_builder :=
  if b_cfg_size b <? 1 then (0, b) else
  if negb realloc_ok then (-1, b) else
  let l := resize (Z.to_nat (b_cfg_size b + 1)) junk (b_thres b) in
  let th_indx := b_cfg_size b - 1 in
  let t := ThresholdCfg (u32 (THRESHOLD_STEP * b_cfg_size b)) (512 + THRESHOLD_STEP * th_indx)
             (1536 + THRESHOLD_STEP * th_indx - 1) (exp_norm_ratio junk) (current_ratio_diff junk) in
  (0, set_b_thres b (<[Z.to_nat th_indx := t]> l)).

(** The new builder, if any, and the global policy [pol]. *)
Definition memtier_builder_new (calloc_ok : bool) (policy pol : Z) : option memtier_builder * Z :=
  if negb calloc_ok then (None, pol) else
  let z := S754_zero false in
  if policy =? MEMTIER_POLICY_STATIC_RATIO then
    (Some (MemtierBuilder 0 [] [] 0 z z builder_static_create false builder_static_ctl), policy)
  else if policy =? MEMTIER_POLICY_DYNAMIC_THRESHOLD then
    (Some (MemtierBuilder 0 [] [] THRESHOLD_CHECK_CNT THRESHOLD_TRIGGER THRESHOLD_DEGREE
             builder_dynamic_create true builder_dynamic_ctl), policy)
  else if policy =? MEMTIER_POLICY_DATA_HOTNESS then
    (Some (MemtierBuilder 0 [] [] 0 z z builder_hot_create false builder_hot_ctl), policy)
  else (None, policy).

Definition memtier_builder_add_tier (b : memtier_builder) (k : option memkind) (ratio : Z)
    (thres_ok : bool) (junk : memtier_threshold_cfg) (cfg_ok : bool) : Z * memtier_builder :=
  match k with
  | None => (-1, b)
  | Some k =>
      if existsb (λ c, kaddr (kind c) =? kaddr k) (take (Z.to_nat (b_cfg_size b)) (b_cfg b)) then (-1, b) else
      let (ret, b) := if update_builder b then builder_dynamic_update thres_ok junk b else (0, b) in
      if negb (ret =? 0) then (-1, b) else
      if negb cfg_ok then (-1, b) else
      (0, MemtierBuilder (u32 (b_cfg_size b + 1))
            (take (Z.to_nat (b_cfg_size b)) (b_cfg b) ++ [TierCfg k (F32.of_Z ratio)])
            (b_thres b) (check_cnt b) (trigger b) (degree b) (create_mem b) (update_builder b) (ctl_set b))
  end.

(** ** The hotness policy *)

(** The global parameters of the hotness measurement. *)
Record hot_params := HotParams {
  old_time_window_hotness_weight : spec_float;
  pebs_freq_hz : spec_float;
  sampling_interval : spec_float;
  hotness_measure_window : Z;
}.

Definition DEFAULT_OLD_HOTNESS_WINDOW_WEIGHT : spec_float := S754_finite false 7205759403792794 (-54). (** 0.4 *)
Definition HOTNESS_PEBS_SAMPLING_INTERVAL : Z := 1000.
Definition HOTNESS_PEBS_THREAD_FREQUENCY : Z := 10.
Definition DEFAULT_HOTNESS_MEASURE_WINDOW : Z := 1000000000.
Definition RANKING_BUFFER_SIZE_ELEMENTS : Z := 1000000.

(** A variable that holds a non-negative [double]; a bad value aborts. *)
Definition env_double `{LibC} (env : string → option string) (name : string) (dflt : spec_float) :
    outcome spec_float :=
  match env name with
  | None => Ret dflt
  | Some v =>
      if starts_minus v then Stop Exited
      else match parse_double v with None => Stop Exited | Some x => Ret x end
  end.

(** The environment variables, read in the order of the source. *)
Definition read_hot_params `{LibC} (env : string → option string) : outcome hot_params :=
  let! window :=
    match env "HOTNESS_MEASURE_WINDOW" with
    | None => Ret DEFAULT_HOTNESS_MEASURE_WINDOW
    | Some v => match parse_ull v with None => Stop Exited | Some x => Ret x end
    end in
  let! interval := env_double env "SAMPLE_FREQUENCY" (F64.of_Z HOTNESS_PEBS_SAMPLING_INTERVAL) in
  let! freq := env_double env "PEBS_FREQ_HZ" (F64.of_Z HOTNESS_PEBS_THREAD_FREQUENCY) in
  let! _ := if match env "PEBS_FREQ_HZ" with Some _ => SFeqb freq F64.zero | None => false end
            then Stop Exited else Ret () in
  let! weight := env_double env "OLD_TIME_WINDOW_HOTNESS_WEIGHT" DEFAULT_OLD_HOTNESS_WINDOW_WEIGHT in
  Ret (HotParams weight freq interval window).

(** The loop that normalises the two ratios and looks for the hot tier. *)
Fixpoint hot_tiers (default_addr : Z) (b : memtier_builder) (ratio_sum : spec_float) (i : Z) (n : nat)
    (m : memtier_memory) : outcome memtier_memory :=
  match n with
  | O => Ret m
  | S n =>
      let! c := index (b_cfg b) i in
      let! _ := index (cfg m) i in
      let r := F32.of_f64 (F64.div (F64.of_f32 (kind_ratio c)) ratio_sum) in
      let m := set_cfg m (<[Z.to_nat i := TierCfg (kind c) r]> (cfg m)) in
      let m := if kaddr (kind c) =? default_addr then set_tiers m i (1 - i) else m in
      hot_tiers default_addr b ratio_sum (i + 1) n m
  end.

(** [default_addr] is the address of [MEMKIND_DEFAULT]; [init] stands for
    [tachanka_init] and [pebs_init]. *)
Definition builder_hot_create_memory `{LibC} {T : Type} (env : string → option string) (default_addr : Z)
    (init : spec_float → Z → outcome T) (b : memtier_builder) (mem : option memtier_memory) (cfg_ok : bool)
    (c : counters) : outcome (memtier_memory * hot_params * T * counters) :=
  let! hp := read_hot_params env in
  let! tach := init (old_time_window_hotness_weight hp) RANKING_BUFFER_SIZE_ELEMENTS in
  match memtier_memory_init (b_cfg_size b) false true mem cfg_ok with
  | None => Stop BadDeref
  | Some m =>
      let m := set_tiers m (-1) (cold_tier_id m) in
      if negb (cfg_size m =? 2) then Stop Exited else
      let! c0 := index (b_cfg b) 0 in
      let! c1 := index (b_cfg b) 1 in
      let ratio_sum := F64.of_f32 (F32.add (kind_ratio c0) (kind_ratio c1)) in
      let! m := hot_tiers default_addr b ratio_sum 0 2 m in
      if hot_tier_id m =? -1 then Stop Exited else
      let! t := index (cfg m) (hot_tier_id m) in
      let hot_total_ratio := F64.of_f32 (kind_ratio t) in
      let c := set_hot c (cfg_size m) (hot_tier_id m) hot_total_ratio in
      let! c := tachanka_set_dram_total_ratio hot_total_ratio hot_total_ratio c in
      let! t0 := index (cfg m) 0 in
      let! t1 := index (cfg m) 1 in
      let temp := F64.of_f32 (kind_ratio t0) in
      let m := set_cfg m [TierCfg (kind t0) (F32.of_Z 1);
                          TierCfg (kind t1) (F32.of_f64 (F64.div temp (F64.of_f32 (kind_ratio t1))))] in
      Ret (m, hp, tach, c)
  end.
