(* ===== verification/MemtierAlloc.v ===== *)
(** * Allocating from a tiered memory ([src/memkind_memtier.c])

    The allocation entry points: each chooses a kind, calls the kind's
    allocator, counts the usable size, and under the hotness policy tells the
    background thread by pushing an event.  The allocators of the kinds are the
    interface [MemkindAPI] ([memkind.h] and jemalloc); the optional decorator
    callbacks are absent, as in the default build. *)
From Stdlib Require Import SpecFloat.
From stdpp Require Import functions.
From S2P Require Import Prelude Float Index Alloc Counters Queue Events Tachanka Memtier.

Class MemkindAPI (A : Type) := {
  MEMKIND_DEFAULT : memkind;
  memkind_malloc : memkind → Z → A → Z * A;
  memkind_calloc : memkind → Z → Z → A → Z * A;
  memkind_realloc : memkind → Z → Z → A → Z * A;
  memkind_posix_memalign : memkind → Z → Z → Z → A → Z * Z * A;  (** result, [*memptr] *)
  memkind_free : memkind → Z → A → A;
  memkind_detect_kind : Z → A → option memkind;
  jemk_malloc_usable_size : Z → A → Z;
}.

(** The counters of pushed events that the file keeps. *)
Inductive stat :=
  | memtier_free_called | memtier_hotness_free_called
  | successful_adds | failed_adds
  | successful_adds_malloc | failed_adds_malloc
  | successful_adds_realloc0 | failed_adds_realloc0
  | successful_adds_realloc1 | failed_adds_realloc1
  | successful_adds_realloc2 | failed_adds_realloc2
  | successful_adds_free | failed_adds_free.
#[global] Instance stat_eq_dec : EqDecision stat.
Proof. solve_decision. Defined.

Record mstate (A C W R : Type) := MState {
  ctr : counters;
  pol : Z;
  tach : tachanka C W R;
  stats : stat → Z;
  heap : A;
}.
Arguments MState {A C W R}. Arguments ctr {A C W R}. Arguments pol {A C W R}.
Arguments tach {A C W R}. Arguments stats {A C W R}. Arguments heap {A C W R}.

Section ops.
Context {A C W R : Type} `{MemkindAPI A} `{AddrIndex C} `{NodeAlloc W} `{Ranking R}.
Implicit Types s : mstate A C W R.

Definition set_ctr (c : counters) s : mstate A C W R := MState c (pol s) (tach s) (stats s) (heap s).
Definition set_tach (t : tachanka C W R) s : mstate A C W R := MState (ctr s) (pol s) t (stats s) (heap s).
Definition set_mheap (a : A) s : mstate A C W R := MState (ctr s) (pol s) (tach s) (stats s) a.
Definition bump (x : stat) s : mstate A C W R :=
  MState (ctr s) (pol s) (tach s) (<[x := u64 (stats s x + 1)]> (stats s)) (heap s).

(** Push an event and count whether it was accepted. *)
Definition push_event (e : EventEntry) (ok fail : stat) s : outcome (mstate A C W R) :=
  let! (success, t) := tachanka_ranking_event_push e (tach s) in
  let s := set_tach t s in
  Ret (if success then bump ok (bump successful_adds s) else bump fail (bump failed_adds s)).

Definition usable_size (p : Z) s : Z := jemk_malloc_usable_size p (heap s).

Definition increment (self : Z) (k : memkind) (n : Z) s : outcome (mstate A C W R) :=
  let! c := increment_alloc_size self (partition k) n (ctr s) in Ret (set_ctr c s).
Definition decrement (self : Z) (k : memkind) (n : Z) s : outcome (mstate A C W R) :=
  let! c := decrement_alloc_size self (partition k) n (ctr s) in Ret (set_ctr c s).

Definition hotness_policy s : bool := pol s =? MEMTIER_POLICY_DATA_HOTNESS.
Definition is_default (k : memkind) : bool := kaddr k =? kaddr MEMKIND_DEFAULT.

(** ** Per kind *)
Definition memtier_kind_malloc (self : Z) (k : memkind) (size : Z) s : outcome (Z * mstate A C W R) :=
  let (ptr, a) := memkind_malloc k size (heap s) in
  let s := set_mheap a s in
  let! s := increment self k (usable_size ptr s) s in
  Ret (ptr, s).

Definition memtier_kind_calloc (self : Z) (k : memkind) (num size : Z) s : outcome (Z * mstate A C W R) :=
  let (ptr, a) := memkind_calloc k num size (heap s) in
  let s := set_mheap a s in
  let! s := increment self k (usable_size ptr s) s in
  Ret (ptr, s).

(** The hash of the event pushed for a null pointer is not initialised by
    name, so it is zero. *)
Definition memtier_kind_realloc (self : Z) (k : memkind) (ptr size : Z) s : outcome (Z * mstate A C W R) :=
  let hot := is_default k in
  if (size =? 0) && negb (ptr =? NULL) then
    let old_size := usable_size ptr s in
    let! s := if hotness_policy s
              then push_event (DestroyRemove ptr old_size) successful_adds_realloc0 failed_adds_realloc0 s
              else Ret s in
    let! s := decrement self k old_size s in
    Ret (NULL, set_mheap (memkind_free k ptr (heap s)) s)
  else if ptr =? NULL then
    let! s := if hotness_policy s
              then push_event (CreateAdd 0 ptr size hot) successful_adds_realloc2 failed_adds_realloc2 s
              else Ret s in
    memtier_kind_malloc self k size s
  else
    let! s := decrement self k (usable_size ptr s) s in
    let (n_ptr, a) := memkind_realloc k ptr size (heap s) in
    let s := set_mheap a s in
    let! s := if hotness_policy s
              then push_event (Realloc ptr n_ptr 0 size hot) successful_adds_realloc1 failed_adds_realloc1 s
              else Ret s in
    let! s := increment self k (usable_size n_ptr s) s in
    Ret (n_ptr, s).

(** [memptr] is the content of [*memptr] on entry. *)
Definition memtier_kind_posix_memalign (self : Z) (k : memkind) (memptr alignment size : Z) s :
    outcome (Z * Z * mstate A C W R) :=
  let '(res, ptr, a) := memkind_posix_memalign k memptr alignment size (heap s) in
  let s := set_mheap a s in
  let! s := increment self k (usable_size ptr s) s in
  Ret (res, ptr, s).

Definition memtier_usable_size (ptr : Z) s : Z := usable_size ptr s.

Definition memtier_kind_free (self : Z) (kind : option memkind) (ptr : Z) s : outcome (mstate A C W R) :=
  match (match kind with Some k => Some k | None => memkind_detect_kind ptr (heap s) end) with
  | None => Ret s
  | Some k =>
      let s := bump memtier_free_called s in
      let! s := if hotness_policy s
                then let! s := push_event (DestroyRemove ptr 0) successful_adds_free failed_adds_free s in
                     Ret (bump memtier_hotness_free_called s)
                else Ret s in
      let! s := decrement self k (usable_size ptr s) s in
      Ret (set_mheap (memkind_free k ptr (heap s)) s)
  end.

(** ** Per memory *)

(** [memory->get_kind(memory, size, &data)]; [bthash] is the hash of the call
    stack for an allocation of the size ([src/bthash.c]).  Under the other
    policies [data] keeps what it held. *)
Definition run_get_kind (bthash : Z → Z) (m : memtier_memory) (size data : Z) s : outcome (memkind * Z) :=
  match get_kind m with
  | memtier_single => let! k := memtier_single_get_kind m in Ret (k, data)
  | memtier_policy_static_ratio => let! k := memtier_policy_static_ratio_get_kind m (ctr s) in Ret (k, data)
  | memtier_policy_dynamic_threshold =>
      let! k := memtier_policy_dynamic_threshold_get_kind m size in Ret (k, data)
  | memtier_policy_data_hotness =>
      let data := bthash size in
      let! hotness := tachanka_get_hotness_type_hash data (tach s) in
      let! k := memtier_policy_data_hotness_get_kind m (ctr s) hotness in
      Ret (k, data)
  end.

Definition run_post_alloc (m : memtier_memory) (data ptr size : Z) (hot : bool) s : outcome (mstate A C W R) :=
  match post_alloc m with
  | memtier_empty_post_alloc => Ret s
  | memtier_policy_data_hotness_post_alloc =>
      push_event (CreateAdd data ptr size hot) successful_adds_malloc failed_adds_malloc s
  end.

Definition memtier_malloc (self : Z) (bthash : Z → Z) (data : Z) (m : memtier_memory) (size : Z) s :
    outcome (Z * memtier_memory * mstate A C W R) :=
  let! (k, data) := run_get_kind bthash m size data s in
  let! (ptr, s) := memtier_kind_malloc self k size s in
  let! s := run_post_alloc m data ptr size (is_default k) s in
  let! m := run_update_cfg (ctr s) m in
  Ret (ptr, m, s).

Definition memtier_calloc (self : Z) (bthash : Z → Z) (data : Z) (m : memtier_memory) (num size : Z) s :
    outcome (Z * memtier_memory * mstate A C W R) :=
  let! (k, data) := run_get_kind bthash m size data s in
  let! (ptr, s) := memtier_kind_calloc self k num size s in
  let! s := run_post_alloc m data ptr size (is_default k) s in
  let! m := run_update_cfg (ctr s) m in
  Ret (ptr, m, s).

(** A pointer of no known kind makes [memtier_kind_realloc] follow a null kind. *)
Definition memtier_realloc (self : Z) (bthash : Z → Z) (data : Z) (m : memtier_memory) (ptr size : Z) s :
    outcome (Z * memtier_memory * mstate A C W R) :=
  if negb (ptr =? NULL) then
    let! k := deref (memkind_detect_kind ptr (heap s)) in
    let! (ptr, s) := memtier_kind_realloc self k ptr size s in
    let! m := run_update_cfg (ctr s) m in
    Ret (ptr, m, s)
  else if size =? 0 then Ret (NULL, m, s)
  else memtier_malloc self bthash data m size s.

Definition memtier_posix_memalign (self : Z) (bthash : Z → Z) (m : memtier_memory)
    (memptr alignment size : Z) s : outcome (Z * Z * memtier_memory * mstate A C W R) :=
  let! (k, data) := run_get_kind bthash m size 0 s in
  let! (ret, ptr, s) := memtier_kind_posix_memalign self k memptr alignment size s in
  let! s := run_post_alloc m data ptr size (is_default k) s in
  let! m := run_update_cfg (ctr s) m in
  Ret (ret, ptr, m, s).
End ops.
