(* ===== verification/MemtierSpec.v ===== *)
(** * What the policies and builders promise *)
From Stdlib Require Import SpecFloat.
From S2P Require Import CString Prelude Float Counters Events Tachanka Memtier MemtierBuilder.

(** ** Thresholds *)

(** A threshold lies in its interval; intervals follow each other. *)
Definition in_range (t : memtier_threshold_cfg) : Prop := min t <= val t <= max t.

Fixpoint ascending (prev : option memtier_threshold_cfg) (l : list memtier_threshold_cfg) : Prop :=
  match l with
  | [] => True
  | t :: l =>
      in_range t ∧ (match prev with Some p => max p <= min t | None => True end) ∧ ascending (Some t) l
  end.

(** A dynamic-threshold memory as its builder makes it. *)
Record thresholds_ok (m : memtier_memory) : Prop := {
  th_size : 2 <= cfg_size m < 2 ^ 32;
  th_cfg : Z.of_nat (length (cfg m)) = cfg_size m;
  th_len : Z.of_nat (length (thres m)) = cfg_size m - 1;
  th_asc : ascending None (thres m);
}.

Lemma validate_ascending prev l : validate prev l = true ↔ ascending prev l.
Proof.
  revert prev. induction l as [|t l IH]; intros prev; simpl; [done|].
  unfold in_range. rewrite <- IH. destruct (val t <? min t) eqn:E1; zb; [split; [done|lia]|].
  destruct (max t <? val t) eqn:E2; zb; [split; [done|lia]|].
  destruct prev as [p|]; [|intuition lia].
  destruct (min t <? max p) eqn:E3; zb; [split; [done|lia]|]. intuition lia.
Qed.

Lemma ascending_le prev l i j t u :
  ascending prev l → (i <= j)%nat → l !! i = Some t → l !! j = Some u → val t <= val u.
Proof.
  revert prev i j. induction l as [|x l IH]; intros prev i j; simpl; [done|].
  intros (Hx & _ & Hl) Hij Hi Hj. destruct i as [|i], j as [|j]; simplify_eq/=; [done| |lia|by eapply (IH _ i j); eauto with lia].
  assert (Hfirst : ∀ p l, in_range p → ascending (Some p) l → ∀ j u, l !! j = Some u → val p <= val u).
  { clear. intros p l. revert p. induction l as [|y l IH]; intros p Hp; simpl; [done|].
    unfold in_range in *. intros (Hy & Hpy & Hl) [|j] u Hu; simplify_eq/=; [lia|].
    pose proof (IH y Hy Hl j u Hu). lia. }
  eauto.
Qed.

Lemma index_lookup {X} (l : list X) i x : 0 <= i → l !! Z.to_nat i = Some x → index l i = Ret x.
Proof. intros Hi Hx. unfold index. by rewrite (proj2 (Z.ltb_ge i 0)), Hx by done. Qed.

Lemma threshold_loop_ok m size n i :
  0 <= i → Z.of_nat (length (thres m)) = i + Z.of_nat n →
  ∃ j, threshold_loop m size i n = Ret j ∧ i <= j <= i + Z.of_nat n ∧
    (∀ k t, i <= Z.of_nat k < j → thres m !! k = Some t → val t <= size) ∧
    (∀ t, thres m !! Z.to_nat j = Some t → size < val t).
Proof.
  revert i. induction n as [|n IH]; intros i Hi Hlen; simpl.
  - exists i. split; [done|]. split; [lia|]. split; [lia|].
    intros t Ht. apply lookup_lt_Some in Ht. lia.
  - destruct (lookup_lt_is_Some_2 (thres m) (Z.to_nat i)) as [t Ht]; [lia|].
    rewrite (index_lookup _ _ _ Hi Ht). simpl. case_if.
    + exists i. split; [done|]. split; [lia|]. split; [lia|]. intros t' Ht'. congruence.
    + destruct (IH (i + 1)) as (j & -> & Hj & Hlow & Hhigh); [lia..|].
      exists j. split; [done|]. split; [lia|]. split; [|done].
      intros k t' Hk Ht'. destruct (decide (Z.of_nat k = i)); [|apply (Hlow k); [lia|done]].
      replace k with (Z.to_nat i) in Ht' by lia. by simplify_eq.
Qed.

Lemma dynamic_choice_ok m size :
  thresholds_ok m →
  ∃ j t, memtier_policy_dynamic_threshold_get_kind m size = Ret (kind t) ∧ cfg m !! j = Some t ∧
    (∀ k u, (k < j)%nat → thres m !! k = Some u → val u <= size) ∧
    (∀ k u, (j <= k)%nat → thres m !! k = Some u → size < val u).
Proof.
  intros [Hsz Hcfg Hlen Hasc]. unfold memtier_policy_dynamic_threshold_get_kind, THRESHOLD_NUM.
  assert (u32 (cfg_size m - 1) = cfg_size m - 1) as -> by (unfold u32; apply Z.mod_small; lia).
  destruct (threshold_loop_ok m size (Z.to_nat (cfg_size m - 1)) 0) as (j & -> & Hj & Hlow & Hhigh); [lia..|].
  cbn [obind]. destruct (lookup_lt_is_Some_2 (cfg m) (Z.to_nat j)) as [t Ht]; [lia|].
  rewrite (index_lookup _ j _ ltac:(lia) Ht). exists (Z.to_nat j), t. split; [done|]. split; [done|]. split.
  - intros k u Hk Hu. apply (Hlow k u); [lia|done].
  - intros k u Hk Hu. destruct (lookup_lt_is_Some_2 (thres m) (Z.to_nat j)) as [v Hv].
    { apply lookup_lt_Some in Hu. lia. }
    specialize (Hhigh v Hv). pose proof (ascending_le _ _ _ _ _ _ Hasc Hk Hv Hu). lia.
Qed.

(** C36: The dynamic-threshold policy picks the tier by size: the chosen tier [j] has
    all thresholds below it at most [size] and all from it on above [size]. *)
Theorem dynamic_threshold_choice m size :
  thresholds_ok m →
  ∃ j t, memtier_policy_dynamic_threshold_get_kind m size = Ret (kind t) ∧ cfg m !! j = Some t ∧
    (∀ k u, (k < j)%nat → thres m !! k = Some u → val u <= size) ∧
    (∀ k u, (j <= k)%nat → thres m !! k = Some u → size < val u).
Proof. apply dynamic_choice_ok. Qed.

(** ** Adapting the thresholds *)

(** The change of a threshold stays below its value and does not overflow. *)
Definition change_ok (deg : spec_float) (t : memtier_threshold_cfg) : Prop :=
  ∃ d, threshold_change (val t) deg = Ret d ∧ 0 <= d <= val t ∧ val t + d < 2 ^ 64.

Lemma move_threshold_ok deg prev r t :
  in_range t → change_ok deg t →
  ∃ t', move_threshold deg prev r t = Ret t' ∧ in_range t' ∧ min t' = min t ∧ max t' = max t.
Proof.
  unfold in_range, move_threshold. intros Ht (d & -> & Hd & Hv). cbn [obind].
  destruct ((prev =? 0) || _).
  - rewrite u64_small by (unfold is_u64; lia). case_if; eexists; (split; [reflexivity|]); simpl; lia.
  - rewrite u64_small by (unfold is_u64; lia). case_if; eexists; (split; [reflexivity|]); simpl; lia.
Qed.

Lemma update_threshold_ok trig deg prev next t :
  in_range t → change_ok deg t →
  ∃ t', update_threshold trig deg prev next t = Ret t' ∧ in_range t' ∧ min t' = min t ∧ max t' = max t.
Proof.
  intros Ht Hc. unfold update_threshold. destruct (0 <? prev); [|by apply move_threshold_ok].
  destruct (_ || _); [eexists; by split|].
  destruct (move_threshold_ok deg prev (F32.div (F32.of_Z next) (F32.of_Z prev))
    (set_diff t (SFabs (F32.sub (F32.div (F32.of_Z next) (F32.of_Z prev)) (exp_norm_ratio t)))))
    as (t' & -> & Hr & Hmin & Hmax); [done..|].
  exists t'. done.
Qed.

(** Same intervals, values inside them. *)
Definition adjusted (l l' : list memtier_threshold_cfg) : Prop :=
  Forall2 (λ t t', in_range t' ∧ min t' = min t ∧ max t' = max t) l l'.

Lemma adjusted_ascending prev prev' l l' :
  adjusted l l' → (match prev, prev' with Some p, Some p' => max p' = max p | None, None => True | _, _ => False end) →
  ascending prev l → ascending prev' l'.
Proof.
  intros Hl. revert prev prev'. induction Hl as [|t t' l l' (Hr & Hmin & Hmax) Hl IH]; intros prev prev' Hp; simpl; [done|].
  intros (_ & Hpt & Hasc). split; [done|]. split.
  - destruct prev, prev'; try done. lia.
  - by apply (IH (Some t)).
Qed.

Lemma update_thresholds_ok c n i m :
  0 <= i → Z.of_nat (length (cfg m)) = i + Z.of_nat n + 1 → Z.of_nat (length (thres m)) = i + Z.of_nat n →
  Forall in_range (thres m) → Forall (change_ok (thres_degree m)) (drop (Z.to_nat i) (thres m)) →
  ∃ l, update_thresholds c i n m = Ret (set_thres m l) ∧ adjusted (thres m) l.
Proof.
  revert i m. induction n as [|n IH]; intros i m Hi Hcfg Hlen Hr Hc; simpl.
  - exists (thres m). split; [by destruct m|]. apply Forall_Forall2_diag. eapply Forall_impl; [done|]. done.
  - destruct (lookup_lt_is_Some_2 (cfg m) (Z.to_nat i)) as [t0 Ht0]; [lia|].
    destruct (lookup_lt_is_Some_2 (cfg m) (Z.to_nat (i + 1))) as [t1 Ht1]; [lia|].
    destruct (lookup_lt_is_Some_2 (thres m) (Z.to_nat i)) as [t Ht]; [lia|].
    rewrite (index_lookup _ _ _ Hi Ht0), (index_lookup _ (i + 1) _ ltac:(lia) Ht1), (index_lookup _ _ _ Hi Ht). cbn [obind].
    rewrite (drop_S _ _ _ Ht) in Hc. apply Forall_cons in Hc as [Hct Hc].
    destruct (update_threshold_ok (thres_trigger m) (thres_degree m) (g_at c (Memtier.partition (kind t0)))
      (g_at c (Memtier.partition (kind t1))) t) as (t' & -> & Hr' & Hmin & Hmax);
      [by eapply Forall_lookup_1|done|]. cbn [obind].
    destruct (IH (i + 1) (set_thres m (<[Z.to_nat i := t']> (thres m)))) as (l & -> & Hl); simpl; try lia.
    + rewrite length_insert. lia.
    + by apply Forall_insert.
    + rewrite drop_insert_lt by lia. by replace (Z.to_nat (i + 1)) with (S (Z.to_nat i)) by lia.
    + exists l. split; [done|]. simpl in Hl. clear -Hl Ht Hr Hr' Hmin Hmax.
      apply Forall2_same_length_lookup_2.
      { apply Forall2_length in Hl. by rewrite length_insert in Hl. }
      intros k x y Hx Hy. destruct (decide (k = Z.to_nat i)) as [->|Hne].
      * rewrite Ht in Hx. injection Hx as <-.
        destruct (Forall2_lookup_lr _ _ _ _ _ _ Hl (list_lookup_insert_eq _ _ t' (lookup_lt_Some _ _ _ Ht)) Hy)
          as (? & ? & ?). split_and!; [done|congruence..].
      * apply (Forall2_lookup_lr _ _ _ k x y Hl); [|done]. by rewrite list_lookup_insert_ne.
Qed.

Lemma ascending_in_range prev l : ascending prev l → Forall in_range l.
Proof. revert prev. induction l as [|t l IH]; intros prev; simpl; [done|]. intros (? & _ & ?). constructor; eauto. Qed.

(** What an update of the thresholds leaves alone. *)
Definition same_policy (m m' : memtier_memory) : Prop :=
  cfg m' = cfg m ∧ thres_degree m' = thres_degree m ∧ get_kind m' = get_kind m ∧
  post_alloc m' = post_alloc m ∧ update_cfg m' = update_cfg m.

Lemma update_config_ok c m :
  thresholds_ok m → Forall (change_ok (thres_degree m)) (thres m) →
  ∃ m', memtier_policy_dynamic_threshold_update_config c m = Ret m' ∧ thresholds_ok m' ∧
    adjusted (thres m) (thres m') ∧ same_policy m m'.
Proof.
  intros [Hsz Hcfg Hlen Hasc] Hc. pose proof (ascending_in_range _ _ Hasc) as Hr.
  unfold memtier_policy_dynamic_threshold_update_config, THRESHOLD_NUM. simpl. case_if.
  - eexists. split; [reflexivity|]. split; [done|]. split; [|done]. simpl.
    apply Forall_Forall2_diag. eapply Forall_impl; [done|]. done.
  - assert (u32 (cfg_size m - 1) = cfg_size m - 1) as -> by (unfold u32; apply Z.mod_small; lia).
    destruct (update_thresholds_ok c (Z.to_nat (cfg_size m - 1)) 0
      (set_check_cnt m (u32 (thres_check_cnt m - 1)))) as (l & -> & Hl); simpl; try done; try lia.
    eexists. split; [reflexivity|]. split; [|done].
    split; simpl; try done.
    + apply Forall2_length in Hl. simpl in Hl. lia.
    + by apply (adjusted_ascending None None (thres m)).
Qed.


(** ** Building *)
Lemma normalize_loop_ok b r0 n i m :
  0 <= i → Z.of_nat (length (b_cfg b)) = i + Z.of_nat n → Z.of_nat (length (cfg m)) = i + Z.of_nat n →
  ∃ l, normalize_loop b r0 i n m = Ret (set_cfg m l) ∧ length l = length (cfg m).
Proof.
  revert i m. induction n as [|n IH]; intros i m Hi Hb Hc; simpl; [exists (cfg m); by destruct m|].
  destruct (lookup_lt_is_Some_2 (b_cfg b) (Z.to_nat i)) as [t Ht]; [lia|].
  destruct (lookup_lt_is_Some_2 (cfg m) (Z.to_nat i)) as [u Hu]; [lia|].
  rewrite (index_lookup _ i _ Hi Ht), (index_lookup _ i _ Hi Hu). cbn [obind].
  destruct (IH (i + 1) (set_cfg m (<[Z.to_nat i := TierCfg (kind t) (F32.div r0 (kind_ratio t))]> (cfg m))))
    as (l & -> & Hl); simpl; rewrite ?length_insert; try lia.
  exists l. simpl in Hl. by rewrite length_insert in Hl.
Qed.

Lemma normalize_ok b m :
  0 < cfg_size m → Z.of_nat (length (b_cfg b)) = cfg_size m → Z.of_nat (length (cfg m)) = cfg_size m →
  ∃ l, normalize b m = Ret (set_cfg m l) ∧ length l = length (cfg m).
Proof.
  intros Hs Hb Hc. unfold normalize.
  destruct (lookup_lt_is_Some_2 (b_cfg b) 0) as [t Ht]; [lia|]. rewrite (index_lookup _ 0 _ ltac:(done) Ht). cbn [obind].
  destruct (normalize_loop_ok b (kind_ratio t) (Z.to_nat (cfg_size m - 1)) 1 m) as (l & -> & Hl); try lia. cbn [obind].
  destruct (lookup_lt_is_Some_2 l 0) as [u Hu]; [lia|]. simpl. rewrite (index_lookup l 0 _ ltac:(done) Hu). cbn [obind].
  eexists. split; [reflexivity|]. by rewrite length_insert.
Qed.

(** The thresholds of a builder, with the expected ratios filled in. *)
Definition same_bounds (t t' : memtier_threshold_cfg) : Prop :=
  val t' = val t ∧ min t' = min t ∧ max t' = max t.

Lemma copy_thresholds_ok b n i :
  0 <= i → i + Z.of_nat n < Z.of_nat (length (b_cfg b)) → i + Z.of_nat n <= Z.of_nat (length (b_thres b)) →
  ∃ l, copy_thresholds b i n = Ret l ∧ length l = n ∧
    Forall2 same_bounds (take n (drop (Z.to_nat i) (b_thres b))) l.
Proof.
  revert i. induction n as [|n IH]; intros i Hi Hc Ht; simpl; [by exists []|].
  destruct (lookup_lt_is_Some_2 (b_thres b) (Z.to_nat i)) as [t Hti]; [lia|].
  destruct (lookup_lt_is_Some_2 (b_cfg b) (Z.to_nat i)) as [c Hci]; [lia|].
  destruct (lookup_lt_is_Some_2 (b_cfg b) (Z.to_nat (i + 1))) as [c' Hci']; [lia|].
  rewrite (index_lookup _ i _ Hi Hti), (index_lookup _ i _ Hi Hci), (index_lookup _ (i + 1) _ ltac:(lia) Hci').
  cbn [obind]. destruct (IH (i + 1)) as (l & -> & Hl & Hf); [lia..|]. cbn [obind].
  eexists. split; [reflexivity|]. split; [simpl; lia|].
  rewrite (drop_S _ _ _ Hti). simpl. constructor; [done|]. by replace (S (Z.to_nat i)) with (Z.to_nat (i + 1)) by lia.
Qed.

Lemma same_bounds_ascending l l' : Forall2 same_bounds l l' → ascending None l ↔ ascending None l'.
Proof.
  intros Hl. assert (∀ p p', match p, p' with Some t, Some t' => max t' = max t | None, None => True | _, _ => False end →
    ascending p l ↔ ascending p' l') as Hgen; [|by apply Hgen].
  induction Hl as [|t t' l l' (Hv & Hmin & Hmax) Hl IH]; intros p p' Hp; simpl; [done|].
  unfold in_range. rewrite Hv, Hmin, Hmax, (IH (Some t) (Some t')) by done.
  destruct p, p'; try done. by rewrite Hp.
Qed.

(** The tiers and thresholds of a builder with at least two tiers. *)
Record dynamic_builder (b : memtier_builder) : Prop := {
  db_size : 2 <= b_cfg_size b < 2 ^ 32;
  db_cfg : Z.of_nat (length (b_cfg b)) = b_cfg_size b;
  db_thres : b_cfg_size b - 1 <= Z.of_nat (length (b_thres b));
}.

(** The thresholds that count: one between each pair of adjacent tiers. *)
Definition used_thresholds (b : memtier_builder) : list memtier_threshold_cfg :=
  take (Z.to_nat (b_cfg_size b - 1)) (b_thres b).

Lemma dynamic_create_ok b mem :
  dynamic_builder b →
  ∃ r, builder_dynamic_create_memory b true (Some mem) true = Ret r ∧
    (ascending None (used_thresholds b) ∧ F32.ltb (degree b) (S754_zero false) = false ∧
       F32.ltb (trigger b) (S754_zero false) = false →
     ∃ m, r = Some m ∧ thresholds_ok m ∧ Forall2 same_bounds (used_thresholds b) (thres m) ∧
       thres_degree m = degree b ∧ thres_check_cnt m = check_cnt b ∧ length (cfg m) = length (b_cfg b)) ∧
    (¬ ascending None (used_thresholds b) ∨ F32.ltb (degree b) (S754_zero false) = true ∨
       F32.ltb (trigger b) (S754_zero false) = true → r = None).
Proof.
  intros [Hsz Hcfg Hth]. unfold builder_dynamic_create_memory, used_thresholds.
  rewrite (proj2 (Z.ltb_ge _ _)) by lia. cbn [negb]. unfold memtier_memory_init.
  rewrite (proj2 (Z.eqb_neq (b_cfg_size b) 0)) by lia. cbn [negb]. unfold THRESHOLD_NUM.
  assert (u32 (b_cfg_size b - 1) = b_cfg_size b - 1) as -> by (unfold u32; apply Z.mod_small; lia).
  destruct (copy_thresholds_ok b (Z.to_nat (b_cfg_size b - 1)) 0) as (l & -> & Hl & Hf); [lia..|]. cbn [obind].
  change (Z.to_nat 0) with 0%nat in Hf. rewrite drop_0 in Hf.
  pose proof (same_bounds_ascending _ _ Hf) as Hasc. pose proof (validate_ascending None l) as Hval.
  destruct (validate None l) eqn:Hv; cbn [negb].
  2:{ eexists. split; [reflexivity|]. split; [|done]. intros [Ha _]. exfalso.
      apply Hasc in Ha. apply Hval in Ha. done. }
  simpl. destruct (F32.ltb (degree b) _) eqn:Hd; [eexists; split; [reflexivity|]; split; [naive_solver|done]|].
  destruct (F32.ltb (trigger b) _) eqn:Ht; [eexists; split; [reflexivity|]; split; [naive_solver|done]|].
  match goal with |- context [normalize b ?m] => destruct (normalize_ok b m) as (lc & -> & Hlc) end; simpl; try lia.
  { rewrite length_replicate. lia. }
  eexists. split; [reflexivity|]. simpl in Hlc. rewrite length_replicate in Hlc. split.
  - intros _. eexists. split; [reflexivity|]. split; [|split_and!; simpl; try done; lia].
    split; simpl; try lia. by apply Hval.
  - intros [Hna|[?|?]]; [|congruence..]. exfalso. apply Hna, Hasc, Hval. done.
Qed.


(** ** The default thresholds *)

(** Adding several tiers, every allocation succeeding. *)
Fixpoint add_tiers (ks : list (memkind * Z)) (b : memtier_builder) : Z * memtier_builder :=
  match ks with
  | [] => (0, b)
  | (k, r) :: ks =>
      let (ret, b) := memtier_builder_add_tier b (Some k) r true null_threshold true in
      if negb (ret =? 0) then (ret, b) else add_tiers ks b
  end.

Definition default_threshold (i : nat) : memtier_threshold_cfg :=
  ThresholdCfg (THRESHOLD_STEP * (Z.of_nat i + 1)) (512 + THRESHOLD_STEP * Z.of_nat i)
    (1535 + THRESHOLD_STEP * Z.of_nat i) (S754_zero false) (S754_zero false).

(** A dynamic builder after [n] tiers have been added to it. *)
Record fresh_dynamic (b : memtier_builder) (addrs : list Z) : Prop := {
  fd_size : b_cfg_size b = Z.of_nat (length addrs);
  fd_addrs : (λ c, kaddr (kind c)) <$> b_cfg b = addrs;
  fd_update : update_builder b = true;
  fd_thres i : (S i < length addrs)%nat → b_thres b !! i = Some (default_threshold i);
  fd_params : check_cnt b = THRESHOLD_CHECK_CNT ∧ trigger b = THRESHOLD_TRIGGER ∧ degree b = THRESHOLD_DEGREE;
}.

Lemma add_tier_ok b addrs k r :
  fresh_dynamic b addrs → kaddr k ∉ addrs → Z.of_nat (length addrs) < 2 ^ 21 →
  ∃ b', memtier_builder_add_tier b (Some k) r true null_threshold true = (0, b') ∧
    fresh_dynamic b' (addrs ++ [kaddr k]).
Proof.
  intros [Hsz Ha Hu Hth Hp] Hk Hn. unfold memtier_builder_add_tier.
  assert (Hlen : length (b_cfg b) = length addrs) by (rewrite <- Ha; by rewrite length_fmap).
  rewrite (take_ge (b_cfg b)) by lia.
  assert (existsb (λ c, kaddr (kind c) =? kaddr k) (b_cfg b) = false) as ->.
  { apply not_true_is_false. intros (c & Hc & Heq)%existsb_exists. apply Z.eqb_eq in Heq.
    destruct Hk. rewrite <- Heq, <- Ha. apply list_elem_of_fmap. exists c. split; [done|]. by apply list_elem_of_In. }
  rewrite Hu. unfold builder_dynamic_update, THRESHOLD_STEP. rewrite Hsz. case_if.
  - simpl. rewrite Hsz, take_ge by lia. eexists. split; [reflexivity|].
    assert (length addrs = 0%nat) by lia. split; simpl; try done.
    + rewrite length_app. simpl. unfold u32. rewrite Z.mod_small; lia.
    + by rewrite fmap_app, Ha.
    + intros i Hi. rewrite length_app in Hi. simpl in Hi. lia.
  - cbn [negb]. change (0 =? 0) with true. cbn [negb]. simpl.
    rewrite Hsz, take_ge by lia. eexists. split; [reflexivity|]. split; simpl; try done.
    + rewrite length_app. simpl. unfold u32. rewrite Z.mod_small; lia.
    + by rewrite fmap_app, Ha.
    + intros i Hi. rewrite length_app in Hi. simpl in Hi.
      destruct (decide (i = Z.to_nat (Z.of_nat (length addrs) - 1))) as [->|Hne].
      * rewrite list_lookup_insert_eq by (rewrite length_resize; lia). f_equal.
        unfold default_threshold, THRESHOLD_STEP, u32. rewrite Z.mod_small by lia. f_equal; lia.
      * rewrite list_lookup_insert_ne by done.
        rewrite lookup_resize by (specialize (Hth i ltac:(lia)); apply lookup_lt_Some in Hth; lia).
        apply Hth. lia.
Qed.

Lemma add_tiers_ok ks b addrs :
  fresh_dynamic b addrs → NoDup (addrs ++ (kaddr <$> ks.*1)) → Z.of_nat (length addrs + length ks) < 2 ^ 21 →
  ∃ b', add_tiers ks b = (0, b') ∧ fresh_dynamic b' (addrs ++ (kaddr <$> ks.*1)).
Proof.
  revert b addrs. induction ks as [|[k r] ks IH]; intros b addrs Hb Hnd Hn; cbn [add_tiers].
  - exists b. by rewrite app_nil_r.
  - cbn [fmap list_fmap fst] in Hnd |- *. pose proof Hnd as (_ & Hdisj & _)%NoDup_app.
    destruct (add_tier_ok b addrs k r Hb) as (b1 & -> & Hb1).
    { intros Hin. by apply (Hdisj _ Hin); left. }
    { simpl in Hn. lia. }
    cbn [Z.eqb negb]. destruct (IH b1 (addrs ++ [kaddr k]) Hb1) as (b2 & -> & Hb2).
    + by rewrite <- app_assoc.
    + rewrite length_app. simpl in *. lia.
    + exists b2. by rewrite <- app_assoc in Hb2.
Qed.

Lemma default_ascending l i p :
  (∀ j t, l !! j = Some t → t = default_threshold (i + j)) →
  (match p with Some t => max t <= 512 + THRESHOLD_STEP * Z.of_nat i | None => True end) →
  ascending p l.
Proof.
  revert i p. induction l as [|t l IH]; intros i p Hl Hp; simpl; [done|].
  pose proof (Hl 0%nat t eq_refl) as ->. rewrite Nat.add_0_r. unfold in_range, default_threshold, THRESHOLD_STEP in *.
  simpl. split; [lia|]. split; [destruct p; [lia|done]|].
  apply (IH (S i)); [|simpl; lia]. intros j t Hj. rewrite (Hl (S j) t Hj). f_equal; f_equal; lia.
Qed.

(** The default configuration works: any two or more distinct kinds can be added
    to a new dynamic-threshold builder, and the memory is created, with the
    default thresholds in order. *)
Theorem dynamic_defaults_accepted ks mem pol :
  NoDup (kaddr <$> ks.*1) → (2 <= length ks)%nat → Z.of_nat (length ks) < 2 ^ 21 →
  ∃ b0 b m, memtier_builder_new true MEMTIER_POLICY_DYNAMIC_THRESHOLD pol = (Some b0, MEMTIER_POLICY_DYNAMIC_THRESHOLD) ∧
    add_tiers ks b0 = (0, b) ∧
    builder_dynamic_create_memory b true (Some mem) true = Ret (Some m) ∧ thresholds_ok m.
Proof.
  intros Hnd H2 Hn. eexists. destruct (add_tiers_ok ks
    (MemtierBuilder 0 [] [] THRESHOLD_CHECK_CNT THRESHOLD_TRIGGER THRESHOLD_DEGREE
       builder_dynamic_create true builder_dynamic_ctl) []) as (b & Hadd & Hb); [|done|simpl; lia|].
  { split; simpl; try done. intros i Hi. lia. }
  destruct Hb as [Hsz Ha Hu Hth (Hcc & Htr & Hdg)]. simpl in *.
  assert (Hlk : length (kaddr <$> ks.*1) = length ks) by by rewrite !length_fmap.
  assert (Hlc : length (b_cfg b) = length ks) by (rewrite <- Hlk, <- Ha; by rewrite length_fmap).
  assert (Hlt : (length ks - 1 <= length (b_thres b))%nat).
  { pose proof (Hth (length ks - 2)%nat ltac:(lia)) as Hl%lookup_lt_Some. lia. }
  destruct (dynamic_create_ok b mem) as (r & Hrun & Hyes & _); [split; lia|].
  destruct Hyes as (m & -> & Hm & _).
  { rewrite Htr, Hdg. split; [|done]. apply (default_ascending _ 0); [|done].
    intros j t Hj. unfold used_thresholds in Hj. apply lookup_take_Some in Hj as [Hj Hlt'].
    rewrite (Hth j) in Hj by lia. by injection Hj as <-. }
  exists b, m. done.
Qed.
