(* ===== verification/MemtierPolicy.v ===== *)
(** * Policies and builders: choices, names and edges

    The static-ratio choice, the names of [memtier_ctl_set], the number parser,
    concrete instances of the theorems of [MemtierSpec], and the inputs at which
    the code leaves its contract. *)
From Stdlib Require Import SpecFloat.
From S2P Require Import CString Prelude Float Counters Events Tachanka Memtier MemtierBuilder MemtierSpec.
Local Open Scope string_scope.
Local Open Scope Z_scope.

(** ** The static ratio *)

(** Tier [t] is short of memory: it holds less than its share of what the first
    tier holds ([kind_ratio] is the share of the first tier over its own). *)
Definition short (c : counters) (size_0 : Z) (t : memtier_tier_cfg) : bool :=
  F32.ltb (F32.mul (F32.of_Z (g_at c (partition (kind t)))) (kind_ratio t)) (F32.of_Z size_0).

Lemma static_ratio_loop_ok m c size_0 n i d :
  0 <= i → Z.of_nat (length (cfg m)) = i + Z.of_nat n →
  ∃ j, static_ratio_loop m c size_0 i n d = Ret j ∧
    (j = d ∧ (∀ k u, i <= Z.of_nat k → cfg m !! k = Some u → short c size_0 u = false) ∨
     ∃ t, i <= j ∧ cfg m !! Z.to_nat j = Some t ∧ short c size_0 t = true ∧
       ∀ k u, j < Z.of_nat k → cfg m !! k = Some u → short c size_0 u = false).
Proof.
  revert i d. induction n as [|n IH]; intros i d Hi Hlen; simpl.
  - exists d. split; [done|]. left. split; [done|]. intros k u Hk Hu. apply lookup_lt_Some in Hu. lia.
  - destruct (lookup_lt_is_Some_2 (cfg m) (Z.to_nat i)) as [t Ht]; [lia|].
    rewrite (index_lookup _ _ _ Hi Ht). cbn [obind]. fold (short c size_0 t).
    destruct (IH (i + 1) (if short c size_0 t then i else d)) as (j & -> & Hj); [lia..|].
    exists j. split; [done|]. destruct Hj as [(-> & Hnone)|(u & Hju & Hu)]; [|right; exists u; split; [lia|done]].
    destruct (short c size_0 t) eqn:Es; [right; exists t; split; [lia|]; split_and!; [done..|]|left; split; [done|]].
    + intros k u Hk. apply (Hnone k u). lia.
    + intros k u Hk Hu. destruct (decide (Z.of_nat k = i)) as [<-|]; [rewrite Nat2Z.id in Ht; congruence|].
      apply (Hnone k u); [lia|done].
Qed.

(** The static-ratio policy fills up the tiers that lag behind: it allocates
    from the last tier that holds less than its share of the first tier's memory,
    and from the first tier when none does. *)
Theorem static_ratio_choice m c :
  1 <= cfg_size m → Z.of_nat (length (cfg m)) = cfg_size m →
  ∃ t0 j t, cfg m !! 0%nat = Some t0 ∧ cfg m !! j = Some t ∧
    memtier_policy_static_ratio_get_kind m c = Ret (kind t) ∧
    ((0 < j)%nat → short c (g_at c (partition (kind t0))) t = true) ∧
    (∀ k u, (j < k)%nat → cfg m !! k = Some u → short c (g_at c (partition (kind t0))) u = false).
Proof.
  intros Hs Hl. unfold memtier_policy_static_ratio_get_kind.
  destruct (lookup_lt_is_Some_2 (cfg m) 0) as [t0 Ht0]; [lia|]. exists t0.
  rewrite (index_lookup _ 0 _ ltac:(done) Ht0). cbn [obind].
  destruct (static_ratio_loop_ok m c (g_at c (partition (kind t0))) (Z.to_nat (cfg_size m - 1)) 1 0)
    as (j & -> & Hj); [lia..|]. cbn [obind].
  destruct Hj as [(-> & Hnone)|(t & Hj & Ht & Hst & Hlast)].
  - exists 0%nat, t0. rewrite (index_lookup _ 0 _ ltac:(done) Ht0). split_and!; try done; [lia|].
    intros k u Hk. apply (Hnone k u). lia.
  - exists (Z.to_nat j), t. rewrite (index_lookup _ j _ ltac:(lia) Ht). split_and!; try done.
    intros k u Hk. apply (Hlast k u). lia.
Qed.

(** ** Names of parameters *)

Lemma literal_app lit s : literal lit (lit ++ s) = Some s.
Proof. induction lit as [|c lit IH]; [done|]. rewrite append_cons. cbn [literal]. by rewrite Ascii.eqb_refl. Qed.

Lemma slen_app s t : slen (s ++ t) = slen s + slen t.
Proof. unfold slen. induction s as [|c s IH]; [done|]. rewrite append_cons. cbn [String.length]. lia. Qed.

Lemma append_assoc s t u : s ++ (t ++ u) = (s ++ t) ++ u.
Proof. induction s as [|c s IH]; [done|]. rewrite !append_cons. by rewrite IH. Qed.

Lemma advance_app s t : advance (Z.to_nat (slen s)) (s ++ t) = Ret t.
Proof. unfold slen. rewrite Nat2Z.id. induction s as [|c s IH]; [done|]. by rewrite append_cons. Qed.

Lemma scan_print_int n c s :
  0 <= n < 2 ^ 31 → digit c = None → scan_int (print_int n ++ String c s) = Some (n, String c s).
Proof.
  intros Hn Hc. destruct (print_int_head n ltac:(lia)) as (d & s' & Hd & Hp & _).
  pose proof (read_print_int n false (String c s) ltac:(lia)) as Hr.
  rewrite Hp, append_cons in *. unfold scan_int. cbn [span].
  assert (Hds : isspace (ascii_of_digit d) = false ∧ Ascii.eqb (ascii_of_digit d) "-" = false ∧
    Ascii.eqb (ascii_of_digit d) "+" = false).
  { assert (d = 0 ∨ d = 1 ∨ d = 2 ∨ d = 3 ∨ d = 4 ∨ d = 5 ∨ d = 6 ∨ d = 7 ∨ d = 8 ∨ d = 9) as Hc' by lia.
    repeat destruct Hc' as [->|Hc']; try done. by subst. }
  destruct Hds as (-> & -> & ->). rewrite Hr. cbn [read_digits]. rewrite Hc.
  by rewrite i32_small by lia.
Qed.

(** The field that a name selects. *)
Inductive threshold_field := FVal | FMin | FMax.
Definition field_name (f : threshold_field) : string :=
  match f with FVal => "val" | FMin => "min" | FMax => "max" end.
Definition put_field (f : threshold_field) (v : Z) (t : memtier_threshold_cfg) : memtier_threshold_cfg :=
  match f with
  | FVal => ThresholdCfg v (min t) (max t) (exp_norm_ratio t) (current_ratio_diff t)
  | FMin => ThresholdCfg (val t) v (max t) (exp_norm_ratio t) (current_ratio_diff t)
  | FMax => ThresholdCfg (val t) (min t) v (exp_norm_ratio t) (current_ratio_diff t)
  end.
Definition threshold_name (i : Z) (f : threshold_field) : string :=
  "policy.dynamic_threshold.thresholds[" ++ (print_int i ++ ("]." ++ field_name f)).

Lemma ctl_set_name_eq b i f v :
  0 <= i < 2 ^ 31 - 1 →
  builder_dynamic_ctl_set b (threshold_name i f) v =
    if b_cfg_size b <=? i + 1 then Ret (-1, b) else
    let! t := index (b_thres b) i in
    Ret (0, set_b_thres b (<[Z.to_nat i := put_field f (as_size_t v) t]> (b_thres b))).
Proof.
  intros Hi. unfold builder_dynamic_ctl_set, threshold_name.
  change ("policy.dynamic_threshold.thresholds[" ++ ?x) with ("policy.dynamic_threshold." ++ ("thresholds[" ++ x)).
  rewrite literal_app.
  change (span _ ("thresholds[" ++ ?x)) with ("thresholds", "[" ++ x). cbn beta iota.
  change (NAME_SUBSTR <=? slen "thresholds") with false. cbn beta iota.
  change (streq "thresholds" "thresholds") with true. cbn beta iota.
  unfold ctl_set_threshold. rewrite literal_app.
  change ("]." ++ ?x) with (String "]" ("." ++ x)). rewrite scan_print_int by (done || lia).
  change (String "]" ?x) with ("]" ++ x). rewrite literal_app, !slen_app.
  rewrite (proj2 (Z.ltb_ge i 0)) by lia.
  unfold u32. rewrite Z.mod_small by lia. destruct (b_cfg_size b <=? i + 1); [done|].
  replace (slen "[" + _ - _) with (slen ("[" ++ (print_int i ++ "]"))) by (rewrite !slen_app; lia).
  rewrite (append_assoc (print_int i) "]"), (append_assoc "[" (print_int i ++ "]") ("." ++ field_name f)), advance_app. cbn [obind].
  destruct (index (b_thres b) i) as [t|]; cbn [obind]; [|done]. rewrite literal_app. by destruct f.
Qed.

(** The name that [snprintf] prints for a threshold is the one that
    [memtier_ctl_set] reads: it sets that field of that threshold and nothing
    else, for every index below the number of thresholds. *)
Theorem ctl_set_threshold_name b i f v t :
  ctl_set b = builder_dynamic_ctl → 0 <= i < 2 ^ 31 - 1 → i + 1 < b_cfg_size b →
  b_thres b !! Z.to_nat i = Some t →
  memtier_ctl_set b (threshold_name i f) v =
    Ret (0, set_b_thres b (<[Z.to_nat i := put_field f (as_size_t v) t]> (b_thres b))).
Proof.
  intros Hctl Hi Hn Ht. unfold memtier_ctl_set. rewrite Hctl, ctl_set_name_eq, (proj2 (Z.leb_gt _ _)) by lia.
  by rewrite (index_lookup _ i _ ltac:(lia) Ht).
Qed.

(** Without the closing bracket the name is followed past its end: the offset
    of the field is then the length of ["thresholds"]. *)
Theorem ctl_set_missing_bracket b v :
  ctl_set b = builder_dynamic_ctl → 1 < b_cfg_size b →
  memtier_ctl_set b "policy.dynamic_threshold.thresholds[0" v = Stop BadDeref.
Proof.
  intros Hctl Hn. unfold memtier_ctl_set. rewrite Hctl. cbn.
  change (NAME_SUBSTR <=? slen "thresholds") with false. cbn beta iota. unfold ctl_set_threshold.
  change (literal "[" "[0") with (Some "0"). cbn beta iota. change (scan_int "0") with (Some (0, "")). cbn beta iota.
  change (literal "]" "") with (@None string). cbn beta iota. change (0 <? 0) with false. cbn beta iota.
  by rewrite (proj2 (Z.leb_gt (b_cfg_size b) _)) by done.
Qed.

(** A number printed in decimal is read back by [parse_ull]. *)
Theorem parse_ull_roundtrip n : 0 <= n < 2 ^ 64 → parse_ull (print_int n) = Some n.
Proof.
  intros Hn. unfold parse_ull. rewrite (strtoull_print n Hn).
  destruct (print_int_head n Hn) as (d & s & Hd & -> & _). simpl.
  assert (Ascii.eqb (ascii_of_digit d) "-" = false) as ->; [|done].
  assert (d = 0 ∨ d = 1 ∨ d = 2 ∨ d = 3 ∨ d = 4 ∨ d = 5 ∨ d = 6 ∨ d = 7 ∨ d = 8 ∨ d = 9) as Hc by lia.
  repeat destruct Hc as [->|Hc]; try done. by subst.
Qed.

(** The check for a minus sign looks at the first character only: after a
    blank, a negative number is accepted and wraps. *)
Theorem parse_ull_blank_minus : parse_ull "-5" = None ∧ parse_ull " -5" = Some (2 ^ 64 - 5).
Proof. done. Qed.

(** ** A memory and its edges *)
Definition dram : memkind := Kind 0x1000 1.
Definition pmem : memkind := Kind 0x2000 2.

(** Memory fresh from the allocator. *)
Definition fresh_memory : memtier_memory :=
  MemtierMemory 0 [] [] 0 0 (S754_zero false) (S754_zero false) 0 0 memtier_single
    memtier_empty_post_alloc static_ratio_update_config.

Definition builder_of (pol : Z) : memtier_builder :=
  (add_tiers [(dram, 1); (pmem, 4)]
     (default (MemtierBuilder 0 [] [] 0 (S754_zero false) (S754_zero false) builder_static_create false builder_static_ctl)
        (memtier_builder_new true pol 0).1)).2.

Definition ret_or {X} (d : X) (o : outcome X) : X := match o with Ret x => x | Stop _ => d end.

Definition dynamic_memory (b : memtier_builder) : memtier_memory :=
  default fresh_memory (ret_or None (builder_dynamic_create_memory b true (Some fresh_memory) true)).
Definition demo_dynamic : memtier_memory := dynamic_memory (builder_of MEMTIER_POLICY_DYNAMIC_THRESHOLD).

Lemma demo_thresholds_ok : thresholds_ok demo_dynamic.
Proof.
  split; [vm_compute; by split|done|done|].
  vm_compute. repeat split; done.
Qed.

Lemma dynamic_threshold_choice_witness :
  ∃ j t, memtier_policy_dynamic_threshold_get_kind demo_dynamic 1024 = Ret (kind t) ∧ cfg demo_dynamic !! j = Some t ∧
    (∀ k u, (k < j)%nat → thres demo_dynamic !! k = Some u → val u <= 1024) ∧
    (∀ k u, (j <= k)%nat → thres demo_dynamic !! k = Some u → 1024 < val u).
Proof. exact (dynamic_threshold_choice demo_dynamic 1024 demo_thresholds_ok). Defined.

(** 400 bytes in the first kind, none in the second. *)
Definition demo_counters (a b : Z) : counters := set_g (set_g counters_init 1 a) 2 b.



Lemma dynamic_defaults_accepted_witness :
  ∃ b0 b m, memtier_builder_new true MEMTIER_POLICY_DYNAMIC_THRESHOLD 0 = (Some b0, MEMTIER_POLICY_DYNAMIC_THRESHOLD) ∧
    add_tiers [(dram, 1); (pmem, 4)] b0 = (0, b) ∧
    builder_dynamic_create_memory b true (Some fresh_memory) true = Ret (Some m) ∧ thresholds_ok m.
Proof.
  refine (dynamic_defaults_accepted [(dram, 1); (pmem, 4)] fresh_memory 0 _ _ _); [|done..].
  apply (bool_decide_unpack _). vm_compute. exact I.
Defined.

Definition demo_static : memtier_memory :=
  default fresh_memory (ret_or None (builder_static_create_memory (builder_of MEMTIER_POLICY_STATIC_RATIO)
    (Some fresh_memory) true)).

Lemma static_ratio_choice_witness :
  ∃ t0 j t, cfg demo_static !! 0%nat = Some t0 ∧ cfg demo_static !! j = Some t ∧
    memtier_policy_static_ratio_get_kind demo_static (demo_counters 400 0) = Ret (kind t) ∧
    ((0 < j)%nat → short (demo_counters 400 0) (g_at (demo_counters 400 0) (partition (kind t0))) t = true) ∧
    (∀ k u, (j < k)%nat → cfg demo_static !! k = Some u →
       short (demo_counters 400 0) (g_at (demo_counters 400 0) (partition (kind t0))) u = false).
Proof. refine (static_ratio_choice demo_static (demo_counters 400 0) _ _); [by vm_compute|reflexivity]. Defined.

(** Four parts of the second kind to one of the first: the choice goes to the
    second kind until it has four times as much. *)
Example static_ratio_runs :
  memtier_policy_static_ratio_get_kind demo_static (demo_counters 400 0) = Ret pmem ∧
  memtier_policy_static_ratio_get_kind demo_static (demo_counters 400 1599) = Ret pmem ∧
  memtier_policy_static_ratio_get_kind demo_static (demo_counters 400 1600) = Ret dram.
Proof. by vm_compute. Qed.

Lemma ctl_set_threshold_name_witness :
  memtier_ctl_set (builder_of MEMTIER_POLICY_DYNAMIC_THRESHOLD) (threshold_name 0 FMax) [0; 8; 0; 0; 0; 0; 0; 0] =
    Ret (0, set_b_thres (builder_of MEMTIER_POLICY_DYNAMIC_THRESHOLD)
      (<[0%nat := put_field FMax 2048 (default_threshold 0)]> (b_thres (builder_of MEMTIER_POLICY_DYNAMIC_THRESHOLD)))).
Proof.
  exact (ctl_set_threshold_name (builder_of MEMTIER_POLICY_DYNAMIC_THRESHOLD) 0 FMax [0; 8; 0; 0; 0; 0; 0; 0]
    (default_threshold 0) eq_refl ltac:(done) eq_refl eq_refl).
Defined.

Lemma ctl_set_missing_bracket_witness :
  memtier_ctl_set (builder_of MEMTIER_POLICY_DYNAMIC_THRESHOLD) "policy.dynamic_threshold.thresholds[0" [] = Stop BadDeref.
Proof. exact (ctl_set_missing_bracket (builder_of MEMTIER_POLICY_DYNAMIC_THRESHOLD) [] eq_refl eq_refl). Defined.

Lemma parse_ull_roundtrip_witness : parse_ull (print_int 18446744073709551615) = Some 18446744073709551615.
Proof. exact (parse_ull_roundtrip 18446744073709551615 ltac:(done)). Defined.

(** The bytes of [1.5f] and of the unsigned 1. *)
Definition one_and_a_half : list Z := [0; 0; 192; 63].
Definition steep_builder : memtier_builder :=
  (ret_or (0, builder_of 0) (memtier_ctl_set (ret_or (0, builder_of 0)
     (memtier_ctl_set (builder_of MEMTIER_POLICY_DYNAMIC_THRESHOLD) "policy.dynamic_threshold.degree" one_and_a_half)).2
     "policy.dynamic_threshold.check_cnt" [1; 0; 0; 0])).2.

(** A degree above one is accepted, and then a threshold that should be lowered
    by more than its value wraps around: it ends up far above its maximum, and
    every allocation goes to the first tier. *)
Theorem steep_degree_wraps_threshold :
  degree steep_builder = F32.div (F32.of_Z 3) (F32.of_Z 2) ∧
  thresholds_ok (dynamic_memory steep_builder) ∧
  ∃ m', memtier_policy_dynamic_threshold_update_config (demo_counters 400 0) (dynamic_memory steep_builder) = Ret m' ∧
    val <$> thres m' = [2 ^ 64 - 512] ∧ max <$> thres m' = [1535] ∧
    ∀ size, size < 2 ^ 63 → memtier_policy_dynamic_threshold_get_kind m' size = Ret dram.
Proof.
  split; [done|]. split.
  { split; [vm_compute; by split|done|done|]. vm_compute. repeat split; done. }
  eexists. split; [vm_compute; reflexivity|]. split; [done|]. split; [done|].
  intros size Hs. unfold memtier_policy_dynamic_threshold_get_kind. simpl.
  change (size <? _) with (size <? 2 ^ 64 - 512). by rewrite (proj2 (Z.ltb_lt _ _)) by lia.
Qed.
