(* ===== verification/MemtierBooks.v ===== *)
(** * The counters are the memory in use

    Between calls, each kind's counter holds the sum of the usable sizes of its
    live blocks, and the check of the hot-to-total ratio never ends the process.
    The allocators of the kinds enter by what [memkind.h] documents of them. *)
From Stdlib Require Import SpecFloat.
From stdpp Require Import functions.
From S2P Require Import Prelude Float FloatSpec Index Alloc Counters CountersSpec Queue Events Tachanka Memtier MemtierAlloc.

(** ** Blocks *)
Abbreviation blockmap := (gmap Z (memkind * Z)).

Definition bytes_of (k : Z) (x : memkind * Z) : Z := if partition x.1 =? k then x.2 else 0.
Definition bytes (k : Z) (m : blockmap) : Z := msum (bytes_of k) m.
Definition total_bytes (m : blockmap) : Z := msum snd m.

Definition known (k : memkind) : Prop := 0 <= partition k < MEMKIND_MAX_KIND.
Definition blocks_ok (m : blockmap) : Prop :=
  (∀ p k n, m !! p = Some (k, n) → p ≠ NULL ∧ known k ∧ 0 <= n) ∧ total_bytes m < 2 ^ 63.

Lemma bytes_bounds k m : blocks_ok m → 0 <= bytes k m <= total_bytes m.
Proof.
  intros [Hm _]. unfold bytes, total_bytes. split.
  - replace 0 with (msum (λ _ : memkind * Z, 0) m); [|by apply msum_zero].
    apply msum_mono. intros p [kd n] Hp. apply Hm in Hp. unfold bytes_of. simpl. case_match; lia.
  - apply msum_mono. intros p [kd n] Hp. apply Hm in Hp. unfold bytes_of. simpl. case_match; lia.
Qed.

Lemma blocks_ok_delete m p : blocks_ok m → blocks_ok (delete p m).
Proof.
  intros [Hm Ht]. split.
  - intros q k n [_ Hq]%lookup_delete_Some. eauto.
  - destruct (m !! p) as [[k n]|] eqn:Hp; [|by rewrite delete_id].
    unfold total_bytes in *. rewrite (msum_delete _ _ _ _ Hp). apply Hm in Hp. simpl. lia.
Qed.

(** ** The counters for a set of blocks *)
Record books_of (c : counters) (m : blockmap) : Prop := {
  bk_bucket k b : t_at c k b = 0;
  bk_kind k : 0 <= k < MEMKIND_MAX_KIND → g_at c k = bytes k m;
  bk_total : g_at c MEMKIND_TOTAL_IDX = total_bytes m;
  bk_hot : 0 <= g_hotTierId c < MEMKIND_MAX_KIND;
  bk_desired : check_dram_total_ratio (g_hotTotalDesiredRatio c) = Ret ();
  bk_blocks : blocks_ok m;
}.

(** The ratio check passes: the hot tier never holds more than the total. *)
Lemma update_actual_ratios_ok c m :
  books_of c m → ∃ c', update_actual_ratios (total_bytes m) c = Ret c' ∧ books_of c' m.
Proof.
  intros [Hb Hk Ht Hh Hd Hm]. unfold update_actual_ratios. rewrite (Hk _ Hh).
  pose proof (bytes_bounds (g_hotTierId c) m Hm) as Hle. pose proof (proj2 Hm) as Hlt.
  destruct (of_Z_mono (bytes (g_hotTierId c) m) (total_bytes m)) as (-> & Hgt & Hl); [lia..|].
  cbn [obind]. unfold tachanka_set_dram_total_ratio. simpl. rewrite Hd. cbn [obind].
  unfold check_dram_total_ratio. rewrite Hgt, Hl. cbn [orb obind]. eexists. split; [reflexivity|]. by split.
Qed.

(** What a flush does to the counters, before the ratios. *)
Lemma flush_ok c m m' k b d :
  0 <= k < MEMKIND_MAX_KIND → (∀ k' b', (k', b') ≠ (k, b) → t_at c k' b' = 0) →
  t_at c k b = d → (∀ j, 0 <= j < MEMKIND_MAX_KIND → g_at c j = bytes j m) →
  g_at c MEMKIND_TOTAL_IDX = total_bytes m → 0 <= g_hotTierId c < MEMKIND_MAX_KIND →
  check_dram_total_ratio (g_hotTotalDesiredRatio c) = Ret () → blocks_ok m → blocks_ok m' →
  (∀ j, bytes j m' = bytes j m + if k =? j then d else 0) → total_bytes m' = total_bytes m + d →
  ∃ c', apply_temporary_buffer_alloc_size k b c = Ret c' ∧ books_of c' m'.
Proof.
  intros Hk Hoth Hd Hg Htot Hh Hdes Hm Hm' Hby Hto. unfold apply_temporary_buffer_alloc_size. rewrite Hd.
  pose proof (bytes_bounds k m' Hm') as Hb'. pose proof (proj2 Hm'). pose proof (bytes_bounds k m Hm) as Hb.
  pose proof (proj2 Hm). specialize (Hby k) as Hbk. rewrite Z.eqb_refl in Hbk.
  set (c1 := set_t c k b 0). change (g_at c1 ?x) with (g_at c x). rewrite (Hg _ Hk), <- Hbk.
  rewrite g_at_set, decide_False by (unfold MEMKIND_TOTAL_IDX; lia). change (g_at c1 ?x) with (g_at c x).
  rewrite Htot. rewrite (i64_small (total_bytes m)) by lia. rewrite (Z.add_comm d), <- Hto.
  rewrite !u64_small by (unfold is_u64; lia).
  apply update_actual_ratios_ok. split; simpl; try done.
  - intros k' b'. change (t_at c1 k' b' = 0). subst c1. rewrite t_at_set. case_decide as Hd'; [done|].
    apply Hoth. congruence.
  - intros j Hj. rewrite g_at_set, decide_False by (unfold MEMKIND_TOTAL_IDX; lia). rewrite g_at_set.
    case_decide as Hkj; [by subst|]. rewrite Hby, (proj2 (Z.eqb_neq k j)) by done.
    change (g_at c1 j) with (g_at c j). rewrite Hg by done. lia.
  - rewrite g_at_set, decide_True by done. done.
Qed.

(** Counting a change of [d] bytes that turns the blocks [m] into [m']. *)
Definition changes (k d : Z) (m m' : blockmap) : Prop :=
  (∀ j, bytes j m' = bytes j m + if k =? j then d else 0) ∧ total_bytes m' = total_bytes m + d.

Lemma books_same c m m' : books_of c m → changes 0 0 m m' → blocks_ok m' → books_of c m'.
Proof.
  intros [Hb Hk Ht Hh Hd Hm] [Hc Hct] Hm'. split; try done.
  - intros k Hk'. rewrite (Hc k), (Hk k) by done. case_match; lia.
  - lia.
Qed.

Lemma flush_bucket c m m' k b d :
  books_of c m → blocks_ok m' → 0 <= k < MEMKIND_MAX_KIND → changes k d m m' →
  ∃ c', apply_temporary_buffer_alloc_size k b (set_t c k b d) = Ret c' ∧ books_of c' m'.
Proof.
  intros [Hb Hk Ht Hh Hd Hm] Hm' Hkk [Hc Hct].
  apply (flush_ok (set_t c k b d) m m' k b d); try done.
  - intros k' b' Hne. rewrite t_at_set, decide_False by congruence. apply Hb.
  - by rewrite t_at_set, decide_True.
Qed.

Lemma bucket_stays c m k b : books_of c m → books_of (set_t c k b 0) m.
Proof.
  intros [Hb Hk Ht Hh Hd Hm]. split; try done. intros k' b'. rewrite t_at_set. by case_decide.
Qed.

Lemma changes_zero k m m' : changes k 0 m m' → changes 0 0 m m'.
Proof. intros [Hc Ht]. split; [|done]. intros j. rewrite Hc. by repeat case_match. Qed.

Lemma increment_ok self c m m' k n :
  books_of c m → blocks_ok m' → 0 <= k < MEMKIND_MAX_KIND → 0 <= n < 2 ^ 63 → changes k n m m' →
  ∃ c', increment_alloc_size self k n c = Ret c' ∧ books_of c' m'.
Proof.
  intros Hb Hm' Hk Hn Hc. unfold increment_alloc_size. cbv zeta. rewrite (bk_bucket _ _ Hb), Z.add_0_l.
  rewrite i64_small, u64_small by (unfold is_u64; lia). unfold FLUSH_THRESHOLD. case_if.
  - by apply (flush_bucket c m).
  - assert (n = 0) as -> by lia. eexists. split; [reflexivity|]. apply bucket_stays.
    eauto using books_same, changes_zero.
Qed.

Lemma decrement_ok self c m m' k n :
  books_of c m → blocks_ok m' → 0 <= k < MEMKIND_MAX_KIND → 0 <= n < 2 ^ 63 → changes k (- n) m m' →
  ∃ c', decrement_alloc_size self k n c = Ret c' ∧ books_of c' m'.
Proof.
  intros Hb Hm' Hk Hn Hc. unfold decrement_alloc_size. cbv zeta. rewrite !(bk_bucket _ _ Hb), (Z.sub_0_l n), (Z.sub_0_l (i64 n)).
  rewrite (i64_small n), !(i64_small (- n)) by lia. unfold FLUSH_THRESHOLD. case_if.
  - by apply (flush_bucket c m).
  - assert (n = 0) as -> by lia. eexists. split; [reflexivity|]. apply bucket_stays.
    eauto using books_same, changes_zero.
Qed.

Lemma changes_insert m p k n : m !! p = None → changes (partition k) n m (<[p := (k, n)]> m).
Proof.
  intros Hp. unfold changes, bytes, total_bytes. split; [intros j|]; rewrite msum_insert by done; [|simpl; lia].
  unfold bytes_of at 1. simpl. case_match; lia.
Qed.

Lemma changes_delete m p k n : m !! p = Some (k, n) → changes (partition k) (- n) m (delete p m).
Proof.
  intros Hp. unfold changes, bytes, total_bytes.
  split; [intros j|]; rewrite (msum_delete _ _ _ _ Hp); [|simpl; lia].
  unfold bytes_of at 2. simpl. case_match; lia.
Qed.

(** ** What the allocators promise *)
Section laws.
Context {A : Type} `{MemkindAPI A}.

(** An allocation fails and leaves the live blocks as they are, or adds one. *)
Definition allocated (live : A → blockmap) (k : memkind) (size : Z) (a : A) (p : Z) (a' : A) : Prop :=
  p = NULL ∧ live a' = live a ∨
  ∃ n, size <= n ∧ p ≠ NULL ∧ live a !! p = None ∧ live a' = <[p := (k, n)]> (live a).

Class MemkindLaws := {
  heap_ok : A → Prop;
  live : A → blockmap;
  usable_kind : memkind → Prop;   (** the kinds that are ready to allocate from *)
  usable_known k : usable_kind k → known k;
  heap_blocks a : heap_ok a → blocks_ok (live a);
  usable_null a : jemk_malloc_usable_size NULL a = 0;
  usable_live a p k n : heap_ok a → live a !! p = Some (k, n) → jemk_malloc_usable_size p a = n;
  detect_live a p k n : heap_ok a → live a !! p = Some (k, n) → memkind_detect_kind p a = Some k;
  malloc_law a k size : heap_ok a → usable_kind k → 0 <= size →
    let '(p, a') := memkind_malloc k size a in heap_ok a' ∧ allocated live k size a p a';
  calloc_law a k num size : heap_ok a → usable_kind k → 0 <= num → 0 <= size →
    let '(p, a') := memkind_calloc k num size a in heap_ok a' ∧ allocated live k (u64 (num * size)) a p a';
  realloc_law a k p n size : heap_ok a → live a !! p = Some (k, n) → 0 < size →
    let '(q, a') := memkind_realloc k p size a in
    heap_ok a' ∧ (q = NULL ∧ live a' = live a ∨
      ∃ n', size <= n' ∧ q ≠ NULL ∧ delete p (live a) !! q = None ∧
        live a' = <[q := (k, n')]> (delete p (live a)));
  free_law a k p n : heap_ok a → live a !! p = Some (k, n) →
    heap_ok (memkind_free k p a) ∧ live (memkind_free k p a) = delete p (live a);
}.
End laws.
Arguments MemkindLaws A {_}.

(** ** Calls *)
Section calls.
Context {A C W R : Type} `{MemkindAPI A} `{!MemkindLaws A} `{AddrIndex C} `{NodeAlloc W} `{Ranking R}.
Implicit Types s : mstate A C W R.

(** The books of a program under one of the policies without events. *)
Record books s : Prop := {
  bs_books : books_of (ctr s) (live (heap s));
  bs_heap : heap_ok (heap s);
  bs_policy : pol s ≠ MEMTIER_POLICY_DATA_HOTNESS;
}.

Lemma no_events s : books s → hotness_policy s = false.
Proof. intros Hs. apply Z.eqb_neq, (bs_policy _ Hs). Qed.

Lemma block_size (a : A) p k n : heap_ok a → live a !! p = Some (k, n) → 0 <= n < 2 ^ 63 ∧ known k.
Proof.
  intros Ha Hp. pose proof (heap_blocks a Ha) as [Hm Ht]. destruct (Hm p k n Hp) as (_ & Hk & Hn).
  split; [|done]. split; [done|]. pose proof (bytes_bounds (partition k) _ (heap_blocks a Ha)).
  pose proof (changes_delete _ _ _ _ Hp) as [Hc _].
  pose proof (bytes_bounds (partition k) _ (blocks_ok_delete _ p (heap_blocks a Ha))) as Hb.
  rewrite Hc, Z.eqb_refl in Hb. lia.
Qed.

(** Counting the result of an allocation. *)
Lemma count_alloc self k size s p (a : A) :
  books s → known k → heap_ok a → allocated live k size (heap s) p a →
  ∃ s', increment self k (usable_size p (set_mheap a s)) (set_mheap a s) = Ret s' ∧ books s' ∧ heap s' = a.
Proof.
  intros [Hb Hh Hp] Hk Ha Hal. unfold increment, usable_size. simpl.
  assert (Hc : ∃ c', increment_alloc_size self (partition k) (jemk_malloc_usable_size p a) (ctr s) = Ret c' ∧
    books_of c' (live a)).
  { destruct Hal as [(-> & Hl)|(n & Hn & Hp0 & Hnone & Hl)].
    - rewrite usable_null. rewrite <- Hl in Hb. apply (increment_ok _ _ (live a)); try done; [by apply heap_blocks|].
      split; [intros j; case_match; lia|lia].
    - assert (Hlk : live a !! p = Some (k, n)) by (rewrite Hl; apply lookup_insert_eq).
      rewrite (usable_live a p k n Ha Hlk). destruct (block_size a p k n Ha Hlk) as [Hsz _].
      apply (increment_ok _ _ (live (heap s))); try done; [by apply heap_blocks|].
      rewrite Hl. by apply changes_insert. }
  destruct Hc as (c' & -> & Hc'). eexists. split; [reflexivity|]. by split.
Qed.

(** Taking a live block out of the books. *)
Lemma uncount self p k n s :
  books s → live (heap s) !! p = Some (k, n) →
  ∃ c, decrement self k (usable_size p s) s = Ret (set_ctr c s) ∧ books_of c (delete p (live (heap s))).
Proof.
  intros [Hb Hh Hp] Hlk. unfold decrement, usable_size. rewrite (usable_live _ _ _ _ Hh Hlk).
  destruct (block_size _ _ _ _ Hh Hlk) as [Hsz Hk].
  destruct (decrement_ok self _ _ (delete p (live (heap s))) (partition k) n Hb) as (c & -> & Hc); try done.
  - apply blocks_ok_delete, heap_blocks, Hh.
  - by apply changes_delete.
  - by exists c.
Qed.

Lemma kind_malloc_ok self k size s :
  books s → usable_kind k → 0 <= size → ∃ p s', memtier_kind_malloc self k size s = Ret (p, s') ∧ books s' ∧
    allocated live k size (heap s) p (heap s').
Proof.
  intros Hs Hk Hsz. unfold memtier_kind_malloc. pose proof (malloc_law (heap s) k size (bs_heap _ Hs) Hk Hsz) as Hl.
  destruct (memkind_malloc k size (heap s)) as [p a]. destruct Hl as [Ha Hal].
  destruct (count_alloc self k size s p a Hs (usable_known k Hk) Ha Hal) as (s' & -> & Hs' & <-). by exists p, s'.
Qed.

Lemma kind_calloc_ok self k num size s :
  books s → usable_kind k → 0 <= num → 0 <= size → ∃ p s', memtier_kind_calloc self k num size s = Ret (p, s') ∧ books s' ∧
    allocated live k (u64 (num * size)) (heap s) p (heap s').
Proof.
  intros Hs Hk Hn Hsz. unfold memtier_kind_calloc. pose proof (calloc_law (heap s) k num size (bs_heap _ Hs) Hk Hn Hsz) as Hl.
  destruct (memkind_calloc k num size (heap s)) as [p a]. destruct Hl as [Ha Hal].
  destruct (count_alloc self k (u64 (num * size)) s p a Hs (usable_known k Hk) Ha Hal) as (s' & -> & Hs' & <-). by exists p, s'.
Qed.

(** Freeing, by way of [free] or of [realloc] to size zero. *)
Lemma free_ok self p k n s :
  books s → live (heap s) !! p = Some (k, n) →
  ∃ c, decrement self k (usable_size p s) s = Ret (set_ctr c s) ∧
    books (set_mheap (memkind_free k p (heap s)) (set_ctr c s)).
Proof.
  intros Hs Hlk. destruct (uncount self p k n s Hs Hlk) as (c & -> & Hc). exists c. split; [done|].
  destruct (free_law _ _ _ _ (bs_heap _ Hs) Hlk) as [Hh Hl]. split; simpl; [by rewrite Hl|done|].
  apply (bs_policy _ Hs).
Qed.

Lemma kind_free_ok self p k n s :
  books s → live (heap s) !! p = Some (k, n) →
  ∃ s', memtier_kind_free self None p s = Ret s' ∧ books s' ∧ live (heap s') = delete p (live (heap s)).
Proof.
  intros Hs Hlk. unfold memtier_kind_free. rewrite (detect_live _ _ _ _ (bs_heap _ Hs) Hlk).
  assert (Hb : books (bump memtier_free_called s)) by (destruct Hs; by split).
  rewrite (no_events _ Hb). cbn [obind].
  destruct (free_ok self p k n (bump memtier_free_called s) Hb Hlk) as (c & -> & Hc). cbn [obind].
  eexists. split; [reflexivity|]. split; [done|]. simpl.
  by destruct (free_law _ _ _ _ (bs_heap _ Hs) Hlk).
Qed.

(** A failed [realloc] keeps the block but has taken it out of the books. *)
Lemma kind_realloc_ok self p k n size s :
  books s → live (heap s) !! p = Some (k, n) → 0 <= size →
  ∃ q s', memtier_kind_realloc self k p size s = Ret (q, s') ∧
    (books s' ∨
     0 < size ∧ q = NULL ∧ live (heap s') = live (heap s) ∧ books_of (ctr s') (delete p (live (heap s)))).
Proof.
  intros Hs Hlk Hsz. unfold memtier_kind_realloc. rewrite (no_events _ Hs).
  pose proof (proj1 (heap_blocks _ (bs_heap _ Hs)) p k n Hlk) as (Hp0 & Hk & _).
  rewrite (proj2 (Z.eqb_neq p NULL)) by done. cbn [negb]. rewrite andb_true_r.
  destruct (Z.eqb_spec size 0) as [->|Hs0]; cbn [obind].
  - destruct (free_ok self p k n s Hs Hlk) as (c & -> & Hc). cbn [obind]. eexists _, _. split; [reflexivity|]. by left.
  - destruct (uncount self p k n s Hs Hlk) as (c & -> & Hc). cbn [obind]. simpl.
    pose proof (realloc_law (heap s) k p n size (bs_heap _ Hs) Hlk ltac:(lia)) as Hl.
    destruct (memkind_realloc k p size (heap s)) as [q a]. destruct Hl as [Ha Hl].
    change (hotness_policy (set_mheap a (set_ctr c s))) with (hotness_policy s). rewrite (no_events _ Hs). cbn [obind].
    unfold increment, usable_size. simpl. destruct Hl as [(-> & Hl)|(n' & Hn' & Hq & Hnone & Hl)].
    + rewrite usable_null. destruct (increment_ok self c _ (delete p (live (heap s))) (partition k) 0 Hc) as (c' & -> & Hc');
        try done; [apply (bk_blocks _ _ Hc)|split; [intros j; case_match; lia|lia]|].
      eexists _, _. split; [reflexivity|]. right. split_and!; try done. lia.
    + assert (Hlk' : live a !! q = Some (k, n')) by (rewrite Hl; apply lookup_insert_eq).
      rewrite (usable_live a q k n' Ha Hlk'). destruct (block_size a q k n' Ha Hlk') as [Hsz' _].
      destruct (increment_ok self c _ (live a) (partition k) n' Hc) as (c' & -> & Hc'); try done.
      { by apply heap_blocks. }
      { rewrite Hl. by apply changes_insert. }
      eexists _, _. split; [reflexivity|]. left. split; simpl; try done. apply (bs_policy _ Hs).
Qed.
End calls.
