(* ===== verification/MemtierRun.v ===== *)
(** * Calls on a tiered memory

    The whole calls [memtier_malloc], [memtier_calloc], [memtier_realloc] and
    [memtier_kind_free] keep the books, for every policy that meets the
    interface [Policy]; the static ratio and the dynamic thresholds meet it. *)
From Stdlib Require Import SpecFloat.
From stdpp Require Import functions.
From S2P Require Import CString Prelude Float FloatSpec Bigary Alloc Slab CritnibSpec Index Counters CountersSpec Queue QueueSpec Events Tachanka TachankaDemo Memtier MemtierBuilder MemtierAlloc MemtierSpec MemtierPolicy MemtierBooks.

Section policies.
Context {A C W R : Type} `{MemkindAPI A} `{!MemkindLaws A} `{AddrIndex C} `{NodeAlloc W} `{Ranking R}.
Implicit Types s : mstate A C W R.

(** What a call needs of the policy of its memory: a kind for every request,
    nothing to do after it, and an update of the configuration that returns. *)
Class Policy (P : memtier_memory → Prop) := {
  policy_kind m bthash size data s :
    P m → ∃ k d, run_get_kind bthash m size data s = Ret (k, d) ∧ usable_kind k;
  policy_post m : P m → post_alloc m = memtier_empty_post_alloc;
  policy_update m c : P m → ∃ m', run_update_cfg c m = Ret m' ∧ P m';
}.

(** ** The static ratio *)
Record static_memory (m : memtier_memory) : Prop := {
  sm_fun : get_kind m = memtier_single ∨ get_kind m = memtier_policy_static_ratio;
  sm_post : post_alloc m = memtier_empty_post_alloc;
  sm_update : update_cfg m = static_ratio_update_config;
  sm_size : 1 <= cfg_size m;
  sm_cfg : Z.of_nat (length (cfg m)) = cfg_size m;
  sm_known : Forall (λ t, usable_kind (kind t)) (cfg m);
}.

Lemma static_kind_ok m c :
  static_memory m → ∃ k, memtier_policy_static_ratio_get_kind m c = Ret k ∧ usable_kind k.
Proof.
  intros [_ _ _ Hs Hl Hk]. unfold memtier_policy_static_ratio_get_kind.
  destruct (lookup_lt_is_Some_2 (cfg m) 0) as [t0 Ht0]; [lia|].
  rewrite (index_lookup _ 0 _ ltac:(done) Ht0). cbn [obind].
  destruct (static_ratio_loop_ok m c (g_at c (Memtier.partition (kind t0))) (Z.to_nat (cfg_size m - 1)) 1 0)
    as (j & -> & Hj); [lia..|]. cbn [obind].
  destruct Hj as [(-> & _)|(t & Hj & Ht & _)].
  - rewrite (index_lookup _ 0 _ ltac:(done) Ht0). eexists. split; [reflexivity|]. exact (Forall_lookup_1 _ _ 0%nat t0 Hk Ht0).
  - rewrite (index_lookup _ j _ ltac:(lia) Ht). eexists. split; [reflexivity|]. exact (Forall_lookup_1 _ _ _ t Hk Ht).
Qed.

#[global] Instance static_policy : Policy static_memory.
Proof.
  split.
  - intros m bthash size data s Hm. unfold run_get_kind. destruct (sm_fun _ Hm) as [-> | ->].
    + unfold memtier_single_get_kind. destruct (lookup_lt_is_Some_2 (cfg m) 0) as [t Ht].
      { pose proof (sm_size _ Hm). pose proof (sm_cfg _ Hm). lia. }
      rewrite (index_lookup _ 0 _ ltac:(done) Ht). exists (kind t), data. split; [done|].
      exact (Forall_lookup_1 _ _ 0%nat t (sm_known _ Hm) Ht).
    + destruct (static_kind_ok m (ctr s) Hm) as (k & -> & Hk). by exists k, data.
  - intros m Hm. apply (sm_post _ Hm).
  - intros m c Hm. unfold run_update_cfg. rewrite (sm_update _ Hm). by exists m.
Qed.

(** ** The dynamic thresholds *)

(** The degree is small enough for every value in the interval. *)
Definition gentle (deg : spec_float) (t : memtier_threshold_cfg) : Prop :=
  ∀ v, min t <= v <= max t → change_ok deg (set_val t v).

Record dynamic_memory_ok (m : memtier_memory) : Prop := {
  dm_fun : get_kind m = memtier_policy_dynamic_threshold;
  dm_post : post_alloc m = memtier_empty_post_alloc;
  dm_update : update_cfg m = dynamic_threshold_update_config;
  dm_thres : thresholds_ok m;
  dm_gentle : Forall (gentle (thres_degree m)) (thres m);
  dm_known : Forall (λ t, usable_kind (kind t)) (cfg m);
}.

Lemma gentle_adjusted deg l l' : adjusted l l' → Forall (gentle deg) l → Forall (gentle deg) l'.
Proof.
  intros Hl Hg. apply Forall_lookup. intros i t' Ht'.
  destruct (Forall2_lookup_r _ _ _ _ _ Hl Ht') as (t & Ht & _ & Hmin & Hmax).
  intros v Hv. rewrite Hmin, Hmax in Hv. exact (Forall_lookup_1 _ _ _ _ Hg Ht v Hv).
Qed.

Lemma gentle_change deg l : Forall in_range l → Forall (gentle deg) l → Forall (change_ok deg) l.
Proof.
  intros Hr Hg. apply Forall_lookup. intros i t Ht.
  exact (Forall_lookup_1 _ _ _ _ Hg Ht (val t) (Forall_lookup_1 _ _ _ _ Hr Ht)).
Qed.

#[global] Instance dynamic_policy : Policy dynamic_memory_ok.
Proof.
  split.
  - intros m bthash size data s Hm. unfold run_get_kind. rewrite (dm_fun _ Hm).
    destruct (dynamic_choice_ok m size (dm_thres _ Hm)) as (j & t & -> & Ht & _).
    exists (kind t), data. split; [done|]. exact (Forall_lookup_1 _ _ j t (dm_known _ Hm) Ht).
  - intros m Hm. apply (dm_post _ Hm).
  - intros m c Hm. unfold run_update_cfg. rewrite (dm_update _ Hm).
    destruct (update_config_ok c m (dm_thres _ Hm)) as (m' & Hrun & Hth & Hadj & Hsame).
    { apply gentle_change; [|apply (dm_gentle _ Hm)]. eapply ascending_in_range, th_asc, (dm_thres _ Hm). }
    exists m'. split; [done|]. destruct Hm, Hsame as (Hcfg & Hdeg & Hgk & Hpa & Huc).
    split; try done; try congruence.
    rewrite Hdeg. by eapply gentle_adjusted.
Qed.

(** ** The calls *)
Inductive call :=
  | Malloc (size : Z)
  | Calloc (num size : Z)
  | Realloc (p size : Z)
  | Free (p : Z).

Definition run_call (self : Z) (bthash : Z → Z) (data : Z) (x : call) (m : memtier_memory) s :
    outcome (Z * memtier_memory * mstate A C W R) :=
  match x with
  | Malloc size => memtier_malloc self bthash data m size s
  | Calloc num size => memtier_calloc self bthash data m num size s
  | Realloc p size => memtier_realloc self bthash data m p size s
  | Free p => let! s := memtier_kind_free self None p s in Ret (NULL, m, s)
  end.

Definition is_live s (p : Z) : Prop := is_Some (live (heap s) !! p).

(** Sizes are not negative, and pointers come from earlier calls. *)
Definition call_ok (x : call) s : Prop :=
  match x with
  | Malloc size => 0 <= size
  | Calloc num size => 0 <= num ∧ 0 <= size
  | Realloc p size => 0 <= size ∧ (p = NULL ∨ is_live s p)
  | Free p => is_live s p
  end.

Definition failed_realloc (x : call) (r : Z) : Prop :=
  match x with Realloc p size => p ≠ NULL ∧ 0 < size ∧ r = NULL | _ => False end.

Section policy.
Context {P : memtier_memory → Prop} `{!Policy P}.

Lemma malloc_call_ok self bthash data m size s :
  P m → books s → 0 <= size → ∃ p m' s', memtier_malloc self bthash data m size s = Ret (p, m', s') ∧ P m' ∧ books s'.
Proof.
  intros Hm Hs Hsz. unfold memtier_malloc. destruct (policy_kind m bthash size data s Hm) as (k & d & -> & Hk). cbn [obind].
  destruct (kind_malloc_ok self k size s Hs Hk Hsz) as (p & s' & -> & Hs' & _). cbn [obind].
  unfold run_post_alloc. rewrite (policy_post _ Hm). cbn [obind].
  destruct (policy_update m (ctr s') Hm) as (m' & -> & Hm'). by exists p, m', s'.
Qed.

Lemma calloc_call_ok self bthash data m num size s :
  P m → books s → 0 <= num → 0 <= size → ∃ p m' s', memtier_calloc self bthash data m num size s = Ret (p, m', s') ∧ P m' ∧ books s'.
Proof.
  intros Hm Hs Hnum Hsz. unfold memtier_calloc. destruct (policy_kind m bthash size data s Hm) as (k & d & -> & Hk). cbn [obind].
  destruct (kind_calloc_ok self k num size s Hs Hk Hnum Hsz) as (p & s' & -> & Hs' & _). cbn [obind].
  unfold run_post_alloc. rewrite (policy_post _ Hm). cbn [obind].
  destruct (policy_update m (ctr s') Hm) as (m' & -> & Hm'). by exists p, m', s'.
Qed.

Lemma run_call_ok self bthash data x m s :
  P m → books s → call_ok x s →
  ∃ r m' s', run_call self bthash data x m s = Ret (r, m', s') ∧ P m' ∧ (books s' ∨ failed_realloc x r).
Proof.
  intros Hm Hs Hx. destruct x as [size|num size|p size|p]; cbn [run_call call_ok] in *.
  - destruct (malloc_call_ok self bthash data m size s Hm Hs Hx) as (r & m' & s' & -> & ? & ?). by eauto 10.
  - destruct Hx as [Hnum Hsz]. destruct (calloc_call_ok self bthash data m num size s Hm Hs Hnum Hsz) as (r & m' & s' & -> & ? & ?). by eauto 10.
  - unfold memtier_realloc. destruct Hx as [Hsz Hp]. destruct (Z.eqb_spec p NULL) as [->|Hp0]; cbn [negb].
    + case_if; [by eauto 10|].
      destruct (malloc_call_ok self bthash data m size s Hm Hs Hsz) as (r & m' & s' & -> & ? & ?). by eauto 10.
    + destruct Hp as [|[[k n] Hlk]]; [done|]. rewrite (detect_live _ _ _ _ (bs_heap _ Hs) Hlk). cbn [deref obind].
      destruct (kind_realloc_ok self p k n size s Hs Hlk Hsz) as (q & s' & -> & Hor). cbn [obind].
      destruct (policy_update m (ctr s') Hm) as (m' & -> & Hm'). exists q, m', s'. split; [done|]. split; [done|].
      destruct Hor as [|(? & ? & _)]; [by left|by right].
  - destruct Hx as [[k n] Hlk]. destruct (kind_free_ok self p k n s Hs Hlk) as (s' & -> & Hs' & _). cbn [obind].
    by eauto 10.
Qed.

End policy.
End policies.

(** ** A heap to run on *)
Definition HEAP_LIMIT : Z := 2 ^ 40.
Definition top (m : blockmap) : Z := 4096 + foldr Z.max 0 (map_to_list m).*1.

Lemma top_fresh (m : blockmap) : m !! top m = None ∧ top m ≠ NULL.
Proof.
  assert (Hmax : ∀ l, 0 <= foldr Z.max 0 l ∧ ∀ x, x ∈ l → x <= foldr Z.max 0 l).
  { induction l as [|y l [IH0 IH]]; simpl; [split; [lia|]; intros x []%not_elem_of_nil|].
    split; [lia|]. intros x [->|Hx]%elem_of_cons; [lia|]. specialize (IH x Hx). lia. }
  destruct (Hmax (map_to_list m).*1) as [H0 Hle]. unfold top. split; [|lia].
  destruct (m !! _) as [x|] eqn:Hx; [|done]. exfalso. apply elem_of_map_to_list in Hx.
  specialize (Hle _ (list_elem_of_fmap_2 fst _ _ Hx)). simpl in Hle. lia.
Qed.

(** Room for [n] bytes of the kind in the heap [m]. *)
Definition place (k : memkind) (size : Z) (at_ : Z) (m m0 : blockmap) : Z * blockmap :=
  let n := Z.max 0 size in
  if (0 <=? partition k) && (partition k <? MEMKIND_MAX_KIND) && (total_bytes m + n <? HEAP_LIMIT)
  then (at_, <[at_ := (k, n)]> m) else (NULL, m0).

#[local] Instance toy_heap : MemkindAPI blockmap := {
  MEMKIND_DEFAULT := dram;
  memkind_malloc k size m := place k size (top m) m m;
  memkind_calloc k num size m := place k (u64 (num * size)) (top m) m m;
  memkind_realloc k p size m := place k size (top m) (delete p m) m;
  memkind_posix_memalign k p al size m :=
    let (q, m') := place k size (top m) m m in if q =? NULL then (12, p, m') else (0, q, m');
  memkind_free _ p m := delete p m;
  memkind_detect_kind p m := fst <$> m !! p;
  jemk_malloc_usable_size p m := match m !! p with Some (_, n) => if p =? NULL then 0 else n | None => 0 end;
}.

Lemma place_ok k size q (m m0 : blockmap) :
  blocks_ok m → blocks_ok m0 → known k → m !! q = None → q ≠ NULL →
  let '(p, m') := place k size q m m0 in
  blocks_ok m' ∧ (p = NULL ∧ m' = m0 ∨
    ∃ n, size <= n ∧ p ≠ NULL ∧ m !! p = None ∧ m' = <[p := (k, n)]> m).
Proof.
  intros Hm Hm0 Hk Hq Hq0. unfold place, HEAP_LIMIT. destruct (_ && _) eqn:E; [|split; [done|by left]].
  zb. split.
  - split.
    + intros p k' n [(-> & [= <- <-])|(_ & Hp)]%lookup_insert_Some; [split_and!; [done|done|lia]|].
      by apply (proj1 Hm) in Hp.
    + unfold total_bytes in *. rewrite msum_insert by done. simpl. lia.
  - right. exists (Z.max 0 size). split_and!; try done. lia.
Qed.

#[local] Instance toy_laws : MemkindLaws blockmap.
Proof.
  refine {| heap_ok := blocks_ok; live := λ m, m; usable_kind := known |}.
  - done.
  - done.
  - intros m. unfold jemk_malloc_usable_size, toy_heap. by destruct (m !! NULL) as [[]|].
  - intros m p k n Hm Hp. unfold jemk_malloc_usable_size, toy_heap. rewrite Hp.
    apply (proj1 Hm) in Hp as (Hp0 & _). by rewrite (proj2 (Z.eqb_neq p NULL)).
  - intros m p k n _ Hp. unfold memkind_detect_kind, toy_heap. by rewrite Hp.
  - intros m k size Hm Hk _. destruct (top_fresh m) as [Hf H0]. by apply place_ok.
  - intros m k num size Hm Hk _ _. destruct (top_fresh m) as [Hf H0]. by apply place_ok.
  - intros m k p n size Hm Hp _. destruct (top_fresh m) as [Hf H0].
    apply place_ok; try done; [by apply blocks_ok_delete|apply (proj1 Hm) in Hp as (_ & Hk & _); done|].
    rewrite lookup_delete_None. by right.
  - intros m k p n Hm _. split; [by apply blocks_ok_delete|done].
Defined.

(** A program that has called nothing yet. *)
#[local] Existing Instance no_ranking.
#[local] Existing Instance kernel.

Definition no_tachanka : tachanka (gmap Z Z) slab_world unit :=
  Tachanka ∅ ∅ ∅ ∅ (World ∅ ∅) () (LqBuffer [] [] 0 0 0 0 0 0) false.
Definition start : mstate blockmap (gmap Z Z) slab_world unit :=
  MState counters_init MEMTIER_POLICY_STATIC_RATIO no_tachanka (λ _, 0) ∅.

Lemma books_start : books start.
Proof. split; [|split; [by intros ?|done]|done]. split; done. Qed.


(** Run calls in order; the last result and state. *)
Fixpoint run_calls (xs : list call) (m : memtier_memory) (s : mstate blockmap (gmap Z Z) slab_world unit) :
    outcome (list Z * mstate blockmap (gmap Z Z) slab_world unit) :=
  match xs with
  | [] => Ret ([], s)
  | x :: xs =>
      let! (r, m, s) := run_call 7 (λ _, 0) 0 x m s in
      let! (rs, s) := run_calls xs m s in
      Ret (r :: rs, s)
  end.

(** The bytes counted for the two kinds, and the blocks in use. *)
Definition summary (o : outcome (list Z * mstate blockmap (gmap Z Z) slab_world unit)) :
    option (list Z * Z * Z * list (Z * (memkind * Z))) :=
  match o with
  | Ret (rs, s) => Some (rs, g_at (ctr s) 1, g_at (ctr s) 2, map_to_list (heap s))
  | Stop _ => None
  end.

(** Two allocations and a release: the counters agree with the heap. *)
Example calls_run :
  summary (run_calls [Malloc 100; Malloc 30; Realloc 4096 50; Free 8192] demo_static start) =
    Some ([4096; 8192; 12288; NULL], 50, 0, [(12288, (dram, 50))]).
Proof. by vm_compute. Qed.

(** A [realloc] that fails takes the block out of the counters although the
    block stays in use; when it is freed later it is subtracted again, and the
    counter of the kind wraps around. *)
Theorem failed_realloc_loses_bytes :
  summary (run_calls [Malloc 100; Realloc 4096 HEAP_LIMIT] demo_static start) =
    Some ([4096; NULL], 0, 0, [(4096, (dram, 100))]) ∧
  summary (run_calls [Malloc 100; Realloc 4096 HEAP_LIMIT; Free 4096] demo_static start) =
    Some ([4096; NULL; NULL], 2 ^ 64 - 100, 0, []).
Proof. by vm_compute. Qed.

(** The default configuration of the dynamic policy meets the interface. *)
Example demo_dynamic_ok : dynamic_memory_ok demo_dynamic.
Proof.
  split; try done; [|by repeat constructor].
  replace (thres demo_dynamic) with [ThresholdCfg 1024 512 1535 (F32.of_Z 4) (S754_zero false)] by done.
  constructor; [|done]. intros v Hv. cbn [min max] in Hv.
  assert (Hall : forallb (λ v, match threshold_change v (thres_degree demo_dynamic) with
    | Ret d => (0 <=? d) && (d <=? v) | Stop _ => false end) (seqZ 512 1024) = true) by by vm_compute.
  rewrite forallb_forall in Hall. specialize (Hall v). rewrite <- list_elem_of_In, elem_of_seqZ in Hall.
  specialize (Hall ltac:(lia)). unfold change_ok. cbn [val set_val].
  destruct (threshold_change v _) as [d|] eqn:Ed; [|done]. exists d. zb. split_and!; [done|lia..].
Qed.
