(* ===== verification/Ctl.v ===== *)
(** * Configuration strings ([tiering/ctl.c])

    The interposing library is configured by two environment variables:
    [MEMKIND_MEM_TIERS], tiers and a policy separated by [;], and
    [MEMKIND_MEM_THRESHOLDS].  Both are cut up by nested calls of [strtok_r];
    the tokens and the save pointers are suffixes of one buffer, so a string
    value per pointer says what the code sees.  A null pointer is [None]. *)
From Stdlib Require Import SpecFloat.
From S2P Require Import CString Prelude Float Counters Events Tachanka Memtier MemtierBuilder.
Local Open Scope string_scope.
Local Open Scope Z_scope.

Definition CTL_VALUE_SEPARATOR : ascii := ":".
Definition CTL_PARAM_SEPARATOR : ascii := ",".
Definition CTL_STRING_QUERY_SEPARATOR : ascii := ";".
Definition MAX_ENV_STRING : Z := 1024.
Definition MAX_KIND : Z := 255.
Definition MAX_CTL_NAME : Z := 64.
Definition UINT_MAX : Z := 2 ^ 32 - 1.
Definition SIZE_MAX : Z := 2 ^ 64 - 1.
Definition MEMTIER_POLICY_MAX_VALUE : Z := 3.

(** [strcmp] follows its argument. *)
Definition strcmp_eq (s : option string) (t : string) : outcome bool :=
  match s with None => Stop BadDeref | Some s => Ret (streq s t) end.

(** ** Numbers *)
Definition ctl_parse_u (str : string) : option Z :=
  if starts_minus str then None else
  let '(val_ul, any, err) := strtoull str in
  if negb any || err || (UINT_MAX <? val_ul) then None else Some val_ul.

Definition ctl_parse_size_t (str : string) : option Z :=
  if starts_minus str then None else
  let '(val_ul, any, err) := strtoull str in
  if negb any || err then None else Some val_ul.

Definition suffixes : list (string * Z) := [("K", 2 ^ 10); ("M", 2 ^ 20); ("G", 2 ^ 30)].

(** [%31[0-9]]: at most 31 digits. *)
Fixpoint scan_digits (n : nat) (s : string) : string * string :=
  match n, s with
  | S n, String c s' =>
      if isdigit c then let (a, b) := scan_digits n s' in (String c a, b) else (EmptyString, s)
  | _, _ => (EmptyString, s)
  end.

(** [%2s]: blanks, then at most two characters of a word. *)
Definition scan_unit (s : string) : option string :=
  let (_, s) := span isspace s in
  let (w, _) := span (λ c, negb (isspace c)) s in
  match w with EmptyString => None | _ => Some (first_chars 2 w).1 end.

(** The loop over the suffixes. *)
Fixpoint apply_suffix (l : list (string * Z)) (unit : string) (size : Z) : option Z :=
  match l with
  | [] => None
  | (suff, mag) :: l =>
      if streq suff unit then
        if size <=? SIZE_MAX / mag then Some (u64 (size * mag)) else None
      else apply_suffix l unit size
  end.

(** The result and the new content of the save pointer. *)
Definition ctl_parse_size (sptr : option string) : outcome (option Z * option string) :=
  let! (size_str, sptr) := strtok_r None CTL_VALUE_SEPARATOR sptr in
  match size_str with
  | None => Ret (None, sptr)
  | Some size_str =>
      if starts_minus size_str then Ret (None, sptr) else
      let (size, rest) := scan_digits 31 size_str in
      match ctl_parse_size_t size with
      | None => Ret (None, sptr)
      | Some sizep =>
          match scan_unit rest with
          | None => Ret (Some sizep, sptr)
          | Some unit => Ret (apply_suffix suffixes unit sizep, sptr)
          end
      end
  end.

Definition ctl_parse_policy (qbuf : option string) : outcome (option Z) :=
  let! is_static := strcmp_eq qbuf "STATIC_RATIO" in
  if is_static then Ret (Some MEMTIER_POLICY_STATIC_RATIO) else
  let! is_dynamic := strcmp_eq qbuf "DYNAMIC_THRESHOLD" in
  if is_dynamic then Ret (Some MEMTIER_POLICY_DYNAMIC_THRESHOLD) else
  let! is_hot := strcmp_eq qbuf "DATA_HOTNESS" in
  if is_hot then Ret (Some MEMTIER_POLICY_DATA_HOTNESS) else Ret None.

Definition ctl_parse_ratio (sptr : option string) : outcome (option Z * option string) :=
  let! (ratio_str, sptr) := strtok_r None CTL_VALUE_SEPARATOR sptr in
  match ratio_str with
  | None => Ret (None, sptr)
  | Some ratio_str =>
      match ctl_parse_u ratio_str with
      | None => Ret (None, sptr)
      | Some dest => Ret (if dest =? 0 then None else Some dest, sptr)
      end
  end.

(** ** What the parser asks of memkind

    [kmem_alloc]: whether an allocation from [MEMKIND_DAX_KMEM] succeeds;
    [memkind_create_pmem]: the new kind, if any; [memkind_destroy_kind];
    [jemk_ok]: whether the next allocation of the library's own succeeds. *)
Class CtlEnv (E : Type) := {
  ctl_default : memkind;
  ctl_dax_kmem : memkind;
  kmem_alloc : E → bool * E;
  memkind_create_pmem : option string → Z → E → option memkind * E;
  memkind_destroy_kind : memkind → E → E;
  jemk_ok : E → bool * E;
}.

(** [fs_dax_reg_g]: its array is absent before the first kind, and [freed]
    after [ctl_destroy_fs_dax_reg], which resets neither field. *)
Record fs_dax_registry := FsDaxRegistry {
  reg_size : Z;
  reg_kinds : list memkind;
  reg_freed : bool;
}.
Definition fs_dax_reg_init : fs_dax_registry := FsDaxRegistry 0 [] false.

Section ctl.
Context {E : Type} `{CtlEnv E}.

(** The registry and the rest of the process. *)
Record ctl_state := CtlState {
  fs_dax_reg_g : fs_dax_registry;
  ext : E;
}.

Definition set_reg (r : fs_dax_registry) (s : ctl_state) : ctl_state := CtlState r (ext s).
Definition set_ext (e : E) (s : ctl_state) : ctl_state := CtlState (fs_dax_reg_g s) e.

Definition draw (s : ctl_state) : bool * ctl_state :=
  let (ok, e) := jemk_ok (ext s) in (ok, set_ext e s).

(** [memkind_realloc] of a freed array is an error of the program. *)
Definition ctl_add_pmem_kind_to_fs_dax_reg (kind : memkind) (s : ctl_state) : outcome (Z * ctl_state) :=
  let r := fs_dax_reg_g s in
  if reg_freed r then Stop BadDeref else
  let (ok, s) := draw s in
  if negb ok then Ret (-1, s) else
  Ret (0, set_reg (FsDaxRegistry (u32 (reg_size r + 1)) (reg_kinds r ++ [kind]) false) s).

(** The array is read and freed; with no kinds it is a null pointer. *)
Definition ctl_destroy_fs_dax_reg (s : ctl_state) : outcome ctl_state :=
  let r := fs_dax_reg_g s in
  if reg_freed r then Stop BadDeref else
  let e := foldl (λ e k, memkind_destroy_kind k e) (ext s) (reg_kinds r) in
  let freed := negb (match reg_kinds r with [] => true | _ => false end) in
  Ret (CtlState (FsDaxRegistry (reg_size r) (reg_kinds r) freed) e).

(** ** Tiers *)

(** The local variables of [ctl_parse_tier_query] with [*kind] and [*ratio]. *)
Record tier_query := TierQuery {
  q_kind : option memkind;
  q_ratio : Z;
  is_fsdax : bool;
  fsdax_path : option string;
  fsdax_size_str : option string;
  ratio_str : option string;
  kind_set : bool;
  fsdax_path_set : bool;
  fsdax_size_set : bool;
  ratio_set : bool;
}.

Definition tier_query_init : tier_query :=
  TierQuery None 0 false None None None false false false false.

(** [KIND:name]; [None] for a failed parse. *)
Definition parse_kind (kind_name : option string) (q : tier_query) (s : ctl_state) :
    outcome (option tier_query * ctl_state) :=
  let put k fsdax :=
    TierQuery k (q_ratio q) fsdax (fsdax_path q) (fsdax_size_str q) (ratio_str q)
      true (fsdax_path_set q) (fsdax_size_set q) (ratio_set q) in
  let! is_dram := strcmp_eq kind_name "DRAM" in
  if is_dram then Ret (Some (put (Some ctl_default) (is_fsdax q)), s) else
  let! is_kmem := strcmp_eq kind_name "KMEM_DAX" in
  if is_kmem then
    let (ok, e) := kmem_alloc (ext s) in
    let s := set_ext e s in
    if ok then Ret (Some (put (Some ctl_dax_kmem) (is_fsdax q)), s) else Ret (None, s)
  else
  let! is_fs := strcmp_eq kind_name "FS_DAX" in
  if is_fs then Ret (Some (put (q_kind q) true), s) else Ret (None, s).

Definition set_path (p : option string) (q : tier_query) : tier_query :=
  TierQuery (q_kind q) (q_ratio q) (is_fsdax q) p (fsdax_size_str q) (ratio_str q)
    (kind_set q) true (fsdax_size_set q) (ratio_set q).
Definition set_size_str (p : option string) (q : tier_query) : tier_query :=
  TierQuery (q_kind q) (q_ratio q) (is_fsdax q) (fsdax_path q) p (ratio_str q)
    (kind_set q) (fsdax_path_set q) true (ratio_set q).
Definition set_ratio (r : Z) (p : option string) (q : tier_query) : tier_query :=
  TierQuery (q_kind q) r (is_fsdax q) (fsdax_path q) (fsdax_size_str q) p
    (kind_set q) (fsdax_path_set q) (fsdax_size_set q) true.

(** One parameter of a tier; the save pointer comes back advanced. *)
Definition tier_param (param_str : string) (sptr : option string) (q : tier_query) (s : ctl_state) :
    outcome (option tier_query * option string * ctl_state) :=
  if streq param_str "KIND" then
    if kind_set q then Ret (None, sptr, s) else
    let! (kind_name, sptr) := strtok_r None CTL_PARAM_SEPARATOR sptr in
    let! (q, s) := parse_kind kind_name q s in
    Ret (q, sptr, s)
  else if streq param_str "PATH" then
    if fsdax_path_set q then Ret (None, sptr, s) else
    let! (p, sptr) := strtok_r None CTL_PARAM_SEPARATOR sptr in
    Ret (Some (set_path p q), sptr, s)
  else if streq param_str "PMEM_SIZE_LIMIT" then
    if fsdax_size_set q then Ret (None, sptr, s) else
    let! (p, sptr) := strtok_r None CTL_PARAM_SEPARATOR sptr in
    Ret (Some (set_size_str p q), sptr, s)
  else if streq param_str "RATIO" then
    if ratio_set q then Ret (None, sptr, s) else
    let! (r, sptr) := strtok_r None CTL_PARAM_SEPARATOR sptr in
    let! (ratio, r) := ctl_parse_ratio r in
    match ratio with
    | None => Ret (None, sptr, s)
    | Some ratio => Ret (Some (set_ratio ratio r q), sptr, s)
    end
  else Ret (None, sptr, s).

(** The [while] loop; each round takes at least one character. *)
Fixpoint tier_loop (fuel : nat) (param_str sptr : option string) (q : tier_query) (s : ctl_state) :
    outcome (option tier_query * option string * ctl_state) :=
  match param_str with
  | None => Ret (Some q, sptr, s)
  | Some p =>
      match fuel with
      | O => Stop OutOfFuel
      | S fuel =>
          let! (q, sptr, s) := tier_param p sptr q s in
          match q with
          | None => Ret (None, sptr, s)
          | Some q =>
              let! (param_str, sptr) := strtok_r None CTL_VALUE_SEPARATOR sptr in
              tier_loop fuel param_str sptr q s
          end
      end
  end.

Definition buf_len (s : option string) : nat := match s with Some s => String.length s | None => 0 end.

(** What follows the loop for an [FS_DAX] tier.  [memkind_check_dax_path] only
    decides on a message. *)
Definition finish_fsdax (q : tier_query) (s : ctl_state) : outcome (option (option memkind * Z) * ctl_state) :=
  if negb (fsdax_path_set q) then Ret (None, s) else
  let! size :=
    if fsdax_size_set q then let! (n, _) := ctl_parse_size (fsdax_size_str q) in Ret n else Ret (Some 0) in
  match size with
  | None => Ret (None, s)
  | Some fsdax_max_size =>
      let (k, e) := memkind_create_pmem (fsdax_path q) fsdax_max_size (ext s) in
      let s := set_ext e s in
      match k with
      | None => Ret (None, s)
      | Some k =>
          let! (r, s) := ctl_add_pmem_kind_to_fs_dax_reg k s in
          Ret (if negb (r =? 0) then None else Some (Some k, q_ratio q), s)
      end
  end.

(** [*kind] and [*ratio], or [None] for a failed parse.  The test of [kind] in
    the source is on the pointer to it, which is never null. *)
Definition ctl_parse_tier_query (qbuf : option string) (s : ctl_state) :
    outcome (option (option memkind * Z) * ctl_state) :=
  let! (param_str, sptr) := strtok_r qbuf CTL_VALUE_SEPARATOR None in
  let! (q, sptr, s) := tier_loop (S (buf_len qbuf)) param_str sptr tier_query_init s in
  match q with
  | None => Ret (None, s)
  | Some q =>
      match ratio_str q with
      | None => Ret (None, s)
      | Some _ =>
          let! (res, s) :=
            if is_fsdax q then finish_fsdax q s
            else if fsdax_path_set q then Ret (None, s)
            else if fsdax_size_set q then Ret (None, s)
            else Ret (Some (q_kind q, q_ratio q), s) in
          match res with
          | None => Ret (None, s)
          | Some _ =>
              let! (extra, _) := strtok_r None CTL_VALUE_SEPARATOR sptr in
              match extra with Some _ => Ret (None, s) | None => Ret (res, s) end
          end
      end
  end.

(** ** Thresholds *)
Definition CTL_THRES_VAL : Z := 0.
Definition CTL_THRES_MIN : Z := 1.
Definition CTL_THRES_MAX : Z := 2.

(** [snprintf(buf, MAX_CTL_NAME, ctl_cmd[ctl_id][0], th_id)]. *)
Definition ctl_cmd (ctl_id : Z) (th_id : Z) : string :=
  (first_chars (Z.to_nat (MAX_CTL_NAME - 1))
     ("policy.dynamic_threshold.thresholds[" ++ (print_int th_id ++ ("]." ++
       (if ctl_id =? CTL_THRES_VAL then "val" else if ctl_id =? CTL_THRES_MIN then "min" else "max"))))).1.

(** The result, the save pointer, [*ctl_opts] and the builder. *)
Definition ctl_set_thr_cfg (sptr : option string) (ctl_id th_id ctl_opts : Z) (b : memtier_builder) :
    outcome (Z * option string * Z * memtier_builder) :=
  if 3 <=? ctl_id then Ret (-1, sptr, ctl_opts, b) else
  if Z.testbit ctl_opts ctl_id then Ret (-1, sptr, ctl_opts, b) else
  let! (val_str, sptr) := strtok_r None CTL_PARAM_SEPARATOR sptr in
  let! (val, _) := ctl_parse_size val_str in
  match val with
  | None => Ret (-1, sptr, ctl_opts, b)
  | Some val =>
      let! (ret, b) := memtier_ctl_set b (ctl_cmd ctl_id th_id) (le_bytes 8 val) in
      Ret (ret, sptr, Z.setbit ctl_opts ctl_id, b)
  end.

Definition threshold_param (p : string) : option Z :=
  if streq p "INIT_VAL" then Some CTL_THRES_VAL
  else if streq p "MIN_VAL" then Some CTL_THRES_MIN
  else if streq p "MAX_VAL" then Some CTL_THRES_MAX
  else None.

Fixpoint threshold_query_loop (fuel : nat) (param_str sptr : option string) (th_id ctl_opts : Z)
    (b : memtier_builder) : outcome (Z * memtier_builder) :=
  match param_str with
  | None => Ret (0, b)
  | Some p =>
      match fuel with
      | O => Stop OutOfFuel
      | S fuel =>
          match threshold_param p with
          | None => Ret (-1, b)
          | Some ctl_id =>
              let! (ret, sptr, ctl_opts, b) := ctl_set_thr_cfg sptr ctl_id th_id ctl_opts b in
              if negb (ret =? 0) then Ret (-1, b) else
              let! (param_str, sptr) := strtok_r None CTL_VALUE_SEPARATOR sptr in
              threshold_query_loop fuel param_str sptr th_id ctl_opts b
          end
      end
  end.

Definition ctl_parse_threshold_query (qbuf : option string) (th_id : Z) (b : memtier_builder) :
    outcome (Z * memtier_builder) :=
  let! (param_str, sptr) := strtok_r qbuf CTL_VALUE_SEPARATOR None in
  match param_str with
  | None => Ret (-1, b)
  | Some _ => threshold_query_loop (S (buf_len qbuf)) param_str sptr th_id 0 b
  end.

(** ** The whole configuration *)

(** The number of separators in the buffer. *)
Fixpoint count_char (c : ascii) (s : string) : Z :=
  match s with
  | EmptyString => 0
  | String x s => (if Ascii.eqb x c then 1 else 0) + count_char c s
  end.

(** The loop over the tiers, filling [temp_cfg] from [i] up. *)
Fixpoint parse_tiers (n : nat) (i : Z) (qbuf sptr : option string) (s : ctl_state) :
    outcome (option (list (option memkind * Z)) * option string * option string * ctl_state) :=
  match n with
  | O => Ret (Some [], qbuf, sptr, s)
  | S n =>
      let! (t, s) := ctl_parse_tier_query qbuf s in
      match t with
      | None => Ret (None, qbuf, sptr, s)
      | Some t =>
          if MAX_KIND <=? i then Stop OutOfBounds else
          let! (qbuf, sptr) := strtok_r None CTL_STRING_QUERY_SEPARATOR sptr in
          let! (l, qbuf, sptr, s) := parse_tiers n (i + 1) qbuf sptr s in
          Ret (match l with None => None | Some l => Some (t :: l) end, qbuf, sptr, s)
      end
  end.

Fixpoint build_tiers (l : list (option memkind * Z)) (b : memtier_builder) (s : ctl_state) :
    Z * memtier_builder * ctl_state :=
  match l with
  | [] => (0, b, s)
  | (k, r) :: l =>
      let (ok1, s) := draw s in
      let (ok2, s) := draw s in
      let (ret, b) := memtier_builder_add_tier b k r ok1 null_threshold ok2 in
      if negb (ret =? 0) then (ret, b, s) else build_tiers l b s
  end.

Fixpoint parse_thresholds (n : nat) (i : Z) (qbuf sptr : option string) (b : memtier_builder) :
    outcome (Z * memtier_builder) :=
  match n with
  | O => Ret (0, b)
  | S n =>
      let! (ret, b) := ctl_parse_threshold_query qbuf i b in
      if negb (ret =? 0) then Ret (-1, b) else
      let! (qbuf, sptr) := strtok_r None CTL_STRING_QUERY_SEPARATOR sptr in
      parse_thresholds n (i + 1) qbuf sptr b
  end.

(** [strncpy] into a zeroed buffer of [MAX_ENV_STRING] bytes. *)
Definition env_local (v : string) : string := (first_chars (Z.to_nat (MAX_ENV_STRING - 1)) v).1.

(** The part on [MEMKIND_MEM_THRESHOLDS]. *)
Definition configure_thresholds (env : string → option string) (policy tier_count : Z) (b : memtier_builder) :
    outcome (Z * memtier_builder) :=
  match env "MEMKIND_MEM_THRESHOLDS" with
  | None => Ret (0, b)
  | Some v =>
      let buf := env_local v in
      if negb (policy =? MEMTIER_POLICY_DYNAMIC_THRESHOLD) then Ret (-1, b) else
      let thresholds_count := 1 + count_char CTL_STRING_QUERY_SEPARATOR buf in
      if tier_count <=? thresholds_count then Ret (-1, b) else
      let! (qbuf, sptr) := strtok_r (Some buf) CTL_STRING_QUERY_SEPARATOR None in
      match qbuf with
      | None => Ret (-1, b)
      | Some _ => parse_thresholds (Z.to_nat thresholds_count) 0 qbuf sptr b
      end
  end.

(** [builder->create_mem(builder)]; [create_hot] stands for the hotness
    builder, which starts the background thread. *)
Definition memtier_builder_construct_memtier_memory
    (create_hot : memtier_builder → ctl_state → outcome (option memtier_memory * ctl_state))
    (fresh : memtier_memory) (b : memtier_builder) (s : ctl_state) : outcome (option memtier_memory * ctl_state) :=
  match create_mem b with
  | builder_static_create =>
      let (ok1, s) := draw s in
      let (ok2, s) := draw s in
      let! m := builder_static_create_memory b (if ok1 then Some fresh else None) ok2 in Ret (m, s)
  | builder_dynamic_create =>
      let (ok0, s) := draw s in
      let (ok1, s) := draw s in
      let (ok2, s) := draw s in
      let! m := builder_dynamic_create_memory b ok0 (if ok1 then Some fresh else None) ok2 in Ret (m, s)
  | builder_hot_create => create_hot b s
  end.

(** What follows [cleanup_after_failure]. *)
Definition cleanup_after_failure (s : ctl_state) : outcome (option memtier_memory * ctl_state) :=
  let! s := ctl_destroy_fs_dax_reg s in Ret (None, s).

(** From the policy and the tiers on. *)
Definition build_memory (env : string → option string)
    (create_hot : memtier_builder → ctl_state → outcome (option memtier_memory * ctl_state))
    (fresh : memtier_memory) (pol policy tier_count : Z) (temp_cfg : list (option memkind * Z)) (s : ctl_state) :
    outcome (option memtier_memory * ctl_state) :=
  let (ok, s) := draw s in
  match (memtier_builder_new ok policy pol).1 with
  | None => cleanup_after_failure s
  | Some b =>
      let '(ret, b, s) := build_tiers temp_cfg b s in
      if negb (ret =? 0) then cleanup_after_failure s else
      let! (ret, b) := configure_thresholds env policy tier_count b in
      if negb (ret =? 0) then cleanup_after_failure s else
      let! (m, s) := memtier_builder_construct_memtier_memory create_hot fresh b s in
      match m with
      | None => cleanup_after_failure s
      | Some m => Ret (Some m, s)
      end
  end.

Definition ctl_create_tier_memory_from_env (env : string → option string)
    (create_hot : memtier_builder → ctl_state → outcome (option memtier_memory * ctl_state))
    (fresh : memtier_memory) (pol : Z) (env_var_string : string) (s : ctl_state) :
    outcome (option memtier_memory * ctl_state) :=
  let buf := env_local env_var_string in
  let query_count := 1 + count_char CTL_STRING_QUERY_SEPARATOR buf in
  let tier_count := query_count - 1 in
  let! (qbuf, sptr) := strtok_r (Some buf) CTL_STRING_QUERY_SEPARATOR None in
  match qbuf with
  | None => Ret (None, s)
  | Some _ =>
      if query_count <? 2 then Ret (None, s) else
      let! (tiers, qbuf, sptr, s) := parse_tiers (Z.to_nat tier_count) 0 qbuf sptr s in
      match tiers with
      | None => cleanup_after_failure s
      | Some temp_cfg =>
          let! (qbuf, sptr) := strtok_r qbuf CTL_VALUE_SEPARATOR sptr in
          let! is_policy := strcmp_eq qbuf "POLICY" in
          if negb is_policy then cleanup_after_failure s else
          let! policy := ctl_parse_policy sptr in
          match policy with
          | None => cleanup_after_failure s
          | Some policy => build_memory env create_hot fresh pol policy tier_count temp_cfg s
          end
      end
  end.

(** The registry first, then the memory. *)
Definition ctl_destroy_tier_memory (s : ctl_state) : outcome ctl_state := ctl_destroy_fs_dax_reg s.
End ctl.
Arguments ctl_state E : clear implicits.
Arguments CtlState {E}.
Arguments fs_dax_reg_g {E}.
Arguments ext {E}.
