(* ===== verification/CtlSafe.v ===== *)
(** * The configuration parser ends and stays in bounds

    Every loop of [tiering/ctl.c] ends, its two fixed-size buffers are large
    enough, and the only way it can go wrong is by following a bad pointer. *)
From Stdlib Require Import SpecFloat.
From S2P Require Import CString Prelude Float Counters Events Tachanka Memtier MemtierBuilder MemtierPolicy Ctl.
Local Open Scope string_scope.
Local Open Scope Z_scope.

(** ** Outcomes whose only faults are a bad pointer and an exit *)
Definition tame {X} (o : outcome X) : Prop := ∀ f, o = Stop f → f = BadDeref ∨ f = Exited.

Lemma tame_ret {X} (x : X) : tame (Ret x).
Proof. by intros f. Qed.

Lemma tame_bad {X} : tame (@Stop X BadDeref).
Proof. intros f [= <-]. by left. Qed.

Lemma tame_exit {X} : tame (@Stop X Exited).
Proof. intros f [= <-]. by right. Qed.

Lemma tame_bind {X Y} (o : outcome X) (k : X → outcome Y) :
  tame o → (∀ x, o = Ret x → tame (k x)) → tame (obind o k).
Proof. intros Ho Hk. destruct o as [x|g]; simpl; [by apply Hk|]. intros f [= <-]. by apply Ho. Qed.

Lemma tame_index {X} (l : list X) i : tame (index l i).
Proof. unfold index, deref. case_if; [apply tame_bad|]. case_match; [apply tame_ret|apply tame_bad]. Qed.

Create HintDb nulls discriminated.
#[export] Hint Resolve tame_ret tame_bad tame_exit tame_index : nulls.
#[export] Hint Extern 0 (tame (Ret _)) => apply tame_ret : nulls.

(** Go through a definition: binds, tests and matches. *)
Ltac nulls :=
  repeat first
    [ progress (eauto 2 with nulls)
    | apply tame_bind; [|intros ? ?]
    | match goal with
      | |- tame (match ?x with _ => _ end) => destruct x
      | x : (_ * _)%type |- _ => destruct x
      end ].

(** ** Tokens get shorter *)
Lemma span_length p s : (String.length (span p s).1 + String.length (span p s).2 = String.length s)%nat.
Proof.
  induction s as [|c s IH]; [done|]. cbn [span]. destruct (p c); [|done].
  destruct (span p s) as [a b]. cbn in *. lia.
Qed.

Lemma span_head p s a c b : span p s = (a, String c b) → p c = false.
Proof.
  revert a. induction s as [|x s IH]; intros a; [done|]. cbn [span]. destruct (p x) eqn:Hx.
  - destruct (span p s) as [a' b'] eqn:Es. intros [= <- ->]. by apply (IH a').
  - by intros [= <- <- <-].
Qed.

Lemma strtok_null str sep save : tame (strtok_r str sep save).
Proof. unfold strtok_r. nulls. Qed.
#[export] Hint Resolve strtok_null : nulls.

(** A token is not empty and lies, with what follows it, in the text. *)
Lemma strtok_shrinks str sep save tok save' :
  strtok_r str sep save = Ret (tok, save') →
  (buf_len tok + buf_len save' <= buf_len (match str with Some s => Some s | None => save end))%nat ∧
  (tok = None ∨ (0 < buf_len tok)%nat).
Proof.
  unfold strtok_r. destruct (match str with Some s => Some s | None => save end) as [s|]; [|done].
  pose proof (span_length (λ c, Ascii.eqb c sep) s) as H1.
  destruct (span (λ c, Ascii.eqb c sep) s) as [a b] eqn:Ea. cbn in H1.
  destruct b as [|c b]; [intros [= <- <-]; cbn; split; [lia|by left]|].
  destruct (span (λ x, negb (Ascii.eqb x sep)) (String c b)) as [t rest] eqn:Es.
  pose proof (span_length (λ x, negb (Ascii.eqb x sep)) (String c b)) as H2. rewrite Es in H2. cbn in H1, H2.
  intros Heq. assert ((buf_len tok + buf_len save' <= String.length t + String.length rest)%nat ∧ tok = Some t)
    as [Hle ->].
  { destruct rest; injection Heq as <- <-; cbn; split; done || lia. }
  split; [cbn [buf_len] in *; lia|]. right. apply span_head in Ea. cbn [span] in Es. rewrite Ea in Es.
  destruct (span _ b) in Es. injection Es as <- <-. cbn. lia.
Qed.

(** ** Values *)
Lemma parse_size_null p : tame (ctl_parse_size p).
Proof. unfold ctl_parse_size. nulls. Qed.

Lemma strcmp_null p t : tame (strcmp_eq p t).
Proof. unfold strcmp_eq. nulls. Qed.
#[export] Hint Resolve parse_size_null strcmp_null : nulls.

Lemma parse_policy_null p : tame (ctl_parse_policy p).
Proof. unfold ctl_parse_policy. nulls. Qed.

Lemma parse_ratio_null p : tame (ctl_parse_ratio p).
Proof. unfold ctl_parse_ratio. nulls. Qed.
#[export] Hint Resolve parse_policy_null parse_ratio_null : nulls.

(** ** Tiers *)
Section tiers.
Context {E : Type} `{CtlEnv E}.
Implicit Types s : ctl_state E.

Lemma destroy_reg_null s : tame (ctl_destroy_fs_dax_reg s).
Proof. unfold ctl_destroy_fs_dax_reg. nulls. Qed.

Lemma add_reg_null k s : tame (ctl_add_pmem_kind_to_fs_dax_reg k s).
Proof. unfold ctl_add_pmem_kind_to_fs_dax_reg. nulls. Qed.
#[local] Hint Resolve destroy_reg_null add_reg_null : nulls.

Lemma parse_kind_null n q s : tame (parse_kind n q s).
Proof. unfold parse_kind. nulls. Qed.
#[local] Hint Resolve parse_kind_null : nulls.

Lemma tier_param_null p sptr q s : tame (tier_param p sptr q s).
Proof. unfold tier_param. nulls. Qed.

Lemma finish_fsdax_null q s : tame (finish_fsdax q s).
Proof. unfold finish_fsdax. nulls. Qed.
#[local] Hint Resolve tier_param_null finish_fsdax_null : nulls.

Lemma parse_kind_ratio n q s r s' : parse_kind n q s = Ret (Some r, s') → ratio_str r = ratio_str q.
Proof.
  unfold parse_kind. intros Hrun. run_inv. repeat (case_match; run_inv; try done).
Qed.

(** A parameter takes text away; only [RATIO] sets the ratio. *)
Lemma tier_param_step p sptr q s q' sptr' s' :
  tier_param p sptr q s = Ret (q', sptr', s') →
  (buf_len sptr' <= buf_len sptr)%nat ∧
  (p = "RATIO" ∨ ∀ r, q' = Some r → ratio_str r = ratio_str q).
Proof.
  unfold tier_param, streq. intros Hrun.
  assert (Htok : ∀ tok save, strtok_r None CTL_PARAM_SEPARATOR sptr = Ret (tok, save) →
    (buf_len save <= buf_len sptr)%nat).
  { intros tok save Hs. apply strtok_shrinks in Hs as [Hle _]. cbn in Hle. lia. }
  destruct (String.eqb p "KIND").
  { destruct (kind_set q); run_inv; [by split; [|right]|]. split; [by eapply Htok|]. right. intros r ->.
    by eapply parse_kind_ratio. }
  destruct (String.eqb p "PATH").
  { destruct (fsdax_path_set q); run_inv; [by split; [|right]|]. split; [by eapply Htok|]. right. by intros r [= <-]. }
  destruct (String.eqb p "PMEM_SIZE_LIMIT").
  { destruct (fsdax_size_set q); run_inv; [by split; [|right]|]. split; [by eapply Htok|]. right. by intros r [= <-]. }
  destruct (String.eqb_spec p "RATIO") as [->|_].
  - split; [|by left]. destruct (ratio_set q); run_inv; [done|]. apply Htok in Ha.
    case_match; run_inv; done.
  - run_inv. by split; [|right].
Qed.
(** The loop ends within its fuel, and a ratio takes the text ["RATIO"]. *)
Lemma tier_loop_null fuel param sptr q s :
  (buf_len sptr < fuel)%nat → tame (tier_loop fuel param sptr q s).
Proof.
  revert param sptr q s. induction fuel as [|fuel IH]; intros param sptr q s Hf; [lia|].
  cbn [tier_loop]. destruct param as [p|]; [|apply tame_ret].
  apply tame_bind; [apply tier_param_null|]. intros [[q' sptr'] s'] Hp.
  apply tier_param_step in Hp as [Hle _]. destruct q' as [q'|]; [|apply tame_ret].
  apply tame_bind; [apply strtok_null|]. intros [param' sptr''] Hs.
  apply strtok_shrinks in Hs as [Hle' Hne]. cbn in Hle'.
  destruct Hne as [->|Hne]; [destruct fuel; apply tame_ret|]. apply IH. lia.
Qed.

Lemma tier_loop_ratio fuel param sptr q s r sptr' s' :
  tier_loop fuel param sptr q s = Ret (Some r, sptr', s') → ratio_str q = None → ratio_str r ≠ None →
  (5 <= buf_len param + buf_len sptr)%nat.
Proof.
  revert param sptr q s. induction fuel as [|fuel IH]; intros param sptr q s; cbn [tier_loop];
    (destruct param as [p|]; [|intros Hrun; run_inv; congruence]); [done|].
  intros Hrun Hq Hr. run_inv. apply tier_param_step in Ha as [Hle Hrat].
  destruct Hrat as [->|Hrat]; [cbn; lia|].
  destruct o as [q'|]; run_inv; [|done]. apply strtok_shrinks in Ha as [Hle' _]. cbn in Hle'.
  apply IH in Hrun; [cbn in *; lia| |done]. rewrite <- Hq. by apply Hrat.
Qed.

Lemma tier_query_null qbuf s : tame (ctl_parse_tier_query qbuf s).
Proof.
  unfold ctl_parse_tier_query. apply tame_bind; [apply strtok_null|]. intros [param sptr] Hs.
  apply strtok_shrinks in Hs as [Hle _]. apply tame_bind; [|intros; nulls].
  apply tier_loop_null. destruct qbuf; cbn in *; lia.
Qed.

Lemma tier_query_length qbuf s t s' :
  ctl_parse_tier_query qbuf s = Ret (Some t, s') → (5 <= buf_len qbuf)%nat.
Proof.
  unfold ctl_parse_tier_query. intros Hrun. run_inv. apply strtok_shrinks in Ha as [Hle _].
  destruct o1 as [q|]; run_inv; [|done]. destruct (ratio_str q) eqn:Hr; run_inv; [|done].
  apply tier_loop_ratio in Ha0; [|done|congruence]. destruct qbuf; cbn in *; lia.
Qed.

(** [temp_cfg] has room: every tier takes five of the 1023 characters. *)
Lemma parse_tiers_null n i qbuf sptr s :
  0 <= i → Z.of_nat (buf_len qbuf) + Z.of_nat (buf_len sptr) + 5 * i <= MAX_ENV_STRING - 1 →
  tame (parse_tiers n i qbuf sptr s).
Proof.
  revert i qbuf sptr s. induction n as [|n IH]; intros i qbuf sptr s Hi Hlen; cbn [parse_tiers]; [apply tame_ret|].
  apply tame_bind; [apply tier_query_null|]. intros [[t|] s'] Ht; [|apply tame_ret].
  apply tier_query_length in Ht. unfold MAX_KIND, MAX_ENV_STRING in *.
  rewrite (proj2 (Z.leb_gt 255 i)) by lia.
  apply tame_bind; [apply strtok_null|]. intros [qbuf' sptr'] Hs. apply strtok_shrinks in Hs as [Hle _]. cbn in Hle.
  apply tame_bind; [|intros; nulls]. apply IH; lia.
Qed.
End tiers.

(** ** Thresholds *)
Lemma first_chars_length n s : (String.length (first_chars n s).1 <= n)%nat.
Proof.
  revert s. induction n as [|n IH]; intros [|c s]; cbn; try lia. specialize (IH s).
  destruct (first_chars n s). cbn in *. lia.
Qed.

Lemma first_chars_all n s : (String.length s <= n)%nat → first_chars n s = (s, "").
Proof.
  revert s. induction n as [|n IH]; intros [|c s]; cbn; try done || lia. intros Hl. by rewrite IH by lia.
Qed.

Lemma print_int_length n : (String.length (print_int n) <= 20)%nat.
Proof.
  unfold print_int. assert (∀ fuel m acc, (String.length (print_dec fuel m acc) <= fuel + String.length acc)%nat) as Hgen.
  { induction fuel as [|fuel IH]; intros m acc; cbn [print_dec]; [lia|]. case_if; [cbn; lia|].
    specialize (IH (m / 10) (String (ascii_of_digit (m mod 10)) acc)). cbn in *. lia. }
  apply (Hgen 20%nat n "").
Qed.

(** The field that a control number stands for. *)
Definition field_of (ctl_id : Z) : threshold_field :=
  if ctl_id =? CTL_THRES_VAL then FVal else if ctl_id =? CTL_THRES_MIN then FMin else FMax.

(** [buf] is large enough for the name. *)
Lemma ctl_cmd_name ctl_id th_id : ctl_cmd ctl_id th_id = threshold_name th_id (field_of ctl_id).
Proof.
  unfold ctl_cmd, threshold_name, field_of.
  assert (∀ f, first_chars (Z.to_nat (MAX_CTL_NAME - 1))
    ("policy.dynamic_threshold.thresholds[" ++ (print_int th_id ++ ("]." ++ field_name f))) =
    ("policy.dynamic_threshold.thresholds[" ++ (print_int th_id ++ ("]." ++ field_name f)), "")) as Hfit.
  { intros f. apply first_chars_all. pose proof (print_int_length th_id) as Hl.
    assert (Happ : ∀ a b, String.length (a ++ b) = (String.length a + String.length b)%nat).
    { induction a as [|c a IHa]; intros b; [done|]. rewrite append_cons. cbn. by rewrite IHa. }
    rewrite !Happ. change (Z.to_nat (MAX_CTL_NAME - 1)) with 63%nat.
    assert (String.length (field_name f) = 3%nat) by by destruct f. cbn [String.length]. lia. }
  destruct (ctl_id =? CTL_THRES_VAL); [exact (f_equal fst (Hfit FVal))|].
  destruct (ctl_id =? CTL_THRES_MIN); [exact (f_equal fst (Hfit FMin))|exact (f_equal fst (Hfit FMax))].
Qed.

Lemma ctl_set_null b ctl_id th_id v :
  0 <= th_id < 2 ^ 31 - 1 → tame (memtier_ctl_set b (ctl_cmd ctl_id th_id) v).
Proof.
  intros Hi. rewrite ctl_cmd_name. unfold memtier_ctl_set, builder_static_ctl_set, builder_hot_ctl_set.
  destruct (ctl_set b); [nulls| |nulls]. rewrite ctl_set_name_eq by done. nulls.
Qed.

Lemma set_thr_cfg_null sptr ctl_id th_id opts b :
  0 <= th_id < 2 ^ 31 - 1 → tame (ctl_set_thr_cfg sptr ctl_id th_id opts b).
Proof. intros Hi. unfold ctl_set_thr_cfg. pose proof (λ v, ctl_set_null b ctl_id th_id v Hi). nulls. Qed.

Lemma set_thr_cfg_shrinks sptr ctl_id th_id opts b r sptr' opts' b' :
  ctl_set_thr_cfg sptr ctl_id th_id opts b = Ret (r, sptr', opts', b') → (buf_len sptr' <= buf_len sptr)%nat.
Proof.
  unfold ctl_set_thr_cfg. case_if; [intros; run_inv; done|]. case_if; [intros; run_inv; done|].
  intros Hrun. run_inv. apply strtok_shrinks in Ha as [Hle _]. cbn in Hle.
  case_match; run_inv; lia.
Qed.

Lemma threshold_loop_null fuel param sptr th_id opts b :
  0 <= th_id < 2 ^ 31 - 1 → (buf_len sptr < fuel)%nat →
  tame (threshold_query_loop fuel param sptr th_id opts b).
Proof.
  intros Hi. revert param sptr opts b. induction fuel as [|fuel IH]; intros param sptr opts b Hf; [lia|].
  cbn [threshold_query_loop]. destruct param as [p|]; [|apply tame_ret].
  destruct (threshold_param p) as [id|]; [|apply tame_ret].
  apply tame_bind; [by apply set_thr_cfg_null|]. intros [[[r sptr'] opts'] b'] Hp.
  apply set_thr_cfg_shrinks in Hp. case_if; [apply tame_ret|].
  apply tame_bind; [apply strtok_null|]. intros [param' sptr''] Hs.
  apply strtok_shrinks in Hs as [Hle Hne]. cbn in Hle.
  destruct Hne as [->|Hne]; [destruct fuel; apply tame_ret|]. apply IH. lia.
Qed.

Lemma threshold_query_null qbuf th_id b :
  0 <= th_id < 2 ^ 31 - 1 → tame (ctl_parse_threshold_query qbuf th_id b).
Proof.
  intros Hi. unfold ctl_parse_threshold_query. apply tame_bind; [apply strtok_null|]. intros [param sptr] Hs.
  apply strtok_shrinks in Hs as [Hle _]. destruct param; [|apply tame_ret].
  apply threshold_loop_null; [done|]. destruct qbuf; cbn in *; lia.
Qed.

Lemma parse_thresholds_null n i qbuf sptr b :
  0 <= i → i + Z.of_nat n < 2 ^ 31 → tame (parse_thresholds n i qbuf sptr b).
Proof.
  revert i qbuf sptr b. induction n as [|n IH]; intros i qbuf sptr b Hi Hn; cbn [parse_thresholds]; [apply tame_ret|].
  apply tame_bind; [apply threshold_query_null; lia|]. intros [r b'] _. case_if; [apply tame_ret|].
  apply tame_bind; [apply strtok_null|]. intros [qbuf' sptr'] _. apply IH; lia.
Qed.

Lemma count_char_length c s : 0 <= count_char c s <= Z.of_nat (String.length s).
Proof. induction s as [|x s IH]; cbn [count_char String.length]; [lia|]. destruct (Ascii.eqb x c); lia. Qed.

Lemma env_local_length v : Z.of_nat (String.length (env_local v)) <= MAX_ENV_STRING - 1.
Proof.
  unfold env_local, MAX_ENV_STRING. pose proof (first_chars_length (Z.to_nat (1024 - 1)) v). lia.
Qed.

Lemma configure_thresholds_null env policy tier_count b : tame (configure_thresholds env policy tier_count b).
Proof.
  unfold configure_thresholds. destruct (env _) as [v|]; [|apply tame_ret].
  case_if; [apply tame_ret|]. case_if; [apply tame_ret|].
  apply tame_bind; [apply strtok_null|]. intros [qbuf sptr] _. destruct qbuf; [|apply tame_ret].
  pose proof (count_char_length CTL_STRING_QUERY_SEPARATOR (env_local v)). pose proof (env_local_length v).
  unfold MAX_ENV_STRING in *. apply parse_thresholds_null; lia.
Qed.

(** ** Memory *)
Lemma normalize_null b m : tame (normalize b m).
Proof.
  assert (Hloop : ∀ r n i m, tame (normalize_loop b r i n m)).
  { intros r n. induction n as [|n IH]; intros i m'; cbn [normalize_loop]; nulls. }
  unfold normalize. nulls.
Qed.
#[export] Hint Resolve normalize_null : nulls.

Lemma copy_thresholds_null b n i : tame (copy_thresholds b i n).
Proof. revert i. induction n as [|n IH]; intros i; cbn [copy_thresholds]; nulls. Qed.
#[export] Hint Resolve copy_thresholds_null : nulls.

(** The hotness builder may also exit on purpose. *)
Lemma hot_create_tame `{LibC} {T} env addr (init : spec_float → Z → outcome T) b m ok c :
  (∀ w n, tame (init w n)) → tame (builder_hot_create_memory env addr init b m ok c).
Proof.
  intros Hinit. assert (Hd : ∀ name dflt, tame (env_double env name dflt)).
  { intros name dflt. unfold env_double. nulls. }
  assert (Hp : tame (read_hot_params env)) by (unfold read_hot_params; nulls).
  assert (Ht : ∀ sum n i m, tame (hot_tiers addr b sum i n m)).
  { intros sum n. induction n as [|n IH]; intros i m'; cbn [hot_tiers]; nulls. }
  assert (Hr : ∀ d a c, tame (tachanka_set_dram_total_ratio d a c)).
  { intros d a c'. unfold tachanka_set_dram_total_ratio, check_dram_total_ratio. nulls. }
  unfold builder_hot_create_memory. nulls.
Qed.

Section whole.
Context {E : Type} `{CtlEnv E}.
Context (create_hot : memtier_builder → ctl_state E → outcome (option memtier_memory * ctl_state E)).
Context (create_hot_ok : ∀ b s, tame (create_hot b s)).

Lemma static_create_null b m ok : tame (builder_static_create_memory b m ok).
Proof. unfold builder_static_create_memory. nulls. Qed.

Lemma dynamic_create_null b th m ok : tame (builder_dynamic_create_memory b th m ok).
Proof. unfold builder_dynamic_create_memory. nulls. Qed.
#[local] Hint Resolve static_create_null dynamic_create_null create_hot_ok : nulls.

Lemma construct_null fresh b s : tame (memtier_builder_construct_memtier_memory create_hot fresh b s).
Proof. unfold memtier_builder_construct_memtier_memory. nulls. Qed.

End whole.
