(* ===== verification/CtlSpec.v ===== *)
(** * Configuration strings mean what they say

    A configuration printed in the documented syntax is parsed back to the same
    tiers and policy, sizes with their suffixes included; and the texts that
    make the parser follow a null pointer. *)
From Stdlib Require Import SpecFloat.
From S2P Require Import CString Prelude Float Counters Events Tachanka Memtier MemtierBuilder MemtierSpec MemtierPolicy Ctl CtlSafe.
Local Open Scope string_scope.
Local Open Scope Z_scope.

(** Decide the comparisons of known strings. *)
Ltac eval_streq :=
  repeat match goal with
  | |- context [streq ?a ?b] => let v := eval vm_compute in (streq a b) in change (streq a b) with v
  end; cbn beta iota.

(** ** Characters *)
Fixpoint all_chars (p : ascii → bool) (s : string) : bool :=
  match s with EmptyString => true | String c s => p c && all_chars p s end.

Definition lacks (c : ascii) (s : string) : bool := all_chars (λ x, negb (Ascii.eqb x c)) s.

Lemma all_chars_app p a b : all_chars p (a ++ b) = all_chars p a && all_chars p b.
Proof. induction a as [|c a IH]; [done|]. rewrite append_cons. cbn. by rewrite IH, andb_assoc. Qed.

Lemma all_chars_impl (p q : ascii → bool) s :
  (∀ c, p c = true → q c = true) → all_chars p s = true → all_chars q s = true.
Proof. intros Hpq. induction s as [|c s IH]; [done|]. cbn. rewrite !andb_true_iff. naive_solver. Qed.

Lemma span_all p a : all_chars p a = true → span p a = (a, "").
Proof. induction a as [|c a IH]; [done|]. cbn. intros [-> Ha]%andb_true_iff. by rewrite IH. Qed.

Lemma span_skip p c s : p c = false → span p (String c s) = ("", String c s).
Proof. intros Hc. cbn. by rewrite Hc. Qed.

Lemma span_stop p a c b : all_chars p a = true → p c = false → span p (a ++ String c b) = (a, String c b).
Proof.
  intros Ha Hc. revert Ha. induction a as [|x a IH]; [intros _; by apply span_skip|].
  rewrite append_cons. cbn [span all_chars]. intros [-> Ha]%andb_true_iff. by rewrite IH.
Qed.

(** ** Tokens *)

(** A token of a separator: not empty and free of it. *)
Definition token (sep : ascii) (t : string) : bool := negb (String.eqb t "") && lacks sep t.

Lemma token_head sep t : token sep t = true → ∃ c t', t = String c t' ∧ Ascii.eqb c sep = false ∧ lacks sep t = true.
Proof.
  unfold token. intros [Hne Hl]%andb_true_iff. destruct t as [|c t]; [done|]. exists c, t. split; [done|].
  split; [|done]. cbn in Hl. by apply andb_true_iff in Hl as [Hc%negb_true_iff _].
Qed.

Lemma strtok_mid sep t rest : token sep t = true →
  strtok_r (Some (t ++ String sep rest)) sep None = Ret (Some t, Some rest).
Proof.
  intros (c & t' & -> & Hc & Hl)%token_head. unfold strtok_r. rewrite append_cons, span_skip by done.
  rewrite <- append_cons, span_stop; [done|done|]. by rewrite Ascii.eqb_refl.
Qed.

Lemma strtok_last sep t : token sep t = true → strtok_r (Some t) sep None = Ret (Some t, Some "").
Proof.
  intros (c & t' & -> & Hc & Hl)%token_head. unfold strtok_r. rewrite span_skip by done. by rewrite span_all.
Qed.

(** Continuing from the save pointer is starting there. *)
Lemma strtok_continue sep s : strtok_r None sep (Some s) = strtok_r (Some s) sep None.
Proof. done. Qed.

Lemma strtok_done sep : strtok_r None sep (Some "") = Ret (None, Some "").
Proof. done. Qed.

(** ** Numbers in decimal *)
Lemma digit_is_digit d : 0 <= d < 10 → isdigit (ascii_of_digit d) = true.
Proof.
  intros Hd. assert (d = 0 ∨ d = 1 ∨ d = 2 ∨ d = 3 ∨ d = 4 ∨ d = 5 ∨ d = 6 ∨ d = 7 ∨ d = 8 ∨ d = 9) as Hc by lia.
  repeat destruct Hc as [->|Hc]; try done. by subst.
Qed.

Lemma print_int_digits n : 0 <= n → all_chars isdigit (print_int n) = true.
Proof.
  intros Hn. unfold print_int. assert (∀ fuel m acc, 0 <= m → all_chars isdigit acc = true →
    all_chars isdigit (print_dec fuel m acc) = true) as Hgen; [|by apply Hgen].
  induction fuel as [|fuel IH]; intros m acc Hm Hacc; [done|]. cbn [print_dec].
  assert (all_chars isdigit (String (ascii_of_digit (m mod 10)) acc) = true).
  { cbn. rewrite digit_is_digit; [done|]. apply Z.mod_pos_bound. lia. }
  case_if; [done|]. apply IH; [apply Z.div_pos; lia|done].
Qed.

Lemma print_int_nonempty n : 0 <= n < 2 ^ 64 → String.eqb (print_int n) "" = false.
Proof. intros Hn. by destruct (print_int_head n Hn) as (d & s & _ & -> & _). Qed.

Lemma print_int_token sep n : isdigit sep = false → 0 <= n < 2 ^ 64 → token sep (print_int n) = true.
Proof.
  intros Hsep Hn. unfold token. rewrite print_int_nonempty by done. cbn.
  apply (all_chars_impl isdigit); [|apply print_int_digits; lia].
  intros c Hc. apply negb_true_iff. destruct (Ascii.eqb_spec c sep); [congruence|done].
Qed.

Lemma print_int_not_minus n : 0 <= n < 2 ^ 64 → starts_minus (print_int n) = false.
Proof.
  intros Hn. pose proof (print_int_digits n ltac:(lia)) as Hd.
  destruct (print_int_head n Hn) as (d & s & _ & Hp & _). rewrite Hp in *. cbn in *.
  apply andb_true_iff in Hd as [Hd _]. destruct (Ascii.eqb_spec (ascii_of_digit d) "-") as [He|]; [|done].
  by rewrite He in Hd.
Qed.

Lemma parse_size_t_print n : 0 <= n < 2 ^ 64 → ctl_parse_size_t (print_int n) = Some n.
Proof. intros Hn. unfold ctl_parse_size_t. by rewrite print_int_not_minus, strtoull_print. Qed.

Lemma parse_u_print n : 0 <= n <= UINT_MAX → ctl_parse_u (print_int n) = Some n.
Proof.
  unfold UINT_MAX. intros Hn. unfold ctl_parse_u. rewrite print_int_not_minus, strtoull_print by lia.
  unfold UINT_MAX. by rewrite (proj2 (Z.ltb_ge _ n)) by lia.
Qed.

(** ** Sizes *)
Lemma scan_digits_all k a b :
  all_chars isdigit a = true → (String.length a <= k)%nat →
  (match b with String c _ => isdigit c = false | _ => True end) → scan_digits k (a ++ b) = (a, b).
Proof.
  revert a. induction k as [|k IH]; intros a Ha Hk Hb; destruct a as [|c a]; cbn in Hk; try lia.
  - done.
  - destruct b as [|x b]; [done|]. change ("" ++ String x b) with (String x b). cbn [scan_digits]. by rewrite Hb.
  - rewrite append_cons. cbn [scan_digits all_chars] in *. apply andb_true_iff in Ha as [-> Ha]. rewrite IH by (done || lia). done.
Qed.

(** The suffixes of the documentation, and no suffix. *)
Definition suffix_ok (suff : string) (mag : Z) : Prop := suff = "" ∧ mag = 1 ∨ (suff, mag) ∈ suffixes.

Lemma apply_suffix_ok suff mag n :
  0 <= n → (suff, mag) ∈ suffixes →
  apply_suffix suffixes suff n = if n * mag <=? SIZE_MAX then Some (n * mag) else None.
Proof.
  intros Hn Hin. assert (Hdiv : ∀ m, 0 < m → (n <=? SIZE_MAX / m) = (n * m <=? SIZE_MAX)).
  { intros m Hm. apply eq_iff_eq_true. rewrite !Z.leb_le, Z.mul_comm. split; intros Hle.
    - pose proof (Z.mul_div_le SIZE_MAX m Hm). nia.
    - apply Z.div_le_lower_bound; lia. }
  assert (Hu : ∀ m, 0 < m → (if n * m <=? SIZE_MAX then Some (u64 (n * m)) else None) =
    (if n * m <=? SIZE_MAX then Some (n * m) else None)).
  { intros m Hm. case_if; [|done]. unfold SIZE_MAX in *. rewrite u64_small; [done|]. unfold is_u64. nia. }
  unfold suffixes in Hin. set_unfold in Hin.
  destruct Hin as [[= -> ->]|[[= -> ->]|[[= -> ->]|[]]]];
    cbn [apply_suffix suffixes]; eval_streq; (rewrite Hdiv, Hu by lia); done.
Qed.

Lemma starts_minus_app a b : String.eqb a "" = false → starts_minus (a ++ b) = starts_minus a.
Proof. by destruct a. Qed.

Lemma parse_size_ok n suff mag :
  0 <= n < 2 ^ 64 → suffix_ok suff mag →
  ctl_parse_size (Some (print_int n ++ suff)) =
    Ret (if n * mag <=? SIZE_MAX then Some (n * mag) else None, Some "").
Proof.
  intros Hn Hs. unfold ctl_parse_size.
  assert (Hsuf : all_chars (λ c, negb (isdigit c) && negb (Ascii.eqb c ":")) suff = true ∧
    scan_unit suff = (if String.eqb suff "" then None else Some suff)).
  { destruct Hs as [[-> _]|Hin]; [done|]. unfold suffixes in Hin. set_unfold in Hin. by destruct Hin as [[= -> ->]|[[= -> ->]|[[= -> ->]|[]]]]. }
  destruct Hsuf as [Hc Hu].
  assert (Htok : token ":" (print_int n ++ suff) = true).
  { unfold token, lacks. rewrite all_chars_app. rewrite andb_true_iff. split.
    - by destruct (print_int_head n Hn) as (d & s & _ & -> & _).
    - apply andb_true_iff. split.
      + by pose proof (print_int_token ":" n eq_refl Hn) as [_ Ht]%andb_true_iff.
      + revert Hc. apply all_chars_impl. intros c. by intros [_ ?]%andb_true_iff. }
  rewrite strtok_continue, (strtok_last ":") by done. cbn [obind].
  rewrite starts_minus_app by (by apply print_int_nonempty). rewrite print_int_not_minus by done.
  rewrite scan_digits_all; [|apply print_int_digits; lia|pose proof (print_int_length n); lia|].
  2:{ destruct suff as [|c suff]; [done|]. cbn [all_chars] in Hc. apply andb_true_iff in Hc as [Hc _].
      apply andb_true_iff in Hc as [Hc _]. by apply negb_true_iff. }
  rewrite parse_size_t_print, Hu by done. destruct (String.eqb_spec suff "") as [->|Hne].
  - destruct Hs as [[_ ->]|Hin]; [|unfold suffixes in Hin; set_unfold in Hin; naive_solver].
    rewrite Z.mul_1_r. by rewrite (proj2 (Z.leb_le n _)) by (unfold SIZE_MAX; lia).
  - destruct Hs as [[? _]|Hin]; [done|]. f_equal. f_equal. apply apply_suffix_ok; [lia|done].
Qed.

(** C37: A size is read as documented: a decimal number with an optional suffix
    K, M or G is the number times the unit, and it is refused exactly when the
    product does not fit a [size_t]. *)
Theorem ctl_parse_size_correct n suff mag :
  0 <= n < 2 ^ 64 → suffix_ok suff mag →
  ctl_parse_size (Some (print_int n ++ suff)) =
    Ret (if n * mag <=? SIZE_MAX then Some (n * mag) else None, Some "").
Proof. apply parse_size_ok. Qed.

(** ** Tiers *)
Inductive tier :=
  | TDram
  | TKmem
  | TFsDax (path : string) (limit : Z).

Definition print_kind (t : tier) : string :=
  match t with
  | TDram => "KIND:DRAM"
  | TKmem => "KIND:KMEM_DAX"
  | TFsDax path limit => "KIND:FS_DAX,PATH:" ++ (path ++ (",PMEM_SIZE_LIMIT:" ++ print_int limit))
  end.

Definition print_tier (t : tier * Z) : string := print_kind t.1 ++ (",RATIO:" ++ print_int t.2).

Definition path_ok (p : string) : bool :=
  negb (String.eqb p "") && all_chars (λ c, negb (Ascii.eqb c ":") && negb (Ascii.eqb c ",") && negb (Ascii.eqb c ";")) p.

Definition tier_ok (t : tier * Z) : Prop :=
  1 <= t.2 <= UINT_MAX ∧
  match t.1 with TFsDax path limit => path_ok path = true ∧ 0 <= limit < 2 ^ 64 | _ => True end.

Section tiers.
Context {E : Type} `{CtlEnv E}.
Implicit Types s : ctl_state E.

(** What a tier asks for: its kind, with its side effects. *)
Definition make_tier (t : tier * Z) s : outcome (option (option memkind * Z) * ctl_state E) :=
  match t.1 with
  | TDram => Ret (Some (Some ctl_default, t.2), s)
  | TKmem =>
      let (ok, e) := kmem_alloc (ext s) in
      Ret (if ok then Some (Some ctl_dax_kmem, t.2) else None, set_ext e s)
  | TFsDax path limit =>
      let (k, e) := memkind_create_pmem (Some path) limit (ext s) in
      match k with
      | None => Ret (None, set_ext e s)
      | Some k =>
          let! (r, s) := ctl_add_pmem_kind_to_fs_dax_reg k (set_ext e s) in
          Ret (if negb (r =? 0) then None else Some (Some k, t.2), s)
      end
  end.

Lemma ratio_param r q s :
  1 <= r <= UINT_MAX → ratio_set q = false →
  tier_param "RATIO" (Some (print_int r)) q s = Ret (Some (set_ratio r (Some "") q), Some "", s).
Proof.
  intros Hr Hq. assert (Hr' : 0 <= r < 2 ^ 64) by (unfold UINT_MAX in Hr; lia).
  unfold tier_param. eval_streq. rewrite Hq, strtok_continue, (strtok_last ",") by (by apply print_int_token).
  cbn [obind]. unfold ctl_parse_ratio. rewrite strtok_continue, (strtok_last ":") by (by apply print_int_token).
  cbn [obind]. rewrite parse_u_print by lia. by rewrite (proj2 (Z.eqb_neq r 0)) by lia.
Qed.

(** The loop at the last parameter, [RATIO]. *)
Lemma tier_loop_last fuel r q s :
  1 <= r <= UINT_MAX → ratio_set q = false →
  tier_loop (S fuel) (Some "RATIO") (Some (print_int r)) q s = Ret (Some (set_ratio r (Some "") q), Some "", s).
Proof.
  intros Hr Hq. cbn [tier_loop]. rewrite ratio_param by done. cbn [obind].
  rewrite strtok_done. cbn [obind]. by destruct fuel.
Qed.

(** One parameter before others. *)
Lemma tier_loop_next fuel p sptr q s q' rest s' next rest' :
  tier_param p (Some sptr) q s = Ret (Some q', Some rest, s') → strtok_r (Some rest) CTL_VALUE_SEPARATOR None = Ret (Some next, Some rest') →
  tier_loop (S fuel) (Some p) (Some sptr) q s = tier_loop fuel (Some next) (Some rest') q' s'.
Proof. intros Hp Hs. cbn [tier_loop]. rewrite Hp. cbn [obind]. by rewrite strtok_continue, Hs. Qed.

Lemma ratio_next r :
  strtok_r (Some ("RATIO:" ++ print_int r)) CTL_VALUE_SEPARATOR None = Ret (Some "RATIO", Some (print_int r)).
Proof. by apply (strtok_mid ":" "RATIO"). Qed.

(** Rounds enough for the four parameters. *)
Lemma query_fuel rest : ∃ f, S (buf_len (Some ("KIND" ++ String ":" rest))) = S (S (S (S (S f)))).
Proof. exists (S (String.length rest)). reflexivity. Qed.

Lemma dram_query r s : 1 <= r <= UINT_MAX →
  ctl_parse_tier_query (Some (print_tier (TDram, r))) s = Ret (Some (Some ctl_default, r), s).
Proof.
  intros Hr. unfold ctl_parse_tier_query.
  change (print_tier (TDram, r)) with ("KIND" ++ String ":" ("DRAM" ++ String "," ("RATIO:" ++ print_int r))).
  rewrite (strtok_mid ":" "KIND") by done. cbn [obind].
  destruct (query_fuel ("DRAM" ++ String "," ("RATIO:" ++ print_int r))) as [f ->].
  erewrite tier_loop_next; [|unfold tier_param; eval_streq; cbn [kind_set tier_query_init];
    rewrite strtok_continue, (strtok_mid "," "DRAM") by done; cbn [obind]; reflexivity|apply ratio_next].
  rewrite tier_loop_last by done. reflexivity.
Qed.

Lemma kmem_query r s : 1 <= r <= UINT_MAX →
  ctl_parse_tier_query (Some (print_tier (TKmem, r))) s = make_tier (TKmem, r) s.
Proof.
  intros Hr. unfold ctl_parse_tier_query, make_tier.
  change (print_tier (TKmem, r)) with ("KIND" ++ String ":" ("KMEM_DAX" ++ String "," ("RATIO:" ++ print_int r))).
  rewrite (strtok_mid ":" "KIND") by done. cbn [obind].
  destruct (query_fuel ("KMEM_DAX" ++ String "," ("RATIO:" ++ print_int r))) as [f ->].
  cbn [fst snd]. destruct (kmem_alloc (ext s)) as [ok e] eqn:Ek. destruct ok.
  - erewrite tier_loop_next; [|unfold tier_param; eval_streq; cbn [kind_set tier_query_init];
      rewrite strtok_continue, (strtok_mid "," "KMEM_DAX") by done; cbn [obind];
      unfold parse_kind, strcmp_eq; eval_streq; cbn [obind]; rewrite Ek; reflexivity|apply ratio_next].
    rewrite tier_loop_last by done. reflexivity.
  - cbn [tier_loop]. unfold tier_param. eval_streq. cbn [kind_set tier_query_init].
    rewrite strtok_continue, (strtok_mid "," "KMEM_DAX") by done. cbn [obind].
    unfold parse_kind, strcmp_eq. eval_streq. cbn [obind]. by rewrite Ek.
Qed.
(** A parameter whose value is kept as text. *)
Lemma path_param path rest q s :
  token "," path = true → fsdax_path_set q = false →
  tier_param "PATH" (Some (path ++ String "," rest)) q s = Ret (Some (set_path (Some path) q), Some rest, s).
Proof.
  intros Hp Hq. unfold tier_param. eval_streq. by rewrite Hq, strtok_continue, (strtok_mid "," path).
Qed.

Lemma limit_param v rest q s :
  token "," v = true → fsdax_size_set q = false →
  tier_param "PMEM_SIZE_LIMIT" (Some (v ++ String "," rest)) q s =
    Ret (Some (set_size_str (Some v) q), Some rest, s).
Proof.
  intros Hp Hq. unfold tier_param. eval_streq. by rewrite Hq, strtok_continue, (strtok_mid "," v).
Qed.

Lemma path_tokens sep p : sep ∈ [":"; ","; ";"]%char → path_ok p = true → token sep p = true.
Proof.
  intros Hsep [Hne Hp]%andb_true_iff. unfold token. rewrite Hne. cbn. revert Hp. apply all_chars_impl.
  intros c. rewrite !andb_true_iff. set_unfold in Hsep. naive_solver.
Qed.

Lemma fsdax_query path limit r s :
  tier_ok (TFsDax path limit, r) →
  ctl_parse_tier_query (Some (print_tier (TFsDax path limit, r))) s = make_tier (TFsDax path limit, r) s.
Proof.
  intros (Hr & Hp & Hl). cbn [fst snd] in *. unfold ctl_parse_tier_query, make_tier.
  assert (print_tier (TFsDax path limit, r) = "KIND" ++ String ":" ("FS_DAX" ++ String "," ("PATH" ++ String ":"
    (path ++ String "," ("PMEM_SIZE_LIMIT" ++ String ":" (print_int limit ++ String "," ("RATIO:" ++ print_int r))))))) as ->.
  { unfold print_tier, print_kind. cbn [fst snd]. rewrite <- !append_assoc. done. }
  rewrite (strtok_mid ":" "KIND") by done. cbn [obind].
  match goal with |- context [S (buf_len (Some ("KIND" ++ String ":" ?rest)))] => destruct (query_fuel rest) as [f ->] end.
  erewrite tier_loop_next; [|unfold tier_param; eval_streq; cbn [kind_set tier_query_init];
    rewrite strtok_continue, (strtok_mid "," "FS_DAX") by done; cbn [obind]; reflexivity|
    by apply (strtok_mid ":" "PATH")].
  erewrite tier_loop_next; [|apply path_param; [by apply path_tokens; [set_solver|]|done]|
    by apply (strtok_mid ":" "PMEM_SIZE_LIMIT")].
  erewrite tier_loop_next; [|apply limit_param; [by apply print_int_token|done]|apply ratio_next].
  rewrite tier_loop_last by done. cbn [obind ratio_str set_ratio is_fsdax set_size_str set_path].
  unfold finish_fsdax. cbn [obind ratio_str set_ratio is_fsdax set_size_str set_path fsdax_path_set fsdax_size_set
    fsdax_size_str fsdax_path q_ratio negb].
  pose proof (parse_size_ok limit "" 1 Hl (or_introl (conj eq_refl eq_refl))) as Hsz.
  rewrite append_empty, Z.mul_1_r, (proj2 (Z.leb_le limit _)) in Hsz by (unfold SIZE_MAX; lia).
  rewrite Hsz. cbn [obind fst snd].
  destruct (memkind_create_pmem (Some path) limit (ext s)) as [[k|] e]; [|done].
  destruct (ctl_add_pmem_kind_to_fs_dax_reg k (set_ext e s)) as [[z s']|]; cbn [obind]; [|done].
  by destruct (negb (z =? 0)).
Qed.

Lemma tier_query_ok t s : tier_ok t → ctl_parse_tier_query (Some (print_tier t)) s = make_tier t s.
Proof.
  destruct t as [[| |path limit] r]; intros Ht.
  - apply dram_query, Ht.
  - apply kmem_query, Ht.
  - by apply fsdax_query.
Qed.
End tiers.

(** ** The whole text *)
Definition policy_name (p : Z) : string :=
  if p =? MEMTIER_POLICY_STATIC_RATIO then "STATIC_RATIO"
  else if p =? MEMTIER_POLICY_DYNAMIC_THRESHOLD then "DYNAMIC_THRESHOLD" else "DATA_HOTNESS".

Fixpoint print_config (ts : list (tier * Z)) (p : Z) : string :=
  match ts with
  | [] => "POLICY:" ++ policy_name p
  | t :: ts => print_tier t ++ String ";" (print_config ts p)
  end.

Lemma print_tier_lacks t : tier_ok t → lacks ";" (print_tier t) = true.
Proof.
  destruct t as [t r]. intros [Hr Ht]. cbn [fst snd] in *.
  assert (Hn : ∀ n, 0 <= n < 2 ^ 64 → lacks ";" (print_int n) = true).
  { intros n Hn. by pose proof (print_int_token ";" n eq_refl Hn) as [_ ?]%andb_true_iff. }
  unfold print_tier, lacks in *. cbn [fst snd]. rewrite !all_chars_app, Hn, !andb_true_r by (unfold UINT_MAX in Hr; lia).
  destruct t as [| |path limit]; [done|done|]. destruct Ht as [Hp Hl]. cbn [print_kind].
  rewrite !all_chars_app, Hn, !andb_true_r by done.
  pose proof (path_tokens ";" path ltac:(set_solver) Hp) as [_ Hl']%andb_true_iff. unfold lacks in Hl'. by rewrite Hl'.
Qed.

Lemma print_tier_token t : tier_ok t → token ";" (print_tier t) = true.
Proof.
  intros Ht. unfold token. rewrite print_tier_lacks by done. rewrite andb_true_r.
  by destruct t as [[| |path limit] r].
Qed.

Lemma policy_token p : token ";" ("POLICY:" ++ policy_name p) = true.
Proof. unfold policy_name. destruct (p =? _); [done|]. by destruct (p =? _). Qed.

Lemma count_char_app c a b : count_char c (a ++ b) = count_char c a + count_char c b.
Proof. induction a as [|x a IH]; [done|]. rewrite append_cons. cbn [count_char]. lia. Qed.

Lemma count_char_lacks c s : lacks c s = true → count_char c s = 0.
Proof.
  induction s as [|x s IH]; [done|]. unfold lacks. cbn [all_chars count_char].
  intros [->%negb_true_iff Hs]%andb_true_iff. by rewrite IH.
Qed.

Lemma count_config ts p : Forall tier_ok ts → count_char ";" (print_config ts p) = Z.of_nat (length ts).
Proof.
  induction 1 as [|t ts Ht Hts IH]; cbn [print_config length].
  - apply count_char_lacks. by pose proof (policy_token p) as [_ ?]%andb_true_iff.
  - rewrite count_char_app, (count_char_lacks _ _ (print_tier_lacks _ Ht)). cbn [count_char]. rewrite IH.
    change (Ascii.eqb ";" ";") with true. lia.
Qed.

(** The first query of a configuration, and where the next one starts. *)
Definition first_query (ts : list (tier * Z)) (p : Z) : string :=
  match ts with [] => "POLICY:" ++ policy_name p | t :: _ => print_tier t end.
Definition later_queries (ts : list (tier * Z)) (p : Z) : string :=
  match ts with [] => "" | _ :: ts => print_config ts p end.

Lemma config_token ts p :
  Forall tier_ok ts →
  strtok_r (Some (print_config ts p)) CTL_STRING_QUERY_SEPARATOR None =
    Ret (Some (first_query ts p), Some (later_queries ts p)).
Proof.
  intros Hts. destruct Hts as [|t ts Ht Hts]; cbn [print_config first_query later_queries].
  - apply (strtok_last ";"), policy_token.
  - by apply (strtok_mid ";"), print_tier_token.
Qed.

Section config.
Context {E : Type} `{CtlEnv E}.
Implicit Types s : ctl_state E.

Fixpoint make_tiers (ts : list (tier * Z)) s : outcome (option (list (option memkind * Z)) * ctl_state E) :=
  match ts with
  | [] => Ret (Some [], s)
  | t :: ts =>
      let! (r, s) := make_tier t s in
      match r with
      | None => Ret (None, s)
      | Some r =>
          let! (l, s) := make_tiers ts s in
          Ret (match l with None => None | Some l => Some (r :: l) end, s)
      end
  end.

(** The parser gives the same tiers, and then stands at the policy. *)
Definition agrees (p : Z) (o : outcome (option (list (option memkind * Z)) * ctl_state E))
    (o' : outcome (option (list (option memkind * Z)) * option string * option string * ctl_state E)) : Prop :=
  match o with
  | Ret (Some l, s) => o' = Ret (Some l, Some ("POLICY:" ++ policy_name p), Some "", s)
  | Ret (None, s) => ∃ q sp, o' = Ret (None, q, sp, s)
  | Stop f => o' = Stop f
  end.

Lemma parse_tiers_ok ts p i s :
  Forall tier_ok ts → 0 <= i → i + Z.of_nat (length ts) <= MAX_KIND →
  agrees p (make_tiers ts s)
    (parse_tiers (length ts) i (Some (first_query ts p)) (Some (later_queries ts p)) s).
Proof.
  intros Hts. revert i s. induction Hts as [|t ts Ht Hts IH]; intros i s Hi Hn; [done|].
  cbn [length parse_tiers make_tiers first_query later_queries] in *. rewrite tier_query_ok by done.
  destruct (make_tier t s) as [[[r|] s']|f]; cbn [obind agrees]; [|by eauto|done].
  rewrite (proj2 (Z.leb_gt MAX_KIND i)) by lia. rewrite strtok_continue, config_token by done. cbn [obind].
  specialize (IH (i + 1) s' ltac:(lia) ltac:(lia)).
  destruct (make_tiers ts s') as [[[l|] s'']|f]; cbn [obind agrees] in *.
  - by rewrite IH.
  - destruct IH as (q & sp & ->). by eauto.
  - by rewrite IH.
Qed.

End config.

(** ** Runs *)
Definition fs_kind : memkind := Kind 0x3000 3.

(** A machine on which everything works. *)
#[local] Instance toy_env : CtlEnv unit := {
  ctl_default := dram;
  ctl_dax_kmem := pmem;
  kmem_alloc e := (true, e);
  memkind_create_pmem _ _ e := (Some fs_kind, e);
  memkind_destroy_kind _ e := e;
  jemk_ok e := (true, e);
}.
#[local] Instance no_strtod : LibC := { strtod _ := (S754_zero false, true, false) }.

Definition idle : ctl_state unit := CtlState fs_dax_reg_init ().
Definition no_env (_ : string) : option string := None.

(** The hotness builder, with a background thread that starts. *)
Definition hot_builder (b : memtier_builder) (s : ctl_state unit) : outcome (option memtier_memory * ctl_state unit) :=
  let! (m, _, _, _) := builder_hot_create_memory no_env (kaddr dram) (λ _ _, Ret ()) b (Some fresh_memory) true counters_init in
  Ret (Some m, s).

Definition parse (v : string) (s : ctl_state unit) := ctl_create_tier_memory_from_env no_env hot_builder fresh_memory 0 v s.

Lemma ctl_parse_size_correct_witness : ctl_parse_size (Some "3K") = Ret (Some 3072, Some "").
Proof. refine (ctl_parse_size_correct 3 "K" (2 ^ 10) _ _); [done|]. right. by left. Defined.



(** The parsed memory is the one that the calls of the API build. *)
Example parse_static :
  parse "KIND:DRAM,RATIO:1;KIND:KMEM_DAX,RATIO:4;POLICY:STATIC_RATIO" idle = Ret (Some demo_static, idle).
Proof. by vm_compute. Qed.

(** Texts that should be refused follow a null pointer instead: a missing policy
    after the last separator, a parameter [KIND] or [RATIO] without a value,
    an empty first query. *)
Theorem ctl_null_texts :
  parse "KIND:DRAM,RATIO:1;" idle = Stop BadDeref ∧
  parse "KIND;POLICY:STATIC_RATIO" idle = Stop BadDeref ∧
  parse "KIND:DRAM,RATIO;POLICY:STATIC_RATIO" idle = Stop BadDeref ∧
  parse ";KIND:DRAM,RATIO:1" idle = Stop BadDeref.
Proof. by vm_compute. Qed.

(** The registry of [FS_DAX] kinds is not reset when it is destroyed: a second
    failing configuration in the same process reads the freed array. *)
Theorem ctl_registry_not_reset :
  ∃ s, parse "KIND:FS_DAX,PATH:/mnt,RATIO:1;POLICY:NONE" idle = Ret (None, s) ∧
    parse "KIND:DRAM,RATIO:1;POLICY:NONE" s = Stop BadDeref.
Proof. eexists. split; [by vm_compute|by vm_compute]. Qed.

(** A number that starts with a zero is octal. *)
Example octal_size : ctl_parse_size (Some "010K") = Ret (Some 8192, Some "").
Proof. by vm_compute. Qed.
