(* ===== verification/Registry.v ===== *)
(** * The registry of kinds ([src/memkind.c])

    Kinds are found by partition in an array of pointers.  The first
    [MEMKIND_NUM_BASE_KIND] entries are static; the others are made by
    [memkind_create] and removed by [memkind_destroy_kind], both under a mutex.
    Also the argument table of [memkind_create_kind] and [memkind_create_pmem],
    which makes the dynamic kinds. *)
From S2P Require Import CString Prelude Counters.
Local Open Scope string_scope.
Local Open Scope Z_scope.

Definition MEMKIND_NUM_BASE_KIND : Z := 26.
Definition MEMKIND_NAME_LENGTH_PRIV : Z := 64.

Definition MEMKIND_SUCCESS : Z := 0.
Definition MEMKIND_ERROR_UNAVAILABLE : Z := -1.
Definition MEMKIND_ERROR_MALLOC : Z := -6.
Definition MEMKIND_ERROR_INVALID : Z := -13.
Definition MEMKIND_ERROR_TOOMANY : Z := -15.
Definition MEMKIND_ERROR_BADOPS : Z := -17.
Definition MEMKIND_ERROR_MEMTYPE_NOT_AVAILABLE : Z := -20.
Definition MEMKIND_ERROR_RUNTIME : Z := -255.

(** Which functions of a [struct memkind_ops] are not null, as far as the
    registry looks at them. *)
Record memkind_ops := MemkindOps {
  op_create : bool;
  op_destroy : bool;
  op_malloc : bool;
  op_calloc : bool;
  op_posix_memalign : bool;
  op_realloc : bool;
  op_free : bool;
  op_init_once : bool;
  op_finalize : bool;
}.

(** A [struct memkind]: its table, partition and name. *)
Record kind_obj := KindObj {
  k_ops : memkind_ops;
  k_partition : Z;
  k_name : string;
}.

(** [memkind_registry_g] with the kinds its pointers lead to. *)
Record memkind_registry := MemkindRegistry {
  kinds : gmap Z kind_obj;
  partition_map : list (option Z);
  num_kind : Z;
}.

Definition set_kinds (m : gmap Z kind_obj) (r : memkind_registry) : memkind_registry :=
  MemkindRegistry m (partition_map r) (num_kind r).
Definition set_slot (i : Z) (p : option Z) (r : memkind_registry) : memkind_registry :=
  MemkindRegistry (kinds r) (<[Z.to_nat i := p]> (partition_map r)) (num_kind r).
Definition set_num (n : Z) (r : memkind_registry) : memkind_registry :=
  MemkindRegistry (kinds r) (partition_map r) n.

(** ** Creating *)

(** [memkind_default_create]: the name must fit with its terminating zero. *)
Definition memkind_default_create (k : kind_obj) (ops : memkind_ops) (nm : string) : Z * kind_obj :=
  if MEMKIND_NAME_LENGTH_PRIV <=? slen nm then (MEMKIND_ERROR_INVALID, KindObj ops (k_partition k) "")
  else (0, KindObj ops (k_partition k) nm).

(** [memkind_pmem_create] without its private data: the results of [jemk_malloc],
    [pthread_mutex_init] and [memkind_arena_create_map] are arguments. *)
Definition memkind_pmem_create (malloc_ok mutex_ok : bool) (arena_err : Z)
    (k : kind_obj) (ops : memkind_ops) (nm : string) : Z * kind_obj :=
  if negb malloc_ok then (MEMKIND_ERROR_MALLOC, k) else
  if negb mutex_ok then (MEMKIND_ERROR_RUNTIME, k) else
  let (err, k) := memkind_default_create k ops nm in
  if negb (err =? 0) then (err, k) else
  if negb (arena_err =? 0) then (arena_err, k) else (0, k).

(** The loop over the array: the first free entry, or [None] when the name is
    found before it.  Without a free entry [id_kind] stays 0. *)
Fixpoint find_slot (m : gmap Z kind_obj) (nm : string) (l : list (option Z)) (i : Z) : outcome (option Z) :=
  match l with
  | [] => Ret (Some 0)
  | None :: _ => Ret (Some i)
  | Some p :: l =>
      let! k := deref (m !! p) in
      if streq nm (k_name k) then Ret None else find_slot m nm l (i + 1)
  end.

Definition bad_ops (ops : memkind_ops) : bool :=
  negb (op_create ops) || negb (op_destroy ops) || negb (op_malloc ops) || negb (op_calloc ops) ||
  negb (op_realloc ops) || negb (op_posix_memalign ops) || negb (op_free ops) || op_init_once ops.

(** The error, [*kind] and the registry.  [create] is [ops->create], [mem] the
    result of [jemk_calloc]. *)
Definition memkind_create (create : kind_obj → memkind_ops → string → Z * kind_obj) (mem : option Z)
    (ops : memkind_ops) (nm : string) (r : memkind_registry) : outcome (Z * option Z * memkind_registry) :=
  if num_kind r =? MEMKIND_MAX_KIND then Ret (MEMKIND_ERROR_TOOMANY, None, r) else
  if bad_ops ops then Ret (MEMKIND_ERROR_BADOPS, None, r) else
  let! slot := find_slot (kinds r) nm (partition_map r) 0 in
  match slot with
  | None => Ret (MEMKIND_ERROR_INVALID, None, r)
  | Some id_kind =>
      match mem with
      | None => Ret (MEMKIND_ERROR_MALLOC, None, r)
      | Some kind =>
          let (err, k) := create (KindObj ops (num_kind r) "") ops nm in
          if negb (err =? 0) then Ret (err, Some kind, r) else
          let r := set_kinds (<[kind := k]> (kinds r)) r in
          let r := set_slot id_kind (Some kind) r in
          Ret (0, Some kind, set_num (num_kind r + 1) r)
      end
  end.

(** ** Destroying *)
Definition memkind_destroy_dynamic_kind_from_register (i kind : Z) (r : memkind_registry) : memkind_registry :=
  if MEMKIND_NUM_BASE_KIND <=? i then
    let r := set_slot i None r in
    let r := set_num (num_kind r - 1) r in
    set_kinds (delete kind (kinds r)) r
  else r.

(** The loop over the dynamic entries [l], from [i] up. *)
Fixpoint destroy_loop (kind : Z) (l : list (option Z)) (i : Z) (r : memkind_registry) : outcome memkind_registry :=
  match l with
  | [] => Ret r
  | None :: l => destroy_loop kind l (i + 1) r
  | Some p :: l =>
      let! k := deref (kinds r !! kind) in
      let! kp := deref (kinds r !! p) in
      if streq (k_name k) (k_name kp)
      then Ret (memkind_destroy_dynamic_kind_from_register i kind r)
      else destroy_loop kind l (i + 1) r
  end.

(** [err] is the result of [kind->ops->destroy]. *)
Definition memkind_destroy_kind (err kind : Z) (r : memkind_registry) : outcome (Z * memkind_registry) :=
  let! _ := deref (kinds r !! kind) in
  let! r := destroy_loop kind (drop (Z.to_nat MEMKIND_NUM_BASE_KIND) (partition_map r)) MEMKIND_NUM_BASE_KIND r in
  Ret (err, r).

(** [finalize p] is the result of the kind's [finalize]. *)
Fixpoint finalize_loop (finalize : Z → Z) (l : list (option Z)) (i : Z) (r : memkind_registry) :
    outcome (Z * memkind_registry) :=
  match l with
  | [] => Ret (MEMKIND_SUCCESS, r)
  | None :: l => finalize_loop finalize l (i + 1) r
  | Some p :: l =>
      let! k := deref (kinds r !! p) in
      if op_finalize (k_ops k) then
        if negb (finalize p =? 0) then Ret (finalize p, r)
        else finalize_loop finalize l (i + 1) (memkind_destroy_dynamic_kind_from_register i p r)
      else finalize_loop finalize l (i + 1) r
  end.

Definition memkind_finalize (finalize : Z → Z) (r : memkind_registry) : outcome (Z * memkind_registry) :=
  let! (err, r) := finalize_loop finalize (partition_map r) 0 r in
  if negb (err =? 0) then Ret (err, r) else
  let! _ := c_assert (num_kind r =? MEMKIND_NUM_BASE_KIND) in
  Ret (err, r).

(** ** Looking up *)
Definition memkind_get_kind_by_partition (partition : Z) (r : memkind_registry) : Z * option Z :=
  if (0 <=? partition) && (partition <? MEMKIND_MAX_KIND) then
    match partition_map r !! Z.to_nat partition with
    | Some (Some k) => (MEMKIND_SUCCESS, Some k)
    | _ => (MEMKIND_ERROR_UNAVAILABLE, None)
    end
  else (MEMKIND_ERROR_UNAVAILABLE, None).

(** ** The static kinds *)

(** The names of the static kinds, in the order of their partitions. *)
Definition base_names : list string := [
  "memkind_default"; "memkind_hbw"; "memkind_hbw_hugetlb"; "memkind_hbw_preferred";
  "memkind_hbw_preferred_hugetlb"; "memkind_hugetlb"; "memkind_hbw_gbtlb";
  "memkind_hbw_preferred_gbtlb"; "memkind_gbtlb"; "memkind_hbw_interleave"; "memkind_interleave";
  "memkind_regular"; "memkind_hbw_all"; "memkind_hbw_all_hugetlb"; "memkind_dax_kmem";
  "memkind_dax_kmem_all"; "memkind_dax_kmem_preferred"; "memkind_dax_kmem_interleave";
  "memkind_highest_capacity"; "memkind_highest_capacity_preferred";
  "memkind_highest_capacity_local"; "memkind_highest_capacity_local_preferred";
  "memkind_lowest_latency_local"; "memkind_lowest_latency_local_preferred";
  "memkind_highest_bandwidth_local"; "memkind_highest_bandwidth_local_preferred"].

Definition PARTITION_DEFAULT : Z := 0.
Definition PARTITION_HBW : Z := 1.
Definition PARTITION_HBW_HUGETLB : Z := 2.
Definition PARTITION_HBW_PREFERRED : Z := 3.
Definition PARTITION_HBW_PREFERRED_HUGETLB : Z := 4.
Definition PARTITION_HUGETLB : Z := 5.
Definition PARTITION_HBW_INTERLEAVE : Z := 9.
Definition PARTITION_INTERLEAVE : Z := 10.
Definition PARTITION_HBW_ALL : Z := 12.
Definition PARTITION_HBW_ALL_HUGETLB : Z := 13.

(** The address of the static kind of a partition: any distinct values will do. *)
Definition static_kind (partition : Z) : Z := 8 * (partition + 1).

Definition static_ops : memkind_ops := MemkindOps true true true true true true true true true.
Definition MEMKIND_PMEM_OPS : memkind_ops := MemkindOps true true true true true true true false true.

Definition base_kinds : list (Z * kind_obj) :=
  imap (λ i nm, (static_kind (Z.of_nat i), KindObj static_ops (Z.of_nat i) nm)) base_names.

Definition memkind_registry_g : memkind_registry :=
  MemkindRegistry (list_to_map base_kinds)
    ((Some <$> base_kinds.*1) ++ replicate (Z.to_nat (MEMKIND_MAX_KIND - MEMKIND_NUM_BASE_KIND)) None)%list
    MEMKIND_NUM_BASE_KIND.

(** ** Choosing a static kind by its properties *)
Definition MEMKIND_MEMTYPE_DEFAULT : Z := 1.
Definition MEMKIND_MEMTYPE_HIGH_BANDWIDTH : Z := 2.
Definition MEMKIND_POLICY_BIND_LOCAL : Z := 0.
Definition MEMKIND_POLICY_BIND_ALL : Z := 1.
Definition MEMKIND_POLICY_PREFERRED_LOCAL : Z := 2.
Definition MEMKIND_POLICY_INTERLEAVE_ALL : Z := 4.
Definition MEMKIND_POLICY_MAX_VALUE : Z := 5.
Definition MEMKIND_MASK_PAGE_SIZE_2MB : Z := 21.

Definition CLEAR_BIT (x mask : Z) : Z := Z.land x (Z.lnot mask).

Definition validate_memtype_bits (memtype : Z) : Z :=
  if memtype =? 0 then -1 else
  let memtype := CLEAR_BIT memtype MEMKIND_MEMTYPE_DEFAULT in
  let memtype := CLEAR_BIT memtype MEMKIND_MEMTYPE_HIGH_BANDWIDTH in
  if negb (memtype =? 0) then -1 else 0.

Definition validate_flags_bits (flags : Z) : Z :=
  let flags := CLEAR_BIT flags MEMKIND_MASK_PAGE_SIZE_2MB in
  if negb (flags =? 0) then -1 else 0.

Definition validate_policy (policy : Z) : Z :=
  if MEMKIND_POLICY_MAX_VALUE <=? policy then -1 else 0.

Record create_args := CreateArgs {
  ca_kind : Z;
  ca_policy : Z;
  ca_flags : Z;
  ca_memtype_flags : Z;
}.

Definition supported_args : list create_args := [
  CreateArgs (static_kind PARTITION_HBW) MEMKIND_POLICY_BIND_LOCAL 0 MEMKIND_MEMTYPE_HIGH_BANDWIDTH;
  CreateArgs (static_kind PARTITION_HBW_HUGETLB) MEMKIND_POLICY_BIND_LOCAL MEMKIND_MASK_PAGE_SIZE_2MB
    MEMKIND_MEMTYPE_HIGH_BANDWIDTH;
  CreateArgs (static_kind PARTITION_HBW_ALL) MEMKIND_POLICY_BIND_ALL 0 MEMKIND_MEMTYPE_HIGH_BANDWIDTH;
  CreateArgs (static_kind PARTITION_HBW_ALL_HUGETLB) MEMKIND_POLICY_BIND_ALL MEMKIND_MASK_PAGE_SIZE_2MB
    MEMKIND_MEMTYPE_HIGH_BANDWIDTH;
  CreateArgs (static_kind PARTITION_HBW_PREFERRED) MEMKIND_POLICY_PREFERRED_LOCAL 0
    MEMKIND_MEMTYPE_HIGH_BANDWIDTH;
  CreateArgs (static_kind PARTITION_HBW_PREFERRED_HUGETLB) MEMKIND_POLICY_PREFERRED_LOCAL
    MEMKIND_MASK_PAGE_SIZE_2MB MEMKIND_MEMTYPE_HIGH_BANDWIDTH;
  CreateArgs (static_kind PARTITION_HBW_INTERLEAVE) MEMKIND_POLICY_INTERLEAVE_ALL 0
    MEMKIND_MEMTYPE_HIGH_BANDWIDTH;
  CreateArgs (static_kind PARTITION_DEFAULT) MEMKIND_POLICY_PREFERRED_LOCAL 0 MEMKIND_MEMTYPE_DEFAULT;
  CreateArgs (static_kind PARTITION_HUGETLB) MEMKIND_POLICY_PREFERRED_LOCAL MEMKIND_MASK_PAGE_SIZE_2MB
    MEMKIND_MEMTYPE_DEFAULT;
  CreateArgs (static_kind PARTITION_INTERLEAVE) MEMKIND_POLICY_INTERLEAVE_ALL 0
    (Z.lor MEMKIND_MEMTYPE_HIGH_BANDWIDTH MEMKIND_MEMTYPE_DEFAULT)].

(** The loop over [supported_args]; [check_available k] is the result of
    [memkind_check_available]. *)
Fixpoint create_kind_loop (check_available : Z → Z) (memtype_flags policy flags : Z) (l : list create_args) :
    Z * option Z :=
  match l with
  | [] => (MEMKIND_ERROR_INVALID, None)
  | a :: l =>
      if (ca_memtype_flags a =? memtype_flags) && (ca_policy a =? policy) && (ca_flags a =? flags) then
        if check_available (ca_kind a) =? 0 then (MEMKIND_SUCCESS, Some (ca_kind a))
        else if policy =? MEMKIND_POLICY_PREFERRED_LOCAL then
          (MEMKIND_SUCCESS, Some (static_kind PARTITION_DEFAULT))
        else (MEMKIND_ERROR_MEMTYPE_NOT_AVAILABLE, None)
      else create_kind_loop check_available memtype_flags policy flags l
  end.

(** The error and what is written to [*kind]; [kind_null] says that [kind] is null. *)
Definition memkind_create_kind (check_available : Z → Z) (memtype_flags policy flags : Z) (kind_null : bool) :
    Z * option Z :=
  if negb (validate_memtype_bits memtype_flags =? 0) then (MEMKIND_ERROR_INVALID, None) else
  if negb (validate_flags_bits flags =? 0) then (MEMKIND_ERROR_INVALID, None) else
  if negb (validate_policy policy =? 0) then (MEMKIND_ERROR_INVALID, None) else
  if kind_null then (MEMKIND_ERROR_INVALID, None) else
  create_kind_loop check_available memtype_flags policy flags supported_args.
