(* ===== verification/RegistrySpec.v ===== *)
(** * What the registry of kinds promises

    Any order of creations and destructions keeps the array, the kinds and their
    number in agreement, as long as the names are distinct; the destructor
    restores the initial registry.  Also what happens to partitions and to
    repeated names once a kind in the middle has been destroyed. *)
From S2P Require Import CString Prelude Counters Registry.
Local Open Scope string_scope.
Local Open Scope Z_scope.

Definition base_map : gmap Z kind_obj := list_to_map base_kinds.
Definition occupied (o : option Z) : Z := match o with Some _ => 1 | None => 0 end.

(** The registry between calls. *)
Record registry_ok (r : memkind_registry) : Prop := {
  ro_len : length (partition_map r) = Z.to_nat MEMKIND_MAX_KIND;
  ro_base : take (Z.to_nat MEMKIND_NUM_BASE_KIND) (partition_map r) = Some <$> base_kinds.*1;
  ro_static : base_map ⊆ kinds r;
  ro_live i p : partition_map r !! i = Some (Some p) → is_Some (kinds r !! p);
  ro_slot p : is_Some (kinds r !! p) → ∃ i, partition_map r !! i = Some (Some p);
  ro_inj i j p : partition_map r !! i = Some (Some p) → partition_map r !! j = Some (Some p) → i = j;
  ro_names p q k k' : kinds r !! p = Some k → kinds r !! q = Some k' → k_name k = k_name k' → p = q;
  ro_count : num_kind r = zsum occupied (partition_map r);
  ro_size : num_kind r = Z.of_nat (size (kinds r));
}.

Definition live_names (r : memkind_registry) : gmap Z string := k_name <$> kinds r.

(** ** Slots *)
Lemma base_slots i : (i < 26)%nat → (Some <$> base_kinds.*1) !! i = Some (Some (static_kind (Z.of_nat i))).
Proof. intros Hi. do 26 (destruct i as [|i]; [done|]). lia. Qed.

Lemma base_ptr p : is_Some (base_map !! p) ↔ ∃ i, (i < 26)%nat ∧ p = static_kind (Z.of_nat i).
Proof.
  unfold base_map. rewrite <- elem_of_dom, dom_list_to_map_L, elem_of_list_to_set, list_elem_of_lookup. split.
  - intros [i Hi]. exists i. assert (i < 26)%nat by (by apply lookup_lt_Some in Hi). split; [done|].
    pose proof (base_slots i ltac:(done)) as Hb. rewrite list_lookup_fmap, Hi in Hb. by injection Hb.
  - intros (i & Hi & ->). exists i. pose proof (base_slots i Hi) as Hb. rewrite list_lookup_fmap in Hb.
    destruct (base_kinds.*1 !! i); simpl in *; congruence.
Qed.

Section slots.
Context (r : memkind_registry) (Hr : registry_ok r).

Lemma static_slot i : (i < 26)%nat → partition_map r !! i = Some (Some (static_kind (Z.of_nat i))).
Proof.
  intros Hi. rewrite <- (lookup_take_lt (partition_map r) (Z.to_nat MEMKIND_NUM_BASE_KIND)) by done.
  rewrite (ro_base _ Hr). by apply base_slots.
Qed.

(** A kind is dynamic exactly when its entry is not among the first 26. *)
Lemma dynamic_slot i p : partition_map r !! i = Some (Some p) → base_map !! p = None ↔ (26 <= i)%nat.
Proof.
  intros Hi. rewrite eq_None_not_Some, base_ptr. split.
  - intros Hn. destruct (decide (i < 26)%nat) as [Hlt|]; [|lia]. destruct Hn. exists i. split; [done|].
    rewrite (static_slot i Hlt) in Hi. congruence.
  - intros Hle (j & Hj & ->). pose proof (ro_inj _ Hr _ _ _ Hi (static_slot j Hj)). lia.
Qed.

Lemma free_slot : num_kind r ≠ MEMKIND_MAX_KIND → ∃ i, partition_map r !! i = Some None.
Proof.
  intros Hn. destruct (decide (None ∈ partition_map r)) as [Hin|Hin]; [by apply list_elem_of_lookup|].
  destruct Hn. rewrite (ro_count _ Hr). transitivity (Z.of_nat (length (partition_map r))); [|by rewrite (ro_len _ Hr)].
  clear Hr. induction (partition_map r) as [|[p|] l IH]; simpl; [done| |].
  - rewrite IH; [lia|]. intros Hl. apply Hin. by right.
  - destruct Hin. by left.
Qed.

Lemma num_kind_range : MEMKIND_NUM_BASE_KIND <= num_kind r <= MEMKIND_MAX_KIND.
Proof.
  assert (Hocc : ∀ x, 0 <= occupied x <= 1) by (intros []; simpl; lia). rewrite (ro_count _ Hr). split.
  - rewrite <- (take_drop (Z.to_nat MEMKIND_NUM_BASE_KIND) (partition_map r)), zsum_app, (ro_base _ Hr).
    pose proof (zsum_bound occupied (drop (Z.to_nat MEMKIND_NUM_BASE_KIND) (partition_map r)) Hocc).
    change (zsum occupied (Some <$> base_kinds.*1)) with 26. unfold MEMKIND_NUM_BASE_KIND in *. lia.
  - pose proof (zsum_bound occupied (partition_map r) Hocc) as Hb. rewrite (ro_len _ Hr) in Hb. exact (proj2 Hb).
Qed.
End slots.

(** ** The two changes *)
Lemma add_kind_ok r i p k :
  registry_ok r → partition_map r !! i = Some None → kinds r !! p = None →
  (∀ q k', kinds r !! q = Some k' → k_name k' ≠ k_name k) →
  registry_ok (set_num (num_kind r + 1) (set_slot (Z.of_nat i) (Some p) (set_kinds (<[p := k]> (kinds r)) r))).
Proof.
  intros Hr Hi Hp Hnm. assert (Hge : (26 <= i)%nat).
  { destruct (decide (i < 26)%nat) as [Hlt|]; [|lia]. rewrite (static_slot r Hr i Hlt) in Hi. done. }
  assert (Hlt := lookup_lt_Some _ _ _ Hi).
  split; cbn [partition_map kinds num_kind set_num set_slot set_kinds]; rewrite ?Nat2Z.id.
  - rewrite length_insert. apply (ro_len _ Hr).
  - rewrite take_insert_ge by done. apply (ro_base _ Hr).
  - transitivity (kinds r); [apply (ro_static _ Hr)|by apply insert_subseteq].
  - intros j q [(<- & [= ->] & _)|(_ & Hj)]%list_lookup_insert_Some; [by rewrite lookup_insert_eq|].
    rewrite lookup_insert_is_Some'. right. by apply (ro_live _ Hr j).
  - intros q [->|Hq]%lookup_insert_is_Some'; [exists i; by apply list_lookup_insert_eq|].
    destruct (ro_slot _ Hr q Hq) as [j Hj]. exists j. rewrite list_lookup_insert_ne; [done|]. intros ->. congruence.
  - assert (Hno : ∀ j, partition_map r !! j ≠ Some (Some p)) by (intros j [? ?]%(ro_live _ Hr); congruence).
    intros j j' q [(<- & [= <-] & _)|(? & Hj)]%list_lookup_insert_Some
      [(<- & ? & _)|(? & Hj')]%list_lookup_insert_Some; [done|by destruct (Hno j')|simplify_eq; by destruct (Hno j)|].
    by apply (ro_inj _ Hr _ _ q).
  - intros q q' k1 k2 [(<- & <-)|(? & Hq)]%lookup_insert_Some [(<- & <-)|(? & Hq')]%lookup_insert_Some Heq; try done.
    + by destruct (Hnm _ _ Hq').
    + by destruct (Hnm _ _ Hq).
    + by apply (ro_names _ Hr q q' k1 k2).
  - rewrite (zsum_insert _ _ _ None) by done. rewrite (ro_count _ Hr). simpl. lia.
  - rewrite map_size_insert_None by done. rewrite (ro_size _ Hr). lia.
Qed.

Lemma drop_kind_ok r i p :
  registry_ok r → partition_map r !! i = Some (Some p) → (26 <= i)%nat →
  registry_ok (memkind_destroy_dynamic_kind_from_register (Z.of_nat i) p r).
Proof.
  intros Hr Hi Hge. unfold memkind_destroy_dynamic_kind_from_register.
  rewrite (proj2 (Z.leb_le _ _)) by (unfold MEMKIND_NUM_BASE_KIND; lia).
  destruct (ro_live _ Hr i p Hi) as [k Hk]. pose proof (proj2 (dynamic_slot r Hr i p Hi) Hge) as Hdyn.
  split; cbn [partition_map kinds num_kind set_num set_slot set_kinds]; rewrite ?Nat2Z.id.
  - rewrite length_insert. apply (ro_len _ Hr).
  - rewrite take_insert_ge by done. apply (ro_base _ Hr).
  - rewrite <- (delete_id base_map p Hdyn). apply delete_mono, (ro_static _ Hr).
  - intros j q [(_ & ? & _)|(Hne & Hj)]%list_lookup_insert_Some; [done|]. rewrite lookup_delete_ne; [by apply (ro_live _ Hr j)|].
    intros <-. apply Hne, (ro_inj _ Hr _ _ p Hi Hj).
  - intros q (Hne & Hq)%lookup_delete_is_Some. destruct (ro_slot _ Hr q Hq) as [j Hj]. exists j.
    rewrite list_lookup_insert_ne; [done|]. intros ->. congruence.
  - intros j j' q [(_ & ? & _)|(_ & Hj)]%list_lookup_insert_Some [(_ & ? & _)|(_ & Hj')]%list_lookup_insert_Some;
      [done..|]. by apply (ro_inj _ Hr _ _ q).
  - intros q q' k1 k2 (_ & Hq)%lookup_delete_Some (_ & Hq')%lookup_delete_Some. by apply (ro_names _ Hr).
  - rewrite (zsum_insert _ _ _ (Some p)) by done. rewrite (ro_count _ Hr). simpl. lia.
  - rewrite map_size_delete_Some by (by eexists). rewrite (ro_size _ Hr).
    assert (size (kinds r) ≠ 0%nat); [|lia]. intros H0. apply map_size_empty_inv in H0. by rewrite H0 in Hk.
Qed.

(** ** The loops *)
Lemma find_slot_ok m nm l i :
  (∀ j p, l !! j = Some (Some p) → ∃ k, m !! p = Some k ∧ k_name k ≠ nm) → (∃ j, l !! j = Some None) →
  ∃ j, find_slot m nm l i = Ret (Some (i + Z.of_nat j)) ∧ l !! j = Some None.
Proof.
  revert i. induction l as [|[p|] l IH]; intros i Hl [j Hj]; [done| |exists 0%nat; by rewrite Z.add_0_r].
  destruct (Hl 0%nat p eq_refl) as (k & Hk & Hnm). simpl. rewrite Hk. simpl. unfold streq.
  rewrite (proj2 (String.eqb_neq _ _)) by done. destruct j as [|j]; [done|].
  destruct (IH (i + 1)) as (j' & -> & Hj'); [|by exists j|].
  - intros j' q Hq. by apply (Hl (S j')).
  - exists (S j'). split; [|done]. do 2 f_equal. lia.
Qed.

Lemma destroy_loop_ok p k l i r j :
  kinds r !! p = Some k → l !! j = Some (Some p) →
  (∀ j' q, l !! j' = Some (Some q) → ∃ k', kinds r !! q = Some k' ∧ (k_name k = k_name k' → j' = j)) →
  destroy_loop p l i r = Ret (memkind_destroy_dynamic_kind_from_register (i + Z.of_nat j) p r).
Proof.
  intros Hk. revert i j. induction l as [|[q|] l IH]; intros i [|j] Hj Hl; simplify_eq/=.
  - rewrite Hk. simpl. unfold streq. rewrite String.eqb_refl. by rewrite Z.add_0_r.
  - destruct (Hl 0%nat q eq_refl) as (k' & Hk' & Hne). rewrite Hk, Hk'. simpl. unfold streq.
    rewrite (proj2 (String.eqb_neq _ _)) by (intros Heq; by specialize (Hne Heq)).
    rewrite (IH (i + 1) j Hj); [do 2 f_equal; lia|]. intros j' q' Hq'. destruct (Hl (S j') q' Hq') as (k1 & ? & H1).
    exists k1. split; [done|]. intros Heq. specialize (H1 Heq). lia.
  - rewrite (IH (i + 1) j Hj); [do 2 f_equal; lia|]. intros j' q' Hq'. destruct (Hl (S j') q' Hq') as (k1 & ? & H1).
    exists k1. split; [done|]. intros Heq. specialize (H1 Heq). lia.
Qed.

(** ** The registry as a bounded map from pointers to names *)
Inductive reg_op :=
  | CreatePmem (mem : option Z) (malloc_ok mutex_ok : bool) (arena_err : Z) (nm : string)
  | Destroy (kind : Z).

Definition run_reg (x : reg_op) (r : memkind_registry) : outcome (Z * memkind_registry) :=
  match x with
  | CreatePmem mem malloc_ok mutex_ok arena_err nm =>
      let! (err, _, r) := memkind_create (memkind_pmem_create malloc_ok mutex_ok arena_err) mem MEMKIND_PMEM_OPS nm r in
      Ret (err, r)
  | Destroy kind => memkind_destroy_kind 0 kind r
  end.

Definition spec_reg (x : reg_op) (m : gmap Z string) : Z * gmap Z string :=
  match x with
  | CreatePmem mem malloc_ok mutex_ok arena_err nm =>
      if Z.of_nat (size m) =? MEMKIND_MAX_KIND then (MEMKIND_ERROR_TOOMANY, m) else
      match mem with
      | None => (MEMKIND_ERROR_MALLOC, m)
      | Some p =>
          if negb malloc_ok then (MEMKIND_ERROR_MALLOC, m) else
          if negb mutex_ok then (MEMKIND_ERROR_RUNTIME, m) else
          if MEMKIND_NAME_LENGTH_PRIV <=? slen nm then (MEMKIND_ERROR_INVALID, m) else
          if negb (arena_err =? 0) then (arena_err, m) else (0, <[p := nm]> m)
      end
  | Destroy p => (0, delete p m)
  end.

(** A new kind has a name and an address of its own; a destroyed one is a live
    dynamic kind. *)
Definition reg_pre (x : reg_op) (m : gmap Z string) : Prop :=
  match x with
  | CreatePmem mem _ _ _ nm => (∀ p, mem = Some p → m !! p = None) ∧ ∀ q, m !! q ≠ Some nm
  | Destroy p => is_Some (m !! p) ∧ base_map !! p = None
  end.

Lemma registry_create_ok mem b b' e nm r :
  registry_ok r → reg_pre (CreatePmem mem b b' e nm) (live_names r) →
  ∃ err r', run_reg (CreatePmem mem b b' e nm) r = Ret (err, r') ∧ registry_ok r' ∧
    spec_reg (CreatePmem mem b b' e nm) (live_names r) = (err, live_names r').
Proof.
  intros Hr [Hp Hnm]. assert (Hnm' : ∀ q k', kinds r !! q = Some k' → k_name k' ≠ nm).
  { intros q k' Hq Heq. apply (Hnm q). unfold live_names. by rewrite lookup_fmap, Hq, <- Heq. }
  unfold run_reg, memkind_create, spec_reg.
  replace (size (live_names r)) with (size (kinds r)) by (symmetry; apply map_size_fmap).
  rewrite <- (ro_size _ Hr). case_if; [by eauto|].
  change (bad_ops MEMKIND_PMEM_OPS) with false. cbn [negb].
  destruct (find_slot_ok (kinds r) nm (partition_map r) 0) as (j & -> & Hj); [|by apply free_slot|].
  { intros j q Hq. destruct (ro_live _ Hr _ _ Hq) as [k Hk]. by eauto. }
  cbn [obind]. destruct mem as [p|]; [|by eauto]. specialize (Hp p eq_refl).
  unfold live_names in Hp. rewrite lookup_fmap, fmap_None in Hp.
  unfold memkind_pmem_create, memkind_default_create. destruct b; cbn [negb]; [|by eauto].
  destruct b'; cbn [negb]; [|by eauto]. case_if; [by eauto|]. cbn [negb Z.eqb].
  destruct (Z.eqb_spec e 0) as [->|He]; cbn [negb Z.eqb obind].
  - eexists _, _. split; [done|]. split; [by apply (add_kind_ok r j p)|]. unfold live_names. simpl. by rewrite fmap_insert.
  - rewrite (proj2 (Z.eqb_neq e 0)) by done. cbn [negb obind]. by eauto.
Qed.

Lemma destroy_ok p r :
  registry_ok r → reg_pre (Destroy p) (live_names r) →
  ∃ r', run_reg (Destroy p) r = Ret (0, r') ∧ registry_ok r' ∧ live_names r' = delete p (live_names r).
Proof.
  intros Hr [Hp Hdyn]. unfold live_names in Hp. rewrite lookup_fmap, fmap_is_Some in Hp. destruct Hp as [k Hk].
  destruct (ro_slot _ Hr p) as [i Hi]; [by eexists|]. pose proof (proj1 (dynamic_slot r Hr i p Hi) Hdyn) as Hge.
  unfold run_reg, memkind_destroy_kind. rewrite Hk. cbn [deref obind].
  rewrite (destroy_loop_ok p k _ _ r (i - 26)); [|done| |].
  - replace (MEMKIND_NUM_BASE_KIND + Z.of_nat (i - 26)) with (Z.of_nat i) by (unfold MEMKIND_NUM_BASE_KIND; lia).
    cbn [obind]. eexists. split; [done|]. split; [by apply drop_kind_ok|].
    unfold memkind_destroy_dynamic_kind_from_register, live_names.
    rewrite (proj2 (Z.leb_le _ _)) by (unfold MEMKIND_NUM_BASE_KIND; lia). apply fmap_delete.
  - rewrite lookup_drop, <- Hi. f_equal. change (Z.to_nat MEMKIND_NUM_BASE_KIND) with 26%nat. lia.
  - intros j q Hq. rewrite lookup_drop in Hq. destruct (ro_live _ Hr _ _ Hq) as [k' Hk']. exists k'. split; [done|].
    intros Heq. rewrite (ro_names _ Hr p q k k' Hk Hk' Heq) in Hi. pose proof (ro_inj _ Hr _ _ _ Hi Hq).
    change (Z.to_nat MEMKIND_NUM_BASE_KIND) with 26%nat in *. lia.
Qed.

(** C16: Creating and destroying kinds with distinct names: the registry never
    faults, its array, kinds and count stay in agreement (so the limit of 512
    kinds is enforced exactly), every error leaves it unchanged, and it holds
    the kinds of a bounded map. *)
Theorem registry_refines_map x r :
  registry_ok r → reg_pre x (live_names r) →
  ∃ err r', run_reg x r = Ret (err, r') ∧ registry_ok r' ∧ spec_reg x (live_names r) = (err, live_names r').
Proof.
  intros Hr Hx. destruct x as [mem b b' e nm|p]; [by apply registry_create_ok|].
  destruct (destroy_ok p r Hr Hx) as (r' & -> & Hr' & Hn). exists 0, r'. split_and!; [done..|]. simpl. by rewrite Hn.
Qed.

(** ** Start and end of the library *)
Lemma registry_g_ok : registry_ok memkind_registry_g.
Proof.
  assert (Hslot : ∀ i o, partition_map memkind_registry_g !! i = Some o →
    o = if decide (i < 26)%nat then Some (static_kind (Z.of_nat i)) else None).
  { intros i o Hi. unfold memkind_registry_g in Hi. cbn [partition_map] in Hi. case_decide.
    - rewrite lookup_app_l, base_slots in Hi by done. congruence.
    - rewrite lookup_app_r in Hi by (change (length (Some <$> base_kinds.*1)) with 26%nat; lia).
      by apply lookup_replicate in Hi as [-> _]. }
  split; [done|done|exact (reflexivity base_map)| | | | |by vm_compute|by vm_compute].
  - intros i p Hi. pose proof (Hslot _ _ Hi) as Hp. case_decide; [|done]. injection Hp as ->.
    cbn [kinds memkind_registry_g]. fold base_map. apply (proj2 (base_ptr _)). by exists i.
  - intros p Hp. cbn [kinds memkind_registry_g] in Hp. fold base_map in Hp.
    apply (proj1 (base_ptr p)) in Hp as (i & Hi & ->). exists i. unfold memkind_registry_g. cbn [partition_map].
    rewrite lookup_app_l by done. by apply base_slots.
  - intros i j p Hi%Hslot Hj%Hslot. unfold static_kind in *. repeat case_decide; simplify_eq; lia.
  - intros p q k k' Hp Hq Heq. cbn [kinds memkind_registry_g] in *.
    apply elem_of_list_to_map_2 in Hp, Hq.
    assert (Hall : Forall (λ x, Forall (λ y, k_name x.2 = k_name y.2 → x.1 = y.1) base_kinds) base_kinds).
    { apply (bool_decide_unpack _). vm_compute. exact I. }
    rewrite Forall_forall in Hall. specialize (Hall _ Hp). rewrite Forall_forall in Hall. exact (Hall _ Hq Heq).
Qed.

Definition finalizable (r : memkind_registry) : Prop :=
  map_Forall (λ _ k, op_finalize (k_ops k) = true) (kinds r).

(** From entry [i] on, with no dynamic kind left below it. *)
Lemma finalize_loop_ok l i r :
  registry_ok r → finalizable r → drop i (partition_map r) = l →
  (∀ j p, (26 <= j < i)%nat → partition_map r !! j ≠ Some (Some p)) →
  ∃ r', finalize_loop (λ _, 0) l (Z.of_nat i) r = Ret (MEMKIND_SUCCESS, r') ∧ registry_ok r' ∧
    ∀ j p, (26 <= j)%nat → partition_map r' !! j ≠ Some (Some p).
Proof.
  revert i r. induction l as [|o l IH]; intros i r Hr Hf Hl Hlow.
  { exists r. split_and!; [done..|]. intros j p Hj Hp. destruct (decide (j < i)%nat) as [Hlt|Hge]; [by apply (Hlow j p)|].
    assert (Hlen : length (drop i (partition_map r)) = 0%nat) by by rewrite Hl.
    rewrite length_drop in Hlen. apply lookup_lt_Some in Hp. lia. }
  assert (Hi : partition_map r !! i = Some o) by by rewrite <- (Nat.add_0_r i), <- lookup_drop, Hl.
  assert (Hl' : ∀ r', (∀ j, (i < j)%nat → partition_map r' !! j = partition_map r !! j) →
    drop (S i) (partition_map r') = l).
  { intros r' Heq. rewrite (drop_S (partition_map r) o i) in Hl by done. injection Hl as <-.
    apply list_eq. intros j. rewrite !lookup_drop. apply Heq. lia. }
  assert (Hi1 : Z.of_nat i + 1 = Z.of_nat (S i)) by lia.
  destruct o as [p|]; simpl; rewrite Hi1.
  2:{ apply IH; [done..|by apply Hl'|]. intros j q Hj Hq. destruct (decide (j = i)) as [->|]; [congruence|].
      apply (Hlow j q); [lia|done]. }
  destruct (ro_live _ Hr _ _ Hi) as [k Hk]. rewrite Hk. cbn [deref obind]. rewrite (Hf p k Hk). cbn [negb Z.eqb].
  destruct (decide (26 <= i)%nat) as [Hge|Hlt].
  - assert (Hd : memkind_destroy_dynamic_kind_from_register (Z.of_nat i) p r =
      set_kinds (delete p (kinds r)) (set_num (num_kind r - 1) (set_slot (Z.of_nat i) None r))).
    { unfold memkind_destroy_dynamic_kind_from_register.
      by rewrite (proj2 (Z.leb_le _ _)) by (unfold MEMKIND_NUM_BASE_KIND; lia). }
    apply IH; [by apply drop_kind_ok| |apply Hl'; intros j Hj|]; rewrite Hd; unfold finalizable;
      cbn [partition_map set_kinds set_num set_slot kinds]; rewrite ?Nat2Z.id.
    + by apply map_Forall_delete.
    + apply list_lookup_insert_ne. lia.
    + intros j q Hj [(? & ? & _)|(Hne & Hq)]%list_lookup_insert_Some; [done|]. apply (Hlow j q); [lia|done].
  - unfold memkind_destroy_dynamic_kind_from_register.
    rewrite (proj2 (Z.leb_gt _ _)) by (unfold MEMKIND_NUM_BASE_KIND; lia).
    apply IH; [done..|by apply Hl'|]. intros j q Hj. lia.
Qed.

(** C30: The destructor of the library removes every dynamic kind and returns to the
    initial registry; its assertion on the number of kinds holds. *)
Theorem finalize_restores_registry r :
  registry_ok r → finalizable r → memkind_finalize (λ _, 0) r = Ret (MEMKIND_SUCCESS, memkind_registry_g).
Proof.
  intros Hr Hf. unfold memkind_finalize.
  destruct (finalize_loop_ok (partition_map r) 0 r Hr Hf eq_refl ltac:(intros j p; lia)) as (r' & Hrun & Hr' & Hno).
  change (Z.of_nat 0) with 0 in Hrun. rewrite Hrun. cbn [obind negb Z.eqb MEMKIND_SUCCESS].
  assert (Hk : kinds r' = base_map).
  { apply map_eq. intros p. destruct (kinds r' !! p) as [k|] eqn:Hp.
    - destruct (ro_slot _ Hr' p) as [i Hi]; [by eexists|]. destruct (decide (26 <= i)%nat) as [Hge|Hlt]; [by destruct (Hno i p)|].
      destruct (base_map !! p) as [k'|] eqn:Hb.
      + pose proof (lookup_weaken _ _ _ _ Hb (ro_static _ Hr')). congruence.
      + by apply (dynamic_slot r' Hr' i p Hi) in Hb.
    - destruct (base_map !! p) as [k'|] eqn:Hb; [|done].
      pose proof (lookup_weaken _ _ _ _ Hb (ro_static _ Hr')). congruence. }
  assert (Hn : num_kind r' = MEMKIND_NUM_BASE_KIND) by (rewrite (ro_size _ Hr'), Hk; by vm_compute).
  rewrite Hn. cbn [Z.eqb MEMKIND_NUM_BASE_KIND Pos.eqb c_assert obind]. do 2 f_equal.
  destruct r' as [m l n]. cbn [kinds num_kind] in *. subst m n. f_equal.
  change l with (partition_map (MemkindRegistry base_map l MEMKIND_NUM_BASE_KIND)).
  rewrite <- (take_drop 26 (partition_map _)). f_equal; [apply (ro_base _ Hr')|].
  apply list_eq. intros i. rewrite lookup_drop. destruct (decide (i < 486)%nat) as [Hlt|Hge].
  - rewrite lookup_replicate_2 by exact Hlt. destruct (partition_map _ !! (26 + i)%nat) as [[p|]|] eqn:Hi; [|done|].
    + by destruct (Hno (26 + i)%nat p); [lia|].
    + apply lookup_ge_None in Hi. rewrite (ro_len _ Hr') in Hi. change (Z.to_nat MEMKIND_MAX_KIND) with 512%nat in Hi. lia.
  - rewrite !(proj2 (lookup_ge_None _ _)); [done|..].
    + rewrite length_replicate. change (Z.to_nat _) with 486%nat. lia.
    + rewrite (ro_len _ Hr'). change (Z.to_nat MEMKIND_MAX_KIND) with 512%nat. lia.
Qed.

(** ** Choosing a static kind *)

(** Row [a] of the table answers the request with [k]. *)
Definition granted (check_available : Z → Z) (memtype policy flags k : Z) (a : create_args) : Prop :=
  ca_memtype_flags a = memtype ∧ ca_policy a = policy ∧ ca_flags a = flags ∧
  (check_available (ca_kind a) = 0 ∧ k = ca_kind a ∨
   check_available (ca_kind a) ≠ 0 ∧ policy = MEMKIND_POLICY_PREFERRED_LOCAL ∧ k = static_kind PARTITION_DEFAULT).

Lemma create_kind_loop_ok av memtype policy flags k l :
  NoDup ((λ a, (ca_memtype_flags a, ca_policy a, ca_flags a)) <$> l) →
  create_kind_loop av memtype policy flags l = (MEMKIND_SUCCESS, Some k) ↔
  ∃ a, a ∈ l ∧ granted av memtype policy flags k a.
Proof.
  induction l as [|a l IH]; intros Hnd; [split; [done|]; by intros (a & ?%not_elem_of_nil & _)|].
  apply NoDup_cons in Hnd as [Hnew Hnd]. cbn [create_kind_loop].
  destruct (_ && _ && _) eqn:E.
  - apply andb_true_iff in E as [[Hm Hp]%andb_true_iff Hf]. zb. subst. split.
    + intros Hk. exists a. split; [by left|]. unfold granted.
      destruct (Z.eqb_spec (av (ca_kind a)) 0) as [E|E]; [naive_solver|].
      destruct (Z.eqb_spec (ca_policy a) MEMKIND_POLICY_PREFERRED_LOCAL) as [E'|E']; naive_solver.
    + intros (a' & Hin & Hm & Hp & Hf & Hor). apply elem_of_cons in Hin as [->|Hin].
      * destruct Hor as [[-> ->]|(Hne & Hpol & ->)]; [done|]. by rewrite (proj2 (Z.eqb_neq _ _) Hne), Hpol.
      * destruct Hnew. apply list_elem_of_fmap. exists a'. split; [by rewrite Hm, Hp, Hf|done].
  - rewrite (IH Hnd). split; intros (a' & Hin & Ha).
    + exists a'. split; [by right|done].
    + apply elem_of_cons in Hin as [->|Hin]; [|by exists a'].
      destruct Ha as (Hm & Hp & Hf & _). rewrite Hm, Hp, Hf, !Z.eqb_refl in E. done.
Qed.

(** [memkind_create_kind] gives a kind exactly for the ten supported sets of
    properties: the kind of the table when it is available, and otherwise the
    default kind when the policy is only a preference. *)
Theorem create_kind_supported check_available memtype policy flags k :
  memkind_create_kind check_available memtype policy flags false = (MEMKIND_SUCCESS, Some k) ↔
  ∃ a, a ∈ supported_args ∧ granted check_available memtype policy flags k a.
Proof.
  assert (Hnd : NoDup ((λ a, (ca_memtype_flags a, ca_policy a, ca_flags a)) <$> supported_args))
    by (apply (bool_decide_unpack _); by vm_compute).
  rewrite <- create_kind_loop_ok by done. unfold memkind_create_kind. split; intros Hk.
  - do 3 (destruct (negb _); [done|]). done.
  - assert (Hval : Forall (λ a, validate_memtype_bits (ca_memtype_flags a) = 0 ∧
      validate_flags_bits (ca_flags a) = 0 ∧ validate_policy (ca_policy a) = 0) supported_args)
      by (apply (bool_decide_unpack _); by vm_compute).
    pose proof Hk as (a & Hin & <- & <- & <- & _)%create_kind_loop_ok; [|done]. rewrite Forall_forall in Hval.
    by destruct (Hval a Hin) as (-> & -> & ->).
Qed.

(** ** A hole in the array *)
Definition pmem_create (p : Z) (nm : string) : reg_op := CreatePmem (Some p) true true 0 nm.

Fixpoint run_regs (xs : list reg_op) (r : memkind_registry) : outcome (list Z * memkind_registry) :=
  match xs with
  | [] => Ret ([], r)
  | x :: xs =>
      let! (err, r) := run_reg x r in
      let! (errs, r) := run_regs xs r in
      Ret (err :: errs, r)
  end.

Definition reg_after (xs : list reg_op) : memkind_registry :=
  match run_regs xs memkind_registry_g with Ret (_, r) => r | Stop _ => memkind_registry_g end.

(** Two kinds, the first one destroyed, and a third created. *)
Definition hole (nm : string) : list reg_op :=
  [pmem_create 1000 "pmem00000005"; pmem_create 2000 "pmem00000006"; Destroy 1000; pmem_create 3000 nm].

(** The partition of a new kind is the number of kinds, not its entry: after a
    destruction it repeats the partition of a live kind.  The lookup by
    partition then gives the other kind, and the counter that
    [memkind_pmem_destroy] resets is the other kind's. *)
Theorem partition_collision c :
  let r := reg_after (hole "pmem00000005") in
  (fst <$> match run_regs (hole "pmem00000005") memkind_registry_g with Ret x => Some x | Stop _ => None end) =
    Some [0; 0; 0; 0] ∧
  k_partition <$> kinds r !! 2000 = Some 27 ∧ k_partition <$> kinds r !! 3000 = Some 27 ∧
  memkind_get_kind_by_partition 27 r = (MEMKIND_SUCCESS, Some 2000) ∧
  memkind_get_kind_by_partition 26 r = (MEMKIND_SUCCESS, Some 3000) ∧
  ∀ k, kinds r !! 2000 = Some k → ∀ k', kinds r !! 3000 = Some k' →
    g_at (memtier_reset_size (k_partition k') c) (k_partition k) = 0.
Proof.
  cbv zeta. split_and!; [by vm_compute..|]. intros k Hk k' Hk'.
  assert (H2 : k_partition <$> kinds (reg_after (hole "pmem00000005")) !! 2000 = Some 27) by by vm_compute.
  assert (H3 : k_partition <$> kinds (reg_after (hole "pmem00000005")) !! 3000 = Some 27) by by vm_compute.
  rewrite Hk in H2. rewrite Hk' in H3. injection H2 as ->. injection H3 as ->.
  unfold memtier_reset_size, g_at, set_g. cbn [g_alloc_size]. by rewrite lookup_insert_eq.
Qed.

(** A repeated name is refused only when it is found before the first free
    entry; destroying one of the two kinds then frees it but clears the entry of
    the other, and the destructor follows the dangling pointer. *)
Theorem repeated_name_dangles :
  let r := reg_after (hole "pmem00000006" ++ [Destroy 2000])%list in
  (fst <$> match run_regs (hole "pmem00000006") memkind_registry_g with Ret x => Some x | Stop _ => None end) =
    Some [0; 0; 0; 0] ∧
  memkind_get_kind_by_partition 27 r = (MEMKIND_SUCCESS, Some 2000) ∧ kinds r !! 2000 = None ∧
  memkind_finalize (λ _, 0) r = Stop BadDeref.
Proof. by vm_compute. Qed.

(** ** Instances of the general theorems *)
Lemma registry_refines_map_witness :
  ∃ err r', run_reg (pmem_create 1000 "pmem00000005") memkind_registry_g = Ret (err, r') ∧ registry_ok r' ∧
    spec_reg (pmem_create 1000 "pmem00000005") (live_names memkind_registry_g) = (err, live_names r').
Proof.
  refine (registry_refines_map _ _ registry_g_ok _). split; [intros p [= <-]; by vm_compute|].
  assert (Hno : map_Forall (λ _ nm, nm ≠ "pmem00000005") (live_names memkind_registry_g))
    by (apply (bool_decide_unpack _); by vm_compute).
  intros q Hq. by apply (Hno q _ Hq).
Defined.

Lemma finalize_restores_registry_witness :
  memkind_finalize (λ _, 0) memkind_registry_g = Ret (MEMKIND_SUCCESS, memkind_registry_g).
Proof.
  refine (finalize_restores_registry _ registry_g_ok _).
  apply (bool_decide_unpack _). by vm_compute.
Defined.
