(* ===== verification/Pmem.v ===== *)
(** * File-backed kinds ([src/memkind_pmem.c], [memkind_create_pmem] of [src/memkind.c])

    A file-backed kind maps pieces of an unlinked temporary file for jemalloc
    and keeps a quota: [current_size] bytes of at most [max_size].  The system
    calls are arguments (their results), the open descriptors and the mapped
    pieces are part of the state. *)
From S2P Require Import CString Prelude Counters Registry.
Local Open Scope string_scope.
Local Open Scope Z_scope.

Definition PATH_MAX : Z := 4096.
Definition MEMKIND_PMEM_MIN_SIZE : Z := 1024 * 1024 * 16.
Definition MEMKIND_PMEM_CHUNK_SIZE : Z := Z.shiftl 1 21.
Definition MEMKIND_ERROR_MMAP : Z := -3.
Definition EFBIG : Z := 27.
Definition EOPNOTSUPP : Z := 95.

(** [struct memkind_pmem].  [dir] holds what the string functions will read: up
    to the first zero byte. *)
Record memkind_pmem := MemkindPmem {
  fd : Z;
  offset : Z;
  max_size : Z;
  current_size : Z;
  dir : option string;
}.

(** The process: the registry, the private data of the file-backed kinds, the
    open descriptors and the mapped pieces (address to kind and length). *)
Record process := Process {
  registry : memkind_registry;
  privs : gmap Z memkind_pmem;
  open_fds : gset Z;
  mapped : gmap Z (Z * Z);
}.

Definition set_priv (kind : Z) (v : memkind_pmem) (w : process) : process :=
  Process (registry w) (<[kind := v]> (privs w)) (open_fds w) (mapped w).
Definition set_fds (s : gset Z) (w : process) : process :=
  Process (registry w) (privs w) s (mapped w).
Definition set_mapped (m : gmap Z (Z * Z)) (w : process) : process :=
  Process (registry w) (privs w) (open_fds w) m.
Definition close (n : Z) (w : process) : process := set_fds (open_fds w ∖ {[n]}) w.

(** ** The temporary file *)

(** The error and [*fd].  [mkstemp name] is the descriptor, or negative; the
    caller passes [*fd = -1]. *)
Definition memkind_pmem_create_tmpfile (mkstemp : string → Z) (d : string) (w : process) : Z * Z * process :=
  if PATH_MAX <? slen d then (MEMKIND_ERROR_INVALID, -1, w) else
  let n := mkstemp (d ++ "/memkind.XXXXXX") in
  if n <? 0 then
    let w := if negb (n =? -1) then close n w else w in
    (MEMKIND_ERROR_INVALID, -1, w)
  else (MEMKIND_SUCCESS, n, set_fds ({[n]} ∪ open_fds w) w).

(** ** Creating *)

(** [roundup] of [<sys/param.h>] for a constant power of two, in [size_t]. *)
Definition roundup (x y : Z) : Z := Z.land (u64 (x + y - 1)) (u64 (Z.lnot (y - 1))).

Definition hex_digit (d : Z) : ascii := ascii_of_nat (Z.to_nat (if d <? 10 then d + 48 else d + 87)).
Fixpoint print_hex (n : nat) (x : Z) (acc : string) : string :=
  match n with
  | O => acc
  | S n => print_hex n (x / 16) (String (hex_digit (x mod 16)) acc)
  end.

(** [snprintf(name, 16, "pmem%08x", fd)]. *)
Definition pmem_name (n : Z) : string := "pmem" ++ print_hex 8 n "".

(** The results of the calls that [memkind_create_pmem] makes: [mkstemp], the
    address of the new kind, [jemk_malloc] of the private data,
    [pthread_mutex_init], [memkind_arena_create_map], and [jemk_malloc] of the
    copied path with what the uninitialised bytes after the copy hold before
    the first zero byte. *)
Record pmem_calls := PmemCalls {
  pc_mkstemp : string → Z;
  pc_kind : option Z;
  pc_priv : bool;
  pc_mutex : bool;
  pc_arena : Z;
  pc_dir : option string;
}.

Definition with_registry (r : memkind_registry) (w : process) : process :=
  Process r (privs w) (open_fds w) (mapped w).

(** The error, [*kind] and the process. *)
Definition memkind_create_pmem (c : pmem_calls) (d : string) (msize : Z) (w : process) :
    outcome (Z * option Z * process) :=
  if negb (msize =? 0) && (msize <? MEMKIND_PMEM_MIN_SIZE) then Ret (MEMKIND_ERROR_INVALID, None, w) else
  let msize := if negb (msize =? 0) then roundup msize MEMKIND_PMEM_CHUNK_SIZE else msize in
  let '(err, n, w) := memkind_pmem_create_tmpfile (pc_mkstemp c) d w in
  let exit w := if negb (n =? -1) then close n w else w in
  if negb (err =? 0) then Ret (err, None, exit w) else
  let! (err, kind, r) := memkind_create (memkind_pmem_create (pc_priv c) (pc_mutex c) (pc_arena c)) (pc_kind c)
                           MEMKIND_PMEM_OPS (pmem_name n) (registry w) in
  let w := with_registry r w in
  if negb (err =? 0) then Ret (err, kind, exit w) else
  let! k := deref kind in
  match pc_dir c with
  | None => Ret (err, kind, exit (set_priv k (MemkindPmem n 0 msize 0 None) w))
  | Some junk => Ret (err, kind, set_priv k (MemkindPmem n 0 msize 0 (Some (d ++ junk))) w)
  end.

(** [memkind_pmem_destroy]; the counters of the partition are reset as well. *)
Definition memkind_pmem_destroy (kind : Z) (w : process) (c : counters) : outcome (process * counters) :=
  let! k := deref (kinds (registry w) !! kind) in
  let! priv := deref (privs w !! kind) in
  let c := memtier_reset_size (k_partition k) c in
  let w := close (fd priv) w in
  Ret (Process (registry w) (delete kind (privs w)) (open_fds w) (mapped w), c).

(** ** Mapping *)

(** Results of the system calls of one mapping: [posix_fallocate] of a
    descriptor, an offset and an [off_t] length; [mkstemp]; [mmap]. *)
Record map_calls := MapCalls {
  mc_fallocate : Z → Z → Z → Z;
  mc_mkstemp : string → Z;
  mc_mmap : option Z;
}.

(** 0 and the new private data, or -1.  When [posix_fallocate] fails the new
    descriptor stays open. *)
Definition memkind_pmem_recreate_file (c : map_calls) (priv : memkind_pmem) (size : Z) (w : process) :
    outcome (Z * memkind_pmem * process) :=
  let! d := deref (dir priv) in
  let '(err, n, w) := memkind_pmem_create_tmpfile (mc_mkstemp c) d w in
  if negb (err =? 0) then Ret (-1, priv, w) else
  if negb (mc_fallocate c n 0 (i64 size) =? 0) then Ret (-1, priv, w) else
  let w := close (fd priv) w in
  Ret (0, MemkindPmem n 0 (max_size priv) (current_size priv) (dir priv), w).

(** Room for [size] more bytes in the file, or in a new one when it is too big. *)
Definition fallocate_or_recreate (c : map_calls) (priv : memkind_pmem) (size : Z) (w : process) :
    outcome (bool * memkind_pmem * process) :=
  let err := mc_fallocate c (fd priv) (offset priv) (i64 size) in
  if negb (err =? 0) then
    if err =? EFBIG then
      let! (status, priv, w) := memkind_pmem_recreate_file c priv size w in
      Ret (status =? 0, priv, w)
    else Ret (false, priv, w)
  else Ret (true, priv, w).

(** [None] is [MAP_FAILED]. *)
Definition memkind_pmem_mmap (c : map_calls) (kind size : Z) (w : process) : outcome (option Z * process) :=
  let! priv := deref (privs w !! kind) in
  if negb (max_size priv =? 0) && (max_size priv <? u64 (current_size priv + size)) then Ret (None, w) else
  let! (ok, priv, w) := fallocate_or_recreate c priv size w in
  if negb ok then Ret (None, w) else
  match mc_mmap c with
  | None => Ret (None, set_priv kind priv w)
  | Some a =>
      let priv := MemkindPmem (fd priv) (i64 (offset priv + size)) (max_size priv)
                    (u64 (current_size priv + size)) (dir priv) in
      Ret (Some a, set_mapped (<[a := (kind, size)]> (mapped w)) (set_priv kind priv w))
  end.

(** ** The extent hooks *)

(** [kind] is [get_kind_by_arena(arena_ind)]; [available] the result of
    [memkind_check_available]. *)
Definition pmem_extent_alloc (c : map_calls) (available : Z) (new_addr : Z) (size : Z) (kind : option Z)
    (w : process) : outcome (option Z * process) :=
  if negb (new_addr =? NULL) then Ret (None, w) else
  match kind with
  | None => Ret (None, w)
  | Some kind => if negb (available =? 0) then Ret (None, w) else memkind_pmem_mmap c kind size w
  end.

Definition pmem_extent_dalloc_hog_memory (w : process) : bool * process := (true, w).

(** [madvise] is its status and [errno], [munmap] its status. *)
Definition pmem_extent_dalloc (madvise : Z * Z) (munmap : Z) (kind : option Z) (addr size : Z) (w : process) :
    outcome (bool * process) :=
  let! w :=
    if madvise.1 =? 0 then
      let! kind := deref kind in
      let! priv := deref (privs w !! kind) in
      let! _ := c_assert (size <=? current_size priv) in
      Ret (set_priv kind (MemkindPmem (fd priv) (offset priv) (max_size priv) (u64 (current_size priv - size))
             (dir priv)) w)
    else if madvise.2 =? EOPNOTSUPP then Stop Exited
    else Ret w in
  if munmap =? -1 then Ret (true, w)
  else Ret (false, set_mapped (delete addr (mapped w)) w).

(** Both report success and leave the rest to jemalloc: one piece becomes two,
    or two adjacent ones become one. *)
Definition pmem_extent_split (addr size_a size_b : Z) (w : process) : bool * process :=
  match mapped w !! addr with
  | Some (k, _) => (false, set_mapped (<[addr + size_a := (k, size_b)]> (<[addr := (k, size_a)]> (mapped w))) w)
  | None => (false, w)
  end.
Definition pmem_extent_merge (addr_a size_a addr_b size_b : Z) (w : process) : bool * process :=
  match mapped w !! addr_a with
  | Some (k, _) => (false, set_mapped (<[addr_a := (k, size_a + size_b)]> (delete addr_b (mapped w))) w)
  | None => (false, w)
  end.

Definition pmem_extent_destroy (munmap addr : Z) (w : process) : process :=
  if munmap =? -1 then w else set_mapped (delete addr (mapped w)) w.

(** ** Checking a directory *)

(** [ftruncate] and [mmap] give their results. *)
Definition memkind_pmem_validate_dir (mkstemp : string → Z) (ftruncate : Z) (mmap : option Z) (d : string)
    (w : process) : Z * process :=
  let '(err, n, w) := memkind_pmem_create_tmpfile mkstemp d w in
  if negb (err =? 0) then (MEMKIND_ERROR_RUNTIME, w) else
  if negb (ftruncate =? 0) then (MEMKIND_ERROR_RUNTIME, close n w) else
  match mmap with
  | None => (MEMKIND_ERROR_MMAP, close n w)
  | Some _ => (MEMKIND_SUCCESS, close n w)
  end.
