(* ===== verification/PmemSpec.v ===== *)
(** * The quota and the clean-up of the file-backed kinds *)
From S2P Require Import CString Prelude Counters Registry RegistrySpec Pmem.
Local Open Scope string_scope.
Local Open Scope Z_scope.

(** ** The quota *)

(** The bytes that a kind has mapped. *)
Definition piece (kind : Z) (x : Z * Z) : Z := if x.1 =? kind then x.2 else 0.
Definition bytes_mapped (kind : Z) (w : process) : Z := msum (piece kind) (mapped w).

Record quota_ok (kind : Z) (w : process) (priv : memkind_pmem) : Prop := {
  qo_priv : privs w !! kind = Some priv;
  qo_dir : is_Some (dir priv);
  qo_max : 0 < max_size priv <= 2 ^ 63;
  qo_range : 0 <= current_size priv <= max_size priv;
  qo_mapped : bytes_mapped kind w <= current_size priv;
  qo_pieces a k n : mapped w !! a = Some (k, n) → 0 < n;
}.

(** What the system promises: [posix_fallocate] refuses a length that is not
    positive (with an error other than [EFBIG]) and [mmap] gives an unused address. *)
Record os_ok (c : map_calls) (w : process) : Prop := {
  os_fallocate n off len : len <= 0 → mc_fallocate c n off len ≠ 0 ∧ mc_fallocate c n off len ≠ EFBIG;
  os_mmap a : mc_mmap c = Some a → mapped w !! a = None;
}.

(** The calls that jemalloc makes for the extents of a kind. *)
Inductive extent_call :=
  | Alloc (c : map_calls) (size : Z)
  | Dalloc (madvise : Z * Z) (addr size : Z)
  | HogDalloc
  | Split (addr size_a size_b : Z)
  | Merge (addr_a size_a addr_b size_b : Z)
  | DestroyExtent (addr : Z).

(** The kind is available and [munmap] succeeds. *)
Definition run_extent (kind : Z) (x : extent_call) (w : process) : outcome process :=
  match x with
  | Alloc c size => let! (_, w) := pmem_extent_alloc c 0 NULL size (Some kind) w in Ret w
  | Dalloc madvise addr size => let! (_, w) := pmem_extent_dalloc madvise 0 (Some kind) addr size w in Ret w
  | HogDalloc => Ret (pmem_extent_dalloc_hog_memory w).2
  | Split addr a b => Ret (pmem_extent_split addr a b w).2
  | Merge a n b m => Ret (pmem_extent_merge a n b m w).2
  | DestroyExtent addr => Ret (pmem_extent_destroy 0 addr w)
  end.

(** jemalloc names pieces it owns, and the file system can punch holes. *)
Definition extent_pre (kind : Z) (x : extent_call) (w : process) : Prop :=
  match x with
  | Alloc c size => os_ok c w ∧ is_u64 size
  | Dalloc madvise addr size => mapped w !! addr = Some (kind, size) ∧ madvise.2 ≠ EOPNOTSUPP
  | HogDalloc => True
  | Split addr a b => mapped w !! addr = Some (kind, a + b) ∧ 0 < a ∧ 0 < b ∧ mapped w !! (addr + a) = None
  | Merge a n b m => mapped w !! a = Some (kind, n) ∧ b = a + n ∧ mapped w !! b = Some (kind, m)
  | DestroyExtent addr => ∃ size, mapped w !! addr = Some (kind, size)
  end.

(** Calls after which the quota still counts exactly the mapped bytes. *)
Definition exact_call (x : extent_call) : Prop :=
  match x with
  | Dalloc madvise _ _ => madvise.1 = 0
  | DestroyExtent _ => False
  | _ => True
  end.

Lemma bytes_le_piece kind w a n :
  (∀ a k n, mapped w !! a = Some (k, n) → 0 < n) → mapped w !! a = Some (kind, n) → n <= bytes_mapped kind w.
Proof.
  intros Hpos Ha. unfold bytes_mapped. assert (Hd := msum_delete (piece kind) _ _ _ Ha).
  assert (Hz : msum (λ _, 0) (delete a (mapped w)) <= msum (piece kind) (delete a (mapped w))).
  { apply msum_mono. intros i [k' n'] (_ & Hi)%lookup_delete_Some. unfold piece. simpl. apply Hpos in Hi. case_if; lia. }
  rewrite msum_zero in Hz by done. unfold piece at 3 in Hd. cbn [fst snd] in Hd. rewrite Z.eqb_refl in Hd. lia.
Qed.

(** A process that differs in this kind's private data and in the pieces. *)
Lemma quota_intro kind w priv priv' :
  quota_ok kind w priv →
  ∀ w', privs w' !! kind = Some priv' → dir priv' = dir priv → max_size priv' = max_size priv →
  bytes_mapped kind w' <= current_size priv' <= max_size priv → 0 <= current_size priv' →
  (∀ a k n, mapped w' !! a = Some (k, n) → 0 < n) → quota_ok kind w' priv'.
Proof. intros [] w' Hp Hd Hm Hb H0 Hn. split; rewrite ?Hd, ?Hm; try done; lia. Qed.

(** A positive length only; nothing changes but the descriptor and the offset. *)
Lemma fallocate_ok c priv size w :
  os_ok c w → is_Some (dir priv) → ∃ ok priv1 w1, fallocate_or_recreate c priv size w = Ret (ok, priv1, w1) ∧
    (ok = true → 0 < i64 size) ∧ mapped w1 = mapped w ∧ privs w1 = privs w ∧
    max_size priv1 = max_size priv ∧ current_size priv1 = current_size priv ∧ dir priv1 = dir priv.
Proof.
  intros [Hfall _] [d Hd]. unfold fallocate_or_recreate. destruct (decide (i64 size <= 0)) as [Hneg|Hpos'].
  { destruct (Hfall (fd priv) (offset priv) _ Hneg) as [H0 H1].
    rewrite (proj2 (Z.eqb_neq _ 0)), (proj2 (Z.eqb_neq _ EFBIG)) by done. cbn [negb]. by eexists false, _, _. }
  destruct (mc_fallocate c (fd priv) (offset priv) (i64 size) =? 0); cbn [negb];
    [by exists true, priv, w; split_and!; [done|intros _; lia|done..]|].
  destruct (mc_fallocate c (fd priv) (offset priv) (i64 size) =? EFBIG); [|by eexists false, _, _].
  unfold memkind_pmem_recreate_file, memkind_pmem_create_tmpfile. rewrite Hd. cbn [deref obind].
  repeat (case_if; cbn [obind negb Z.eqb]); try (eexists _, _, _; split_and!; [done|intros; try done; lia|done..]).
Qed.

Lemma positive_off_t size : is_u64 size → 0 < i64 size → 0 < size < 2 ^ 63.
Proof.
  unfold i64, is_u64. intros Hsize Hok. destruct (decide (size < 2 ^ 63)); [rewrite Z.mod_small in Hok; lia|].
  replace (size + 2 ^ 63) with (size - 2 ^ 63 + 1 * 2 ^ 64) in Hok by lia.
  rewrite Z_mod_plus_full, Z.mod_small in Hok; lia.
Qed.

Lemma bytes_insert kind w w' a n :
  mapped w !! a = None → mapped w' = <[a := (kind, n)]> (mapped w) → bytes_mapped kind w' = bytes_mapped kind w + n.
Proof.
  intros Ha Hw. unfold bytes_mapped. rewrite Hw, msum_insert by done. unfold piece at 1. simpl. rewrite Z.eqb_refl. lia.
Qed.

Lemma bytes_delete kind w w' a n :
  mapped w !! a = Some (kind, n) → mapped w' = delete a (mapped w) → bytes_mapped kind w' = bytes_mapped kind w - n.
Proof.
  intros Ha Hw. unfold bytes_mapped. rewrite Hw, (msum_delete _ _ _ _ Ha). unfold piece at 2. simpl. rewrite Z.eqb_refl. lia.
Qed.

Lemma quota_mmap kind c size w priv :
  quota_ok kind w priv → os_ok c w → is_u64 size →
  ∃ r w' priv', memkind_pmem_mmap c kind size w = Ret (r, w') ∧ quota_ok kind w' priv' ∧
    bytes_mapped kind w' - bytes_mapped kind w = current_size priv' - current_size priv.
Proof.
  intros Hq Hos Hsize. pose proof Hq as [Hp Hd Hmax Hcur Hmapd Hpos].
  unfold memkind_pmem_mmap. rewrite Hp. cbn [deref obind].
  destruct (negb _ && _) eqn:Equota; [by exists None, w, priv; split_and!; [done..|lia]|].
  assert (Hfit : u64 (current_size priv + size) <= max_size priv).
  { apply andb_false_iff in Equota as [E%negb_false_iff|E]; zb; lia. }
  destruct (fallocate_ok c priv size w Hos Hd) as (ok & priv1 & w1 & -> & Hok & Hm1 & Hp1 & Hmx1 & Hc1 & Hd1).
  assert (Hb1 : ∀ w', mapped w' = mapped w1 → bytes_mapped kind w' = bytes_mapped kind w)
    by (intros w' Hw; unfold bytes_mapped; by rewrite Hw, Hm1).
  cbn [obind]. destruct ok; cbn [negb].
  2:{ exists None, w1, priv. rewrite Hb1 by done. split_and!; [done| |lia].
      apply (quota_intro kind w priv priv Hq); rewrite ?Hp1, ?Hb1, ?Hm1; try done; lia. }
  destruct (positive_off_t size Hsize (Hok eq_refl)). rewrite u64_small in Hfit by (unfold is_u64; lia).
  destruct (mc_mmap c) as [a|] eqn:Ea.
  - rewrite Hc1, u64_small by (unfold is_u64; lia).
    eexists (Some a), _, (MemkindPmem (fd priv1) (i64 (offset priv1 + size)) (max_size priv1)
      (current_size priv + size) (dir priv1)). split; [done|].
    rewrite (bytes_insert kind w1 _ a size), Hb1 by (try done; by rewrite Hm1, (os_mmap _ _ Hos)).
    split; [|simpl; lia]. apply (quota_intro kind w priv); try done; [by apply lookup_insert_eq| |simpl; lia|].
    + rewrite (bytes_insert kind w1 _ a size), Hb1 by (try done; by rewrite Hm1, (os_mmap _ _ Hos)). simpl. lia.
    + intros b k n. cbn [mapped set_mapped]. rewrite Hm1. intros [(_ & [= _ <-])|(_ & Hb')]%lookup_insert_Some; [lia|].
      by apply (Hpos b k).
  - exists None, (set_priv kind priv1 w1), priv1. split; [done|]. rewrite Hb1, Hc1 by done. split; [|lia].
    apply (quota_intro kind w priv); try done; rewrite ?Hb1, ?Hc1; try done; [by apply lookup_insert_eq|lia..|].
    cbn [mapped set_priv]. by rewrite Hm1.
Qed.

Lemma quota_dalloc kind madvise addr size w priv :
  quota_ok kind w priv → extent_pre kind (Dalloc madvise addr size) w →
  ∃ w' priv', run_extent kind (Dalloc madvise addr size) w = Ret w' ∧ quota_ok kind w' priv' ∧
    bytes_mapped kind w' = bytes_mapped kind w - size ∧
    current_size priv' = current_size priv - (if madvise.1 =? 0 then size else 0).
Proof.
  intros Hq [Ha Hno]. pose proof Hq as [Hp Hd Hmax Hcur Hmapd Hpos]. pose proof (Hpos _ _ _ Ha).
  pose proof (bytes_le_piece kind w addr size Hpos Ha). unfold run_extent, pmem_extent_dalloc.
  destruct (madvise.1 =? 0); cbn [deref obind].
  - rewrite Hp. cbn [deref obind]. rewrite (proj2 (Z.leb_le _ _)) by lia. cbn [c_assert obind Z.eqb].
    rewrite u64_small by (unfold is_u64; lia). eexists _, (MemkindPmem (fd priv) (offset priv) (max_size priv) (current_size priv - size) (dir priv)).
    split; [done|].
    rewrite (bytes_delete kind w _ addr size) by done. split; [|split; [done|simpl; lia]].
    apply (quota_intro kind w priv); try done; rewrite ?(bytes_delete kind w _ addr size) by done;
      [by apply lookup_insert_eq|simpl; lia..|]. intros b k n Hb. cbn [mapped set_mapped set_priv] in Hb. apply lookup_delete_Some in Hb as [_ Hb]. by apply (Hpos b k).
  - rewrite (proj2 (Z.eqb_neq _ _)) by done. cbn [obind Z.eqb]. eexists _, priv. split; [done|].
    rewrite (bytes_delete kind w _ addr size) by done. split; [|split; [done|lia]].
    apply (quota_intro kind w priv); try done; rewrite ?(bytes_delete kind w _ addr size) by done; [lia..|].
    intros b k n Hb. cbn [mapped set_mapped set_priv] in Hb. apply lookup_delete_Some in Hb as [_ Hb]. by apply (Hpos b k).
Qed.

Lemma quota_split kind addr a b w priv :
  quota_ok kind w priv → extent_pre kind (Split addr a b) w →
  ∃ w', run_extent kind (Split addr a b) w = Ret w' ∧ quota_ok kind w' priv ∧ bytes_mapped kind w' = bytes_mapped kind w.
Proof.
  intros Hq (Ha & H0 & H1 & Hb). pose proof Hq as [Hp Hd Hmax Hcur Hmapd Hpos].
  unfold run_extent, pmem_extent_split. rewrite Ha. eexists. split; [done|]. cbn [snd].
  assert (Hbytes : bytes_mapped kind (set_mapped (<[addr + a := (kind, b)]> (<[addr := (kind, a)]> (mapped w))) w) =
    bytes_mapped kind w).
  { rewrite (bytes_insert kind (set_mapped (<[addr := (kind, a)]> (mapped w)) w) _ (addr + a) b);
      [|cbn [mapped set_mapped]; rewrite lookup_insert_ne by lia; done|done].
    rewrite (bytes_insert kind (set_mapped (delete addr (mapped w)) w) _ addr a);
      [|apply lookup_delete_eq|cbn [mapped set_mapped]; by rewrite insert_delete_eq].
    rewrite (bytes_delete kind w _ addr (a + b)) by done. lia. }
  split; [|done]. apply (quota_intro kind w priv); try done; [rewrite Hbytes; lia|lia|].
  intros c k n Hc. cbn [mapped set_mapped] in Hc. revert Hc. intros [(_ & [= _ <-])|(_ & [(_ & [= _ <-])|(_ & Hc)]%lookup_insert_Some)]%lookup_insert_Some; [done..|].
  by apply (Hpos c k).
Qed.

Lemma quota_merge kind a n b m w priv :
  quota_ok kind w priv → extent_pre kind (Merge a n b m) w →
  ∃ w', run_extent kind (Merge a n b m) w = Ret w' ∧ quota_ok kind w' priv ∧ bytes_mapped kind w' = bytes_mapped kind w.
Proof.
  intros Hq (Ha & -> & Hb). pose proof Hq as [Hp Hd Hmax Hcur Hmapd Hpos]. pose proof (Hpos _ _ _ Ha). pose proof (Hpos _ _ _ Hb).
  unfold run_extent, pmem_extent_merge. rewrite Ha. eexists. split; [done|]. cbn [snd].
  assert (Hbytes : bytes_mapped kind (set_mapped (<[a := (kind, n + m)]> (delete (a + n) (mapped w))) w) =
    bytes_mapped kind w).
  { rewrite (bytes_insert kind (set_mapped (delete a (delete (a + n) (mapped w))) w) _ a (n + m));
      [|apply lookup_delete_eq|cbn [mapped set_mapped]; by rewrite insert_delete_eq].
    rewrite (bytes_delete kind (set_mapped (delete (a + n) (mapped w)) w) _ a n);
      [|cbn [mapped set_mapped]; rewrite lookup_delete_ne by lia; done|done].
    rewrite (bytes_delete kind w _ (a + n) m) by done. lia. }
  split; [|done]. apply (quota_intro kind w priv); try done; [rewrite Hbytes; lia|lia|].
  intros c k x Hc. cbn [mapped set_mapped] in Hc. revert Hc. intros [(_ & [= _ <-])|(_ & (_ & Hc)%lookup_delete_Some)]%lookup_insert_Some; [lia|]. by apply (Hpos c k).
Qed.


(** ** Creating a kind *)
Lemma close_new n w : n ∉ open_fds w → close n (set_fds ({[n]} ∪ open_fds w) w) = w.
Proof.
  intros Hn. destruct w as [r p s m]. unfold close, set_fds. cbn [registry privs open_fds mapped] in *. f_equal. set_solver.
Qed.

(** [*kind] is what [jemk_calloc] gave; on an error the registry is as before. *)
Lemma memkind_create_kind_ptr create mem ops nm r err kind r' :
  memkind_create create mem ops nm r = Ret (err, kind, r') → (err = 0 → kind = mem ∧ is_Some mem) ∧ (err ≠ 0 → r' = r).
Proof.
  unfold memkind_create. intros Hrun. case_match; [by simplify_eq|]. case_match; [by simplify_eq|].
  run_inv. destruct a as [j|]; [|by simplify_eq]. destruct mem as [p|]; [|by simplify_eq].
  destruct (create _ _ _) as [e k]. destruct (Z.eqb_spec e 0) as [->|He]; cbn [negb] in Hrun; simplify_eq; [|done].
  split; [by eauto|done].
Qed.

Lemma roundup_chunk x :
  is_u64 x → x <= 2 ^ 64 - 2 ^ 21 → let r := roundup x MEMKIND_PMEM_CHUNK_SIZE in
  x <= r < x + 2 ^ 21 ∧ r mod 2 ^ 21 = 0 ∧ is_u64 r.
Proof.
  unfold is_u64, roundup. intros Hx Hle. change (u64 (Z.lnot (MEMKIND_PMEM_CHUNK_SIZE - 1))) with (2 ^ 64 - 2 ^ 21).
  change MEMKIND_PMEM_CHUNK_SIZE with (2 ^ 21). cbv zeta. rewrite land_high_mask by (try lia; apply u64_range).
  rewrite u64_small by (unfold is_u64; lia). rewrite Z.mod_mul by lia.
  pose proof (Z.div_mod (x + 2 ^ 21 - 1) (2 ^ 21) ltac:(lia)). pose proof (Z.mod_pos_bound (x + 2 ^ 21 - 1) (2 ^ 21) ltac:(lia)).
  lia.
Qed.

(** The path that [mkstemp] is given, and the limit that the kind is given. *)
Definition tmpfile (d : string) : string := d ++ "/memkind.XXXXXX".
Definition limit (msize : Z) : Z := if negb (msize =? 0) then roundup msize MEMKIND_PMEM_CHUNK_SIZE else msize.

(** What the calls give is new: the descriptor, the address and the name. *)
Definition pmem_calls_ok (c : pmem_calls) (d : string) (w : process) : Prop :=
  let n := pc_mkstemp c (tmpfile d) in
  (n ∉ open_fds w) ∧ (∀ p, pc_kind c = Some p → live_names (registry w) !! p = None) ∧
  ∀ q, live_names (registry w) !! q ≠ Some (pmem_name n).

(** The kind is registered under its own name with an empty quota. *)
Definition pmem_created (c : pmem_calls) (d : string) (msize : Z) (w w' : process) (kind : option Z) : Prop :=
  ∃ p, kind = Some p ∧ pc_kind c = Some p ∧
    live_names (registry w') = <[p := pmem_name (pc_mkstemp c (tmpfile d))]> (live_names (registry w)) ∧
    privs w' = <[p := MemkindPmem (pc_mkstemp c (tmpfile d)) 0 (limit msize) 0 ((λ junk, d ++ junk) <$> pc_dir c)]>
      (privs w) ∧
    (is_Some (pc_dir c) → open_fds w' = {[pc_mkstemp c (tmpfile d)]} ∪ open_fds w).

(** C31: [memkind_create_pmem] gives a kind with a quota of at least the asked size
    or reports an error, and on every error nothing is left behind: neither an
    open descriptor nor a registered kind. *)
Theorem create_pmem_outcome c d msize w :
  registry_ok (registry w) → pmem_calls_ok c d w →
  ∃ err kind w', memkind_create_pmem c d msize w = Ret (err, kind, w') ∧ registry_ok (registry w') ∧
    (err ≠ 0 → w' = w) ∧ (err = 0 → pmem_created c d msize w w' kind).
Proof.
  intros Hr (Hn & Hp & Hnm). unfold memkind_create_pmem. fold (limit msize).
  case_if; [by eexists _, _, w|]. unfold memkind_pmem_create_tmpfile. fold (tmpfile d).
  set (n := pc_mkstemp c (tmpfile d)) in *. case_if; [by eexists _, _, w|]. destruct (n <? 0) eqn:En; zb; cbn [negb Z.eqb].
  { exists MEMKIND_ERROR_INVALID, None, w. split_and!; [|done..]. cbn [MEMKIND_ERROR_INVALID negb Z.eqb]. do 2 f_equal. destruct (negb (n =? -1)); [|done].
    unfold close. destruct w as [r p s m]. unfold set_fds. cbn [open_fds registry privs mapped] in *. f_equal. set_solver. }
  cbn [MEMKIND_SUCCESS Z.eqb negb]. rewrite (proj2 (Z.eqb_neq n (-1))) by lia. cbn [negb registry set_fds].
  destruct (registry_create_ok (pc_kind c) (pc_priv c) (pc_mutex c) (pc_arena c) (pmem_name n) (registry w) Hr) as
    (err & r' & Hrun & Hr' & Hspec); [by split|]. unfold run_reg in Hrun.
  destruct (memkind_create _ _ _ _ _) as [[[e kind] r1]|] eqn:Hc; [|discriminate Hrun]. cbn [obind] in Hrun. simplify_eq. cbn [obind].
  destruct (memkind_create_kind_ptr _ _ _ _ _ _ _ _ Hc) as [H0 H1].
  destruct (Z.eqb_spec err 0) as [->|He]; cbn [negb].
  2:{ rewrite (H1 He) in *. exists err, kind, w. split_and!; [|done..]. do 2 f_equal.
      destruct w. exact (close_new n _ Hn). }
  destruct (H0 eq_refl) as [-> [p Hk]]. rewrite Hk in *. cbn [deref obind].
  assert (Hlive : live_names r' = <[p := pmem_name n]> (live_names (registry w))).
  { unfold spec_reg in Hspec. destruct (Z.eqb_spec (pc_arena c) 0) as [_|Ha]; cbn [negb] in Hspec.
    - repeat case_match; simplify_eq; congruence.
    - repeat case_match; simplify_eq; done. }
  destruct (pc_dir c) as [junk|] eqn:Ed; eexists _, _, _; split_and!; try done; intros _; exists p;
    rewrite ?Ed; cbn [fmap option_fmap option_map]; split_and!; done.
Qed.

(** ** Runs *)
Definition idle : process := Process memkind_registry_g ∅ ∅ ∅.

Definition calls (n p : Z) (path : option string) : pmem_calls := PmemCalls (λ _, n) (Some p) true true 0 path.
Definition proc_or (o : outcome (Z * option Z * process)) : process :=
  match o with Ret (_, _, w) => w | Stop _ => idle end.
Definition err_of (o : outcome (Z * option Z * process)) : option Z :=
  match o with Ret (e, _, _) => Some e | Stop _ => None end.

Definition one_kind : process := proc_or (memkind_create_pmem (calls 5 1000 (Some "")) "/mnt" (2 ^ 24) idle).

(** A file that is always large enough, and one that is full once. *)
Definition roomy (a : Z) : map_calls := MapCalls (λ _ _ len, if len <=? 0 then 22 else 0) (λ _, 6) (Some a).
Definition full (a : Z) : map_calls :=
  MapCalls (λ n _ len, if len <=? 0 then 22 else if n =? 5 then EFBIG else 0) (λ _, 6) (Some a).


(** A request that would pass the limit, or wrap around with it, is refused. *)
Example quota_refuses :
  memkind_pmem_mmap (roomy (2 ^ 30)) 1000 (2 ^ 24 + 4096) one_kind = Ret (None, one_kind) ∧
  memkind_pmem_mmap (roomy (2 ^ 30)) 1000 (2 ^ 64 - 4096) one_kind = Ret (None, one_kind).
Proof. by vm_compute. Qed.

Lemma create_pmem_outcome_witness :
  ∃ err kind w', memkind_create_pmem (calls 5 1000 (Some "")) "/mnt" (2 ^ 24) idle = Ret (err, kind, w') ∧
    registry_ok (registry w') ∧ (err ≠ 0 → w' = idle) ∧
    (err = 0 → pmem_created (calls 5 1000 (Some "")) "/mnt" (2 ^ 24) idle w' kind).
Proof.
  refine (create_pmem_outcome (calls 5 1000 (Some "")) "/mnt" (2 ^ 24) idle registry_g_ok _). split; [by apply not_elem_of_empty|].
  split; [intros p [= <-]; by vm_compute|].
  assert (Hno : map_Forall (λ _ nm, nm ≠ pmem_name 5) (live_names memkind_registry_g))
    by (apply (bool_decide_unpack _); by vm_compute).
  intros q Hq. by apply (Hno q _ Hq).
Defined.

(** When the copy of the path cannot be allocated, [memkind_create_pmem] reports
    success for a kind whose descriptor it has just closed. *)
Theorem pmem_closed_descriptor :
  let w := proc_or (memkind_create_pmem (calls 5 1000 None) "/mnt" (2 ^ 24) idle) in
  err_of (memkind_create_pmem (calls 5 1000 None) "/mnt" (2 ^ 24) idle) = Some MEMKIND_SUCCESS ∧
  privs w !! 1000 = Some (MemkindPmem 5 0 (2 ^ 24) 0 None) ∧ open_fds w = ∅ ∧
  memkind_pmem_mmap (full (2 ^ 30)) 1000 4096 w = Stop BadDeref.
Proof. by vm_compute. Qed.

(** The terminating zero of the path is not copied: a new file is made in the
    directory that the bytes after the copy happen to name. *)
Theorem pmem_path_not_terminated :
  let w := proc_or (memkind_create_pmem (calls 5 1000 (Some "/x")) "/mnt" (2 ^ 24) idle) in
  (dir <$> privs w !! 1000) = Some (Some "/mnt/x").
Proof. by vm_compute. Qed.

(** A limit just below [2^64] is rounded to zero, which means no limit. *)
Theorem pmem_limit_wraps :
  limit (2 ^ 64 - 1) = 0 ∧
  let w := proc_or (memkind_create_pmem (calls 5 1000 (Some "")) "/mnt" (2 ^ 64 - 1) idle) in
  (max_size <$> privs w !! 1000) = Some 0.
Proof. by vm_compute. Qed.

(** A kind is named after its first descriptor.  When its file is replaced that
    descriptor is closed and can be given to the next kind, which then cannot be
    created because the name is taken. *)
Theorem pmem_name_taken :
  ∃ w, memkind_pmem_mmap (full (2 ^ 30)) 1000 4096 one_kind = Ret (Some (2 ^ 30), w) ∧
    open_fds w = {[6]} ∧ (fd <$> privs w !! 1000) = Some 6 ∧
    err_of (memkind_create_pmem (calls 5 2000 (Some "")) "/mnt" (2 ^ 24) w) = Some MEMKIND_ERROR_INVALID.
Proof. eexists. split; [by vm_compute|]. by vm_compute. Qed.

(** When the new file cannot be filled either, its descriptor stays open. *)
Theorem pmem_recreate_leaks :
  ∃ w, memkind_pmem_mmap (MapCalls (λ _ _ _, EFBIG) (λ _, 6) None) 1000 4096 one_kind = Ret (None, w) ∧
    open_fds w = {[5; 6]} ∧ (fd <$> privs w !! 1000) = Some 5.
Proof. eexists. split; [by vm_compute|]. by vm_compute. Qed.
