(* ===== verification/Arena.v ===== *)
(** * Allocating from the arenas of a kind ([src/memkind_arena.c],
    [src/memkind_default.c] and the dispatch of [src/memkind.c])

    A kind owns a range of jemalloc arenas.  A thread allocates from the arena
    its identity hashes to, with flags for [jemk_mallocx] that name the arena
    and a thread cache; the kind of a block is found again from the arena that
    jemalloc says the block is in.  jemalloc is the class [Jemalloc].  The build
    is the default one: no TLS, no decorators, the arena heap manager. *)
From S2P Require Import CString Prelude Counters Registry.
Local Open Scope string_scope.
Local Open Scope Z_scope.

(** ** The flags of [jemk_mallocx] (jemalloc's macros, as 32-bit patterns) *)
Definition MALLOCX_ARENA_MAX : Z := 0xffe.
Definition MALLOCX_TCACHE_MAX : Z := Z.shiftl 1 12 - 3.
Definition INT_MAX : Z := 2 ^ 31 - 1.
Definition LLONG_MAX : Z := 2 ^ 63 - 1.

Fixpoint ctz (p : positive) : Z :=
  match p with xO p => 1 + ctz p | _ => 0 end.
Definition ffs (x : Z) : Z := match x with Zpos p => 1 + ctz p | _ => 0 end.

Definition MALLOCX_ALIGN (a : Z) : Z :=
  if a <? INT_MAX then ffs a - 1 else ffs (u32 (Z.shiftr a 32)) + 31.
Definition MALLOCX_ZERO : Z := 0x40.
Definition MALLOCX_TCACHE (tc : Z) : Z := u32 (Z.shiftl (tc + 2) 8).
Definition MALLOCX_TCACHE_NONE : Z := MALLOCX_TCACHE (-1).
Definition MALLOCX_ARENA (a : Z) : Z := u32 (Z.shiftl (a + 1) 20).

(** What jemalloc reads from the flags. *)
Definition MALLOCX_ALIGN_GET_SPECIFIED (flags : Z) : Z := Z.shiftl 1 (Z.land flags 0x3f).
Definition MALLOCX_ZERO_GET (flags : Z) : bool := negb (Z.land flags MALLOCX_ZERO =? 0).
Definition MALLOCX_TCACHE_GET (flags : Z) : Z := u32 (Z.shiftr (Z.land flags 0xfff00) 8 - 2).
Definition MALLOCX_ARENA_GET (flags : Z) : Z := u32 (Z.shiftr flags 20 - 1).

(** ** jemalloc *)
Inductive extent_hooks :=
  | arena_extent_hooks | arena_extent_hooks_hog_memory
  | arena_extent_hooks_hugetlb | arena_extent_hooks_hugetlb_hog_memory
  | pmem_extent_hooks | pmem_extent_hooks_hog_memory.

Class Jemalloc (J : Type) := {
  mallocx : Z → Z → J → Z * J;                       (** size, flags *)
  rallocx : Z → Z → Z → J → Z * J;                   (** pointer, size, flags *)
  dallocx : Z → Z → J → J;                           (** pointer, flags *)
  je_malloc : Z → J → Z * J;
  je_calloc : Z → Z → J → Z * J;
  je_realloc : Z → Z → J → Z * J;
  je_posix_memalign : Z → Z → Z → J → Z * Z * J;     (** [*memptr], alignment, size; result, [*memptr] *)
  je_free : Z → J → J;
  je_usable_size : Z → J → Z;
  arenalookupx : Z → J → Z;
  arenas_create : J → Z * Z * J;                     (** error, index *)
  set_extent_hooks : Z → extent_hooks → J → Z * J;   (** error *)
  arena_destroy : Z → J → J;
  set_dirty_decay : Z → Z → J → Z * J;               (** error *)
  tcache_create : J → Z * Z * J;                     (** error, index *)
  check_reallocatex : Z → J → bool;
}.

(** ** Kinds and arenas *)

(** The part of a [struct memkind] that this code uses: whether the operations
    are the default ones, whether its [get_arena] is the bijective one, its
    arenas, and whether [init_once] has run. *)
Record akind := AKind {
  ak_partition : Z;
  ak_default : bool;
  ak_bijective : bool;
  ak_zero : Z;
  ak_len : Z;
  ak_mask : Z;
  ak_init : bool;
}.

Record aworld (J : Type) := AWorld {
  je : J;
  akinds : gmap Z akind;
  arena_registry : list (option Z);        (** [arena_registry_g] *)
  tcache_maps : gmap Z (Z * list Z);       (** of a thread: the array and its contents *)
}.
Arguments AWorld {J}. Arguments je {J}. Arguments akinds {J}.
Arguments arena_registry {J}. Arguments tcache_maps {J}.

(** The process around: [MEMKIND_ARENA_NUM_PER_KIND], the number of processors,
    the results of [numa_available] and [pthread_key_create], [memkind_hog_memory]. *)
Record arena_env := ArenaEnv {
  env_arena_num : option string;
  num_cpus : Z;
  numa_available : Z;
  arena_init_status : Z;
  hog_memory : bool;
}.

Definition MEMKIND_ERROR_ENVIRON : Z := -12.
Definition MEMKIND_ERROR_ARENAS_CREATE : Z := -22.
Definition EINVAL : Z := 22.
Definition ENOMEM : Z := 12.
Definition ARENA_LIMIT_PER_KIND : Z := 256.
Definition TCACHE_MAX : Z := 2 ^ 12.
Definition MEMKIND_DEFAULT : Z := static_kind PARTITION_DEFAULT.

(** [strtoul(s, NULL, 10)]. *)
Definition strtoul10 (s : string) : Z :=
  let (_, s) := span isspace s in
  let (neg, s) :=
    match s with
    | String c s' =>
        if Ascii.eqb c "-" then (true, s') else if Ascii.eqb c "+" then (false, s') else (false, s)
    | EmptyString => (false, s)
    end in
  let '(v, any, _) := read_digits 10 0 false s in
  if negb any then 0 else if ULLONG_MAX <? v then ULLONG_MAX else if neg then u64 (- v) else v.

(** [__builtin_clz(0)] is undefined. *)
Definition integer_log2 (v : Z) : outcome Z := if v =? 0 then Stop Undefined else Ret (Z.log2 v).

(** [1 << n] is an [int]: undefined from bit 31 on. *)
Definition int_shift (n : Z) : outcome Z := if 31 <=? n then Stop Undefined else Ret (2 ^ n).

Definition round_pow2_up (v : Z) : outcome Z :=
  let! v_log2 := integer_log2 v in
  let! s := int_shift v_log2 in
  if negb (v =? s) then int_shift (v_log2 + 1) else Ret v.

Definition set_arenas (k : akind) (zero len mask : Z) : akind :=
  AKind (ak_partition k) (ak_default k) (ak_bijective k) zero len mask (ak_init k).

Definition memkind_set_arena_map_len (e : arena_env) (k : akind) : outcome (Z * akind) :=
  if ak_bijective k then Ret (0, set_arenas k (ak_zero k) 1 0) else
  match env_arena_num e with
  | Some text =>
      let v := strtoul10 text in
      if (v =? 0) || (INT_MAX <? v) then Ret (MEMKIND_ERROR_ENVIRON, k) else
      let! len := round_pow2_up v in
      Ret (0, set_arenas k (ak_zero k) len (len - 1))
  | None =>
      let n := Z.min ARENA_LIMIT_PER_KIND (num_cpus e * 4) in
      let! len := round_pow2_up (u32 n) in
      Ret (0, set_arenas k (ak_zero k) len (len - 1))
  end.

Definition get_extent_hooks_by_kind (e : arena_env) (kind : Z) : extent_hooks :=
  if (kind =? static_kind PARTITION_HUGETLB) || (kind =? static_kind PARTITION_HBW_HUGETLB) ||
     (kind =? static_kind PARTITION_HBW_ALL_HUGETLB) || (kind =? static_kind PARTITION_HBW_PREFERRED_HUGETLB)
  then if hog_memory e then arena_extent_hooks_hugetlb_hog_memory else arena_extent_hooks_hugetlb
  else if hog_memory e then arena_extent_hooks_hog_memory else arena_extent_hooks.

Section ops.
Context {J : Type} `{Jemalloc J}.
Implicit Types w : aworld J.

Definition set_je (j : J) w : aworld J := AWorld j (akinds w) (arena_registry w) (tcache_maps w).
Definition set_akind (kind : Z) (k : akind) w : aworld J :=
  AWorld (je w) (<[kind := k]> (akinds w)) (arena_registry w) (tcache_maps w).
Definition set_registry (l : list (option Z)) w : aworld J := AWorld (je w) (akinds w) l (tcache_maps w).
Definition set_tcaches (m : gmap Z (Z * list Z)) w : aworld J := AWorld (je w) (akinds w) (arena_registry w) m.

(** A call of jemalloc. *)
Definition je_call {B} (f : J → B * J) w : B * aworld J := let (b, j) := f (je w) in (b, set_je j w).

Definition get_kind_by_arena (arena_ind : Z) w : outcome (option Z) :=
  let! _ := c_assert (arena_ind <? MALLOCX_ARENA_MAX) in
  Ret (default None (arena_registry w !! Z.to_nat arena_ind)).

(** ** The arenas of a kind *)

(** Iterations [n] of the loop of [memkind_arena_create_map]; a write past the
    registry is a fault. *)
Fixpoint create_arenas (hooks : extent_hooks) (kind : Z) (n : nat) (zero : Z) w : outcome (Z * Z * aworld J) :=
  match n with
  | O => Ret (0, zero, w)
  | S n =>
      let '((err, arena_index), w) := je_call (λ j, let '(e, i, j) := arenas_create j in ((e, i), j)) w in
      if negb (err =? 0) then Ret (MEMKIND_ERROR_ARENAS_CREATE, zero, w) else
      let zero := if arena_index <? zero then arena_index else zero in
      let (err, w) := je_call (set_extent_hooks arena_index hooks) w in
      if negb (err =? 0) then Ret (err, zero, w) else
      if MALLOCX_ARENA_MAX <=? arena_index then Stop OutOfBounds else
      create_arenas hooks kind n zero (set_registry (<[Z.to_nat arena_index := Some kind]> (arena_registry w)) w)
  end.

Definition UINT_MAX : Z := 2 ^ 32 - 1.

Definition memkind_arena_create_map (e : arena_env) (hooks : extent_hooks) (kind : Z) w : outcome (Z * aworld J) :=
  if negb (arena_init_status e =? 0) then Ret (arena_init_status e, w) else
  let! k := deref (akinds w !! kind) in
  let! (err, k) := memkind_set_arena_map_len e k in
  let w := set_akind kind k w in
  if negb (err =? 0) then Ret (err, w) else
  let! (err, zero, w) := create_arenas hooks kind (Z.to_nat (ak_len k)) UINT_MAX w in
  Ret (err, set_akind kind (set_arenas k zero (ak_len k) (ak_mask k)) w).

(** [memkind_arena_create]; [create_err] is the result of [memkind_default_create]. *)
Definition memkind_arena_create (e : arena_env) (create_err kind : Z) w : outcome (Z * aworld J) :=
  if negb (create_err =? 0) then Ret (create_err, w)
  else memkind_arena_create_map e (get_extent_hooks_by_kind e kind) kind w.

Fixpoint destroy_arenas (n : nat) (a : Z) w : outcome (aworld J) :=
  match n with
  | O => Ret w
  | S n =>
      let w := set_je (arena_destroy a (je w)) w in
      if MALLOCX_ARENA_MAX <=? a then Stop OutOfBounds else
      destroy_arenas n (u32 (a + 1)) (set_registry (<[Z.to_nat a := None]> (arena_registry w)) w)
  end.

Definition memkind_arena_destroy (kind : Z) w : outcome (Z * aworld J) :=
  let! k := deref (akinds w !! kind) in
  let! w := destroy_arenas (Z.to_nat (ak_len k)) (ak_zero k) w in
  Ret (0, w).

Definition memkind_arena_finalize (kind : Z) w : outcome (Z * aworld J) := memkind_arena_destroy kind w.

Definition memkind_arena_init (e : arena_env) (kind : Z) w : outcome (aworld J) :=
  if negb (kind =? MEMKIND_DEFAULT) then
    let! (err, w) := memkind_arena_create_map e (get_extent_hooks_by_kind e kind) kind w in
    if negb (err =? 0) then Stop Exited else Ret w
  else Ret w.

Definition memkind_init (e : arena_env) (kind : Z) (check_numa : bool) w : outcome (aworld J) :=
  let! w := memkind_arena_init e kind w in
  if check_numa && negb (numa_available e =? 0) then Stop Exited else Ret w.

(** [pthread_once(&kind->init_once, kind->ops->init_once)]: the static arena
    kinds run [memkind_init(kind, true)], the dynamic ones have used it up. *)
Definition init_once (e : arena_env) (kind : Z) w : outcome (aworld J) :=
  let! k := deref (akinds w !! kind) in
  if ak_init k then Ret w else
  let! w := memkind_init e kind true w in
  let! k := deref (akinds w !! kind) in
  Ret (set_akind kind (AKind (ak_partition k) (ak_default k) (ak_bijective k) (ak_zero k) (ak_len k) (ak_mask k) true) w).

(** ** Choosing the arena *)
Definition hash64 (x : Z) : Z :=
  let x := u64 (x + 0x9e3779b97f4a7c15) in
  let x := u64 (Z.lxor x (Z.shiftr x 30) * 0xbf58476d1ce4e5b9) in
  let x := u64 (Z.lxor x (Z.shiftr x 27) * 0x94d049bb133111eb) in
  Z.lxor x (Z.shiftr x 31).

Definition memkind_bijective_get_arena (k : akind) : Z := ak_zero k.

(** [self] is [pthread_self()]. *)
Definition memkind_thread_get_arena (self : Z) (k : akind) : Z :=
  let arena_idx := u32 (Z.land (hash64 self) (ak_mask k)) in
  u32 (ak_zero k + arena_idx).

Definition get_arena (self : Z) (k : akind) : Z :=
  if ak_bijective k then memkind_bijective_get_arena k else memkind_thread_get_arena self k.

Definition memkind_arena_detect_kind (ptr : Z) w : outcome (option Z) :=
  if ptr =? NULL then Ret None else
  let! kind := get_kind_by_arena (u32 (arenalookupx ptr (je w))) w in
  Ret (Some (default MEMKIND_DEFAULT kind)).

(** The array of the calling thread is made on its first use. *)
Definition tcache_map_of (self : Z) w : option (list Z) * aworld J :=
  match tcache_maps w !! self with
  | Some (_, l) => (Some l, w)
  | None =>
      let (p, w) := je_call (je_calloc MEMKIND_NUM_BASE_KIND 4) w in
      if p =? NULL then (None, w) else
      let l := replicate (Z.to_nat MEMKIND_NUM_BASE_KIND) 0 in
      (Some l, set_tcaches (<[self := (p, l)]> (tcache_maps w)) w)
  end.

Definition get_tcache_flag (self partition size : Z) w : Z * aworld J :=
  if (TCACHE_MAX <? size) || (MEMKIND_NUM_BASE_KIND <=? partition) then (MALLOCX_TCACHE_NONE, w) else
  let (m, w) := tcache_map_of self w in
  match m with
  | None => (MALLOCX_TCACHE_NONE, w)
  | Some l =>
      let tc := default 0 (l !! Z.to_nat partition) in
      if tc =? 0 then
        let '((err, tc), w) := je_call (λ j, let '(e, i, j) := tcache_create j in ((e, i), j)) w in
        if negb (err =? 0) then (MALLOCX_TCACHE_NONE, w) else
        (MALLOCX_TCACHE tc, set_tcaches (alter (λ '(p, l), (p, <[Z.to_nat partition := tc]> l)) self (tcache_maps w)) w)
      else (MALLOCX_TCACHE tc, w)
  end.

(** ** Allocating *)
Definition jemk_mallocx_check (size flags : Z) w : Z * aworld J :=
  if LLONG_MAX <=? size then (NULL, w)
  else if negb (size =? 0) then je_call (mallocx size flags) w
  else (NULL, w).

Definition jemk_rallocx_check (ptr size flags : Z) w : Z * aworld J :=
  if LLONG_MAX <=? size then (NULL, w) else je_call (rallocx ptr size flags) w.

Definition memkind_arena_malloc (e : arena_env) (self kind size : Z) w : outcome (Z * aworld J) :=
  let! w := init_once e kind w in
  let! k := deref (akinds w !! kind) in
  let arena := get_arena self k in
  let (tc, w) := get_tcache_flag self (ak_partition k) size w in
  Ret (jemk_mallocx_check size (Z.lor (MALLOCX_ARENA arena) tc) w).

Definition memkind_arena_malloc_no_tcache (self kind size : Z) w : outcome (Z * aworld J) :=
  if kind =? MEMKIND_DEFAULT then Ret (jemk_mallocx_check size MALLOCX_TCACHE_NONE w) else
  let! k := deref (akinds w !! kind) in
  Ret (jemk_mallocx_check size (Z.lor (MALLOCX_ARENA (get_arena self k)) MALLOCX_TCACHE_NONE) w).

Definition memkind_arena_free (e : arena_env) (self kind ptr : Z) w : outcome (aworld J) :=
  if kind =? MEMKIND_DEFAULT then Ret (set_je (je_free ptr (je w)) w)
  else if negb (ptr =? NULL) then
    let! w := init_once e kind w in
    let! k := deref (akinds w !! kind) in
    let (tc, w) := get_tcache_flag self (ak_partition k) 0 w in
    Ret (set_je (dallocx ptr tc (je w)) w)
  else Ret w.

Definition memkind_arena_free_with_kind_detect (e : arena_env) (self ptr : Z) w : outcome (aworld J) :=
  let! kind := memkind_arena_detect_kind ptr w in
  match kind with
  | Some kind => memkind_arena_free e self kind ptr w
  | None => Ret w   (** a null pointer and a null kind: nothing to free *)
  end.

Definition memkind_arena_realloc (e : arena_env) (self kind ptr size : Z) w : outcome (Z * aworld J) :=
  let! w := init_once e kind w in
  let! k := deref (akinds w !! kind) in
  if (size =? 0) && negb (ptr =? NULL) then
    let (tc, w) := get_tcache_flag self (ak_partition k) 0 w in
    Ret (NULL, set_je (dallocx ptr tc (je w)) w)
  else
    let arena := get_arena self k in
    let (tc, w) := get_tcache_flag self (ak_partition k) size w in
    let flags := Z.lor (MALLOCX_ARENA arena) tc in
    if ptr =? NULL then Ret (jemk_mallocx_check size flags w)
    else Ret (jemk_rallocx_check ptr size flags w).

Definition memkind_arena_calloc (e : arena_env) (self kind num size : Z) w : outcome (Z * aworld J) :=
  let! w := init_once e kind w in
  let! k := deref (akinds w !! kind) in
  let arena := get_arena self k in
  let (tc, w) := get_tcache_flag self (ak_partition k) size w in
  Ret (jemk_mallocx_check (u64 (num * size)) (Z.lor (Z.lor (MALLOCX_ARENA arena) MALLOCX_ZERO) tc) w).

Definition memkind_posix_check_alignment (alignment : Z) : Z :=
  if (alignment <? 8) || negb (Z.land (u64 (alignment - 1)) alignment =? 0) then EINVAL else 0.

(** The result, [*memptr] and the world. *)
Definition memkind_arena_posix_memalign (e : arena_env) (self kind alignment size : Z) w :
    outcome (Z * Z * aworld J) :=
  let! w := init_once e kind w in
  let! k := deref (akinds w !! kind) in
  let arena := get_arena self k in
  let err := memkind_posix_check_alignment alignment in
  if negb (err =? 0) then Ret (err, NULL, w) else
  if size =? 0 then Ret (0, NULL, w) else
  let (tc, w) := get_tcache_flag self (ak_partition k) size w in
  let (p, w) := jemk_mallocx_check size (Z.lor (Z.lor (MALLOCX_ALIGN alignment) (MALLOCX_ARENA arena)) tc) w in
  Ret (if p =? NULL then ENOMEM else 0, p, w).

(** ** The default kind *)
Definition memkind_default_malloc (size : Z) w : Z * aworld J :=
  if size =? 0 then (NULL, w) else je_call (je_malloc size) w.
Definition memkind_default_calloc (num size : Z) w : Z * aworld J :=
  if (num =? 0) || (size =? 0) then (NULL, w) else je_call (je_calloc num size) w.
Definition memkind_default_posix_memalign (memptr alignment size : Z) w : Z * Z * aworld J :=
  if size =? 0 then (0, NULL, w) else
  let '(r, p, j) := je_posix_memalign memptr alignment size (je w) in (r, p, set_je j w).
Definition memkind_default_realloc (ptr size : Z) w : Z * aworld J :=
  if size =? 0 then (NULL, set_je (je_free ptr (je w)) w) else je_call (je_realloc ptr size) w.
Definition memkind_default_free (ptr : Z) w : aworld J := set_je (je_free ptr (je w)) w.

Definition memkind_arena_realloc_with_kind_detect (e : arena_env) (self ptr size : Z) w : outcome (Z * aworld J) :=
  if ptr =? NULL then Ret (NULL, w) else
  let! kind := memkind_arena_detect_kind ptr w in
  let! kind := deref kind in
  if kind =? MEMKIND_DEFAULT then Ret (memkind_default_realloc ptr size w)
  else memkind_arena_realloc e self kind ptr size w.

(** ** The dispatch through [kind->ops] *)
Definition memkind_malloc (e : arena_env) (self kind size : Z) w : outcome (Z * aworld J) :=
  let! k := deref (akinds w !! kind) in
  if ak_default k then Ret (memkind_default_malloc size w) else memkind_arena_malloc e self kind size w.

Definition memkind_calloc (e : arena_env) (self kind num size : Z) w : outcome (Z * aworld J) :=
  let! k := deref (akinds w !! kind) in
  if ak_default k then Ret (memkind_default_calloc num size w) else memkind_arena_calloc e self kind num size w.

Definition memkind_posix_memalign (e : arena_env) (self kind memptr alignment size : Z) w :
    outcome (Z * Z * aworld J) :=
  let! k := deref (akinds w !! kind) in
  if ak_default k then Ret (memkind_default_posix_memalign memptr alignment size w)
  else memkind_arena_posix_memalign e self kind alignment size w.

(** A null kind: the heap manager looks for it. *)
Definition memkind_realloc (e : arena_env) (self : Z) (kind : option Z) (ptr size : Z) w : outcome (Z * aworld J) :=
  match kind with
  | None => memkind_arena_realloc_with_kind_detect e self ptr size w
  | Some kind =>
      let! k := deref (akinds w !! kind) in
      if ak_default k then Ret (memkind_default_realloc ptr size w) else memkind_arena_realloc e self kind ptr size w
  end.

Definition memkind_free (e : arena_env) (self : Z) (kind : option Z) (ptr : Z) w : outcome (aworld J) :=
  match kind with
  | None => memkind_arena_free_with_kind_detect e self ptr w
  | Some kind =>
      let! k := deref (akinds w !! kind) in
      if ak_default k then Ret (memkind_default_free ptr w) else memkind_arena_free e self kind ptr w
  end.

Definition memkind_detect_kind (ptr : Z) w : outcome (option Z) := memkind_arena_detect_kind ptr w.
Definition memkind_malloc_usable_size (ptr : Z) w : Z := je_usable_size ptr (je w).

(** [copy] is the effect of [memcpy] on the heap. *)
Definition memkind_arena_defrag_reallocate (copy : Z → Z → Z → J → J) (self kind ptr : Z) w :
    outcome (Z * aworld J) :=
  if ptr =? NULL then Ret (NULL, w) else
  if check_reallocatex ptr (je w) then Ret (NULL, w) else
  let size := je_usable_size ptr (je w) in
  let! (ptr_new, w) := memkind_arena_malloc_no_tcache self kind size w in
  if ptr_new =? NULL then Ret (NULL, w) else
  let w := set_je (copy ptr_new ptr size (je w)) w in
  Ret (ptr_new, set_je (dallocx ptr MALLOCX_TCACHE_NONE (je w)) w).

Definition DIRTY_DECAY_MS_DEFAULT : Z := 10000.
Definition DIRTY_DECAY_MS_CONSERVATIVE : Z := 0.

Fixpoint set_decay_loop (n : nat) (a dirty_decay_val : Z) w : Z * aworld J :=
  match n with
  | O => (MEMKIND_SUCCESS, w)
  | S n =>
      let (err, w) := je_call (set_dirty_decay a dirty_decay_val) w in
      if negb (err =? 0) then (MEMKIND_ERROR_INVALID, w) else set_decay_loop n (u32 (a + 1)) dirty_decay_val w
  end.

Definition memkind_arena_update_memory_usage_policy (kind policy : Z) w : outcome (Z * aworld J) :=
  let! k := deref (akinds w !! kind) in
  if policy =? 0 then Ret (set_decay_loop (Z.to_nat (ak_len k)) (ak_zero k) DIRTY_DECAY_MS_DEFAULT w)
  else if policy =? 1 then Ret (set_decay_loop (Z.to_nat (ak_len k)) (ak_zero k) DIRTY_DECAY_MS_CONSERVATIVE w)
  else Ret (MEMKIND_ERROR_INVALID, w).
End ops.
