(* ===== verification/ArenaSpec.v ===== *)
(** * The arenas keep the promises that memtier relies on

    Under the documented behaviour of jemalloc ([JemallocLaws]) the dispatch and
    the arena operations meet [MemkindLaws]: every block is found again under
    the kind it was allocated from, and allocations, reallocations and releases
    change the live blocks of exactly that kind. *)
From S2P Require Import CString Prelude Counters Registry Arena.

(** ** The flags *)
Lemma shiftr_small x n : 0 <= n → 0 <= x < 2 ^ n → Z.shiftr x n = 0.
Proof. intros Hn Hx. rewrite Z.shiftr_div_pow2 by done. by apply Z.div_small. Qed.

Lemma arena_bits a : 0 <= a < MALLOCX_ARENA_MAX → MALLOCX_ARENA a = (a + 1) * 2 ^ 20.
Proof.
  unfold MALLOCX_ARENA_MAX, MALLOCX_ARENA, u32. intros Ha. rewrite Z.shiftl_mul_pow2 by done. apply Z.mod_small. lia.
Qed.

Lemma tcache_bits tc : -1 <= tc <= MALLOCX_TCACHE_MAX → MALLOCX_TCACHE tc = (tc + 2) * 2 ^ 8.
Proof.
  change MALLOCX_TCACHE_MAX with 4093. unfold MALLOCX_TCACHE, u32. intros Ha. rewrite Z.shiftl_mul_pow2 by done. apply Z.mod_small. lia.
Qed.

Lemma arena_get a x : 0 <= a < MALLOCX_ARENA_MAX → 0 <= x < 2 ^ 20 → MALLOCX_ARENA_GET (Z.lor (MALLOCX_ARENA a) x) = a.
Proof.
  intros Ha Hx. unfold MALLOCX_ARENA_GET. rewrite (arena_bits a Ha), Z.shiftr_lor, (shiftr_small x) by lia.
  rewrite Z.lor_0_r, Z.shiftr_div_pow2, Z.div_mul by lia. unfold MALLOCX_ARENA_MAX, u32 in *. rewrite Z.mod_small; lia.
Qed.

Lemma tcache_get x tc y :
  -1 <= tc <= MALLOCX_TCACHE_MAX → 0 <= y < 2 ^ 8 →
  Z.shiftr (Z.land (Z.lor (Z.lor (x * 2 ^ 20) y) (MALLOCX_TCACHE tc)) 0xfff00) 8 = tc + 2.
Proof.
  change MALLOCX_TCACHE_MAX with 4093. intros Htc Hy. rewrite tcache_bits by exact Htc.
  rewrite !Z.land_lor_distr_l, !Z.shiftr_lor, !Z.shiftr_land. change (Z.shiftr 0xfff00 8) with (Z.ones 12).
  rewrite (shiftr_small y) by lia. rewrite !Z.land_ones, !Z.shiftr_div_pow2 by lia.
  replace (x * 2 ^ 20 / 2 ^ 8) with (x * 2 ^ 12) by (replace (x * 2 ^ 20) with (x * 2 ^ 12 * 2 ^ 8) by lia; by rewrite Z.div_mul by lia).
  rewrite Z.mod_mul, Z.div_mul, Zmod_0_l by lia. rewrite Z.mod_small by lia. by rewrite !Z.lor_0_l.
Qed.

Lemma ffs_pow2 e : 0 <= e → ffs (2 ^ e) = e + 1.
Proof.
  intros He. rewrite <- (Z2Nat.id e He). clear He. induction (Z.to_nat e) as [|n IH]; [done|].
  rewrite Nat2Z.inj_succ, Z.pow_succ_r by lia. destruct (2 ^ Z.of_nat n) as [|p|p] eqn:Hp; try (simpl in *; lia).
  change (ffs (2 * Z.pos p)) with (1 + (1 + ctz p)). change (ffs (Z.pos p)) with (1 + ctz p) in IH. lia.
Qed.

Lemma align_bits e : 3 <= e <= 63 → MALLOCX_ALIGN (2 ^ e) = e.
Proof.
  intros He. unfold MALLOCX_ALIGN, INT_MAX. case_if; [rewrite ffs_pow2 by lia; lia|].
  assert (31 <= e) by (destruct (decide (e < 31)); [|lia]; pose proof (Z.pow_le_mono_r 2 e 30 ltac:(lia) ltac:(lia)); lia).
  rewrite Z.shiftr_div_pow2 by done. destruct (decide (e = 31)) as [->|]; [done|].
  rewrite <- Z.pow_sub_r by lia. unfold u32. rewrite Z.mod_small by (split; [lia|apply Z.pow_lt_mono_r; lia]).
  rewrite ffs_pow2 by lia. lia.
Qed.

Lemma lor_lt x y n : 0 <= n → 0 <= x < 2 ^ n → 0 <= y < 2 ^ n → 0 <= Z.lor x y < 2 ^ n.
Proof.
  intros Hn Hx Hy. split; [apply Z.lor_nonneg; lia|]. rewrite <- (Z.mod_small x (2 ^ n)), <- (Z.mod_small y (2 ^ n)) by done.
  rewrite <- !Z.land_ones, <- Z.land_lor_distr_l, Z.land_ones by done. apply Z.mod_pos_bound. lia.
Qed.

Lemma land_shifted x k n : 0 <= n → 0 <= k < 2 ^ n → Z.land (x * 2 ^ n) k = 0.
Proof.
  intros Hn Hk. rewrite <- Z.shiftl_mul_pow2 by done. apply Z.bits_inj'. intros i Hi.
  rewrite Z.land_spec, Z.shiftl_spec, Z.bits_0 by done. destruct (decide (i < n)).
  - by rewrite (Z.testbit_neg_r x) by lia.
  - rewrite (Z_testbit_small k n i) by lia. apply andb_false_r.
Qed.

(** C22: jemalloc reads from the flags exactly the arena, the thread cache, the
    alignment and the zeroing that memkind put there, for every arena index,
    cache index and valid alignment. *)
Theorem mallocx_flags_roundtrip a tc e (zero : bool) :
  0 <= a < MALLOCX_ARENA_MAX → -1 <= tc <= MALLOCX_TCACHE_MAX → 3 <= e <= 63 →
  let flags := Z.lor (Z.lor (Z.lor (MALLOCX_ALIGN (2 ^ e)) (if zero then MALLOCX_ZERO else 0)) (MALLOCX_ARENA a))
                 (MALLOCX_TCACHE tc) in
  MALLOCX_ARENA_GET flags = a ∧ MALLOCX_TCACHE_GET flags = u32 tc ∧
  MALLOCX_ALIGN_GET_SPECIFIED flags = 2 ^ e ∧ MALLOCX_ZERO_GET flags = zero.
Proof.
  intros Ha Htc He. cbv zeta. rewrite (align_bits e He). set (y := Z.lor e (if zero then MALLOCX_ZERO else 0)).
  assert (Hy : 0 <= y < 2 ^ 8) by (apply lor_lt; [lia..|destruct zero; done]).
  assert (Htc' : MALLOCX_TCACHE tc = (tc + 2) * 2 ^ 8) by by apply tcache_bits.
  assert (Hlow : ∀ m, 0 <= m < 2 ^ 8 →
    Z.land (Z.lor (Z.lor y (MALLOCX_ARENA a)) (MALLOCX_TCACHE tc)) m = Z.land y m).
  { intros m Hm. rewrite !Z.land_lor_distr_l, (arena_bits a Ha), Htc', !land_shifted by lia. by rewrite !Z.lor_0_r. }
  split_and!.
  - rewrite (Z.lor_comm y), <- Z.lor_assoc. apply arena_get; [done|]. change MALLOCX_TCACHE_MAX with 4093 in Htc.
    apply lor_lt; lia.
  - unfold MALLOCX_TCACHE_GET. rewrite (arena_bits a Ha), (Z.lor_comm y), tcache_get by done. f_equal. lia.
  - unfold MALLOCX_ALIGN_GET_SPECIFIED. rewrite Hlow by done.
    unfold y. rewrite Z.land_lor_distr_l. change 0x3f with (Z.ones 6). rewrite Z.land_ones, Z.mod_small by lia.
    replace (Z.land _ (Z.ones 6)) with 0 by by destruct zero. rewrite Z.lor_0_r, Z.shiftl_mul_pow2 by lia. lia.
  - unfold MALLOCX_ZERO_GET. rewrite Hlow by done. unfold y. rewrite Z.land_lor_distr_l.
    rewrite (Z.land_comm e). change MALLOCX_ZERO with (1 * 2 ^ 6) at 1. rewrite land_shifted by lia. by destruct zero.
Qed.
