(* ===== verification/ArenaLaws.v ===== *)
(** * The arena allocator discharges [MemkindLaws]

    What jemalloc documents is the class [JemallocLaws].  Under it the dispatch
    of [memkind.c] over the arena operations is an instance of the interface
    [MemkindAPI] that the tiered memory is proved against. *)
From Stdlib Require Import SpecFloat.
From stdpp Require Import functions.
From S2P Require Import CString Prelude Registry Arena ArenaSpec Float FloatSpec Index Alloc Counters CountersSpec Queue Events Tachanka Memtier MemtierAlloc MemtierBooks.

(** ** What jemalloc promises *)
Section laws.
Context {J : Type} `{Jemalloc J}.

(** An allocation fails and changes nothing, or adds a block to an arena that
    satisfies [Q]. *)
Definition placed (jl : J → gmap Z (Z * Z)) (size : Z) (Q : Z → Prop) (j : J) (p : Z) (j' : J) : Prop :=
  p = NULL ∧ jl j' = jl j ∨
  ∃ a n, size <= n ∧ p ≠ NULL ∧ jl j !! p = None ∧ Q a ∧ jl j' = <[p := (a, n)]> (jl j).

(** The same when the block [p] is replaced. *)
Definition moved (jl : J → gmap Z (Z * Z)) (p size : Z) (Q : Z → Prop) (j : J) (q : Z) (j' : J) : Prop :=
  q = NULL ∧ jl j' = jl j ∨
  ∃ a n, size <= n ∧ q ≠ NULL ∧ delete p (jl j) !! q = None ∧ Q a ∧ jl j' = <[q := (a, n)]> (delete p (jl j)).

Class JemallocLaws := {
  jok : J → Prop;
  jlive : J → gmap Z (Z * Z);            (** pointer to arena and usable size *)
  narenas_auto : Z;                      (** arenas below are chosen automatically *)
  auto_range : 0 < narenas_auto <= MALLOCX_ARENA_MAX;
  j_blocks j p a n : jok j → jlive j !! p = Some (a, n) → p ≠ NULL ∧ 0 <= a < MALLOCX_ARENA_MAX ∧ 0 <= n;
  j_total j : jok j → msum snd (jlive j) < 2 ^ 63;
  j_usable_null j : je_usable_size NULL j = 0;
  j_usable j p a n : jok j → jlive j !! p = Some (a, n) → je_usable_size p j = n;
  j_lookup j p a n : jok j → jlive j !! p = Some (a, n) → arenalookupx p j = a;
  j_mallocx j size flags :
    jok j → 0 < size < LLONG_MAX → MALLOCX_ARENA_GET flags < MALLOCX_ARENA_MAX →
    let '(p, j') := mallocx size flags j in jok j' ∧ placed jlive size (λ a, a = MALLOCX_ARENA_GET flags) j p j';
  j_rallocx j p a n size flags :
    jok j → jlive j !! p = Some (a, n) → 0 < size < LLONG_MAX → MALLOCX_ARENA_GET flags < MALLOCX_ARENA_MAX →
    let '(q, j') := rallocx p size flags j in
    jok j' ∧ moved jlive p size (λ b, b = a ∨ b = MALLOCX_ARENA_GET flags) j q j';
  j_dallocx j p flags :
    jok j → is_Some (jlive j !! p) → jok (dallocx p flags j) ∧ jlive (dallocx p flags j) = delete p (jlive j);
  j_malloc j size :
    jok j → let '(p, j') := je_malloc size j in jok j' ∧ placed jlive size (λ a, 0 <= a < narenas_auto) j p j';
  j_calloc j num size :
    jok j → let '(p, j') := je_calloc num size j in jok j' ∧ placed jlive (num * size) (λ a, 0 <= a < narenas_auto) j p j';
  j_realloc j p a n size :
    jok j → jlive j !! p = Some (a, n) → 0 <= a < narenas_auto →
    let '(q, j') := je_realloc p size j in jok j' ∧ moved jlive p size (λ b, 0 <= b < narenas_auto) j q j';
  j_free j p :
    jok j → is_Some (jlive j !! p) → jok (je_free p j) ∧ jlive (je_free p j) = delete p (jlive j);
  j_tcache j :
    jok j → let '(err, tc, j') := tcache_create j in
    jok j' ∧ jlive j' = jlive j ∧ (err = 0 → 0 <= tc <= MALLOCX_TCACHE_MAX);
}.
End laws.
Arguments JemallocLaws J {_}.

(** ** The blocks of the kinds *)
Definition default_kind : memkind := Kind Arena.MEMKIND_DEFAULT 0.

Section instance.
Context {J : Type} `{Jemalloc J} `{!JemallocLaws J}.
Context (e : arena_env) (self : Z) (ks : list memkind).
Implicit Types w : aworld J.

(** The arrays of the thread caches are jemalloc's blocks but not the program's. *)
Definition tcache_array w (p : Z) : Prop := ∃ t l, tcache_maps w !! t = Some (p, l).
Definition tcache_arrays w : list Z := (map_to_list (tcache_maps w)).*2.*1.

Lemma elem_tcache_arrays w p : p ∈ tcache_arrays w ↔ tcache_array w p.
Proof.
  unfold tcache_arrays, tcache_array. rewrite list_elem_of_fmap. split.
  - intros ([q l] & -> & ((t & x) & Heq & Hx)%list_elem_of_fmap). simpl in Heq. subst x.
    apply elem_of_map_to_list in Hx. by eauto.
  - intros (t & l & Ht). exists (p, l). split; [done|]. apply list_elem_of_fmap. exists (t, (p, l)).
    split; [done|]. by apply elem_of_map_to_list.
Qed.

(** The kind whose arena it is. *)
Definition kind_of w (a : Z) : memkind :=
  match arena_registry w !! Z.to_nat a with
  | Some (Some p) => Kind p (match akinds w !! p with Some k => ak_partition k | None => 0 end)
  | _ => default_kind
  end.

Definition arena_live w : blockmap :=
  filter (λ x, x.1 ∉ tcache_arrays w) ((λ x, (kind_of w x.1, x.2)) <$> jlive (je w)).

Lemma arena_live_lookup w p k n :
  arena_live w !! p = Some (k, n) ↔ ∃ a, jlive (je w) !! p = Some (a, n) ∧ kind_of w a = k ∧ ¬ tcache_array w p.
Proof.
  unfold arena_live. rewrite map_lookup_filter_Some, lookup_fmap, fmap_Some. simpl. split.
  - intros [([a m] & Ha & [= -> ->]) Hp]. exists a. split_and!; [done..|]. by rewrite <- elem_tcache_arrays.
  - intros (a & Ha & <- & Hp). split; [by exists (a, n)|]. by rewrite elem_tcache_arrays.
Qed.

Lemma arena_live_None w p : jlive (je w) !! p = None → arena_live w !! p = None.
Proof. intros Hp. apply eq_None_not_Some. intros [[k n] (a & Ha & _)%arena_live_lookup]. congruence. Qed.

(** ** The state between calls *)

(** The kind is initialised and its arenas are registered. *)
Record ready w (k : memkind) (ak : akind) : Prop := {
  rd_kind : akinds w !! kaddr k = Some ak;
  rd_partition : ak_partition ak = partition k;
  rd_ops : ak_default ak = false;
  rd_init : ak_init ak = true;
  rd_addr : kaddr k ≠ Arena.MEMKIND_DEFAULT;
  rd_len : ∃ i, 0 <= i ∧ ak_len ak = 2 ^ i;
  rd_mask : ak_mask ak = ak_len ak - 1;
  rd_range : 0 <= ak_zero ak ∧ ak_zero ak + ak_len ak <= MALLOCX_ARENA_MAX;
  rd_registered a : ak_zero ak <= a < ak_zero ak + ak_len ak →
    arena_registry w !! Z.to_nat a = Some (Some (kaddr k));
}.

Record arenas_ok w : Prop := {
  ao_je : jok (je w);
  ao_len : length (arena_registry w) = Z.to_nat MALLOCX_ARENA_MAX;
  ao_auto a : 0 <= a < narenas_auto → arena_registry w !! Z.to_nat a = Some None;
  ao_default : ∃ ak, akinds w !! Arena.MEMKIND_DEFAULT = Some ak ∧ ak_default ak = true ∧ ak_partition ak = 0;
  ao_ready k : k ∈ ks → ∃ ak, ready w k ak;
  ao_known k : k ∈ ks → known k;
  ao_owner i p : arena_registry w !! i = Some (Some p) → ∃ k, k ∈ ks ∧ kaddr k = p;
  ao_blocks p a n : jlive (je w) !! p = Some (a, n) →
    0 <= a < narenas_auto ∨ ∃ q, arena_registry w !! Z.to_nat a = Some (Some q);
  ao_tcaches t p l : tcache_maps w !! t = Some (p, l) →
    is_Some (jlive (je w) !! p) ∧ Forall (λ tc, 0 <= tc <= MALLOCX_TCACHE_MAX) l;
}.

Lemma kind_of_ready w k ak a :
  ready w k ak → ak_zero ak <= a < ak_zero ak + ak_len ak → kind_of w a = k.
Proof.
  intros [] Ha. unfold kind_of. rewrite rd_registered0 by done. rewrite rd_kind0, rd_partition0. by destruct k.
Qed.

Lemma kind_of_auto w a : arenas_ok w → 0 <= a < narenas_auto → kind_of w a = default_kind.
Proof. intros Hw Ha. unfold kind_of. by rewrite (ao_auto _ Hw). Qed.

(** Every arena belongs to the default kind or to one of [ks]. *)
Lemma kind_of_cases w a : arenas_ok w → kind_of w a = default_kind ∨ kind_of w a ∈ ks.
Proof.
  intros Hw. unfold kind_of. destruct (arena_registry w !! _) as [[p|]|] eqn:Ha; [|by left..]. right.
  destruct (ao_owner _ Hw _ _ Ha) as (k & Hk & <-). destruct (ao_ready _ Hw k Hk) as (ak & []).
  rewrite rd_kind0, rd_partition0. by destruct k.
Qed.

Lemma kind_of_default w a : arenas_ok w → kind_of w a = default_kind →
  ∀ p, arena_registry w !! Z.to_nat a ≠ Some (Some p).
Proof.
  intros Hw Hk p Hp. unfold kind_of in Hk. rewrite Hp in Hk. injection Hk as -> _.
  destruct (ao_owner _ Hw _ _ Hp) as (k & Hin & Heq). destruct (ao_ready _ Hw k Hin) as (ak & []). done.
Qed.

(** ** Calls of jemalloc *)
Lemma je_change w j' :
  arenas_ok w → jok j' → (∀ p, tcache_array w p → is_Some (jlive j' !! p)) →
  (∀ p a n, jlive j' !! p = Some (a, n) →
    0 <= a < narenas_auto ∨ ∃ q, arena_registry w !! Z.to_nat a = Some (Some q)) →
  arenas_ok (set_je j' w).
Proof.
  intros [] Hj Htc Hbl. split; try done.
  - intros k Hk. destruct (ao_ready0 k Hk) as (ak & []). exists ak. by split.
  - intros t p l Ht. split; [apply Htc; by exists t, l|]. by destruct (ao_tcaches0 t p l Ht).
Qed.

Lemma je_add w j' p a n :
  arenas_ok w → jok j' → jlive (je w) !! p = None → jlive j' = <[p := (a, n)]> (jlive (je w)) →
  (0 <= a < narenas_auto ∨ ∃ q, arena_registry w !! Z.to_nat a = Some (Some q)) →
  arenas_ok (set_je j' w) ∧ arena_live (set_je j' w) = <[p := (kind_of w a, n)]> (arena_live w).
Proof.
  intros Hw Hj Hp Hl Ha. assert (Hno : ¬ tcache_array w p).
  { intros (t & l & Ht). destruct (ao_tcaches _ Hw _ _ _ Ht) as [[? ?] _]. congruence. }
  split.
  - apply je_change; [done..| |].
    + intros q (t & l & Ht). destruct (ao_tcaches _ Hw _ _ _ Ht) as [Hq _]. rewrite Hl. by rewrite lookup_insert_is_Some'; right.
    + intros q b m. rewrite Hl. intros [(_ & [= <- <-])|(_ & Hq)]%lookup_insert_Some; [done|by apply (ao_blocks _ Hw q b m)].
  - apply map_eq. intros q. apply option_eq. intros [k m]. rewrite lookup_insert_Some, !arena_live_lookup.
    cbn [je set_je]. rewrite Hl. setoid_rewrite lookup_insert_Some. split.
    + intros (b & [(<- & [= <- <-])|(Hne & Hb)] & Hk & Hq); [left; by rewrite <- Hk|right; split; [done|]; by exists b].
    + intros [(<- & [= <- <-])|(Hne & b & Hb & Hk & Hq)]; [exists a|exists b]; naive_solver.
Qed.

Lemma je_remove w j' p :
  arenas_ok w → jok j' → ¬ tcache_array w p → jlive j' = delete p (jlive (je w)) →
  arenas_ok (set_je j' w) ∧ arena_live (set_je j' w) = delete p (arena_live w).
Proof.
  intros Hw Hj Hno Hl. split.
  - apply je_change; [done..| |].
    + intros q Hq. pose proof Hq as (t & l & Ht). destruct (ao_tcaches _ Hw _ _ _ Ht) as [Hs _]. rewrite Hl.
      rewrite lookup_delete_ne; [done|]. by intros ->.
    + intros q b m. rewrite Hl. intros (_ & Hq)%lookup_delete_Some. by apply (ao_blocks _ Hw q b m).
  - apply map_eq. intros q. apply option_eq. intros [k m]. rewrite lookup_delete_Some, !arena_live_lookup.
    cbn [je set_je]. rewrite Hl. setoid_rewrite lookup_delete_Some. naive_solver.
Qed.

Lemma je_same w j' :
  arenas_ok w → jok j' → jlive j' = jlive (je w) → arenas_ok (set_je j' w) ∧ arena_live (set_je j' w) = arena_live w.
Proof.
  intros Hw Hj Hl. split.
  - apply je_change; [done..| |]; rewrite Hl; [|apply (ao_blocks _ Hw)].
    intros q (t & l & Ht). by destruct (ao_tcaches _ Hw _ _ _ Ht).
  - apply map_eq. intros q. apply option_eq. intros [k m]. rewrite !arena_live_lookup. cbn [je set_je]. by rewrite Hl.
Qed.

(** An allocation of jemalloc in an arena that satisfies [Q] is one of the kind [k]. *)
Lemma je_placed w j' p size Q k :
  arenas_ok w → jok j' → placed jlive size Q (je w) p j' →
  (∀ a, Q a → kind_of w a = k ∧ (0 <= a < narenas_auto ∨ ∃ q, arena_registry w !! Z.to_nat a = Some (Some q))) →
  arenas_ok (set_je j' w) ∧ allocated arena_live k size w p (set_je j' w).
Proof.
  intros Hw Hj Hp HQ. destruct Hp as [[-> Hl]|(a & n & Hn & Hp & Hno & Ha & Hl)].
  - destruct (je_same w j' Hw Hj Hl). split; [done|by left].
  - destruct (HQ a Ha) as [<- Hor]. destruct (je_add w j' p a n Hw Hj Hno Hl Hor) as [Hok Hlive]. split; [done|].
    right. exists n. split_and!; [done..|by apply arena_live_None|done].
Qed.

Lemma je_moved w j' p q size Q k n0 :
  arenas_ok w → jok j' → arena_live w !! p = Some (k, n0) → moved jlive p size Q (je w) q j' →
  (∀ a, Q a → kind_of w a = k ∧ (0 <= a < narenas_auto ∨ ∃ r, arena_registry w !! Z.to_nat a = Some (Some r))) →
  arenas_ok (set_je j' w) ∧ (q = NULL ∧ arena_live (set_je j' w) = arena_live w ∨
    ∃ n, size <= n ∧ q ≠ NULL ∧ delete p (arena_live w) !! q = None ∧
      arena_live (set_je j' w) = <[q := (k, n)]> (delete p (arena_live w))).
Proof.
  intros Hw Hj Hp Hm HQ. destruct Hm as [[-> Hl]|(a & n & Hn & Hq & Hno & Ha & Hl)].
  { destruct (je_same w j' Hw Hj Hl). split; [done|by left]. }
  destruct (HQ a Ha) as [<- Hor]. pose proof (proj1 (arena_live_lookup _ _ _ _) Hp) as (a0 & Ha0 & _ & Htc).
  assert (Hqtc : ¬ tcache_array w q).
  { intros Hq'. pose proof Hq' as (t & l & Ht). destruct (ao_tcaches _ Hw _ _ _ Ht) as [[x Hx] _].
    rewrite lookup_delete_ne in Hno; [congruence|]. by intros ->. }
  split.
  - apply je_change; [done..| |].
    + intros r Hr. pose proof Hr as (t & l & Ht). destruct (ao_tcaches _ Hw _ _ _ Ht) as [Hx _]. rewrite Hl.
      rewrite lookup_insert_ne, lookup_delete_ne; [done|by intros ->..].
    + intros r b m. rewrite Hl. intros [(_ & [= <- <-])|(_ & (_ & Hr)%lookup_delete_Some)]%lookup_insert_Some; [done|].
      by apply (ao_blocks _ Hw r b m).
  - right. exists n. split_and!; [done..| |].
    + apply lookup_delete_None in Hno as [->|Hno]; [apply lookup_delete_eq|]. apply lookup_delete_None. right. by apply arena_live_None.
    + apply map_eq. intros r. apply option_eq. intros [k m].
      rewrite lookup_insert_Some, lookup_delete_Some, !arena_live_lookup. cbn [je set_je]. rewrite Hl.
      setoid_rewrite lookup_insert_Some. setoid_rewrite lookup_delete_Some. split.
      * intros (b & [(<- & [= <- <-])|(Hne & Hne' & Hb)] & Hk & Hr); [left; by rewrite <- Hk|right; split; [done|]].
        split; [done|]. by exists b.
      * intros [(<- & [= <- <-])|(Hne & Hne' & b & Hb & Hk & Hr)]; [exists a|exists b]; naive_solver.
Qed.

(** ** The thread caches *)

(** [w'] differs from [w] only in thread caches: the program's blocks, the kinds
    and the arenas are the same. *)
Record same_blocks w w' : Prop := {
  sb_ok : arenas_ok w';
  sb_live : arena_live w' = arena_live w;
  sb_kinds : akinds w' = akinds w;
  sb_registry : arena_registry w' = arena_registry w;
}.

Lemma same_blocks_refl w : arenas_ok w → same_blocks w w.
Proof. by split. Qed.

Lemma same_blocks_trans w w' w'' : same_blocks w w' → same_blocks w' w'' → same_blocks w w''.
Proof. intros [] []. split; [done|congruence..]. Qed.

Lemma same_blocks_je w j' : arenas_ok w → jok j' → jlive j' = jlive (je w) → same_blocks w (set_je j' w).
Proof. intros Hw Hj Hl. by destruct (je_same w j' Hw Hj Hl). Qed.

Lemma tcaches_change w m :
  arenas_ok w →
  (∀ t p l, m !! t = Some (p, l) → is_Some (jlive (je w) !! p) ∧ Forall (λ tc, 0 <= tc <= MALLOCX_TCACHE_MAX) l) →
  arenas_ok (set_tcaches m w).
Proof.
  intros [] Ht. split; try done. intros k Hk. destruct (ao_ready0 k Hk) as (ak & []). exists ak. by split.
Qed.

Lemma tcache_map_ok w :
  arenas_ok w → ∃ m w', tcache_map_of self w = (m, w') ∧ same_blocks w w' ∧
    ∀ l, m = Some l → ∃ p, tcache_maps w' !! self = Some (p, l).
Proof.
  intros Hw. unfold tcache_map_of. destruct (tcache_maps w !! self) as [[p l]|] eqn:Hs.
  { exists (Some l), w. split_and!; [done|by apply same_blocks_refl|]. intros ? [= <-]. by exists p. }
  unfold je_call. pose proof (j_calloc (je w) MEMKIND_NUM_BASE_KIND 4 (ao_je _ Hw)) as Hc.
  destruct (je_calloc _ _ _) as [p j']. destruct Hc as [Hj Hc].
  destruct Hc as [[-> Hl]|(a & n & _ & Hp & Hno & Ha & Hl)].
  { eexists None, _. split; [done|]. split; [by apply same_blocks_je|done]. }
  rewrite (proj2 (Z.eqb_neq p NULL)) by done.
  destruct (je_add w j' p a n Hw Hj Hno Hl (or_introl Ha)) as [Hok Hlive].
  eexists (Some _), _. split; [done|]. split; [|intros l [= <-]; exists p; by apply lookup_insert_eq].
  split; [| |done..].
  - apply tcaches_change; [done|]. cbn [je set_je tcache_maps]. intros t q l.
    intros [(_ & [= <- <-])|(_ & Ht)]%lookup_insert_Some.
    + rewrite Hl, lookup_insert_eq. split; [done|]. by repeat constructor.
    + exact (ao_tcaches _ Hok t q l Ht).
  - apply map_eq. intros q. apply option_eq. intros [k m]. rewrite !arena_live_lookup.
    unfold tcache_array. cbn [je set_je set_tcaches tcache_maps]. rewrite Hl. split.
    + intros (b & Hb & Hk & Harr). exists b. apply lookup_insert_Some in Hb as [(<- & _)|(Hne & Hb)].
      * destruct Harr. exists self, (replicate (Z.to_nat MEMKIND_NUM_BASE_KIND) 0). apply lookup_insert_eq.
      * split_and!; [done..|]. intros (t & l & Ht). destruct Harr. exists t, l. rewrite lookup_insert_ne; [done|]. congruence.
    + intros (b & Hb & Hk & Harr). exists b. assert (Hne : p ≠ q) by congruence.
      split_and!; [by rewrite lookup_insert_ne|done|]. intros (t & l & [(_ & [= ? _])|(_ & Ht)]%lookup_insert_Some); [done|].
      destruct Harr. by exists t, l.
Qed.

Lemma tcache_bits_range tc : -1 <= tc <= MALLOCX_TCACHE_MAX → 0 <= MALLOCX_TCACHE tc < 2 ^ 20.
Proof. intros Htc. rewrite tcache_bits by done. change MALLOCX_TCACHE_MAX with 4093 in Htc. lia. Qed.

Lemma set_tcache_ok w p l i tc :
  arenas_ok w → tcache_maps w !! self = Some (p, l) → 0 <= tc <= MALLOCX_TCACHE_MAX →
  same_blocks w (set_tcaches (alter (λ '(p, l), (p, <[i := tc]> l)) self (tcache_maps w)) w).
Proof.
  intros Hw Hp Htc. destruct (ao_tcaches _ Hw _ _ _ Hp) as [Hlive Hall].
  assert (Hat : ∀ t q l', alter (λ '(p, l), (p, <[i := tc]> l)) self (tcache_maps w) !! t = Some (q, l') →
    t = self ∧ q = p ∧ l' = <[i := tc]> l ∨ tcache_maps w !! t = Some (q, l')).
  { intros t q l' Ht. destruct (decide (t = self)) as [->|Hne]; [|rewrite lookup_alter_ne in Ht by done; by right].
    rewrite lookup_alter, decide_True, Hp in Ht by done. simplify_eq/=. by left. }
  split; [| |done..].
  - apply tcaches_change; [done|]. intros t q l' [(-> & -> & ->)|Ht]%Hat.
    + split; [done|]. by apply Forall_insert.
    + exact (ao_tcaches _ Hw t q l' Ht).
  - apply map_eq. intros q. apply option_eq. intros [k n]. rewrite !arena_live_lookup.
    assert (Harr : tcache_array (set_tcaches (alter (λ '(p, l), (p, <[i := tc]> l)) self (tcache_maps w)) w) q ↔
      tcache_array w q).
    { unfold tcache_array. cbn [tcache_maps set_tcaches]. split; intros (t & l' & Ht).
      - apply Hat in Ht as [(-> & -> & _)|Ht]; by eauto.
      - destruct (decide (t = self)) as [->|Hne]; [|exists t, l'; by rewrite lookup_alter_ne].
        rewrite Hp in Ht. simplify_eq. eexists self, _. by rewrite lookup_alter, decide_True, Hp. }
    cbn [je set_tcaches]. split; intros (b & Hb & Hk & Hno); exists b; (split_and!; [done..|]); by rewrite ?Harr in *.
Qed.

(** Asking for the thread cache never changes the program's blocks. *)
Lemma tcache_flag_ok w partition size :
  arenas_ok w → ∃ tc w', get_tcache_flag self partition size w = (tc, w') ∧ same_blocks w w' ∧ 0 <= tc < 2 ^ 20.
Proof.
  intros Hw. unfold get_tcache_flag. destruct (_ || _); [by exists MALLOCX_TCACHE_NONE, w|].
  destruct (tcache_map_ok w Hw) as (m & w1 & -> & Hs1 & Hm). destruct m as [l|]; [|by exists MALLOCX_TCACHE_NONE, w1].
  destruct (Hm l eq_refl) as [p Hp]. destruct (ao_tcaches _ (sb_ok _ _ Hs1) _ _ _ Hp) as [_ Hall].
  destruct (Z.eqb_spec (default 0 (l !! Z.to_nat partition)) 0) as [E|E].
  - unfold je_call. pose proof (j_tcache (je w1) (ao_je _ (sb_ok _ _ Hs1))) as Ht.
    destruct (tcache_create (je w1)) as [[err tc] j']. destruct Ht as (Hj & Hl & Htc).
    assert (Hs2 : same_blocks w (set_je j' w1)).
    { eapply same_blocks_trans; [done|]. by apply same_blocks_je; [apply Hs1|..]. }
    destruct (Z.eqb_spec err 0) as [->|He]; cbn [negb]; [|by exists MALLOCX_TCACHE_NONE, (set_je j' w1)].
    specialize (Htc eq_refl). eexists _, _. split; [done|]. split; [|apply tcache_bits_range; lia].
    eapply same_blocks_trans; [done|]. by apply (set_tcache_ok _ p l); [apply Hs2|..].
  - exists (MALLOCX_TCACHE (default 0 (l !! Z.to_nat partition))), w1. split; [done|]. split; [done|].
    apply tcache_bits_range. destruct (l !! Z.to_nat partition) as [tc|] eqn:Hl; [|done].
    assert (0 <= tc <= MALLOCX_TCACHE_MAX) by exact (Forall_lookup_1 _ _ _ _ Hall Hl). simpl. lia.
Qed.

(** ** Arenas of threads *)
Lemma arena_in_range w k ak :
  ready w k ak → ak_zero ak <= get_arena self ak < ak_zero ak + ak_len ak.
Proof.
  intros []. destruct rd_len0 as (i & Hi & Hlen). pose proof (Z.pow_pos_nonneg 2 i ltac:(lia) Hi).
  unfold get_arena, memkind_bijective_get_arena, memkind_thread_get_arena. destruct (ak_bijective ak); [lia|].
  rewrite rd_mask0, Hlen. replace (2 ^ i - 1) with (Z.ones i) by (rewrite Z.ones_equiv; lia).
  rewrite Z.land_ones by done. pose proof (Z.mod_pos_bound (hash64 self) (2 ^ i) ltac:(lia)).
  unfold MALLOCX_ARENA_MAX in *. unfold u32. rewrite (Z.mod_small (hash64 self mod _)), Z.mod_small by lia. lia.
Qed.

(** What [mallocx] in the thread's arena gives is a block of the kind. *)
Lemma arena_owner w k ak a :
  ready w k ak → ak_zero ak <= a < ak_zero ak + ak_len ak →
  kind_of w a = k ∧ (0 <= a < narenas_auto ∨ ∃ q, arena_registry w !! Z.to_nat a = Some (Some q)).
Proof.
  intros Hr Ha. split; [by eapply kind_of_ready|]. right. eexists. by apply (rd_registered _ _ _ Hr).
Qed.

Lemma ready_same w w' k ak : same_blocks w w' → ready w k ak → ready w' k ak.
Proof. intros [_ _ Hk Hr] []. split; rewrite ?Hk, ?Hr; done. Qed.

Lemma allocated_same w w' k size p w'' :
  same_blocks w w' → allocated arena_live k size w' p w'' → allocated arena_live k size w p w''.
Proof. intros [_ Hl _ _]. unfold allocated. by rewrite Hl. Qed.

Lemma mallocx_check_ok w k ak x size :
  arenas_ok w → ready w k ak → 0 <= x < 2 ^ 20 → 0 <= size →
  ∃ p w', jemk_mallocx_check size (Z.lor (MALLOCX_ARENA (get_arena self ak)) x) w = (p, w') ∧ arenas_ok w' ∧
    allocated arena_live k size w p w'.
Proof.
  intros Hw Hr Hx Hs. pose proof (arena_in_range w k ak Hr) as Ha. pose proof (rd_range _ _ _ Hr).
  unfold jemk_mallocx_check. case_if; [exists NULL, w; split_and!; [done..|by left]|].
  destruct (Z.eqb_spec size 0) as [->|Hsz0]; cbn [negb]; [exists NULL, w; split_and!; [done..|by left]|].
  unfold je_call. assert (Hget : MALLOCX_ARENA_GET (Z.lor (MALLOCX_ARENA (get_arena self ak)) x) = get_arena self ak)
    by (apply arena_get; lia).
  pose proof (j_mallocx (je w) size _ (ao_je _ Hw) ltac:(lia) ltac:(rewrite Hget; lia)) as Hm.
  destruct (mallocx _ _ _) as [p j']. destruct Hm as [Hj Hm]. rewrite Hget in Hm.
  destruct (je_placed w j' p size _ k Hw Hj Hm) as [Hok Hal]; [|by eexists _, _].
  intros a ->. by eapply arena_owner.
Qed.

Lemma init_ready w k ak : ready w k ak → init_once e (kaddr k) w = Ret w.
Proof. intros []. unfold init_once. rewrite rd_kind0. cbn [deref obind]. by rewrite rd_init0. Qed.

Section kind.
Context (w : aworld J) (k : memkind) (ak : akind) (Hw : arenas_ok w) (Hr : ready w k ak).

Lemma arena_malloc_ok size :
  0 <= size → ∃ p w', memkind_arena_malloc e self (kaddr k) size w = Ret (p, w') ∧ arenas_ok w' ∧
    allocated arena_live k size w p w'.
Proof.
  intros Hs. unfold memkind_arena_malloc. rewrite (init_ready w k ak Hr). cbn [obind].
  rewrite (rd_kind _ _ _ Hr). cbn [deref obind].
  destruct (tcache_flag_ok w (ak_partition ak) size Hw) as (tc & w1 & -> & Hs1 & Htc).
  destruct (mallocx_check_ok w1 k ak tc size (sb_ok _ _ Hs1) (ready_same _ _ _ _ Hs1 Hr) Htc Hs) as (p & w' & -> & Hok & Hal).
  exists p, w'. split_and!; [done..|]. by eapply allocated_same.
Qed.

Lemma arena_calloc_ok num size :
  ∃ p w', memkind_arena_calloc e self (kaddr k) num size w = Ret (p, w') ∧ arenas_ok w' ∧
    allocated arena_live k (u64 (num * size)) w p w'.
Proof.
  unfold memkind_arena_calloc. rewrite (init_ready w k ak Hr). cbn [obind]. rewrite (rd_kind _ _ _ Hr). cbn [deref obind].
  destruct (tcache_flag_ok w (ak_partition ak) size Hw) as (tc & w1 & -> & Hs1 & Htc). rewrite <- Z.lor_assoc.
  destruct (mallocx_check_ok w1 k ak (Z.lor MALLOCX_ZERO tc) (u64 (num * size)) (sb_ok _ _ Hs1) (ready_same _ _ _ _ Hs1 Hr))
    as (p & w' & -> & Hok & Hal); [by apply lor_lt|apply u64_range|].
  exists p, w'. split_and!; [done..|]. by eapply allocated_same.
Qed.

Lemma live_block p n : arena_live w !! p = Some (k, n) → p ≠ NULL ∧ ¬ tcache_array w p ∧
  ∃ a, jlive (je w) !! p = Some (a, n) ∧ kind_of w a = k.
Proof.
  intros (a & Ha & Hk & Hno)%arena_live_lookup. destruct (j_blocks _ _ _ _ (ao_je _ Hw) Ha) as (Hp & _). by eauto.
Qed.

Lemma dallocx_ok p n tc w1 :
  arena_live w !! p = Some (k, n) → same_blocks w w1 →
  arenas_ok (set_je (dallocx p tc (je w1)) w1) ∧
  arena_live (set_je (dallocx p tc (je w1)) w1) = delete p (arena_live w).
Proof.
  intros Hp Hs. rewrite <- (sb_live _ _ Hs) in Hp |- *. apply arena_live_lookup in Hp as (a & Ha & _ & Hno).
  destruct (j_dallocx (je w1) p tc (ao_je _ (sb_ok _ _ Hs))) as [Hj Hl]; [by eexists|].
  by apply je_remove; [apply Hs|..].
Qed.

Lemma arena_free_ok p n :
  arena_live w !! p = Some (k, n) → ∃ w', memkind_arena_free e self (kaddr k) p w = Ret w' ∧ arenas_ok w' ∧
    arena_live w' = delete p (arena_live w).
Proof.
  intros Hp. destruct (live_block p n Hp) as (Hp0 & _). unfold memkind_arena_free.
  rewrite (proj2 (Z.eqb_neq _ _) (rd_addr _ _ _ Hr)), (proj2 (Z.eqb_neq _ _) Hp0). cbn [negb].
  rewrite (init_ready w k ak Hr). cbn [obind]. rewrite (rd_kind _ _ _ Hr). cbn [deref obind].
  destruct (tcache_flag_ok w (ak_partition ak) 0 Hw) as (tc & w1 & -> & Hs1 & Htc).
  eexists. split; [done|]. by eapply dallocx_ok.
Qed.

Lemma arena_realloc_ok p n size :
  arena_live w !! p = Some (k, n) → 0 < size →
  ∃ q w', memkind_arena_realloc e self (kaddr k) p size w = Ret (q, w') ∧ arenas_ok w' ∧
    (q = NULL ∧ arena_live w' = arena_live w ∨
     ∃ n', size <= n' ∧ q ≠ NULL ∧ delete p (arena_live w) !! q = None ∧
       arena_live w' = <[q := (k, n')]> (delete p (arena_live w))).
Proof.
  intros Hp Hs. destruct (live_block p n Hp) as (Hp0 & Hno & a & Ha & Hk). unfold memkind_arena_realloc.
  rewrite (init_ready w k ak Hr). cbn [obind]. rewrite (rd_kind _ _ _ Hr). cbn [deref obind].
  rewrite (proj2 (Z.eqb_neq size 0)), (proj2 (Z.eqb_neq _ _) Hp0) by lia. cbn [andb].
  destruct (tcache_flag_ok w (ak_partition ak) size Hw) as (tc & w1 & -> & Hs1 & Htc). unfold jemk_rallocx_check.
  pose proof Hs1 as [Hok1 Hl1 Hk1 Hreg1].
  case_if; [exists NULL, w1; split_and!; [done..|by left]|]. unfold je_call.
  pose proof (ready_same _ _ _ _ Hs1 Hr) as Hr1. pose proof (arena_in_range w1 k ak Hr1) as Hrange.
  pose proof (rd_range _ _ _ Hr1). rewrite <- Hl1 in Hp |- *.
  assert (Hget : MALLOCX_ARENA_GET (Z.lor (MALLOCX_ARENA (get_arena self ak)) tc) = get_arena self ak) by (apply arena_get; lia).
  pose proof (proj1 (arena_live_lookup _ _ _ _) Hp) as (a1 & Ha1 & Hk1' & _).
  pose proof (j_rallocx (je w1) p a1 n size _ (ao_je _ Hok1) Ha1 ltac:(lia) ltac:(rewrite Hget; lia)) as Hm.
  destruct (rallocx _ _ _ _) as [q j']. destruct Hm as [Hj Hm]. rewrite Hget in Hm.
  eexists q, _. split; [done|]. apply (je_moved w1 j' p q size _ k n Hok1 Hj Hp Hm).
  intros b [->| ->]; [|by eapply arena_owner]. split; [done|]. by apply (ao_blocks _ Hok1 p a1 n).
Qed.
End kind.

(** ** The default kind *)
Lemma auto_owner w a :
  arenas_ok w → 0 <= a < narenas_auto →
  kind_of w a = default_kind ∧ (0 <= a < narenas_auto ∨ ∃ q, arena_registry w !! Z.to_nat a = Some (Some q)).
Proof. intros Hw Ha. split; [by apply kind_of_auto|by left]. Qed.

Lemma default_malloc_ok w size :
  arenas_ok w → ∃ p w', memkind_default_malloc size w = (p, w') ∧ arenas_ok w' ∧ allocated arena_live default_kind size w p w'.
Proof.
  intros Hw. unfold memkind_default_malloc. case_if; [exists NULL, w; split_and!; [done..|by left]|]. unfold je_call.
  pose proof (j_malloc (je w) size (ao_je _ Hw)) as Hm. destruct (je_malloc _ _) as [p j']. destruct Hm as [Hj Hm].
  eexists p, _. split; [done|]. apply (je_placed w j' p size _ default_kind Hw Hj Hm). intros a Ha. by apply auto_owner.
Qed.

Lemma default_calloc_ok w num size :
  arenas_ok w → ∃ p w', memkind_default_calloc num size w = (p, w') ∧ arenas_ok w' ∧
    allocated arena_live default_kind (num * size) w p w'.
Proof.
  intros Hw. unfold memkind_default_calloc. case_if; [exists NULL, w; split_and!; [done..|by left]|]. unfold je_call.
  pose proof (j_calloc (je w) num size (ao_je _ Hw)) as Hm. destruct (je_calloc _ _ _) as [p j']. destruct Hm as [Hj Hm].
  eexists p, _. split; [done|]. apply (je_placed w j' p _ _ default_kind Hw Hj Hm). intros a Ha. by apply auto_owner.
Qed.

Lemma default_block w p n :
  arenas_ok w → arena_live w !! p = Some (default_kind, n) →
  ¬ tcache_array w p ∧ ∃ a, jlive (je w) !! p = Some (a, n) ∧ 0 <= a < narenas_auto.
Proof.
  intros Hw (a & Ha & Hk & Hno)%arena_live_lookup. split; [done|]. exists a. split; [done|].
  destruct (ao_blocks _ Hw _ _ _ Ha) as [|[q Hq]]; [done|]. by destruct (kind_of_default w a Hw Hk q).
Qed.

Lemma default_free_ok w p n :
  arenas_ok w → arena_live w !! p = Some (default_kind, n) →
  arenas_ok (memkind_default_free p w) ∧ arena_live (memkind_default_free p w) = delete p (arena_live w).
Proof.
  intros Hw Hp. destruct (default_block w p n Hw Hp) as (Hno & a & Ha & _).
  destruct (j_free (je w) p (ao_je _ Hw)) as [Hj Hl]; [by eexists|]. by apply je_remove.
Qed.

Lemma default_realloc_ok w p n size :
  arenas_ok w → arena_live w !! p = Some (default_kind, n) → 0 < size →
  ∃ q w', memkind_default_realloc p size w = (q, w') ∧ arenas_ok w' ∧
    (q = NULL ∧ arena_live w' = arena_live w ∨
     ∃ n', size <= n' ∧ q ≠ NULL ∧ delete p (arena_live w) !! q = None ∧
       arena_live w' = <[q := (default_kind, n')]> (delete p (arena_live w))).
Proof.
  intros Hw Hp Hs. destruct (default_block w p n Hw Hp) as (Hno & a & Ha & Hauto). unfold memkind_default_realloc.
  rewrite (proj2 (Z.eqb_neq size 0)) by lia. unfold je_call.
  pose proof (j_realloc (je w) p a n size (ao_je _ Hw) Ha Hauto) as Hm. destruct (je_realloc _ _ _) as [q j']. destruct Hm as [Hj Hm].
  eexists q, _. split; [done|]. apply (je_moved w j' p q size _ default_kind n Hw Hj Hp Hm). intros b Hb. by apply auto_owner.
Qed.

(** ** The instance *)
Definition or_else {B} (b : B) (o : outcome B) : B := match o with Ret x => x | Stop _ => b end.

#[local] Instance arena_api : MemkindAPI (aworld J) := {
  MEMKIND_DEFAULT := default_kind;
  memkind_malloc k size w := or_else (NULL, w) (Arena.memkind_malloc e self (kaddr k) size w);
  memkind_calloc k num size w := or_else (NULL, w) (Arena.memkind_calloc e self (kaddr k) num size w);
  memkind_realloc k p size w := or_else (NULL, w) (Arena.memkind_realloc e self (Some (kaddr k)) p size w);
  memkind_posix_memalign k memptr alignment size w :=
    or_else (0, memptr, w) (Arena.memkind_posix_memalign e self (kaddr k) memptr alignment size w);
  memkind_free k p w := or_else w (Arena.memkind_free e self (Some (kaddr k)) p w);
  memkind_detect_kind p w :=
    (λ q, Kind q (match akinds w !! q with Some ak => ak_partition ak | None => 0 end)) <$>
      or_else None (Arena.memkind_detect_kind p w);
  jemk_malloc_usable_size p w := Arena.memkind_malloc_usable_size p w;
}.

Definition ready_kind (k : memkind) : Prop := k = default_kind ∨ k ∈ ks.

(** No fault, and what the operation does to the live blocks. *)
Lemma malloc_dispatch w k size :
  arenas_ok w → ready_kind k → 0 <= size →
  ∃ p w', Arena.memkind_malloc e self (kaddr k) size w = Ret (p, w') ∧ arenas_ok w' ∧ allocated arena_live k size w p w'.
Proof.
  intros Hw [->|Hk] Hs; unfold Arena.memkind_malloc.
  - cbn [kaddr default_kind]. destruct (ao_default _ Hw) as (ak & -> & Hd & _). cbn [deref obind]. rewrite Hd.
    destruct (default_malloc_ok w size Hw) as (p & w' & -> & ? & ?). by eauto.
  - destruct (ao_ready _ Hw k Hk) as (ak & Hr). rewrite (rd_kind _ _ _ Hr). cbn [deref obind]. rewrite (rd_ops _ _ _ Hr).
    by apply (arena_malloc_ok w k ak).
Qed.

Lemma allocated_weaken k n m w p w' : n <= m → allocated arena_live k m w p w' → allocated arena_live k n w p w'.
Proof. intros Hle [?|(x & ? & ?)]; [by left|right]. exists x. split; [lia|done]. Qed.

Lemma calloc_dispatch w k num size :
  arenas_ok w → ready_kind k → 0 <= num → 0 <= size →
  ∃ p w', Arena.memkind_calloc e self (kaddr k) num size w = Ret (p, w') ∧ arenas_ok w' ∧
    allocated arena_live k (u64 (num * size)) w p w'.
Proof.
  intros Hw [->|Hk] Hn Hs; unfold Arena.memkind_calloc.
  - cbn [kaddr default_kind]. destruct (ao_default _ Hw) as (ak & -> & Hd & _). cbn [deref obind]. rewrite Hd.
    destruct (default_calloc_ok w num size Hw) as (p & w' & -> & ? & Hal). eexists _, _. split_and!; [done..|].
    eapply allocated_weaken; [|exact Hal]. apply Z.mod_le; lia.
  - destruct (ao_ready _ Hw k Hk) as (ak & Hr). rewrite (rd_kind _ _ _ Hr). cbn [deref obind]. rewrite (rd_ops _ _ _ Hr).
    by apply (arena_calloc_ok w k ak).
Qed.

Lemma live_kind_ready w p k n : arenas_ok w → arena_live w !! p = Some (k, n) → ready_kind k.
Proof. intros Hw (a & _ & <- & _)%arena_live_lookup. by apply kind_of_cases. Qed.

Lemma realloc_dispatch w p k n size :
  arenas_ok w → arena_live w !! p = Some (k, n) → 0 < size →
  ∃ q w', Arena.memkind_realloc e self (Some (kaddr k)) p size w = Ret (q, w') ∧ arenas_ok w' ∧
    (q = NULL ∧ arena_live w' = arena_live w ∨
     ∃ n', size <= n' ∧ q ≠ NULL ∧ delete p (arena_live w) !! q = None ∧
       arena_live w' = <[q := (k, n')]> (delete p (arena_live w))).
Proof.
  intros Hw Hp Hs. unfold Arena.memkind_realloc. destruct (live_kind_ready w p k n Hw Hp) as [->|Hk].
  - cbn [kaddr default_kind]. destruct (ao_default _ Hw) as (ak & -> & Hd & _). cbn [deref obind]. rewrite Hd.
    destruct (default_realloc_ok w p n size Hw Hp Hs) as (q & w' & -> & ?). by eauto.
  - destruct (ao_ready _ Hw k Hk) as (ak & Hr). rewrite (rd_kind _ _ _ Hr). cbn [deref obind]. rewrite (rd_ops _ _ _ Hr).
    by apply (arena_realloc_ok w k ak Hw Hr p n).
Qed.

Lemma free_dispatch w p k n :
  arenas_ok w → arena_live w !! p = Some (k, n) →
  ∃ w', Arena.memkind_free e self (Some (kaddr k)) p w = Ret w' ∧ arenas_ok w' ∧ arena_live w' = delete p (arena_live w).
Proof.
  intros Hw Hp. unfold Arena.memkind_free. destruct (live_kind_ready w p k n Hw Hp) as [->|Hk].
  - cbn [kaddr default_kind]. destruct (ao_default _ Hw) as (ak & -> & Hd & _). cbn [deref obind]. rewrite Hd. eexists. split; [done|].
    by apply (default_free_ok w p n).
  - destruct (ao_ready _ Hw k Hk) as (ak & Hr). rewrite (rd_kind _ _ _ Hr). cbn [deref obind]. rewrite (rd_ops _ _ _ Hr).
    by apply (arena_free_ok w k ak Hw Hr p n).
Qed.

(** The kind is found again from the pointer alone. *)
Lemma detect_dispatch w p k n :
  arenas_ok w → arena_live w !! p = Some (k, n) → Arena.memkind_detect_kind p w = Ret (Some (kaddr k)).
Proof.
  intros Hw (a & Ha & Hk & _)%arena_live_lookup. destruct (j_blocks _ _ _ _ (ao_je _ Hw) Ha) as (Hp & Hrange & _).
  unfold Arena.memkind_detect_kind, memkind_arena_detect_kind. rewrite (proj2 (Z.eqb_neq p NULL)) by done.
  rewrite (j_lookup _ _ _ _ (ao_je _ Hw) Ha). unfold get_kind_by_arena.
  assert (Hu : u32 a = a) by (unfold u32, MALLOCX_ARENA_MAX in *; apply Z.mod_small; lia). rewrite Hu.
  rewrite (proj2 (Z.ltb_lt _ _)) by lia. cbn [c_assert obind]. unfold kind_of in Hk.
  destruct (arena_registry w !! Z.to_nat a) as [[q|]|]; simpl; by subst k.
Qed.

Lemma detect_kind_eq w p k n :
  arenas_ok w → arena_live w !! p = Some (k, n) → memkind_detect_kind p w = Some k.
Proof.
  intros Hw Hp. unfold memkind_detect_kind, arena_api. rewrite (detect_dispatch w p k n Hw Hp). simpl. f_equal.
  destruct (live_kind_ready w p k n Hw Hp) as [->|Hk].
  - cbn [kaddr default_kind]. by destruct (ao_default _ Hw) as (ak & -> & _ & ->).
  - destruct (ao_ready _ Hw k Hk) as (ak & []). rewrite rd_kind0, rd_partition0. by destruct k.
Qed.

(** A sum over some of the blocks, with their sizes. *)
Lemma msum_part {V V'} (f : V → Z) (g : V' → Z) (m : gmap Z V) (m' : gmap Z V') :
  (∀ i y, m' !! i = Some y → 0 <= g y) → (∀ i x, m !! i = Some x → ∃ y, m' !! i = Some y ∧ f x = g y) →
  msum f m <= msum g m'.
Proof.
  revert m'. induction m as [|i x m Hi IH] using map_ind; intros m' Hpos Hm.
  { transitivity (msum (λ _, 0) m'); [by rewrite (msum_zero (λ _, 0) m')|by apply msum_mono]. }
  destruct (Hm i x (lookup_insert_eq _ _ _)) as (y & Hy & Hxy). rewrite msum_insert by done.
  assert (Hle : msum f m <= msum g (delete i m')).
  { apply IH; [intros j z (_ & Hz)%lookup_delete_Some; by apply (Hpos j)|]. intros j z Hj.
    assert (i ≠ j) by congruence. destruct (Hm j z) as (y' & ? & ?); [by rewrite lookup_insert_ne|].
    exists y'. by rewrite lookup_delete_ne. }
  rewrite (msum_delete g m' i y Hy) in Hle. lia.
Qed.

Lemma arena_blocks_ok w : arenas_ok w → blocks_ok (arena_live w).
Proof.
  intros Hw. split.
  - intros p k n Hp. pose proof Hp as (a & Ha & Hk & _)%arena_live_lookup.
    destruct (j_blocks _ _ _ _ (ao_je _ Hw) Ha) as (? & _ & ?). split_and!; [done| |done].
    destruct (live_kind_ready w p k n Hw Hp) as [->|Hin]; [done|by apply (ao_known _ Hw)].
  - eapply Z.le_lt_trans; [|apply (j_total (je w) (ao_je _ Hw))]. apply msum_part.
    + intros p [a n] Hp. by destruct (j_blocks _ _ _ _ (ao_je _ Hw) Hp) as (_ & _ & ?).
    + intros p [k n] (a & Ha & _)%arena_live_lookup. by exists (a, n).
Qed.

(** The dispatch over the arenas keeps every promise of [MemkindLaws]. *)
#[local] Instance arena_laws (Hks : ∀ k, k ∈ ks → known k) : MemkindLaws (aworld J).
Proof.
  refine {| heap_ok := arenas_ok; live := arena_live; usable_kind := ready_kind |}.
  - by intros k [->|Hk]; [|apply Hks].
  - apply arena_blocks_ok.
  - intros w. apply j_usable_null.
  - intros w p k n Hw (a & Ha & _)%arena_live_lookup. by apply (j_usable _ _ _ _ (ao_je _ Hw) Ha).
  - apply detect_kind_eq.
  - intros w k size Hw Hk Hs. unfold memkind_malloc, arena_api.
    destruct (malloc_dispatch w k size Hw Hk Hs) as (p & w' & -> & ? & ?). done.
  - intros w k num size Hw Hk Hn Hs. unfold memkind_calloc, arena_api.
    destruct (calloc_dispatch w k num size Hw Hk Hn Hs) as (p & w' & -> & ? & ?). done.
  - intros w k p n size Hw Hp Hs. unfold memkind_realloc, arena_api.
    destruct (realloc_dispatch w p k n size Hw Hp Hs) as (q & w' & -> & ? & ?). done.
  - intros w k p n Hw Hp. unfold memkind_free, arena_api. by destruct (free_dispatch w p k n Hw Hp) as (w' & -> & ? & ?).
Defined.
End instance.
