(* ===== verification/ArenaInit.v ===== *)
(** * How a kind gets its arenas

    The number of arenas is a power of two; the first use of a static kind
    creates them, registers each one and makes the kind ready, without touching
    the blocks of the others. *)
From S2P Require Import CString Prelude Registry Arena ArenaSpec Memtier MemtierAlloc MemtierBooks ArenaLaws.

(** ** The number of arenas *)
Lemma digit_nonneg c d : digit c = Some d → 0 <= d.
Proof. unfold digit, isdigit. intros Hd. repeat case_match; simplify_eq;
  repeat match goal with H : _ && _ = true |- _ => apply andb_true_iff in H as [??] end; zb; lia.
Qed.

Lemma read_digits_nonneg base s : ∀ acc any, 0 <= base → 0 <= acc → 0 <= (read_digits base acc any s).1.1.
Proof.
  induction s as [|c s IH]; intros acc any Hb Ha; simpl; [done|]. destruct (digit c) as [d|] eqn:Hd; [|done].
  apply digit_nonneg in Hd. case_if; [|done]. apply IH; [done|]. nia.
Qed.

Lemma strtoul10_nonneg s : 0 <= strtoul10 s.
Proof.
  unfold strtoul10. destruct (span isspace s) as [_ t].
  match goal with |- context [let (_, _) := ?m in _] => destruct m as [neg u] end.
  pose proof (read_digits_nonneg 10 u 0 false ltac:(done) ltac:(done)) as Hv.
  destruct (read_digits 10 0 false u) as [[v any] rest]. cbn [fst] in Hv.
  destruct any; cbn [negb]; [|done]. case_if; [done|]. destruct neg; [apply u64_range|done].
Qed.

Lemma round_pow2_up_ok v r :
  0 < v → round_pow2_up v = Ret r → ∃ i, 0 <= i < 31 ∧ r = 2 ^ i ∧ v <= r < 2 * v.
Proof.
  intros Hv. unfold round_pow2_up, integer_log2. rewrite (proj2 (Z.eqb_neq v 0)) by lia. cbn [obind].
  pose proof (Z.log2_spec v Hv) as Hl. pose proof (Z.log2_nonneg v). rewrite Z.pow_succ_r in Hl by lia. unfold int_shift.
  case_if; cbn [obind]; [done|]. destruct (Z.eqb_spec v (2 ^ Z.log2 v)) as [Heq|Hne]; cbn [negb].
  - intros [= <-]. exists (Z.log2 v). split_and!; [lia..|done|lia|lia].
  - case_if; [done|]. intros [= <-]. exists (Z.log2 v + 1). rewrite Z.pow_add_r by lia. split_and!; [lia..|done|lia|lia].
Qed.

(** Defined for every positive count up to [2^30]. *)
Lemma round_pow2_up_total v : 0 < v <= 2 ^ 30 → ∃ r, round_pow2_up v = Ret r.
Proof.
  intros [Hv Hle]. unfold round_pow2_up, integer_log2. rewrite (proj2 (Z.eqb_neq v 0)) by lia. cbn [obind].
  assert (Hlog : Z.log2 v <= 30) by (rewrite <- (Z.log2_pow2 30) by done; by apply Z.log2_le_mono).
  pose proof (Z.log2_spec v Hv) as Hl. unfold int_shift. rewrite (proj2 (Z.leb_gt _ _)) by lia. cbn [obind].
  destruct (Z.eqb_spec v (2 ^ Z.log2 v)) as [Heq|Hne]; cbn [negb]; [by eexists|].
  rewrite (proj2 (Z.leb_gt _ _)); [by eexists|]. destruct (decide (Z.log2 v = 30)) as [E|]; [|lia].
  rewrite E in *. lia.
Qed.

Definition same_kind (k k' : akind) : Prop :=
  ak_partition k' = ak_partition k ∧ ak_default k' = ak_default k ∧ ak_init k' = ak_init k.

Lemma arena_map_len_ok e k k' :
  0 < num_cpus e → memkind_set_arena_map_len e k = Ret (0, k') →
  same_kind k k' ∧ ak_mask k' = ak_len k' - 1 ∧ ∃ i, 0 <= i < 31 ∧ ak_len k' = 2 ^ i.
Proof.
  intros Hcpu. unfold memkind_set_arena_map_len. destruct (ak_bijective k).
  { intros [= <-]. split_and!; [done..|]. by exists 0. }
  assert (Hgen : ∀ v, 0 < v → (let! len := round_pow2_up v in Ret (0, set_arenas k (ak_zero k) len (len - 1))) = Ret (0, k') →
    same_kind k k' ∧ ak_mask k' = ak_len k' - 1 ∧ ∃ i, 0 <= i < 31 ∧ ak_len k' = 2 ^ i).
  { intros v Hv Hrun. destruct (round_pow2_up v) as [r|] eqn:Hr; [|done]. cbn [obind] in Hrun. injection Hrun as <-.
    destruct (round_pow2_up_ok v r Hv Hr) as (i & Hi & -> & _). split_and!; [done..|]. by exists i. }
  destruct (env_arena_num e) as [text|].
  - destruct (_ || _) eqn:E; [done|]. apply orb_false_iff in E as [E1 E2]. zb. apply Hgen.
    pose proof (strtoul10_nonneg text). lia.
  - apply Hgen. unfold ARENA_LIMIT_PER_KIND, u32. rewrite Z.mod_small; lia.
Qed.

(** ** The loop *)
Section init.
Context {J : Type} `{Jemalloc J} `{!JemallocLaws J}.
Implicit Types w : aworld J.

(** The indices that [n] successful rounds of jemalloc give. *)
Fixpoint create_trace (hooks : extent_hooks) (n : nat) (j : J) : option (list Z * J) :=
  match n with
  | O => Some ([], j)
  | S n =>
      let '(err, i, j) := arenas_create j in
      if negb (err =? 0) then None else
      let (err, j) := set_extent_hooks i hooks j in
      if negb (err =? 0) then None else
      match create_trace hooks n j with Some (ix, j) => Some (i :: ix, j) | None => None end
  end.

Definition register (kind : Z) (ix : list Z) (l : list (option Z)) : list (option Z) :=
  foldl (λ l i, <[Z.to_nat i := Some kind]> l) l ix.
Definition lowest (zero : Z) (ix : list Z) : Z := foldl (λ z i, if i <? z then i else z) zero ix.

Lemma create_arenas_ok hooks kind n ix j' : ∀ zero w,
  create_trace hooks n (je w) = Some (ix, j') → Forall (λ i, 0 <= i < MALLOCX_ARENA_MAX) ix →
  create_arenas hooks kind n zero w =
    Ret (0, lowest zero ix, AWorld j' (akinds w) (register kind ix (arena_registry w)) (tcache_maps w)).
Proof.
  revert ix. induction n as [|n IH]; intros ix zero w Htr His; simpl in *.
  { simplify_eq. by destruct w. }
  unfold je_call. destruct (arenas_create (je w)) as [[err i] j1]. destruct (negb (err =? 0)); [done|]. cbn [je set_je].
  destruct (set_extent_hooks i hooks j1) as [err2 j2]. destruct (negb (err2 =? 0)); [done|].
  destruct (create_trace hooks n j2) as [[ix' j3]|] eqn:Htr'; [|done]. simplify_eq.
  apply Forall_cons in His as [Hi His]. rewrite (proj2 (Z.leb_gt _ _)) by lia. by rewrite (IH ix').
Qed.

Lemma register_length kind ix l : length (register kind ix l) = length l.
Proof. revert l. induction ix as [|i ix IH]; intros l; simpl; [done|]. by rewrite IH, length_insert. Qed.

Lemma register_lookup kind ix : ∀ l i, Forall (λ i, 0 <= i < Z.of_nat (length l)) ix → 0 <= i →
  register kind ix l !! Z.to_nat i = if decide (i ∈ ix) then Some (Some kind) else l !! Z.to_nat i.
Proof.
  induction ix as [|j ix IH]; intros l i Hl Hi; simpl; [done|]. apply Forall_cons in Hl as [Hj Hl].
  rewrite IH; [|by rewrite length_insert|done]. destruct (decide (i ∈ ix)) as [Hin|Hin].
  - by rewrite decide_True by set_solver.
  - destruct (decide (i = j)) as [->|Hne]; [rewrite decide_True by set_solver; apply list_lookup_insert_eq; lia|].
    rewrite decide_False by set_solver. apply list_lookup_insert_ne. lia.
Qed.

Lemma lowest_spec ix : ∀ zero, lowest zero ix <= zero ∧ (∀ i, i ∈ ix → lowest zero ix <= i) ∧
  (lowest zero ix = zero ∨ lowest zero ix ∈ ix).
Proof.
  induction ix as [|j ix IH]; intros zero; simpl; [split_and!; [lia|by intros i ?%not_elem_of_nil|by left]|].
  destruct (IH (if j <? zero then j else zero)) as (H1 & H2 & H3). unfold lowest in *.
  split_and!; [destruct (Z.ltb_spec j zero); lia| |].
  - intros i [->|Hi]%elem_of_cons; [destruct (Z.ltb_spec j zero); lia|by apply H2].
  - destruct H3 as [->|H3]; [|right; by right]. destruct (j <? zero); [right; by left|by left].
Qed.

(** The indices are consecutive, in any order: [arena_zero] is the first one. *)
Lemma lowest_interval zero ix lo len : ix ≡ₚ seqZ lo len → 0 < len → lo < zero → lowest zero ix = lo.
Proof.
  intros His Hlen Hlo. destruct (lowest_spec ix zero) as (_ & Hle & Hor).
  assert (Hin : ∀ i, i ∈ ix ↔ lo <= i < lo + len) by (intros i; by rewrite His, elem_of_seqZ).
  assert (lowest zero ix <= lo) by (apply Hle, Hin; lia). destruct Hor as [|Hor%Hin]; lia.
Qed.

(** What jemalloc must do for the arenas of the kind [k]: give [len] new,
    consecutive indices above the automatic ones, and keep its blocks. *)
Record new_arenas (hooks : extent_hooks) (len lo : Z) w (ix : list Z) (j' : J) : Prop := {
  na_trace : create_trace hooks (Z.to_nat len) (je w) = Some (ix, j');
  na_interval : ix ≡ₚ seqZ lo len;
  na_range : narenas_auto <= lo ∧ lo + len <= MALLOCX_ARENA_MAX;
  na_free i : i ∈ ix → arena_registry w !! Z.to_nat i = Some None;
  na_ok : jok j';
  na_live : jlive j' = jlive (je w);
}.

(** A static kind that has not been used yet. *)
Record fresh_kind (ks : list memkind) w (k : memkind) (ak : akind) : Prop := {
  fk_known : known k;
  fk_addr : kaddr k ≠ Arena.MEMKIND_DEFAULT;
  fk_new k' : k' ∈ ks → kaddr k' ≠ kaddr k;
  fk_kind : akinds w !! kaddr k = Some ak;
  fk_partition : ak_partition ak = partition k;
  fk_ops : ak_default ak = false;
  fk_init : ak_init ak = false;
}.

Lemma init_run e k ak ak1 len lo ix j' w :
  numa_available e = 0 → arena_init_status e = 0 → kaddr k ≠ Arena.MEMKIND_DEFAULT →
  akinds w !! kaddr k = Some ak → ak_init ak = false → memkind_set_arena_map_len e ak = Ret (0, ak1) → ak_len ak1 = len →
  0 < len → new_arenas (get_extent_hooks_by_kind e (kaddr k)) len lo w ix j' →
  init_once e (kaddr k) w = Ret (AWorld j'
    (<[kaddr k := AKind (ak_partition ak1) (ak_default ak1) (ak_bijective ak1) lo len (ak_mask ak1) true]>
      (<[kaddr k := set_arenas ak1 lo len (ak_mask ak1)]> (<[kaddr k := ak1]> (akinds w))))
    (register (kaddr k) ix (arena_registry w)) (tcache_maps w)).
Proof.
  intros Hnuma Hst Haddr Hk Hini Hset <- Hlen [Htr Hint [Hlo Hhi] _ _ _]. unfold init_once. rewrite Hk. cbn [deref obind].
  rewrite Hini. unfold memkind_init, memkind_arena_init. rewrite (proj2 (Z.eqb_neq _ _) Haddr). cbn [negb].
  unfold memkind_arena_create_map. rewrite Hst. cbn [Z.eqb negb]. rewrite Hk. cbn [deref obind]. rewrite Hset. cbn [obind Z.eqb negb].
  pose proof auto_range. rewrite (create_arenas_ok _ _ _ ix j'); [|done|].
  - cbn [obind Z.eqb negb]. rewrite Hnuma. cbn [Z.eqb negb andb obind akinds set_akind]. rewrite lookup_insert_eq. cbn [deref obind].
    rewrite (lowest_interval _ _ _ _ Hint); [done|lia|unfold UINT_MAX, MALLOCX_ARENA_MAX in *; lia].
  - apply Forall_forall. intros i Hi. rewrite Hint, elem_of_seqZ in Hi. lia.
Qed.

(** The world after the first use. *)
Definition ready_akind (ak1 : akind) (lo : Z) : akind :=
  AKind (ak_partition ak1) (ak_default ak1) (ak_bijective ak1) lo (ak_len ak1) (ak_mask ak1) true.
Definition ready_world (k : memkind) (ak1 : akind) (lo : Z) (ix : list Z) (j' : J) w : aworld J :=
  AWorld j' (<[kaddr k := ready_akind ak1 lo]> (akinds w)) (register (kaddr k) ix (arena_registry w)) (tcache_maps w).

Section ready.
Context (hooks : extent_hooks) (ks : list memkind) (k : memkind) (ak ak1 : akind) (lo : Z) (ix : list Z) (j' : J) (w : aworld J).
Context (Hw : arenas_ok ks w) (Hfresh : fresh_kind ks w k ak) (Hsame : same_kind ak ak1).
Context (Hmask : ak_mask ak1 = ak_len ak1 - 1) (Hlen : ∃ i, 0 <= i < 31 ∧ ak_len ak1 = 2 ^ i).
Context (Hna : new_arenas hooks (ak_len ak1) lo w ix j').

Lemma in_new a : a ∈ ix ↔ lo <= a < lo + ak_len ak1.
Proof. by rewrite (na_interval _ _ _ _ _ _ Hna), elem_of_seqZ. Qed.

Lemma new_registry a : 0 <= a → register (kaddr k) ix (arena_registry w) !! Z.to_nat a =
  if decide (a ∈ ix) then Some (Some (kaddr k)) else arena_registry w !! Z.to_nat a.
Proof.
  intros Ha. apply register_lookup; [|done]. rewrite (ao_len _ _ Hw). apply Forall_forall. intros b Hb%in_new.
  pose proof (na_range _ _ _ _ _ _ Hna). pose proof auto_range. unfold MALLOCX_ARENA_MAX in *. lia.
Qed.

(** No arena in use, and no arena of a live block, is one of the new ones. *)
Lemma registered_old a p : arena_registry w !! Z.to_nat a = Some (Some p) → a ∉ ix.
Proof. intros Hp Hin. rewrite (na_free _ _ _ _ _ _ Hna a Hin) in Hp. done. Qed.

Lemma live_old p a n : jlive (je w) !! p = Some (a, n) → 0 <= a ∧ a ∉ ix.
Proof.
  intros Hp. destruct (j_blocks _ _ _ _ (ao_je _ _ Hw) Hp) as (_ & Ha & _). split; [lia|].
  destruct (ao_blocks _ _ Hw _ _ _ Hp) as [Hauto|[q Hq]]; [|by eapply registered_old].
  intros Hin%in_new. pose proof (na_range _ _ _ _ _ _ Hna). lia.
Qed.

Lemma ready_new : ready (ready_world k ak1 lo ix j' w) k (ready_akind ak1 lo).
Proof.
  destruct Hfresh, Hsame as (Hp & Hd & _), Hlen as (i & Hi & Hlen'). pose proof (na_range _ _ _ _ _ _ Hna). pose proof auto_range.
  split; cbn [akinds arena_registry ready_world ready_akind ak_partition ak_default ak_init ak_len ak_mask ak_zero];
    try done; [by apply lookup_insert_eq|congruence..| |lia|].
  - exists i. split; [lia|done].
  - intros a Ha. rewrite new_registry by lia. by rewrite decide_True by (apply in_new; lia).
Qed.

Lemma ready_old k' ak' : k' ∈ ks → ready w k' ak' → ready (ready_world k ak1 lo ix j' w) k' ak'.
Proof.
  intros Hk' []. split; cbn [akinds arena_registry ready_world]; try done.
  - rewrite lookup_insert_ne; [done|]. intros Heq. by apply (fk_new _ _ _ _ Hfresh k' Hk').
  - intros a Ha. rewrite new_registry by lia. rewrite decide_False; [by apply rd_registered|].
    eapply registered_old. by apply rd_registered.
Qed.

Lemma ready_world_ok : arenas_ok (k :: ks) (ready_world k ak1 lo ix j' w).
Proof.
  destruct Hna as [_ _ [Hlo Hhi] _ Hj Hl]. split; cbn [je akinds arena_registry tcache_maps ready_world]; try done.
  - rewrite register_length. apply (ao_len _ _ Hw).
  - intros a Ha. rewrite new_registry by lia. rewrite decide_False; [by apply (ao_auto _ _ Hw)|]. intros ?%in_new. lia.
  - rewrite lookup_insert_ne by apply (fk_addr _ _ _ _ Hfresh). apply (ao_default _ _ Hw).
  - intros k' [->|Hk']%elem_of_cons; [eexists; apply ready_new|].
    destruct (ao_ready _ _ Hw k' Hk') as (ak' & Hr). exists ak'. by apply ready_old.
  - intros k' [->|Hk']%elem_of_cons; [apply (fk_known _ _ _ _ Hfresh)|by apply (ao_known _ _ Hw)].
  - intros a p Hp. rewrite <- (Nat2Z.id a), new_registry in Hp by lia. case_decide.
    + simplify_eq. exists k. split; [by left|done].
    + rewrite Nat2Z.id in Hp. destruct (ao_owner _ _ Hw _ _ Hp) as (k' & ? & ?). exists k'. split; [by right|done].
  - intros p a n Hp. rewrite Hl in Hp. destruct (live_old p a n Hp) as [Ha Hno].
    rewrite new_registry, decide_False by done. by apply (ao_blocks _ _ Hw p a n).
  - rewrite Hl. apply (ao_tcaches _ _ Hw).
Qed.

Lemma ready_world_live : arena_live (ready_world k ak1 lo ix j' w) = arena_live w.
Proof.
  apply map_eq. intros p. apply option_eq. intros [k' n]. rewrite !arena_live_lookup. cbn [je tcache_maps ready_world].
  rewrite (na_live _ _ _ _ _ _ Hna).
  assert (Heq : ∀ a, jlive (je w) !! p = Some (a, n) → kind_of (ready_world k ak1 lo ix j' w) a = kind_of w a).
  { intros a Ha. destruct (live_old p a n Ha) as [Hra Hno]. unfold kind_of. cbn [arena_registry akinds ready_world].
    rewrite new_registry, decide_False by done. destruct (arena_registry w !! Z.to_nat a) as [[q|]|] eqn:Hq; [|done..].
    destruct (ao_owner _ _ Hw _ _ Hq) as (k2 & Hk2 & <-). rewrite lookup_insert_ne; [done|].
    intros E. by apply (fk_new _ _ _ _ Hfresh k2 Hk2). }
  split; intros (a & Ha & Hk & Hno); exists a; (split_and!; [done| |done]); [by rewrite <- Heq|by rewrite Heq].
Qed.
End ready.

(** The first use of a static kind creates its arenas and makes it ready: every
    arena of its range is registered to it, the kinds that were ready stay so,
    and no live block changes its kind. *)
Theorem first_use_makes_ready e ks k ak ak1 lo ix j' w :
  arenas_ok ks w → fresh_kind ks w k ak → 0 < num_cpus e → numa_available e = 0 → arena_init_status e = 0 →
  memkind_set_arena_map_len e ak = Ret (0, ak1) →
  new_arenas (get_extent_hooks_by_kind e (kaddr k)) (ak_len ak1) lo w ix j' →
  ∃ w', init_once e (kaddr k) w = Ret w' ∧ arenas_ok (k :: ks) w' ∧ arena_live w' = arena_live w.
Proof.
  intros Hw Hf Hcpu Hnuma Hst Hset Hna. destruct (arena_map_len_ok e ak ak1 Hcpu Hset) as (Hs & Hmask & Hlen).
  exists (ready_world k ak1 lo ix j' w). split; [|split; [by eapply ready_world_ok|by eapply ready_world_live]].
  destruct Hf, Hlen as (i & Hi & Hlen). rewrite (init_run e k ak ak1 (ak_len ak1) lo ix j' w); try done.
  - by rewrite !insert_insert_eq.
  - rewrite Hlen. apply Z.pow_pos_nonneg; lia.
Qed.
End init.
