(* ===== verification/ArenaRun.v ===== *)
(** * Running on the arenas

    The calls of [memkind.h] on the arenas, the tiered memory on top of them, how
    a kind gets its arenas, and a small jemalloc to run on. *)
From Stdlib Require Import SpecFloat.
From stdpp Require Import functions.
From S2P Require Import CString Prelude Registry Arena ArenaSpec ArenaLaws Float FloatSpec Bigary Alloc Slab CritnibSpec Index Counters CountersSpec Queue QueueSpec Events Tachanka TachankaDemo Memtier MemtierBuilder MemtierAlloc MemtierSpec MemtierPolicy MemtierBooks MemtierRun.

Section run.
Context {J : Type} `{Jemalloc J} `{!JemallocLaws J}.
Context (e : arena_env) (self : Z) (ks : list memkind).
Implicit Types w : aworld J.

(** ** Calls of [memkind.h]; [None] is a null kind *)
Inductive kcall :=
  | KMalloc (k : memkind) (size : Z)
  | KCalloc (k : memkind) (num size : Z)
  | KRealloc (k : option memkind) (p size : Z)
  | KFree (k : option memkind) (p : Z).

Definition run_kcall (x : kcall) w : outcome (Z * aworld J) :=
  match x with
  | KMalloc k size => Arena.memkind_malloc e self (kaddr k) size w
  | KCalloc k num size => Arena.memkind_calloc e self (kaddr k) num size w
  | KRealloc k p size => Arena.memkind_realloc e self (kaddr <$> k) p size w
  | KFree k p => let! w := Arena.memkind_free e self (kaddr <$> k) p w in Ret (NULL, w)
  end.

(** A pointer is live, and a kind that is given is the block's. *)
Definition block_of w (k : option memkind) (p : Z) : Prop :=
  ∃ k' n, arena_live w !! p = Some (k', n) ∧ (k = None ∨ k = Some k').

Definition kcall_pre (x : kcall) w : Prop :=
  match x with
  | KMalloc k size => ready_kind ks k ∧ 0 <= size
  | KCalloc k num size => ready_kind ks k ∧ 0 <= num ∧ 0 <= size
  | KRealloc k p size => block_of w k p ∧ 0 < size
  | KFree k p => block_of w k p
  end.

(** What the call does to the live blocks. *)
Definition kcall_post (x : kcall) w (r : Z) w' : Prop :=
  match x with
  | KMalloc k size => allocated arena_live k size w r w'
  | KCalloc k num size => allocated arena_live k (u64 (num * size)) w r w'
  | KRealloc _ p size =>
      r = NULL ∧ arena_live w' = arena_live w ∨
      ∃ k n n', arena_live w !! p = Some (k, n) ∧ size <= n' ∧ r ≠ NULL ∧ delete p (arena_live w) !! r = None ∧
        arena_live w' = <[r := (k, n')]> (delete p (arena_live w))
  | KFree _ p => arena_live w' = delete p (arena_live w)
  end.

Lemma realloc_detect w p k n size :
  arenas_ok ks w → arena_live w !! p = Some (k, n) → 0 < size →
  Arena.memkind_realloc e self None p size w = Arena.memkind_realloc e self (Some (kaddr k)) p size w.
Proof.
  intros Hw Hp Hs. unfold Arena.memkind_realloc, memkind_arena_realloc_with_kind_detect.
  pose proof (proj1 (arena_blocks_ok ks w Hw) p k n Hp) as [Hp0 _]. rewrite (proj2 (Z.eqb_neq p NULL)) by done.
  pose proof (detect_dispatch ks w p k n Hw Hp) as Hd. unfold Arena.memkind_detect_kind in Hd. rewrite Hd. cbn [obind deref].
  destruct (live_kind_ready ks w p k n Hw Hp) as [->|Hk].
  - cbn [kaddr default_kind]. rewrite Z.eqb_refl. destruct (ao_default _ _ Hw) as (ak & -> & Hdef & _). cbn [deref obind].
    by rewrite Hdef.
  - destruct (ao_ready _ _ Hw k Hk) as (ak & []). rewrite (proj2 (Z.eqb_neq _ _)) by done.
    rewrite rd_kind. cbn [deref obind]. by rewrite rd_ops.
Qed.

Lemma free_detect w p k n :
  arenas_ok ks w → arena_live w !! p = Some (k, n) →
  Arena.memkind_free e self None p w = Arena.memkind_free e self (Some (kaddr k)) p w.
Proof.
  intros Hw Hp. unfold Arena.memkind_free, memkind_arena_free_with_kind_detect.
  pose proof (detect_dispatch ks w p k n Hw Hp) as Hd. unfold Arena.memkind_detect_kind in Hd. rewrite Hd. cbn [obind].
  destruct (live_kind_ready ks w p k n Hw Hp) as [->|Hk].
  - cbn [kaddr default_kind]. destruct (ao_default _ _ Hw) as (ak & -> & Hdef & _). cbn [deref obind]. rewrite Hdef.
    unfold memkind_arena_free. by rewrite Z.eqb_refl.
  - destruct (ao_ready _ _ Hw k Hk) as (ak & []). rewrite rd_kind. cbn [deref obind]. by rewrite rd_ops.
Qed.


(** ** The tiered memory on the arenas *)
Context (Hks : ∀ k, k ∈ ks → known k).
#[local] Instance this_api : MemkindAPI (aworld J) := arena_api e self.
#[local] Instance this_laws : MemkindLaws (aworld J) := arena_laws e self ks Hks.
Context {C W R : Type} `{AddrIndex C} `{NodeAlloc W} `{Ranking R}.

(** The counters agree with the blocks that jemalloc holds in the arenas. *)
Definition arena_books (s : mstate (aworld J) C W R) : Prop :=
  books_of (ctr s) (arena_live (heap s)) ∧ arenas_ok ks (heap s) ∧ pol s ≠ MEMTIER_POLICY_DATA_HOTNESS.

End run.
