(* ===== verification/ArenaDemo.v ===== *)
(** * A small jemalloc, and runs on it

    Shows that [JemallocLaws] can be met and that the theorems on arenas apply;
    runs of the calls that do not do what they should. *)
From Stdlib Require Import SpecFloat.
From stdpp Require Import functions.
From S2P Require Import CString Prelude Registry Arena ArenaSpec ArenaLaws ArenaInit ArenaRun Float FloatSpec Bigary Alloc Slab CritnibSpec Index Counters CountersSpec Queue QueueSpec Events Tachanka TachankaDemo Memtier MemtierBuilder MemtierAlloc MemtierSpec MemtierPolicy MemtierBooks MemtierRun.

(** The live blocks, the next address, arena and thread cache. *)
Record tinyje := TinyJe {
  tj_live : gmap Z (Z * Z);
  tj_next : Z;
  tj_arenas : Z;
  tj_tcaches : Z;
}.

Definition TJ_LIMIT : Z := 2 ^ 40.

(** A block of [size] bytes in arena [a], after [m] is what remains live. *)
Definition tj_place (m : gmap Z (Z * Z)) (a size : Z) (j : tinyje) : Z * tinyje :=
  if (0 <=? size) && (msum snd m + size <? TJ_LIMIT)
  then (tj_next j, TinyJe (<[tj_next j := (a, size)]> m) (tj_next j + size + 16) (tj_arenas j) (tj_tcaches j))
  else (NULL, j).

Definition tj_drop (p : Z) (j : tinyje) : tinyje :=
  TinyJe (delete p (tj_live j)) (tj_next j) (tj_arenas j) (tj_tcaches j).

#[local] Instance tiny : Jemalloc tinyje := {
  mallocx size flags j := tj_place (tj_live j) (MALLOCX_ARENA_GET flags) size j;
  rallocx p size flags j := tj_place (delete p (tj_live j)) (MALLOCX_ARENA_GET flags) size j;
  dallocx p _ j := tj_drop p j;
  je_malloc size j := tj_place (tj_live j) 0 size j;
  je_calloc num size j := tj_place (tj_live j) 0 (num * size) j;
  je_realloc p size j := tj_place (delete p (tj_live j)) 0 size j;
  je_posix_memalign p _ size j :=
    let (q, j) := tj_place (tj_live j) 0 size j in if q =? NULL then (ENOMEM, p, j) else (0, q, j);
  je_free p j := tj_drop p j;
  je_usable_size p j := if p =? NULL then 0 else match tj_live j !! p with Some (_, n) => n | None => 0 end;
  arenalookupx p j := match tj_live j !! p with Some (a, _) => a | None => 0 end;
  arenas_create j := (0, tj_arenas j, TinyJe (tj_live j) (tj_next j) (tj_arenas j + 1) (tj_tcaches j));
  set_extent_hooks _ _ j := (0, j);
  arena_destroy _ j := j;
  set_dirty_decay _ _ j := (0, j);
  tcache_create j :=
    if tj_tcaches j <=? MALLOCX_TCACHE_MAX
    then (0, tj_tcaches j, TinyJe (tj_live j) (tj_next j) (tj_arenas j) (tj_tcaches j + 1))
    else (11, 0, j);
  check_reallocatex _ _ := false;
}.

Record tj_ok (j : tinyje) : Prop := {
  tk_next : 0 < tj_next j;
  tk_tcaches : 0 <= tj_tcaches j;
  tk_blocks p a n : tj_live j !! p = Some (a, n) → 0 < p < tj_next j ∧ 0 <= a < MALLOCX_ARENA_MAX ∧ 0 <= n;
  tk_total : msum snd (tj_live j) < TJ_LIMIT;
}.

Lemma tj_place_ok m a size j :
  tj_ok j → m ⊆ tj_live j → msum snd m < TJ_LIMIT → 0 <= a < MALLOCX_ARENA_MAX →
  let '(p, j') := tj_place m a size j in
  tj_ok j' ∧ (p = NULL ∧ j' = j ∨
    p ≠ NULL ∧ m !! p = None ∧ tj_live j' = <[p := (a, size)]> m).
Proof.
  intros [] Hm Ht Ha. unfold tj_place. destruct (_ && _) eqn:E; [|split; [by split|by left]].
  apply andb_true_iff in E as [E1 E2]. zb. assert (Hno : m !! tj_next j = None).
  { apply eq_None_not_Some. intros [[b n] Hb]. pose proof (lookup_weaken _ _ _ _ Hb Hm) as Hb'.
    apply tk_blocks0 in Hb'. lia. }
  split; [|right; split_and!; [lia|done..]]. split; cbn [tj_next tj_tcaches tj_live]; [lia|done| |].
  - intros p b n [(<- & [= <- <-])|(_ & Hp)]%lookup_insert_Some; [lia|].
    apply (lookup_weaken _ _ _ _ Hp) in Hm. apply tk_blocks0 in Hm. lia.
  - rewrite msum_insert by done. simpl. lia.
Qed.

Lemma tj_delete_total j p : tj_ok j → msum snd (delete p (tj_live j)) < TJ_LIMIT.
Proof.
  intros []. destruct (tj_live j !! p) as [[a n]|] eqn:Hp; [|by rewrite delete_id].
  rewrite (msum_delete _ _ _ _ Hp). apply tk_blocks0 in Hp. simpl. lia.
Qed.

Lemma tj_drop_ok j p : tj_ok j → tj_ok (tj_drop p j).
Proof.
  intros Hj. pose proof (tj_delete_total j p Hj). destruct Hj. split; try done.
  intros q a n Hq. cbn [tj_live tj_drop] in Hq. apply lookup_delete_Some in Hq as [_ Hq]. by apply tk_blocks0 in Hq.
Qed.

(** The two shapes of the allocation laws. *)
Lemma tj_placed j a size (Q : Z → Prop) :
  tj_ok j → 0 <= a < MALLOCX_ARENA_MAX → Q a →
  let '(p, j') := tj_place (tj_live j) a size j in tj_ok j' ∧ placed tj_live size Q j p j'.
Proof.
  intros Hj Ha HQ. pose proof (tj_place_ok (tj_live j) a size j Hj (reflexivity _) (tk_total _ Hj) Ha) as Hp.
  destruct (tj_place _ _ _ _) as [p j']. destruct Hp as [Hok [[-> ->]|(? & ? & ?)]]; (split; [done|]); [by left|].
  right. by exists a, size.
Qed.

Lemma tj_moved j p a size (Q : Z → Prop) :
  tj_ok j → 0 <= a < MALLOCX_ARENA_MAX → Q a →
  let '(q, j') := tj_place (delete p (tj_live j)) a size j in tj_ok j' ∧ moved tj_live p size Q j q j'.
Proof.
  intros Hj Ha HQ.
  pose proof (tj_place_ok (delete p (tj_live j)) a size j Hj (delete_subseteq _ _) (tj_delete_total j p Hj) Ha) as Hp.
  destruct (tj_place _ _ _ _) as [q j']. destruct Hp as [Hok [[-> ->]|(? & ? & ?)]]; (split; [done|]); [by left|].
  right. by exists a, size.
Qed.

Lemma arena_get_nonneg flags : 0 <= MALLOCX_ARENA_GET flags.
Proof. unfold MALLOCX_ARENA_GET, u32. apply Z.mod_pos_bound. lia. Qed.

#[local] Instance tiny_laws : JemallocLaws tinyje.
Proof.
  refine {| jok := tj_ok; jlive := tj_live; narenas_auto := 256 |}.
  - done.
  - intros j p a n Hj Hp. apply (tk_blocks _ Hj) in Hp. lia.
  - intros j Hj. pose proof (tk_total _ Hj). unfold TJ_LIMIT in *. lia.
  - done.
  - intros j p a n Hj Hp. cbn [je_usable_size tiny]. rewrite Hp. apply (tk_blocks _ Hj) in Hp.
    by rewrite (proj2 (Z.eqb_neq p NULL)) by lia.
  - intros j p a n Hj Hp. cbn [arenalookupx tiny]. by rewrite Hp.
  - intros j size flags Hj Hs Ha. pose proof (arena_get_nonneg flags). by apply tj_placed.
  - intros j p a n size flags Hj Hp Hs Ha. pose proof (arena_get_nonneg flags). apply tj_moved; [done..|by right].
  - intros j p flags Hj _. split; [by apply tj_drop_ok|done].
  - intros j size Hj. by apply tj_placed.
  - intros j num size Hj. by apply tj_placed.
  - intros j p a n size Hj Hp Ha. by apply tj_moved.
  - intros j p Hj _. split; [by apply tj_drop_ok|done].
  - intros j Hj. cbn [tcache_create tiny]. case_if; [|done]. pose proof (tk_tcaches _ Hj).
    split_and!; [|done|intros; lia..]. destruct Hj. split; cbn [tj_next tj_tcaches tj_live]; try done. lia.
Defined.

(** ** A process with one high-bandwidth kind *)
Definition hbw : memkind := Kind (static_kind PARTITION_HBW) 1.
Definition one_node : arena_env := ArenaEnv None 2 0 0 false.
Definition hbw_akind : akind := AKind 1 false false 0 0 0 false.

Definition unused : aworld tinyje :=
  AWorld (TinyJe ∅ 4096 256 0)
    {[ Arena.MEMKIND_DEFAULT := AKind 0 true false 0 255 0 true; static_kind PARTITION_HBW := hbw_akind ]}
    (replicate (Z.to_nat MALLOCX_ARENA_MAX) None) ∅.

Lemma unused_ok : arenas_ok [] unused.
Proof.
  split; [by split|done| |by eexists|by intros k ?%not_elem_of_nil..| |done|done].
  - intros a Ha. apply lookup_replicate_2. unfold MALLOCX_ARENA_MAX. cbn in Ha. lia.
  - intros i p [Hi _]%lookup_replicate. done.
Qed.

Definition hbw_len : akind := set_arenas hbw_akind 0 8 7.

Lemma unused_new : new_arenas (get_extent_hooks_by_kind one_node (kaddr hbw)) 8 256 unused (seqZ 256 8)
  (TinyJe ∅ 4096 264 0).
Proof.
  split; try done. intros i [Hlo Hhi]%elem_of_seqZ. apply lookup_replicate_2. unfold MALLOCX_ARENA_MAX. lia.
Qed.

Lemma first_use_makes_ready_witness :
  ∃ w', init_once one_node (kaddr hbw) unused = Ret w' ∧ arenas_ok [hbw] w' ∧ arena_live w' = arena_live unused.
Proof.
  refine (first_use_makes_ready one_node [] hbw hbw_akind hbw_len 256 _ _ unused unused_ok _ _ _ _ _ unused_new);
    try done. split; try done. by intros k ?%not_elem_of_nil.
Defined.

Definition world_or (w : aworld tinyje) (o : outcome (Z * aworld tinyje)) : aworld tinyje :=
  match o with Ret (_, w) => w | Stop _ => w end.
Definition used : aworld tinyje := ready_world hbw hbw_len 256 (seqZ 256 8) (TinyJe ∅ 4096 264 0) unused.

Lemma used_ok : arenas_ok [hbw] used.
Proof.
  apply (ready_world_ok arena_extent_hooks [] hbw hbw_akind hbw_len 256 (seqZ 256 8) _ unused unused_ok); try done; [| |apply unused_new].
  - split; try done. by intros k ?%not_elem_of_nil.
  - by exists 3.
Qed.


(** A block of the kind is found again by its address. *)
Example malloc_then_detect :
  match run_kcall one_node 7 (KMalloc hbw 100) used with
  | Ret (p, w) => Arena.memkind_detect_kind p w = Ret (Some (kaddr hbw)) ∧ tj_live (je w) !! p = Some (263, 100)
  | Stop _ => False
  end.
Proof. by vm_compute. Qed.

(** ** The tiered memory on it *)

(** Two tiers, the default kind and the high-bandwidth kind, in equal shares. *)
Definition two_tiers : memtier_memory :=
  MemtierMemory 2 [TierCfg default_kind (F32.of_Z 1); TierCfg hbw (F32.of_Z 1)] [] 0 0 (S754_zero false) (S754_zero false)
    0 0 memtier_policy_static_ratio memtier_empty_post_alloc static_ratio_update_config.

#[local] Existing Instance no_ranking.
#[local] Existing Instance kernel.

Lemma hbw_known k : k ∈ [hbw] → known k.
Proof. by intros ->%list_elem_of_singleton. Qed.

#[local] Instance demo_api : MemkindAPI (aworld tinyje) := arena_api one_node 7.
#[local] Instance demo_laws : MemkindLaws (aworld tinyje) := arena_laws one_node 7 [hbw] hbw_known.

Definition arena_start : mstate (aworld tinyje) (gmap Z Z) slab_world unit :=
  MState counters_init MEMTIER_POLICY_STATIC_RATIO no_tachanka (λ _, 0) used.


(** Two allocations go to the two tiers, and the counters follow. *)
Example two_tiers_run :
  match run_call 7 (λ _, 0) 0 (Malloc 100) two_tiers arena_start with
  | Ret (p, m, s) =>
      match run_call 7 (λ _, 0) 0 (Malloc 60) m s with
      | Ret (q, _, s) => g_at (ctr s) 0 = 100 ∧ g_at (ctr s) 1 = 60 ∧ arenalookupx q (je (heap s)) = 263
      | Stop _ => False
      end
  | Stop _ => False
  end.
Proof. by vm_compute. Qed.

(** ** Defects *)

(** [memkind_arena_calloc] multiplies without a check: a request for more than
    [2^64] bytes gets a block of the product's remainder. *)
Theorem arena_calloc_wraps :
  let num := 2 ^ 32 + 1 in let size := 2 ^ 32 in
  match run_kcall one_node 7 (KCalloc hbw num size) used with
  | Ret (p, w) => p ≠ NULL ∧ Arena.memkind_malloc_usable_size p w = 2 ^ 32 ∧ 2 ^ 64 < num * size
  | Stop _ => False
  end.
Proof. by vm_compute. Qed.

(** Thread cache 0 is a valid cache, but the array takes it for "none yet": the
    next call makes another one, and the first is neither used nor destroyed. *)
Theorem tcache_zero_lost :
  let (f1, w1) := get_tcache_flag 7 1 100 used in
  let (f2, w2) := get_tcache_flag 7 1 100 w1 in
  f1 = MALLOCX_TCACHE 0 ∧ f2 = MALLOCX_TCACHE 1 ∧ tj_tcaches (je w2) = 2.
Proof. by vm_compute. Qed.

(** A count of arenas above [2^30] is accepted from the environment, and then
    shifted past the sign bit. *)
Theorem arena_count_shift_overflows :
  memkind_set_arena_map_len (ArenaEnv (Some "2000000000"%string) 2 0 0 false) hbw_akind = Stop Undefined.
Proof. by vm_compute. Qed.

Lemma mallocx_flags_roundtrip_witness :
  let flags := Z.lor (Z.lor (Z.lor (MALLOCX_ALIGN (2 ^ 12)) MALLOCX_ZERO) (MALLOCX_ARENA 259)) (MALLOCX_TCACHE 3) in
  MALLOCX_ARENA_GET flags = 259 ∧ MALLOCX_TCACHE_GET flags = u32 3 ∧
  MALLOCX_ALIGN_GET_SPECIFIED flags = 2 ^ 12 ∧ MALLOCX_ZERO_GET flags = true.
Proof. refine (mallocx_flags_roundtrip 259 3 12 true _ _ _); by vm_compute. Defined.
