(* ===== verification/Extent.v ===== *)
(** * The extents of the arenas ([arena_extent_alloc] and its slow path in
    [src/memkind_arena.c])

    jemalloc asks for aligned pieces of address space.  When the mapping is not
    aligned, it is replaced by a larger one whose head and tail are unmapped. *)
From S2P Require Import Prelude.

(** Which addresses are mapped. *)
Abbreviation vmem := (Z → bool).

Definition in_range (a n x : Z) : bool := (a <=? x) && (x <? a + n).
Definition munmap (a n : Z) (m : vmem) : vmem := λ x, m x && negb (in_range a n x).

Section ops.
(** [kind_mmap(kind, addr, size)]; [None] is [MAP_FAILED]. *)
Context (kind_mmap : Z → Z → vmem → option Z * vmem).

Definition alloc_aligned_slow (size alignment : Z) (m : vmem) : Z * vmem :=
  let extended_size := u64 (size + alignment) in
  let (ptr, m) := kind_mmap NULL extended_size m in
  match ptr with
  | None => (NULL, m)
  | Some addr =>
      let aligned_addr := Z.land (u64 (addr + alignment)) (u64 (Z.lnot (u64 (alignment - 1)))) in
      let head_len := u64 (aligned_addr - addr) in
      let m := if 0 <? head_len then munmap addr head_len m else m in
      let tail := u64 (aligned_addr + size) in
      let tail_len := u64 (u64 (addr + extended_size) - u64 (aligned_addr + size)) in
      let m := if 0 <? tail_len then munmap tail tail_len m else m in
      (aligned_addr, m)
  end.

(** [available] is the result of [memkind_check_available]. *)
Definition arena_extent_alloc (available new_addr size alignment : Z) (m : vmem) : Z * vmem :=
  if negb (available =? 0) then (NULL, m) else
  let (addr, m) := kind_mmap new_addr size m in
  match addr with
  | None => (NULL, m)
  | Some addr =>
      if negb (new_addr =? NULL) && negb (addr =? new_addr) then (NULL, munmap addr size m) else
      if negb (Z.land addr (u64 (alignment - 1)) =? 0)
      then alloc_aligned_slow size alignment (munmap addr size m)
      else (addr, m)
  end.

Definition HUGE_PAGE_SIZE : Z := 2 ^ 21.

Definition arena_extent_alloc_hugetlb (available new_addr size alignment : Z) (m : vmem) : Z * vmem :=
  let size := Z.land (u64 (size + (HUGE_PAGE_SIZE - 1))) (u64 (Z.lnot (HUGE_PAGE_SIZE - 1))) in
  arena_extent_alloc available new_addr size alignment m.

(** ** The promise of [mmap] *)

(** A failure changes nothing; otherwise the range was free, lies in the lower
    half of the address space, and is now mapped. *)
Definition mmap_law : Prop := ∀ addr n m, 0 < n →
  match kind_mmap addr n m with
  | (None, m') => ∀ x, m' x = m x
  | (Some a, m') => 0 < a ∧ a + n <= 2 ^ 63 ∧ (∀ x, in_range a n x = true → m x = false) ∧
      ∀ x, m' x = m x || in_range a n x
  end.

Context (Hmmap : mmap_law).

(** Nothing, or exactly the aligned piece, in addresses that were free. *)
Definition extent_post (size alignment : Z) (m : vmem) (p : Z) (m' : vmem) : Prop :=
  p = NULL ∧ (∀ x, m' x = m x) ∨
  p ≠ NULL ∧ p mod alignment = 0 ∧ (∀ x, in_range p size x = true → m x = false) ∧
    ∀ x, m' x = m x || in_range p size x.

Lemma alignment_mask k : 0 <= k < 64 → u64 (Z.lnot (u64 (2 ^ k - 1))) = 2 ^ 64 - 2 ^ k.
Proof.
  intros Hk. assert (0 < 2 ^ k < 2 ^ 64) by (split; [lia|apply Z.pow_lt_mono_r; lia]).
  rewrite (u64_small (2 ^ k - 1)) by (unfold is_u64; lia). unfold Z.lnot, u64.
  replace (Z.pred (- (2 ^ k - 1))) with (2 ^ 64 - 2 ^ k + (-1) * 2 ^ 64) by lia.
  rewrite Z_mod_plus_full, Z.mod_small; lia.
Qed.

Lemma in_range_true a n x : in_range a n x = true ↔ a <= x < a + n.
Proof. unfold in_range. rewrite andb_true_iff, Z.leb_le, Z.ltb_lt. lia. Qed.

Lemma in_range_iff a n x b : (a <= x < a + n ↔ b = true) → in_range a n x = b.
Proof.
  intros Hb. destruct (in_range a n x) eqn:E; [apply in_range_true in E; symmetry; tauto|].
  destruct b; [|done]. assert (in_range a n x = true) by (apply in_range_true; tauto). congruence.
Qed.

(** Mapping a range and unmapping it again. *)
Lemma map_unmap a n (m m' : vmem) :
  (∀ x, in_range a n x = true → m x = false) → (∀ x, m' x = m x || in_range a n x) → ∀ x, munmap a n m' x = m x.
Proof.
  intros Hfree Hm x. unfold munmap. rewrite Hm. destruct (in_range a n x) eqn:E; [by rewrite (Hfree x E)|].
  by rewrite orb_false_r, andb_true_r.
Qed.

Lemma alloc_aligned_slow_ok size k m :
  0 < size → 0 <= k < 62 → size + 2 ^ k < 2 ^ 63 →
  extent_post size (2 ^ k) m (alloc_aligned_slow size (2 ^ k) m).1 (alloc_aligned_slow size (2 ^ k) m).2.
Proof.
  intros Hs Hk Hsum. pose proof (Z.pow_pos_nonneg 2 k ltac:(lia) ltac:(lia)) as Hp. unfold alloc_aligned_slow.
  rewrite (u64_small (size + 2 ^ k)) by (unfold is_u64; lia).
  pose proof (Hmmap NULL (size + 2 ^ k) m ltac:(lia)) as Hm. destruct (kind_mmap NULL _ m) as [[a|] m1]; [|by left].
  destruct Hm as (Ha & Hhi & Hfree & Hm1). rewrite alignment_mask by lia.
  rewrite (u64_small (a + 2 ^ k)) by (unfold is_u64; lia). rewrite land_high_mask by lia.
  set (p := (a + 2 ^ k) / 2 ^ k * 2 ^ k).
  assert (Hpr : a < p <= a + 2 ^ k).
  { subst p. pose proof (Z.div_mod (a + 2 ^ k) (2 ^ k) ltac:(lia)). pose proof (Z.mod_pos_bound (a + 2 ^ k) (2 ^ k) Hp). lia. }
  rewrite (u64_small (p - a)), (u64_small (p + size)), (u64_small (a + (size + 2 ^ k))) by (unfold is_u64; lia).
  rewrite (u64_small (a + (size + 2 ^ k) - (p + size))) by (unfold is_u64; lia).
  rewrite (proj2 (Z.ltb_lt 0 (p - a))) by lia. right. cbn [fst snd]. split_and!; [lia|apply Z.mod_mul; lia| |].
  - intros x Hx. apply Hfree, in_range_true. apply in_range_true in Hx. lia.
  - intros x. assert (Hx : ∀ b, (m1 x && negb (in_range a (p - a) x)) = b →
      (if 0 <? a + (size + 2 ^ k) - (p + size) then munmap (p + size) (a + (size + 2 ^ k) - (p + size)) (munmap a (p - a) m1)
       else munmap a (p - a) m1) x = b && negb (in_range (p + size) (a + (size + 2 ^ k) - (p + size)) x)).
    { intros b Hb. case_if; [by unfold munmap at 1 2; rewrite Hb|]. unfold munmap. rewrite Hb.
      rewrite (in_range_iff (p + size) _ x false) by (split; [lia|done]). by rewrite andb_true_r. }
    rewrite (Hx _ eq_refl), Hm1. specialize (Hfree x). clear Hx.
    destruct (in_range a (size + 2 ^ k) x) eqn:E1, (in_range a (p - a) x) eqn:E2,
      (in_range (p + size) (a + (size + 2 ^ k) - (p + size)) x) eqn:E3, (in_range p size x) eqn:E4, (m x);
      cbn in *; try done; try (by specialize (Hfree eq_refl)); exfalso;
      unfold in_range in *; rewrite ?andb_true_iff, ?andb_false_iff, ?Z.leb_le, ?Z.leb_gt, ?Z.ltb_lt, ?Z.ltb_ge in *; lia.
Qed.

Lemma extent_post_ext size al m m1 p m' : (∀ x, m1 x = m x) → extent_post size al m1 p m' → extent_post size al m p m'.
Proof.
  intros Heq [[-> Hm]|(Hp & Hal & Hfree & Hm)]; [left; split; [done|]; intros x; by rewrite Hm|].
  right. split_and!; [done..| |]; intros x; [intros Hx; by rewrite <- Heq, Hfree|by rewrite Hm, Heq].
Qed.

Lemma land_alignment a k : 0 <= k < 64 → Z.land a (u64 (2 ^ k - 1)) = a mod 2 ^ k.
Proof.
  intros Hk. assert (0 < 2 ^ k < 2 ^ 64) by (split; [lia|apply Z.pow_lt_mono_r; lia]).
  rewrite u64_small by (unfold is_u64; lia). replace (2 ^ k - 1) with (Z.ones k) by (rewrite Z.ones_equiv; lia).
  apply Z.land_ones. lia.
Qed.

(** The hook gives nothing and leaves the address space as it was, or an aligned
    piece of exactly the asked size in free addresses: the head and the tail of
    the larger mapping are given back.  A piece asked for at an aligned address
    is there or nowhere. *)
Theorem extent_alloc_aligned available new_addr size k m :
  0 < size → 0 <= k < 62 → size + 2 ^ k < 2 ^ 63 → (new_addr ≠ NULL → new_addr mod 2 ^ k = 0) →
  let (p, m') := arena_extent_alloc available new_addr size (2 ^ k) m in
  extent_post size (2 ^ k) m p m' ∧ (new_addr ≠ NULL → p = NULL ∨ p = new_addr).
Proof.
  intros Hs Hk Hsum Hnew. unfold arena_extent_alloc. case_if; [split; [by left|by intros; left]|].
  pose proof (Hmmap new_addr size m Hs) as Hm. destruct (kind_mmap new_addr size m) as [[a|] m1]; [|split; [by left|by intros; left]].
  destruct Hm as (Ha & Hhi & Hfree & Hm1). pose proof (map_unmap a size m m1 Hfree Hm1) as Hun.
  case_if; [split; [by left|by intros; left]|]. rewrite land_alignment by lia.
  destruct (Z.eqb_spec (a mod 2 ^ k) 0) as [Hal|Hal]; cbn [negb].
  - split; [right; by split_and!; [lia|..]|]. intros Hn. right. rewrite (proj2 (Z.eqb_neq _ _) Hn) in E0. cbn [negb andb] in E0.
    apply negb_false_iff in E0. by zb.
  - pose proof (alloc_aligned_slow_ok size k (munmap a size m1) Hs Hk Hsum) as Hslow.
    destruct (alloc_aligned_slow _ _ _) as [p m2]. cbn [fst snd] in Hslow. split; [by eapply extent_post_ext|].
    intros Hn. rewrite (proj2 (Z.eqb_neq _ _) Hn) in E0. cbn [negb andb] in E0. apply negb_false_iff in E0. zb. subst a.
    by destruct Hal; apply Hnew.
Qed.
End ops.

(** ** A run *)

(** Maps at the address that is asked for, and else at [a], if the range is free. *)
Definition mmap_at (a : Z) (addr n : Z) (m : vmem) : option Z * vmem :=
  let a := if addr =? NULL then a else addr in
  if (0 <? a) && (a + n <=? 2 ^ 63) && forallb (λ x, negb (m x)) (seqZ a n)
  then (Some a, λ x, m x || in_range a n x) else (None, m).

Lemma mmap_at_law a : mmap_law (mmap_at a).
Proof.
  intros addr n m Hn. unfold mmap_at. destruct (_ && _ && _) eqn:E; [|done].
  apply andb_true_iff in E as [[E1 E2]%andb_true_iff E3]. zb. split_and!; [done..| |done].
  intros x Hx%in_range_true. rewrite forallb_forall in E3. specialize (E3 x). rewrite <- list_elem_of_In, elem_of_seqZ in E3.
  by apply negb_true_iff, E3.
Qed.

(** A mapping that is only page-aligned is replaced; the head and the tail go. *)
Example slow_path :
  let (p, m) := arena_extent_alloc (mmap_at 2) 0 NULL 4 8 (λ _, false) in
  p = 8 ∧ filter (λ x, m x) (seqZ 0 32) = seqZ 8 4.
Proof. by vm_compute. Qed.

Lemma extent_alloc_aligned_witness :
  let (p, m') := arena_extent_alloc (mmap_at 2) 0 NULL 4 (2 ^ 3) (λ _, false) in
  extent_post 4 (2 ^ 3) (λ _, false) p m' ∧ (NULL ≠ NULL → p = NULL ∨ p = NULL).
Proof. refine (extent_alloc_aligned _ (mmap_at_law 2) 0 NULL 4 3 (λ _, false) _ _ _ _); done. Defined.
