(* ===== verification/Interpose.v ===== *)
(** * The interposed allocator ([tiering/memtier.c])

    The library replaces [malloc] and its family: before its constructor has
    run, and until it is unloaded, calls go to the default kind; in between to
    the tiered memory that the environment configures. *)
From Stdlib Require Import SpecFloat.
From stdpp Require Import functions.
From S2P Require Import CString Prelude Float FloatSpec Bigary Alloc Slab CritnibSpec Index Counters CountersSpec Queue QueueSpec Events Tachanka TachankaDemo Memtier MemtierBuilder MemtierAlloc MemtierSpec MemtierPolicy MemtierBooks MemtierRun.

Record istate (A C W R : Type) := IState {
  destructed : bool;
  current_memory : option memtier_memory;
  prog : mstate A C W R;
}.
Arguments IState {A C W R}. Arguments destructed {A C W R}.
Arguments current_memory {A C W R}. Arguments prog {A C W R}.

Section ops.
Context {A C W R : Type} `{MemkindAPI A} `{AddrIndex C} `{NodeAlloc W} `{Ranking R}.
Context (self : Z) (bthash : Z → Z) (data : Z).
Implicit Types t : istate A C W R.

(** The three cases of every function: the tiered memory, the default kind, neither. *)
Definition dispatch (tiered : memtier_memory → mstate A C W R → outcome (Z * memtier_memory * mstate A C W R))
    (default : A → Z * A) t : outcome (Z * istate A C W R) :=
  match current_memory t with
  | Some m =>
      let! (r, m, s) := tiered m (prog t) in
      Ret (r, IState (destructed t) (Some m) s)
  | None =>
      if negb (destructed t) then
        let (r, a) := default (heap (prog t)) in
        Ret (r, IState (destructed t) None (set_mheap a (prog t)))
      else Ret (NULL, t)
  end.

Definition malloc (size : Z) t : outcome (Z * istate A C W R) :=
  dispatch (λ m s, memtier_malloc self bthash data m size s) (memkind_malloc MEMKIND_DEFAULT size) t.

Definition calloc (num size : Z) t : outcome (Z * istate A C W R) :=
  dispatch (λ m s, memtier_calloc self bthash data m num size s) (memkind_calloc MEMKIND_DEFAULT num size) t.

Definition realloc (ptr size : Z) t : outcome (Z * istate A C W R) :=
  dispatch (λ m s, memtier_realloc self bthash data m ptr size s) (memkind_realloc MEMKIND_DEFAULT ptr size) t.

(** The result and [*memptr]. *)
Definition posix_memalign (memptr alignment size : Z) t : outcome (Z * Z * istate A C W R) :=
  match current_memory t with
  | Some m =>
      let! (r, p, m, s) := memtier_posix_memalign self bthash m memptr alignment size (prog t) in
      Ret (r, p, IState (destructed t) (Some m) s)
  | None =>
      if negb (destructed t) then
        let '(r, p, a) := memkind_posix_memalign MEMKIND_DEFAULT memptr alignment size (heap (prog t)) in
        Ret (r, p, IState (destructed t) None (set_mheap a (prog t)))
      else Ret (0, memptr, t)
  end.

Definition free (ptr : Z) t : outcome (istate A C W R) :=
  let! (_, t) := dispatch (λ m s, memtier_realloc self bthash data m ptr 0 s)
                   (λ a, (NULL, memkind_free MEMKIND_DEFAULT ptr a)) t in
  Ret t.

Definition malloc_usable_size (ptr : Z) t : Z := memtier_usable_size ptr (prog t).

(** [env_var] is [MEMKIND_MEM_TIERS]; [create] is [ctl_create_tier_memory_from_env]. *)
Definition memtier_init (env_var : option string) (create : string → option memtier_memory) t :
    outcome (istate A C W R) :=
  match env_var with
  | Some text =>
      match create text with
      | Some m => Ret (IState (destructed t) (Some m) (prog t))
      | None => Stop Exited
      end
  | None => Stop Exited
  end.

(** [destroy] is [ctl_destroy_tier_memory]. *)
Definition memtier_fini (destroy : option memtier_memory → mstate A C W R → mstate A C W R) t : istate A C W R :=
  IState true None (destroy (current_memory t) (prog t)).

(** ** Calls of the program *)
Context `{!MemkindLaws A} {P : memtier_memory → Prop} `{!Policy (A := A) (C := C) (W := W) (R := R) P}.

Inductive icall :=
  | IMalloc (size : Z)
  | ICalloc (num size : Z)
  | IRealloc (ptr size : Z)
  | IFree (ptr : Z).

Definition run_icall (x : icall) t : outcome (Z * istate A C W R) :=
  match x with
  | IMalloc size => malloc size t
  | ICalloc num size => calloc num size t
  | IRealloc ptr size => realloc ptr size t
  | IFree ptr => let! t := free ptr t in Ret (NULL, t)
  end.

(** Sizes are not negative, pointers are null or live. *)
Definition icall_pre (x : icall) t : Prop :=
  match x with
  | IMalloc size => 0 <= size
  | ICalloc num size => 0 <= num ∧ 0 <= size
  | IRealloc ptr size => 0 <= size ∧ (ptr = NULL ∨ is_live (prog t) ptr)
  | IFree ptr => ptr = NULL ∨ is_live (prog t) ptr
  end.

Definition icall_call (x : icall) : call :=
  match x with
  | IMalloc size => Malloc size
  | ICalloc num size => Calloc num size
  | IRealloc ptr size => Realloc ptr size
  | IFree ptr => Realloc ptr 0
  end.

End ops.

(** ** Blocks from before the constructor *)
#[local] Existing Instance toy_heap.
#[local] Existing Instance toy_laws.
#[local] Existing Instance no_ranking.
#[local] Existing Instance kernel.

Definition loaded : istate blockmap (gmap Z Z) slab_world unit := IState false None start.
Definition tiered : istate blockmap (gmap Z Z) slab_world unit := IState false (Some demo_static) start.


(** A block that was allocated before the constructor ran is not in the
    counters; freeing it afterwards subtracts its size all the same, and the
    counter of the default kind wraps around. *)
Theorem early_block_wraps_counter :
  match malloc 7 (λ _, 0) 0 100 loaded with
  | Ret (p, t) =>
      match memtier_init (Some "KIND:DRAM"%string) (λ _, Some demo_static) t with
      | Ret t =>
          match free 7 (λ _, 0) 0 p t with
          | Ret t => p ≠ NULL ∧ g_at (ctr (prog t)) 1 = 2 ^ 64 - 100 ∧ heap (prog t) = ∅
          | Stop _ => False
          end
      | Stop _ => False
      end
  | Stop _ => False
  end.
Proof. by vm_compute. Qed.
