(* ===== verification/Bthash.v ===== *)
(** * The hash of the call stack ([src/bthash.c])

    The executable regions of the process are read once from [/proc/self/maps];
    the hash of an allocation mixes its size, the depth of the stack and the
    words of a window of the stack that point into those regions.  The build
    options are those of [memkind_memtier.h]: [CUSTOM_BACKTRACE] and
    [STACK_RANGE] with [STACK_RANGE_NO_SEARCH], neither [LIB_BINSEARCH] nor
    [SIMD_INSTRUCTIONS] nor [FINALIZE_HASH]; the two binary searches and
    [find_region_idx] are modelled as well. *)
From S2P Require Import Prelude.

Definition ARRAYSZ : Z := 1024.

(** The arrays [start] and [end], of which [nm] entries are in use. *)
Record maps := Maps {
  starts : list Z;
  ends : list Z;
  nm : Z;
}.

Definition at_ (l : list Z) (i : Z) : Z := default 0 (l !! Z.to_nat i).

(** ** Reading the maps *)

(** A line of [/proc/self/maps] as [fscanf] reads it: the range, whether it is
    executable, and whether the rest names the stack or [libpthread]. *)
Record map_line := MapLine {
  ml_start : Z;
  ml_end : Z;
  ml_exec : bool;
  ml_stack : bool;
  ml_pthread : bool;
}.

Record regions := Regions {
  rmaps : maps;
  stack0 : Z;
  pthread_start : Z;
  pthread_end : Z;
}.

(** One iteration of the loop of [preprocess_maps], at [i]. *)
Definition merge_step (i : Z) (inew : Z) (m : maps) : Z * maps :=
  if at_ (ends m) inew =? at_ (starts m) (i + 1)
  then (inew, Maps (starts m) (<[Z.to_nat inew := at_ (ends m) (i + 1)]> (ends m)) (nm m))
  else (inew + 1, m).

Fixpoint merge_loop (n : nat) (i inew : Z) (m : maps) : Z * maps :=
  match n with
  | O => (inew, m)
  | S n => let (inew, m) := merge_step i inew m in merge_loop n (i + 1) inew m
  end.

Definition preprocess_maps (m : maps) : maps :=
  let (inew, m) := merge_loop (Z.to_nat (nm m - 1)) 0 0 m in
  if 0 <? nm m then Maps (starts m) (ends m) (inew + 1) else m.

(** [fscanf] writes entry [nm] of both arrays before the bound is tested. *)
Fixpoint read_loop (ls : list map_line) (r : regions) : outcome regions :=
  match ls with
  | [] => Ret r
  | l :: ls =>
      let m := rmaps r in
      if ARRAYSZ <=? nm m then Stop OutOfBounds else
      let m := Maps (<[Z.to_nat (nm m) := ml_start l]> (starts m)) (<[Z.to_nat (nm m) := ml_end l]> (ends m)) (nm m) in
      let s0 := if ml_stack l then ml_end l else stack0 r in
      if negb (ml_exec l) then read_loop ls (Regions m s0 (pthread_start r) (pthread_end r)) else
      let (ps, pe) := if ml_pthread l then (ml_start l, ml_end l) else (pthread_start r, pthread_end r) in
      let r := Regions (Maps (starts m) (ends m) (nm m + 1)) s0 ps pe in
      if ARRAYSZ <=? nm m then Ret r else read_loop ls r
  end.

Definition no_maps : maps := Maps (replicate (Z.to_nat ARRAYSZ) 0) (replicate (Z.to_nat ARRAYSZ) 0) 0.

Definition read_maps (ls : list map_line) : outcome regions :=
  let! r := read_loop ls (Regions no_maps 0 0 0) in
  Ret (Regions (preprocess_maps (rmaps r)) (stack0 r) (pthread_start r) (pthread_end r)).

(** ** Finding the region of an address *)

(** The scan: the first entry that starts above the address. *)
Fixpoint scan (m : maps) (addr : Z) (n : nat) (s : Z) : Z :=
  match n with
  | O => s
  | S n => if addr <? at_ (starts m) s then s else scan m addr n (s + 1)
  end.

(** [s-- && addr < end[s]]. *)
Definition in_region (m : maps) (addr : Z) : bool :=
  let s := scan m addr (Z.to_nat (nm m)) 0 in
  negb (s =? 0) && (addr <? at_ (ends m) (s - 1)).

Fixpoint search_start (m : maps) (ptr : Z) (fuel : nat) (bstart bend : Z) : outcome Z :=
  match fuel with
  | O => Stop OutOfFuel
  | S fuel =>
      if bstart =? bend then Ret bstart else
      let mid := (bstart + bend) / 2 in
      if at_ (starts m) mid <=? ptr then
        if bstart =? mid then Ret (if at_ (starts m) bend <=? ptr then bend else bstart)
        else search_start m ptr fuel mid bend
      else search_start m ptr fuel bstart mid
  end.
Definition binsearch_start (m : maps) (ptr : Z) : outcome Z := search_start m ptr (Z.to_nat (nm m)) 0 (nm m - 1).

Fixpoint search_end (m : maps) (ptr : Z) (fuel : nat) (bstart bend : Z) : outcome Z :=
  match fuel with
  | O => Stop OutOfFuel
  | S fuel =>
      if bstart =? bend then Ret bend else
      let mid := (bstart + bend) / 2 in
      if ptr <? at_ (ends m) mid then search_end m ptr fuel bstart mid
      else if bstart =? mid then Ret bend
      else search_end m ptr fuel mid bend
  end.
Definition binsearch_end (m : maps) (ptr : Z) : outcome Z := search_end m ptr (Z.to_nat (nm m)) 0 (nm m - 1).

Definition find_region_idx (m : maps) (addr : Z) : outcome Z :=
  if (addr <? at_ (starts m) 0) || (at_ (ends m) (nm m - 1) <=? addr) then Ret (-1) else
  let! bstart := binsearch_start m addr in
  let! bend := binsearch_end m addr in
  Ret (if bstart =? bend then bstart else -1).

(** ** The hash *)
Definition max_searchable_stack_size : Z := 8.

(** The variables of a thread. *)
Record stack_range := StackRange {
  stack_size : Z;
  stack_bottom : Z;
  stack_top : Z;
}.

Definition align_up (p : Z) : Z := u64 (p + (8 - p mod 8)).
Definition align_down (p : Z) : Z := u64 (p - p mod 8).

Definition bthash_set_stack_range (p1 p2 : Z) (s : stack_range) : stack_range :=
  if negb (p1 =? NULL) && negb (p2 =? NULL) then
    let (top, bottom) := if p2 <=? p1 then (p1, p2) else (p2, p1) in
    let diff := u64 (top - bottom) in
    let bottom := if max_searchable_stack_size <? diff then u64 (top - max_searchable_stack_size) else bottom in
    StackRange diff (align_up bottom) (align_down top)
  else s.

Definition update_hash (h k M R : Z) : Z :=
  let k := u64 (k * M) in
  let k := Z.lxor k (Z.shiftr k R) in
  let k := u64 (k * M) in
  let h := Z.lxor h k in
  u64 (h * M).

Definition backtrace_unwinded (r : regions) (addr : Z) : bool :=
  (pthread_start r <=? addr) && (addr <? pthread_end r).

Definition MURMUR : Z := 0xc6a4a7935bd1e995.

(** The loop over the words of the window; [mem] reads a word of the stack. *)
Fixpoint hash_loop (r : regions) (mem : Z → option Z) (top : Z) (fuel : nat) (sp h : Z) : outcome Z :=
  match fuel with
  | O => Stop OutOfFuel
  | S fuel =>
      if sp =? top then Ret h else
      let! addr := deref (mem sp) in
      if in_region (rmaps r) addr then
        if backtrace_unwinded r addr then Ret h
        else hash_loop r mem top fuel (u64 (sp + 8)) (update_hash h addr MURMUR 47)
      else hash_loop r mem top fuel (u64 (sp + 8)) h
  end.

(** Every word of the address space is enough fuel. *)
Definition bthash (r : regions) (mem : Z → option Z) (s : stack_range) (fuel : nat) (size : Z) : outcome Z :=
  let h := Z.lxor size MURMUR in
  let h := update_hash h (stack_size s) MURMUR 47 in
  hash_loop r mem (stack_top s) fuel (stack_bottom s) h.
