(* ===== verification/BthashSpec.v ===== *)
(** * What the hash of the call stack depends on *)
From S2P Require Import Prelude Bthash.

(** ** Regions *)

(** Sorted, not empty and not overlapping. *)
Record sorted_maps (m : maps) : Prop := {
  sm_nm : 0 < nm m;
  sm_region i : 0 <= i < nm m → at_ (starts m) i < at_ (ends m) i;
  sm_next i : 0 <= i → i + 1 < nm m → at_ (ends m) i <= at_ (starts m) (i + 1);
}.

Section regions.
Context (m : maps) (Hm : sorted_maps m).

Lemma starts_mono i j : 0 <= i → i <= j < nm m → at_ (starts m) i <= at_ (starts m) j.
Proof.
  intros Hi Hj. assert (Hind : ∀ n, 0 <= n → i + n < nm m → at_ (starts m) i <= at_ (starts m) (i + n)).
  { apply (natlike_ind (λ n, i + n < nm m → at_ (starts m) i <= at_ (starts m) (i + n))).
    - intros _. rewrite Z.add_0_r. lia.
    - intros n Hn IH Hlt. specialize (IH ltac:(lia)). pose proof (sm_region _ Hm (i + n) ltac:(lia)).
      pose proof (sm_next _ Hm (i + n) ltac:(lia) ltac:(lia)). replace (i + Z.succ n) with (i + n + 1) by lia. lia. }
  specialize (Hind (j - i) ltac:(lia)). replace (i + (j - i)) with j in Hind by lia. apply Hind. lia.
Qed.

Lemma ends_mono i j : 0 <= i → i <= j < nm m → at_ (ends m) i <= at_ (ends m) j.
Proof.
  intros Hi Hj. destruct (decide (i = j)) as [->|]; [lia|].
  pose proof (sm_next _ Hm i Hi ltac:(lia)). pose proof (starts_mono (i + 1) j ltac:(lia) ltac:(lia)).
  pose proof (sm_region _ Hm j ltac:(lia)). lia.
Qed.

(** ** The binary searches *)

(** Between the bounds is the last entry that starts at or before the address. *)
Lemma search_start_ok ptr fuel : ∀ bstart bend,
  0 <= bstart <= bend → bend < nm m → bend - bstart < Z.of_nat fuel → at_ (starts m) bstart <= ptr →
  (∀ i, bend < i < nm m → ptr < at_ (starts m) i) →
  ∃ r, search_start m ptr fuel bstart bend = Ret r ∧ 0 <= r < nm m ∧ at_ (starts m) r <= ptr ∧
    ∀ i, r < i < nm m → ptr < at_ (starts m) i.
Proof.
  induction fuel as [|fuel IH]; intros bstart bend Hb Hn Hf Hs He; [lia|]. cbn [search_start].
  destruct (Z.eqb_spec bstart bend) as [->|Hne]; [exists bend; by split_and!; [|lia..|]|].
  set (mid := (bstart + bend) / 2). assert (Hmid : bstart <= mid < bend).
  { subst mid. split; [apply Z.div_le_lower_bound; lia|apply Z.div_lt_upper_bound; lia]. }
  destruct (Z.leb_spec (at_ (starts m) mid) ptr) as [Hle|Hlt].
  - destruct (Z.eqb_spec bstart mid) as [Heq|Hne']; [|apply IH; [lia|done|lia|done|done]].
    assert (Hbend : bend = bstart + 1).
    { subst mid. pose proof (Z.div_mod (bstart + bend) 2 ltac:(lia)). pose proof (Z.mod_pos_bound (bstart + bend) 2 ltac:(lia)). lia. }
    destruct (Z.leb_spec (at_ (starts m) bend) ptr).
    + exists bend. split_and!; [done|lia..|done].
    + exists bstart. split_and!; [done|lia..|]. intros i Hi. destruct (decide (i = bend)) as [->|]; [done|]. apply He. lia.
  - apply IH; [lia|lia|lia|done|]. intros i Hi. pose proof (starts_mono mid i ltac:(lia) ltac:(lia)). lia.
Qed.

(** The first entry that ends after the address. *)
Lemma search_end_ok ptr fuel : ∀ bstart bend,
  0 <= bstart <= bend → bend < nm m → bend - bstart < Z.of_nat fuel → ptr < at_ (ends m) bend →
  (∀ i, 0 <= i < bstart → at_ (ends m) i <= ptr) → (bstart = 0 ∨ at_ (ends m) bstart <= ptr) →
  ∃ r, search_end m ptr fuel bstart bend = Ret r ∧ 0 <= r < nm m ∧ ptr < at_ (ends m) r ∧
    ∀ i, 0 <= i < r → at_ (ends m) i <= ptr.
Proof.
  induction fuel as [|fuel IH]; intros bstart bend Hb Hn Hf He Hs Hor; [lia|]. cbn [search_end].
  destruct (Z.eqb_spec bstart bend) as [->|Hne]; [exists bend; split_and!; [done|lia|lia|done|done]|].
  set (mid := (bstart + bend) / 2). assert (Hmid : bstart <= mid < bend).
  { subst mid. split; [apply Z.div_le_lower_bound; lia|apply Z.div_lt_upper_bound; lia]. }
  destruct (Z.ltb_spec ptr (at_ (ends m) mid)) as [Hlt|Hge]; [apply IH; [lia|lia|lia|done|done|done]|].
  destruct (Z.eqb_spec bstart mid) as [Heq|Hne'].
  - assert (Hbend : bend = bstart + 1).
    { subst mid. pose proof (Z.div_mod (bstart + bend) 2 ltac:(lia)). pose proof (Z.mod_pos_bound (bstart + bend) 2 ltac:(lia)). lia. }
    exists bend. split_and!; [done|lia|lia|done|]. intros i Hi. destruct (decide (i = bstart)) as [->|]; [congruence|]. apply Hs. lia.
  - apply IH; [lia|done|lia|done| |by right]. intros i Hi. pose proof (ends_mono i mid ltac:(lia) ltac:(lia)). lia.
Qed.

(** ** The scan *)
Lemma scan_ok ptr n : ∀ s, 0 <= s → s + Z.of_nat n = nm m → (∀ i, 0 <= i < s → at_ (starts m) i <= ptr) →
  let r := scan m ptr n s in s <= r <= nm m ∧ (∀ i, 0 <= i < r → at_ (starts m) i <= ptr) ∧
    ∀ i, r <= i < nm m → ptr < at_ (starts m) i.
Proof.
  induction n as [|n IH]; intros s Hs Hn Hlow; cbn [scan]; [split_and!; [lia..|done|intros; lia]|].
  destruct (Z.ltb_spec ptr (at_ (starts m) s)) as [Hlt|Hge].
  - split_and!; [lia..|done|]. intros i Hi. pose proof (starts_mono s i Hs ltac:(lia)). lia.
  - destruct (IH (s + 1)) as (H1 & H2 & H3); [lia..| |split_and!; [lia..|done|done]].
    intros i Hi. destruct (decide (i = s)) as [->|]; [lia|]. apply Hlow. lia.
Qed.

(** The region of an address, if it is in one. *)
Definition region_of (addr : Z) (i : Z) : Prop := 0 <= i < nm m ∧ at_ (starts m) i <= addr < at_ (ends m) i.

Lemma in_region_ok addr : in_region m addr = true ↔ ∃ i, region_of addr i.
Proof.
  pose proof (sm_nm _ Hm). unfold in_region.
  destruct (scan_ok addr (Z.to_nat (nm m)) 0) as (Hr & Hlow & Hhigh); [lia..|intros; lia|].
  set (r := scan m addr (Z.to_nat (nm m)) 0) in *. rewrite andb_true_iff, negb_true_iff, Z.eqb_neq, Z.ltb_lt. split.
  - intros [H0 He]. exists (r - 1). split; [lia|]. split; [|done]. apply Hlow. lia.
  - intros (i & Hi & Hs & He). assert (i < r) by (destruct (decide (i < r)); [done|]; specialize (Hhigh i ltac:(lia)); lia).
    split; [lia|]. pose proof (ends_mono i (r - 1) ltac:(lia) ltac:(lia)). lia.
Qed.
End regions.

(** C20: On sorted regions the two binary searches decide the same addresses as the
    scan of the default build, and give the index of the region; they never run
    out of their [nm] steps. *)
Theorem find_region_equiv m addr :
  sorted_maps m → ∃ r, find_region_idx m addr = Ret r ∧
    (in_region m addr = true → region_of m addr r) ∧ (in_region m addr = false → r = -1).
Proof.
  intros Hm. pose proof (sm_nm _ Hm) as Hnm. pose proof (in_region_ok m Hm addr) as Hin. unfold find_region_idx.
  destruct (_ || _) eqn:E.
  { exists (-1). split_and!; [done| |done]. intros (i & Hi & Hs & He)%Hin. exfalso.
    pose proof (starts_mono m Hm 0 i ltac:(lia) ltac:(lia)). pose proof (ends_mono m Hm i (nm m - 1) ltac:(lia) ltac:(lia)).
    apply orb_true_iff in E as [E|E]; zb; lia. }
  apply orb_false_iff in E as [E1 E2]. zb. unfold binsearch_start, binsearch_end.
  destruct (search_start_ok m Hm addr (Z.to_nat (nm m)) 0 (nm m - 1)) as (a & -> & Ha & Hsa & Hna); [lia..|intros; lia|].
  destruct (search_end_ok m Hm addr (Z.to_nat (nm m)) 0 (nm m - 1)) as (b & -> & Hb & Heb & Hpb); [lia..|intros; lia|by left|].
  cbn [obind]. eexists. split; [done|]. split.
  - intros (i & Hi & Hs & He)%Hin. assert (i = a).
    { destruct (Z.lt_trichotomy i a) as [Hlt|[->|Hlt]]; [|done|specialize (Hna i ltac:(lia)); lia].
      pose proof (sm_next _ Hm i ltac:(lia) ltac:(lia)). pose proof (starts_mono m Hm (i + 1) a ltac:(lia) ltac:(lia)). lia. }
    assert (i = b); [|subst; rewrite Z.eqb_refl; by split].
    destruct (Z.lt_trichotomy i b) as [Hlt|[->|Hlt]]; [specialize (Hpb i ltac:(lia)); lia|done|].
    pose proof (sm_next _ Hm b ltac:(lia) ltac:(lia)). pose proof (starts_mono m Hm (b + 1) i ltac:(lia) ltac:(lia)). lia.
  - intros Hno. destruct (Z.eqb_spec a b) as [->|]; [|done]. assert (in_region m addr = true); [|congruence].
    apply Hin. exists b. by split.
Qed.

(** ** The mixing *)
Definition MURMUR_INV : Z := 0x5f7a0ea7e59b19bd.

Lemma murmur_inv x : u64 (u64 (x * MURMUR) * MURMUR_INV) = u64 x.
Proof.
  unfold u64. rewrite Zmult_mod_idemp_l, <- Z.mul_assoc, <- Zmult_mod_idemp_r.
  replace (MURMUR * MURMUR_INV mod 2 ^ 64) with 1 by by vm_compute. by rewrite Z.mul_1_r.
Qed.

Lemma murmur_inj x y : is_u64 x → is_u64 y → u64 (x * MURMUR) = u64 (y * MURMUR) → x = y.
Proof. intros Hx Hy Heq. rewrite <- (u64_small x Hx), <- (u64_small y Hy), <- (murmur_inv x), <- (murmur_inv y). by rewrite Heq. Qed.

(** A shift by more than half of the word undoes itself. *)
Lemma xorshift_inj x y : is_u64 x → is_u64 y → Z.lxor x (Z.shiftr x 47) = Z.lxor y (Z.shiftr y 47) → x = y.
Proof.
  assert (Hinv : ∀ z, is_u64 z → Z.lxor (Z.lxor z (Z.shiftr z 47)) (Z.shiftr (Z.lxor z (Z.shiftr z 47)) 47) = z).
  { intros z Hz. rewrite Z.shiftr_lxor, Z.shiftr_shiftr by done. rewrite (Z.shiftr_div_pow2 z (47 + 47)) by done.
    rewrite (Z.div_small z) by (unfold is_u64 in Hz; lia). rewrite Z.lxor_0_r, Z.lxor_assoc, Z.lxor_nilpotent. apply Z.lxor_0_r. }
  intros Hx Hy Heq. rewrite <- (Hinv x Hx), <- (Hinv y Hy). by rewrite Heq.
Qed.

Lemma hash_lxor_u64 x y : is_u64 x → is_u64 y → is_u64 (Z.lxor x y).
Proof.
  unfold is_u64. intros Hx Hy. split; [by apply Z.lxor_nonneg; lia|].
  apply Z.log2_lt_cancel. rewrite Z.log2_pow2 by done. pose proof (Z.log2_lxor x y ltac:(lia) ltac:(lia)).
  assert (Hlog : ∀ z, 0 <= z < 2 ^ 64 → Z.log2 z < 64).
  { intros z Hz. destruct (decide (z = 0)) as [->|]; [done|]. apply Z.log2_lt_pow2; lia. }
  pose proof (Hlog x Hx). pose proof (Hlog y Hy). lia.
Qed.

Lemma shiftr_u64 x n : 0 <= n → is_u64 x → is_u64 (Z.shiftr x n).
Proof.
  unfold is_u64. intros Hn Hx. rewrite Z.shiftr_div_pow2 by done. pose proof (Z.pow_pos_nonneg 2 n ltac:(lia) Hn).
  split; [apply Z.div_pos; lia|]. apply Z.div_lt_upper_bound; nia.
Qed.

Lemma lxor_cancel_l x y z : Z.lxor x y = Z.lxor x z → y = z.
Proof.
  intros Heq. rewrite <- (Z.lxor_0_l y), <- (Z.lxor_0_l z), <- (Z.lxor_nilpotent x), !Z.lxor_assoc. by rewrite Heq.
Qed.

(** The word that [k] is mixed to. *)
Definition mixed (k : Z) : Z :=
  let k := u64 (k * MURMUR) in u64 (Z.lxor k (Z.shiftr k 47) * MURMUR).

Lemma mixed_inj k k' : is_u64 k → is_u64 k' → mixed k = mixed k' → k = k'.
Proof.
  intros Hk Hk' Heq. apply murmur_inj; [done..|]. apply xorshift_inj; [apply u64_range..|].
  apply murmur_inj; [apply hash_lxor_u64; [apply u64_range|apply shiftr_u64; [done|apply u64_range]]..|exact Heq].
Qed.

Lemma update_hash_eq h k : update_hash h k MURMUR 47 = u64 (Z.lxor h (mixed k) * MURMUR).
Proof. done. Qed.

(** The hash of a call site. *)
Definition site_hash (size depth : Z) : Z := update_hash (Z.lxor size MURMUR) depth MURMUR 47.

(** For a window of more than eight bytes, as callers pass, no word of the stack
    is read: the hash is a function of the size and of the depth of the stack. *)
Theorem bthash_of_size_and_depth r mem p1 p2 s fuel size :
  is_u64 p1 → is_u64 p2 → p1 ≠ NULL → p2 ≠ NULL → 8 < Z.abs (p1 - p2) →
  bthash r mem (bthash_set_stack_range p1 p2 s) (S fuel) size = Ret (site_hash size (Z.abs (p1 - p2))).
Proof.
  unfold is_u64. intros H1 H2 Hn1 Hn2 Hdiff. unfold bthash_set_stack_range.
  rewrite (proj2 (Z.eqb_neq p1 NULL)), (proj2 (Z.eqb_neq p2 NULL)) by done. cbn [negb andb].
  assert (Hgen : ∀ top bottom, 0 <= bottom < top → top < 2 ^ 64 → 8 < top - bottom →
    bthash r mem (StackRange (u64 (top - bottom)) (align_up (if max_searchable_stack_size <? u64 (top - bottom)
      then u64 (top - max_searchable_stack_size) else bottom)) (align_down top)) (S fuel) size =
    Ret (site_hash size (top - bottom))).
  { intros top bottom Hb Ht Hd. rewrite (u64_small (top - bottom)) by (unfold is_u64; lia). unfold max_searchable_stack_size.
    rewrite (proj2 (Z.ltb_lt _ _)) by lia. rewrite (u64_small (top - 8)) by (unfold is_u64; lia).
    unfold bthash. cbn [stack_size stack_bottom stack_top hash_loop].
    replace (align_up (top - 8)) with (align_down top); [by rewrite Z.eqb_refl|]. unfold align_up, align_down. f_equal.
    replace ((top - 8) mod 8) with (top mod 8); [lia|]. replace (top - 8) with (top + (-1) * 8) by lia.
    symmetry. apply Z_mod_plus_full. }
  destruct (Z.leb_spec p2 p1).
  - rewrite Hgen by lia. do 2 f_equal. lia.
  - rewrite Hgen by lia. do 2 f_equal. lia.
Qed.

(** The hash tells any two sizes apart at the same depth of the stack, and any
    two depths at the same size. *)
Theorem site_hash_injective size size' depth depth' :
  is_u64 size → is_u64 size' → is_u64 depth → is_u64 depth' →
  (site_hash size depth = site_hash size' depth → size = size') ∧
  (site_hash size depth = site_hash size depth' → depth = depth').
Proof.
  intros Hs Hs' Hd Hd'. unfold site_hash. rewrite !update_hash_eq.
  assert (Hok : ∀ a b, is_u64 a → is_u64 (Z.lxor (Z.lxor a MURMUR) (mixed b))).
  { intros a b Ha. apply hash_lxor_u64; [by apply hash_lxor_u64|apply u64_range]. }
  split; intros Heq; apply murmur_inj in Heq; try by apply Hok.
  - rewrite !(Z.lxor_comm _ (mixed depth)) in Heq. apply lxor_cancel_l in Heq.
    rewrite !(Z.lxor_comm _ MURMUR) in Heq. by apply lxor_cancel_l in Heq.
  - apply lxor_cancel_l in Heq. by apply mixed_inj.
Qed.

(** ** Merging regions *)

(** Regions of which no two touch are left as they are. *)
Lemma merge_loop_apart m n : ∀ i, 0 <= i →
  (∀ j, i <= j < i + Z.of_nat n → at_ (ends m) j ≠ at_ (starts m) (j + 1)) →
  merge_loop n i i m = (i + Z.of_nat n, m).
Proof.
  induction n as [|n IH]; intros i Hi Hj; cbn [merge_loop]; [do 2 f_equal; lia|]. unfold merge_step.
  rewrite (proj2 (Z.eqb_neq _ _)) by (apply Hj; lia). rewrite (IH (i + 1)); [f_equal; lia|lia|intros j Hj'; apply Hj; lia].
Qed.

Theorem preprocess_keeps_apart m :
  0 <= nm m → (∀ j, 0 <= j → j + 1 < nm m → at_ (ends m) j ≠ at_ (starts m) (j + 1)) → preprocess_maps m = m.
Proof.
  intros Hn Hj. unfold preprocess_maps. destruct (decide (nm m = 0)) as [E|E].
  - rewrite E. change (Z.to_nat (0 - 1)) with 0%nat. cbn [merge_loop]. by rewrite E.
  - rewrite merge_loop_apart; [|lia|intros j Hj'; apply Hj; lia]. rewrite (proj2 (Z.ltb_lt _ _)) by lia.
    destruct m as [ss es n]. simpl in *. f_equal. lia.
Qed.

(** After a merge the next region is counted but not moved down: the third of
    three regions, of which the first two touch, is lost. *)
Theorem preprocess_loses_region :
  let m := Maps [0x1000; 0x2000; 0x5000] [0x2000; 0x3000; 0x6000] 3 in
  in_region m 0x5000 = true ∧ in_region (preprocess_maps m) 0x5000 = false ∧
  take 2 (starts (preprocess_maps m)) = [0x1000; 0x2000] ∧ nm (preprocess_maps m) = 2.
Proof. by vm_compute. Qed.

(** ** Defects *)

(** The bound is tested after the entry has been written: one line more than the
    arrays have room for is written past their ends. *)
Theorem read_maps_overflows :
  let line i := MapLine (Z.of_nat i * 8192 + 4096) (Z.of_nat i * 8192 + 8192) true false false in
  read_maps (line <$> seq 0 1025) = Stop OutOfBounds ∧ nm <$> (match read_maps (line <$> seq 0 1024) with
    Ret r => Some (rmaps r) | Stop _ => None end) = Some 1024.
Proof. by vm_compute. Qed.

(** A range without a word boundary inside: the bottom is aligned above the top,
    and the loop walks off the stack. *)
Theorem bthash_runs_off_stack :
  let s := bthash_set_stack_range 0x7004 0x7004 (StackRange 0 0 0) in
  let mem a := if (0x7000 <=? a) && (a <? 0x8000) then Some 0 else None in
  stack_bottom s = stack_top s + 8 ∧
  bthash (Regions no_maps 0 0 0) mem s 1000 64 = Stop BadDeref.
Proof. by vm_compute. Qed.

(** ** Instances *)
Definition three_regions : maps := Maps [0x1000; 0x4000; 0x9000] [0x2000; 0x6000; 0xa000] 3.

Lemma three_regions_sorted : sorted_maps three_regions.
Proof.
  split; [done|..].
  - intros i Hi. assert (i = 0 ∨ i = 1 ∨ i = 2) as [->|[->| ->]] by (cbn in Hi; lia); by vm_compute.
  - intros i H0 Hi. assert (i = 0 ∨ i = 1) as [->| ->] by (cbn in Hi; lia); by vm_compute.
Qed.

Lemma find_region_equiv_witness :
  ∃ r, find_region_idx three_regions 0x5000 = Ret r ∧
    (in_region three_regions 0x5000 = true → region_of three_regions 0x5000 r) ∧
    (in_region three_regions 0x5000 = false → r = -1).
Proof. exact (find_region_equiv three_regions 0x5000 three_regions_sorted). Defined.

Lemma bthash_of_size_and_depth_witness :
  bthash (Regions three_regions 0 0 0) (λ _, None) (bthash_set_stack_range 0x7fff1000 0x7fff0100 (StackRange 0 0 0)) 1 64 =
    Ret (site_hash 64 (Z.abs (0x7fff1000 - 0x7fff0100))).
Proof. refine (bthash_of_size_and_depth _ _ 0x7fff1000 0x7fff0100 _ 0 64 _ _ _ _ _); done. Defined.

Lemma site_hash_injective_witness :
  (site_hash 64 3840 = site_hash 128 3840 → 64 = 128) ∧ (site_hash 64 3840 = site_hash 64 3848 → 3840 = 3848).
Proof. refine (site_hash_injective 64 128 3840 3848 _ _ _ _); done. Defined.

Lemma preprocess_keeps_apart_witness : preprocess_maps three_regions = three_regions.
Proof.
  refine (preprocess_keeps_apart three_regions _ _); [done|]. intros j H0 Hj.
  assert (j = 0 ∨ j = 1) as [->| ->] by (cbn in Hj; lia); by vm_compute.
Defined.
