(* ===== verification/Hbw.v ===== *)
(** * The high-bandwidth interface ([src/hbwmalloc.c])

    The policy is set once, by the program or by the first allocation; a kind is
    then chosen per page size and remembered.  Also the check that the pages of
    a region lie on high-bandwidth nodes. *)
From S2P Require Import CString Prelude Counters Registry.

Definition HBW_POLICY_BIND : Z := 1.
Definition HBW_POLICY_PREFERRED : Z := 2.
Definition HBW_POLICY_INTERLEAVE : Z := 3.
Definition HBW_POLICY_BIND_ALL : Z := 4.
Definition HBW_PAGESIZE_4KB : Z := 1.
Definition HBW_PAGESIZE_2MB : Z := 2.
Definition HBW_PAGESIZE_1GB_STRICT : Z := 3.
Definition HBW_PAGESIZE_1GB : Z := 4.
Definition HBW_PAGESIZE_MAX_VALUE : Z := 5.
Definition HBW_TOUCH_PAGES : Z := 1.
Definition EPERM : Z := 1.
Definition EFAULT : Z := 14.
Definition ENODEV : Z := 19.
Definition EINVAL : Z := 22.

Definition MEMKIND_HBW : Z := static_kind PARTITION_HBW.
Definition MEMKIND_HBW_HUGETLB : Z := static_kind PARTITION_HBW_HUGETLB.
Definition MEMKIND_HBW_PREFERRED : Z := static_kind PARTITION_HBW_PREFERRED.
Definition MEMKIND_HBW_PREFERRED_HUGETLB : Z := static_kind PARTITION_HBW_PREFERRED_HUGETLB.
Definition MEMKIND_HUGETLB : Z := static_kind PARTITION_HUGETLB.
Definition MEMKIND_HBW_GBTLB : Z := static_kind 6.
Definition MEMKIND_HBW_PREFERRED_GBTLB : Z := static_kind 7.
Definition MEMKIND_GBTLB : Z := static_kind 8.
Definition MEMKIND_HBW_INTERLEAVE : Z := static_kind PARTITION_HBW_INTERLEAVE.
Definition MEMKIND_HBW_ALL : Z := static_kind PARTITION_HBW_ALL.
Definition MEMKIND_HBW_ALL_HUGETLB : Z := static_kind PARTITION_HBW_ALL_HUGETLB.
Definition MEMKIND_DEFAULT : Z := static_kind PARTITION_DEFAULT.

(** The static variables; [None] is a null kind. *)
Record hbw_state := HbwState {
  hbw_policy_g : Z;
  hbw_policy_once_g : bool;
  pagesize_kind : list (option Z);
}.

Definition hbw_initial : hbw_state :=
  HbwState HBW_POLICY_PREFERRED false (replicate (Z.to_nat HBW_PAGESIZE_MAX_VALUE) None).

(** [pthread_once] with the routine that assigns the mode. *)
Definition policy_once (mode : Z) (s : hbw_state) : hbw_state :=
  if hbw_policy_once_g s then s else HbwState mode true (pagesize_kind s).

Definition hbw_get_policy (s : hbw_state) : Z := hbw_policy_g s.

Definition hbw_set_policy (mode : Z) (s : hbw_state) : Z * hbw_state :=
  if (mode =? HBW_POLICY_PREFERRED) || (mode =? HBW_POLICY_BIND) || (mode =? HBW_POLICY_BIND_ALL) ||
     (mode =? HBW_POLICY_INTERLEAVE) then
    let s := policy_once mode s in
    if negb (mode =? hbw_policy_g s) then (EPERM, s) else (0, s)
  else (EINVAL, s).

Section ops.
(** The result of [memkind_check_available(MEMKIND_HBW)]. *)
Context (available : Z).

Definition hbw_choose_kind (pagesize : Z) (s : hbw_state) : Z * hbw_state :=
  let (_, s) := hbw_set_policy (hbw_policy_g s) s in
  let policy := hbw_get_policy s in
  let result :=
    if negb (policy =? HBW_POLICY_PREFERRED) then
      if pagesize =? HBW_PAGESIZE_2MB then
        if policy =? HBW_POLICY_BIND_ALL then MEMKIND_HBW_ALL_HUGETLB else MEMKIND_HBW_HUGETLB
      else if (pagesize =? HBW_PAGESIZE_1GB) || (pagesize =? HBW_PAGESIZE_1GB_STRICT) then MEMKIND_HBW_GBTLB
      else if policy =? HBW_POLICY_BIND then MEMKIND_HBW
      else if policy =? HBW_POLICY_BIND_ALL then MEMKIND_HBW_ALL
      else MEMKIND_HBW_INTERLEAVE
    else if available =? 0 then
      if pagesize =? HBW_PAGESIZE_2MB then MEMKIND_HBW_PREFERRED_HUGETLB
      else if (pagesize =? HBW_PAGESIZE_1GB) || (pagesize =? HBW_PAGESIZE_1GB_STRICT)
      then MEMKIND_HBW_PREFERRED_GBTLB
      else MEMKIND_HBW_PREFERRED
    else
      if pagesize =? HBW_PAGESIZE_2MB then MEMKIND_HUGETLB
      else if (pagesize =? HBW_PAGESIZE_1GB) || (pagesize =? HBW_PAGESIZE_1GB_STRICT) then MEMKIND_GBTLB
      else MEMKIND_DEFAULT in
  (result, s).

(** An index outside of the array is a fault. *)
Definition hbw_get_kind (pagesize : Z) (s : hbw_state) : outcome (Z * hbw_state) :=
  if negb ((0 <=? pagesize) && (pagesize <? HBW_PAGESIZE_MAX_VALUE)) then Stop OutOfBounds else
  match default None (pagesize_kind s !! Z.to_nat pagesize) with
  | Some k => Ret (k, s)
  | None =>
      let (k, s) := hbw_choose_kind pagesize s in
      Ret (k, HbwState (hbw_policy_g s) (hbw_policy_once_g s) (<[Z.to_nat pagesize := Some k]> (pagesize_kind s)))
  end.

Definition hbw_check_available : Z := if available =? 0 then 0 else ENODEV.

(** [hbw_malloc], [hbw_calloc], [hbw_realloc] and [hbw_posix_memalign] call the
    dispatch with this kind. *)
Definition hbw_kind (s : hbw_state) : outcome (Z * hbw_state) := hbw_get_kind HBW_PAGESIZE_4KB s.

(** The error, or the kind that [memkind_posix_memalign] is called with. *)
Definition hbw_posix_memalign_psize (size pagesize : Z) (s : hbw_state) : outcome ((Z + Z) * hbw_state) :=
  if (pagesize =? HBW_PAGESIZE_1GB_STRICT) && negb (size mod 2 ^ 30 =? 0) then Ret (inl EINVAL, s) else
  if ((pagesize =? HBW_PAGESIZE_2MB) || (pagesize =? HBW_PAGESIZE_1GB_STRICT) || (pagesize =? HBW_PAGESIZE_1GB)) &&
     (hbw_get_policy s =? HBW_POLICY_INTERLEAVE) then Ret (inl EINVAL, s) else
  let! (k, s) := hbw_get_kind pagesize s in
  Ret (inr k, s).
End ops.

(** ** Verifying a region *)
Definition block_size : Z := 64.

Section verify.
Context (page_size : Z).
(** The node of a page, negative when there is none; the mask of the nodes;
    whether [move_pages] succeeds for the pages that start at the address. *)
Context (node_of : Z → Z) (hbw_node : Z → bool) (move_ok : Z → bool).

(** The inner loop: the pages of a block, and where it ends.  The array has
    [block_size] entries. *)
Fixpoint collect (fuel : nat) (iter_end p : Z) (pages : list Z) : outcome (list Z * Z) :=
  match fuel with
  | O => Stop OutOfFuel
  | S fuel =>
      if p <? iter_end then
        if block_size <=? Z.of_nat (length pages) then Stop OutOfBounds
        else collect fuel iter_end (u64 (p + page_size)) (pages ++ [p])
      else Ret (pages, p)
  end.

Fixpoint check_nodes (pages : list Z) : bool :=
  match pages with
  | [] => true
  | p :: pages => negb (node_of p <? 0) && hbw_node (node_of p) && check_nodes pages
  end.

Fixpoint verify_loop (fuel : nat) (end_ p : Z) : outcome Z :=
  match fuel with
  | O => Stop OutOfFuel
  | S fuel =>
      if p <? end_ then
        let iter_end := u64 (p + block_size * page_size) in
        let iter_end := if end_ <? iter_end then end_ else iter_end in
        let! (pages, p') := collect (S (Z.to_nat block_size)) iter_end p [] in
        if negb (move_ok p) then Ret EFAULT else
        if check_nodes pages then verify_loop fuel end_ p' else Ret (-1)
      else Ret 0
  end.

(** One round per block of pages, and the last test. *)
Definition rounds (size : Z) : nat := S (S (Z.to_nat (size / (block_size * page_size) + 1))).

Definition hbw_verify_memory_region (addr size flags : Z) : outcome Z :=
  if (addr =? NULL) || (size =? 0) || negb (Z.land flags (Z.lnot HBW_TOUCH_PAGES) =? 0) then Ret EINVAL else
  let end_ := u64 (addr + size) in
  let aligned_beg := Z.land addr (u64 (Z.lnot (page_size - 1))) in
  verify_loop (rounds size) end_ aligned_beg.
End verify.
