(* ===== verification/HbwSpec.v ===== *)
(** * What the high-bandwidth interface promises *)
From S2P Require Import CString Prelude Counters Registry Hbw.

(** ** The policy *)
Definition hbw_mode (mode : Z) : Prop :=
  mode = HBW_POLICY_PREFERRED ∨ mode = HBW_POLICY_BIND ∨ mode = HBW_POLICY_BIND_ALL ∨ mode = HBW_POLICY_INTERLEAVE.

(** The kind of a policy and a page size. *)
Definition kind_for (available policy pagesize : Z) : Z :=
  (hbw_choose_kind available pagesize (HbwState policy true [])).1.

(** Once a kind is remembered the policy is fixed, and the kind is the one that
    belongs to the policy. *)
Record hbw_ok (available : Z) (s : hbw_state) : Prop := {
  ho_len : length (pagesize_kind s) = Z.to_nat HBW_PAGESIZE_MAX_VALUE;
  ho_mode : hbw_mode (hbw_policy_g s);
  ho_first : hbw_policy_once_g s = false → hbw_policy_g s = HBW_POLICY_PREFERRED;
  ho_kind i k : pagesize_kind s !! i = Some (Some k) →
    hbw_policy_once_g s = true ∧ k = kind_for available (hbw_policy_g s) (Z.of_nat i);
}.

Lemma hbw_initial_ok available : hbw_ok available hbw_initial.
Proof. split; [done|by left|done|]. intros i k [Hk _]%lookup_replicate. done. Qed.

Lemma set_policy_mode mode s : hbw_mode mode → hbw_set_policy mode s =
  (if mode =? hbw_policy_g (policy_once mode s) then 0 else EPERM, policy_once mode s).
Proof. intros Hm. unfold hbw_set_policy. destruct Hm as [->|[->|[->| ->]]];
  (match goal with |- context [negb (?m =? hbw_policy_g (policy_once ?m s))] => by destruct (m =? hbw_policy_g (policy_once m s)) end).
Qed.

Lemma policy_once_ok available mode s : hbw_ok available s → hbw_mode mode → hbw_ok available (policy_once mode s).
Proof.
  intros Hs Hm. unfold policy_once. destruct (hbw_policy_once_g s) eqn:E; [done|]. destruct Hs. split; simpl; try done.
  intros i k Hk. destruct (ho_kind0 i k Hk). congruence.
Qed.

Lemma choose_kind_eq available pagesize s :
  hbw_mode (hbw_policy_g s) → (hbw_policy_once_g s = false → hbw_policy_g s = HBW_POLICY_PREFERRED) →
  hbw_choose_kind available pagesize s =
    (kind_for available (hbw_policy_g s) pagesize, HbwState (hbw_policy_g s) true (pagesize_kind s)).
Proof.
  intros Hm Hf. unfold kind_for, hbw_choose_kind. rewrite !set_policy_mode by done.
  unfold policy_once, hbw_get_policy. cbn [hbw_policy_once_g hbw_policy_g fst].
  destruct (hbw_policy_once_g s) eqn:E; [destruct s; simpl in *; by subst|done].
Qed.

(** What the program calls. *)
Inductive hbw_call :=
  | SetPolicy (mode : Z)
  | GetKind (pagesize : Z).

Definition run_hbw (available : Z) (x : hbw_call) (s : hbw_state) : outcome (Z * hbw_state) :=
  match x with
  | SetPolicy mode => Ret (hbw_set_policy mode s)
  | GetKind pagesize => hbw_get_kind available pagesize s
  end.

Definition hbw_pre (x : hbw_call) : Prop :=
  match x with SetPolicy _ => True | GetKind pagesize => 0 <= pagesize < HBW_PAGESIZE_MAX_VALUE end.

(** The policy is fixed by the first call that sets it or needs it: afterwards it
    never changes, setting it succeeds exactly for the same mode ([EPERM] for
    another, [EINVAL] for none), and every page size gets the kind of that
    policy, whether it is chosen now or was remembered. *)
Theorem hbw_policy_fixed available x s :
  hbw_ok available s → hbw_pre x →
  ∃ r s', run_hbw available x s = Ret (r, s') ∧ hbw_ok available s' ∧
    (hbw_policy_once_g s = true → hbw_policy_g s' = hbw_policy_g s ∧ hbw_policy_once_g s' = true) ∧
    match x with
    | SetPolicy mode => (r = 0 ↔ hbw_mode mode ∧ hbw_policy_g s' = mode) ∧ (r = EINVAL ↔ ¬ hbw_mode mode)
    | GetKind pagesize => hbw_policy_once_g s' = true ∧ r = kind_for available (hbw_policy_g s') pagesize
    end.
Proof.
  intros Hs Hx. destruct x as [mode|pagesize]; cbn [run_hbw hbw_pre] in *.
  - destruct (decide (mode = HBW_POLICY_PREFERRED ∨ mode = HBW_POLICY_BIND ∨ mode = HBW_POLICY_BIND_ALL ∨
      mode = HBW_POLICY_INTERLEAVE)) as [Hm|Hm].
    + rewrite set_policy_mode by done. eexists _, _. split; [done|]. split; [by apply policy_once_ok|].
      split; [unfold policy_once; intros E; by rewrite E|]. split; [|split; [case_if; done|done]].
      destruct (Z.eqb_spec mode (hbw_policy_g (policy_once mode s))); naive_solver.
    + exists EINVAL, s. split_and!; [|done|done|naive_solver|naive_solver].
      unfold hbw_set_policy. rewrite !(proj2 (Z.eqb_neq mode _)) by naive_solver. done.
  - unfold hbw_get_kind. rewrite (proj2 (Z.leb_le _ _)), (proj2 (Z.ltb_lt _ _)) by lia. cbn [andb negb].
    destruct (pagesize_kind s !! Z.to_nat pagesize) as [[k|]|] eqn:Hk; cbn [default from_option id].
    + destruct (ho_kind _ _ Hs _ _ Hk) as [Honce ->]. rewrite Z2Nat.id by lia. by eexists _, _.
    + pose proof Hs as []. rewrite choose_kind_eq by done. eexists _, _. split; [done|].
      split; [|split; [done|done]]. split; cbn [pagesize_kind hbw_policy_g hbw_policy_once_g]; [by rewrite length_insert|done..|].
      intros i k [(<- & [= <-] & _)|(_ & Hi)]%list_lookup_insert_Some; [rewrite Z2Nat.id by lia; done|].
      split; [done|]. by destruct (ho_kind0 i k Hi).
    + apply lookup_ge_None in Hk. rewrite (ho_len _ _ Hs) in Hk. lia.
Qed.

(** ** Verifying a region *)
Section verify.
Context (k : Z) (Hk : 0 <= k <= 40) (node_of : Z → Z) (hbw_node move_ok : Z → bool).
Abbreviation ps := (2 ^ k).

Definition good (p : Z) : Prop := 0 <= node_of p ∧ hbw_node (node_of p) = true.
Definition pages_from (p n : Z) : list Z := (λ i, p + i * ps) <$> seqZ 0 n.

Lemma page_size_range : 0 < ps <= 2 ^ 40.
Proof. split; [lia|apply Z.pow_le_mono_r; lia]. Qed.

Lemma pages_from_succ p n : 0 < n → pages_from p n = p :: pages_from (p + ps) (n - 1).
Proof.
  intros Hn. unfold pages_from. rewrite seqZ_cons by lia. cbn [fmap list_fmap]. f_equal; [lia|].
  replace (seqZ (Z.succ 0) (Z.pred n)) with (Z.add 1 <$> seqZ 0 (n - 1)) by (rewrite fmap_add_seqZ; f_equal; lia).
  rewrite <- list_fmap_compose. apply list_fmap_ext. intros i x Hx. simpl. lia.
Qed.

Lemma collect_ok iter_end fuel : ∀ n p pages,
  0 <= n → Z.of_nat (length pages) + n <= block_size → n < Z.of_nat fuel → 0 <= p → p + n * ps < 2 ^ 64 →
  iter_end <= p + n * ps → (0 < n → p + (n - 1) * ps < iter_end) →
  collect ps fuel iter_end p pages = Ret (pages ++ pages_from p n, p + n * ps).
Proof.
  pose proof page_size_range. induction fuel as [|fuel IH]; intros n p pages Hn Hlen Hf Hp Hhi Hle Hlt; [lia|]. cbn [collect].
  destruct (decide (n = 0)) as [->|Hn0].
  - rewrite (proj2 (Z.ltb_ge _ _)) by lia. change (pages_from p 0) with (@nil Z). rewrite app_nil_r. do 2 f_equal. lia.
  - assert (p < iter_end) by nia. rewrite (proj2 (Z.ltb_lt _ _)) by lia. rewrite (proj2 (Z.leb_gt _ _)) by lia.
    rewrite u64_small by (unfold is_u64; nia). rewrite (IH (n - 1)); [|rewrite ?length_app; simpl; nia..].
    rewrite (pages_from_succ p n) by lia. rewrite <- app_assoc. do 2 f_equal. lia.
Qed.

Lemma check_nodes_ok pages : check_nodes node_of hbw_node pages = true ↔ ∀ p, p ∈ pages → good p.
Proof.
  induction pages as [|q l IH]; cbn [check_nodes]; [split; [by intros _ p ?%not_elem_of_nil|done]|].
  rewrite !andb_true_iff, negb_true_iff, Z.ltb_ge, IH. unfold good. split.
  - intros [[H1 H2] H3] p [->|Hp]%elem_of_cons; [done|by apply H3].
  - intros Hall. split; [apply Hall; by left|]. intros p Hp. apply Hall. by right.
Qed.

Lemma verify_loop_ok end_ fuel : ∀ p,
  0 <= p → 0 <= end_ <= 2 ^ 63 → p <= end_ + ps → end_ - p <= (Z.of_nat fuel - 1) * (block_size * ps) → (0 < fuel)%nat →
  ∃ r, verify_loop ps node_of hbw_node move_ok fuel end_ p = Ret r ∧
    (r = 0 → ∀ i, 0 <= i → p + i * ps < end_ → good (p + i * ps)) ∧
    ((∀ q, move_ok q = true) → (∀ i, 0 <= i → p + i * ps < end_ → good (p + i * ps)) → r = 0).
Proof.
  pose proof page_size_range as Hps. induction fuel as [|fuel IH]; intros p Hp He Hpe Hf H0; [lia|]. cbn [verify_loop].
  destruct (Z.ltb_spec p end_) as [Hlt|Hge]; [|exists 0; split_and!; [done|intros _ i Hi; nia|done]].
  unfold block_size in *. rewrite (u64_small (p + 64 * ps)) by (unfold is_u64; lia).
  set (ie := if end_ <? p + 64 * ps then end_ else p + 64 * ps).
  assert (Hn : ∃ n, 0 < n <= 64 ∧ p + (n - 1) * ps < ie <= p + n * ps ∧ (n = 64 ∨ end_ <= p + n * ps)).
  { exists ((ie - p + ps - 1) / ps). pose proof (round_up_spec (ie - p) ps ltac:(lia)) as Hr.
    assert (p < ie <= p + 64 * ps) by (subst ie; destruct (Z.ltb_spec end_ (p + 64 * ps)); lia).
    assert (0 < (ie - p + ps - 1) / ps <= 64) by nia. split_and!; [lia..|nia|nia|].
    subst ie. destruct (Z.ltb_spec end_ (p + 64 * ps)); [right; nia|left; nia]. }
  destruct Hn as (n & Hn & Hie & Hlast).
  rewrite (collect_ok ie _ n p []); [|simpl; unfold block_size; nia..]. cbn [obind app].
  destruct (move_ok p) eqn:Emove; cbn [negb]; [|exists EFAULT; split_and!; [done..|intros Hm; by rewrite Hm in Emove]].
  assert (Hpages : ∀ q, q ∈ pages_from p n ↔ ∃ i, 0 <= i < n ∧ q = p + i * ps).
  { intros q. unfold pages_from. rewrite list_elem_of_fmap. setoid_rewrite elem_of_seqZ. naive_solver lia. }
  destruct (check_nodes node_of hbw_node (pages_from p n)) eqn:Ec.
  - rewrite check_nodes_ok in Ec. assert (Hiend : ie <= end_) by (subst ie; destruct (Z.ltb_spec end_ (p + 64 * ps)); lia).
    assert (Hfuel : 1 <= Z.of_nat fuel) by (destruct fuel; [cbn in Hf; lia|lia]).
    destruct (IH (p + n * ps)) as (r & Hr & H1 & H2); [nia|done|lia| |lia|].
    { destruct Hlast as [->|Hle]; [lia|]. pose proof (Z.mul_nonneg_nonneg (Z.of_nat fuel - 1) (64 * ps) ltac:(lia) ltac:(lia)). lia. }
    exists r. split_and!; [done| |].
    + intros Hr0 i Hi Hlti. destruct (decide (i < n)); [apply Ec, Hpages; by exists i|].
      replace (p + i * ps) with (p + n * ps + (i - n) * ps) in * by lia. apply H1; [done|lia|done].
    + intros Hm Hall. apply H2; [done|]. intros i Hi Hlti. replace (p + n * ps + i * ps) with (p + (n + i) * ps) in * by lia.
      apply Hall; [lia|done].
  - exists (-1). split_and!; [done..|]. intros _ Hall. exfalso. assert (Hc : check_nodes node_of hbw_node (pages_from p n) = true).
    { apply check_nodes_ok. intros q (i & Hi & ->)%Hpages. apply Hall; [lia|]. subst ie. destruct (Z.ltb_spec end_ (p + 64 * ps)); nia. }
    congruence.
Qed.
End verify.

Definition page_of (k x : Z) : Z := x / 2 ^ k * 2 ^ k.


(** A size that wraps around the address space is taken for an empty region and
    accepted, whatever the nodes are. *)
Theorem verify_region_wraps :
  hbw_verify_memory_region 4096 (λ _, -1) (λ _, false) (λ _, true) 0x100000 (2 ^ 64 - 0x100000) 0 = Ret 0.
Proof. reflexivity. Qed.

(** An unknown page size reads past the array of kinds. *)
Theorem unknown_pagesize_overflows :
  hbw_posix_memalign_psize 0 4096 HBW_PAGESIZE_MAX_VALUE hbw_initial = Stop OutOfBounds.
Proof. by vm_compute. Qed.


Lemma hbw_policy_fixed_witness :
  ∃ r s', run_hbw 0 (SetPolicy HBW_POLICY_BIND) hbw_initial = Ret (r, s') ∧ hbw_ok 0 s' ∧
    (hbw_policy_once_g hbw_initial = true →
      hbw_policy_g s' = hbw_policy_g hbw_initial ∧ hbw_policy_once_g s' = true) ∧
    (r = 0 ↔ hbw_mode HBW_POLICY_BIND ∧ hbw_policy_g s' = HBW_POLICY_BIND) ∧ (r = EINVAL ↔ ¬ hbw_mode HBW_POLICY_BIND).
Proof. exact (hbw_policy_fixed 0 (SetPolicy HBW_POLICY_BIND) hbw_initial (hbw_initial_ok 0) I). Defined.
