(* ===== verification/Numa.v ===== *)
(** * Choosing NUMA nodes ([src/memkind_bitmask.c], [src/memkind_hbw.c],
    [src/memkind_dax_kmem.c], [src/memkind_mem_attributes.c], [src/memkind_capacity.c])

    A kind that binds memory to nodes keeps, for every processor, the vector of
    nodes its pages may come from.  The vectors are filled once, from the
    distances of libnuma or the attributes of hwloc, and copied into the mask
    given to [mbind] by every allocation.  libnuma and hwloc are arguments. *)
From S2P Require Import CString Prelude Registry Arena.
Local Open Scope string_scope.
Local Open Scope Z_scope.

Inductive memkind_node_variant_t := NODE_VARIANT_MULTIPLE | NODE_VARIANT_SINGLE | NODE_VARIANT_ALL.

#[export] Instance node_variant_eq : EqDecision memkind_node_variant_t.
Proof. solve_decision. Defined.

(** ** Vectors ([include/memkind/internal/vec.h]) *)

Definition VEC_INIT_SIZE : Z := 8.

Record vec := Vec { items : list Z; capacity : Z }.

Definition VEC_INITIALIZER : vec := Vec [] 0.

Definition VEC_SIZE (v : vec) : Z := Z.of_nat (length (items v)).
Definition VEC_CLEAR (v : vec) : vec := Vec [] (capacity v).

Section vectors.
(** Whether [realloc] of a vector to this capacity succeeds. *)
Context (grow : Z → bool).

(** The vector when there is room for the capacity; the callers ignore the
    result -1 of a push that found none. *)
Definition VEC_RESERVE (ncapacity : Z) (v : vec) : option vec :=
  if (VEC_SIZE v =? 0) || (VEC_SIZE v <? ncapacity) then
    let ncap := if ncapacity =? 0 then VEC_INIT_SIZE else ncapacity in
    if grow ncap then Some (Vec (items v) ncap) else None
  else Some v.

Definition VEC_PUSH_BACK (v : vec) (element : Z) : vec :=
  let room := if capacity v =? VEC_SIZE v then VEC_RESERVE (capacity v * 2) v else Some v in
  match room with
  | Some v' => Vec (items v' ++ [element])%list (capacity v')
  | None => v
  end.

(** ** The nearest destinations of a node *)

(** The body of the loop over the destinations: [min_distance] and
    [current_dest_nodes]. *)
Definition consider (variant : memkind_node_variant_t) (dist dest : Z) (s : Z * vec) : Z * vec :=
  let (min_distance, current) := s in
  match variant with
  | NODE_VARIANT_ALL => (min_distance, VEC_PUSH_BACK current dest)
  | _ =>
      if dist <? min_distance then (dist, VEC_PUSH_BACK (VEC_CLEAR current) dest)
      else if dist =? min_distance then (min_distance, VEC_PUSH_BACK current dest)
      else (min_distance, current)
  end.

(** libnuma: the number of configured processors, the largest node, the
    processors of a node (an error for a node that is missing) and
    [numa_distance]; then whether [numa_allocate_cpumask] and [calloc] succeed. *)
Record topology := Topology {
  num_cpu : Z;
  max_node_id : Z;
  numa_node_to_cpus : Z → option (list Z);
  numa_distance : Z → Z → Z;
  cpumask_ok : bool;
  calloc_ok : bool;
}.

Fixpoint dest_loop (t : topology) (variant : memkind_node_variant_t) (dest_nodes_mask : Z → bool) (init_node : Z)
    (n : nat) (dest_node : Z) (s : Z * vec) : Z * vec :=
  match n with
  | O => s
  | S n =>
      let s := if dest_nodes_mask dest_node then consider variant (numa_distance t init_node dest_node) dest_node s
               else s in
      dest_loop t variant dest_nodes_mask init_node n (dest_node + 1) s
  end.

(** [VEC_FOREACH] of the found nodes, pushed on the vector of one processor. *)
Definition push_nodes (current : list Z) (v : vec) : vec := foldl VEC_PUSH_BACK v current.

Fixpoint fill_cpus (cpus current : list Z) (cpu_id : Z) (node_arr : list vec) : list vec :=
  match node_arr with
  | [] => []
  | v :: rest =>
      (if bool_decide (cpu_id ∈ cpus) then push_nodes current v else v) ::
      fill_cpus cpus current (cpu_id + 1) rest
  end.

(** The loop over the initiators: the status and the array. *)
Fixpoint init_loop (t : topology) (variant : memkind_node_variant_t) (dest_nodes_mask : Z → bool)
    (n : nat) (init_node : Z) (current : vec) (node_arr : list vec) : Z * list vec :=
  match n with
  | O => (MEMKIND_SUCCESS, node_arr)
  | S n =>
      match numa_node_to_cpus t init_node with
      | None | Some [] => init_loop t variant dest_nodes_mask n (init_node + 1) current node_arr
      | Some cpus =>
          let '(_, current) := dest_loop t variant dest_nodes_mask init_node (Z.to_nat (max_node_id t + 1)) 0
                                 (INT_MAX, VEC_CLEAR current) in
          if match variant with NODE_VARIANT_SINGLE => 1 <? VEC_SIZE current | _ => false end
          then (MEMKIND_ERROR_RUNTIME, [])
          else init_loop t variant dest_nodes_mask n (init_node + 1) current
                 (fill_cpus cpus (items current) 0 node_arr)
      end
  end.

(** The status and [*numanode]; [get_bitmask] is an error or the mask. *)
Definition set_closest_numanode (t : topology) (get_bitmask : Z + (Z → bool)) (variant : memkind_node_variant_t) :
    Z * option (list vec) :=
  match get_bitmask with
  | inl status => (status, None)
  | inr dest_nodes_mask =>
      if negb (cpumask_ok t) then (MEMKIND_ERROR_MALLOC, None) else
      if negb (calloc_ok t) then (MEMKIND_ERROR_MALLOC, None) else
      let (status, node_arr) :=
        init_loop t variant dest_nodes_mask (Z.to_nat (max_node_id t + 1)) 0 VEC_INITIALIZER
          (replicate (Z.to_nat (num_cpu t)) VEC_INITIALIZER) in
      (status, if status =? MEMKIND_SUCCESS then Some node_arr else None)
  end.

(** ** The mask of the current processor *)

Definition numa_bitmask_setbit (maxnode : Z) (mask : gset Z) (node : Z) : gset Z :=
  if (0 <=? node) && (node <? maxnode) then {[node]} ∪ mask else mask.

(** [cpu] is the result of [sched_getcpu]; no mask is passed when only the
    availability is asked for. *)
Definition set_bitmask_for_current_numanode (nodemask : option (gset Z)) (maxnode cpu : Z) (numanode : list vec) :
    outcome (Z * option (gset Z)) :=
  match nodemask with
  | None => Ret (MEMKIND_SUCCESS, None)
  | Some _ =>
      if (cpu <? 0) || (Z.of_nat (length numanode) <=? cpu) then Stop OutOfBounds else
      let! v := deref (numanode !! Z.to_nat cpu) in
      Ret (MEMKIND_SUCCESS, Some (foldl (numa_bitmask_setbit maxnode) ∅ (items v)))
  end.

(** One of the tables [memkind_hbw_numanode_g] and [memkind_dax_kmem_numanode_g]:
    nothing before [pthread_once] has run, then the result of the search. *)
Definition numanode_t : Type := option (Z * option (list vec)).

(** [memkind_hbw_get_mbind_nodemask] and its siblings: they differ in the
    variant and in [get_bitmask]. *)
Definition get_mbind_nodemask (t : topology) (get_bitmask : Z + (Z → bool)) (variant : memkind_node_variant_t)
    (nodemask : option (gset Z)) (maxnode cpu : Z) (g : numanode_t) :
    outcome (Z * option (gset Z) * numanode_t) :=
  let '(init_err, numanode) := match g with Some x => x | None => set_closest_numanode t get_bitmask variant end in
  if init_err =? MEMKIND_SUCCESS then
    let! arr := deref numanode in
    let! (e, m) := set_bitmask_for_current_numanode nodemask maxnode cpu arr in
    Ret (e, m, Some (e, numanode))
  else Ret (init_err, nodemask, Some (init_err, numanode)).
End vectors.

(** ** Legacy high-bandwidth nodes *)

(** Nodes without processors, if they are half of two, four or eight nodes.
    An error of [numa_node_to_cpus] leaves the processors of the node before. *)
Fixpoint cpuless_loop (node_to_cpus : Z → option (list Z)) (n : nat) (i : Z) (node_cpumask : list Z)
    (mask : gset Z) : gset Z :=
  match n with
  | O => mask
  | S n =>
      let node_cpumask := default node_cpumask (node_to_cpus i) in
      cpuless_loop node_to_cpus n (i + 1) node_cpumask
        (if bool_decide (node_cpumask = []) then {[i]} ∪ mask else mask)
  end.

Definition get_legacy_hbw_nodes_mask (nodes_num : Z) (node_to_cpus : Z → option (list Z)) (cpumask_ok mask_ok : bool) :
    Z + gset Z :=
  if negb (nodes_num =? 2) && negb (nodes_num =? 4) && negb (nodes_num =? 8) then inl MEMKIND_ERROR_UNAVAILABLE else
  if negb cpumask_ok || negb mask_ok then inl MEMKIND_ERROR_UNAVAILABLE else
  let mask := cpuless_loop node_to_cpus (Z.to_nat nodes_num) 0 [] ∅ in
  if 2 * Z.of_nat (size mask) =? nodes_num then inr mask else inl MEMKIND_ERROR_UNAVAILABLE.

(** ** The highest capacity *)

(** [best] and [g->numa_nodes] after the loop; a size of -1 is an error of
    [numa_node_size64]. *)
Fixpoint hi_cap_loop (node_size : Z → Z) (n : nat) (node best : Z) (nodes : gset Z) : Z * gset Z :=
  match n with
  | O => (best, nodes)
  | S n =>
      let current := node_size node in
      if current =? -1 then hi_cap_loop node_size n (node + 1) best nodes else
      let '(best, nodes) := if best <? current then (current, ∅) else (best, nodes) in
      let nodes := if current =? best then {[node]} ∪ nodes else nodes in
      hi_cap_loop node_size n (node + 1) best nodes
  end.

(** [struct hi_cap_numanodes_t]: the error, the mask and whether the memory it
    points to is still allocated. *)
Record hi_cap_numanodes_t := HiCap { hc_init_err : Z; hc_nodes : option (gset Z); hc_live : bool }.

Definition memkind_hi_cap_find (node_size : Z → Z) (max_node_id : Z) (alloc_ok : bool)
    (variant : memkind_node_variant_t) : hi_cap_numanodes_t :=
  if negb alloc_ok then HiCap MEMKIND_ERROR_MALLOC None false else
  let (_, nodes) := hi_cap_loop node_size (Z.to_nat (max_node_id + 1)) 0 0 ∅ in
  if Z.of_nat (size nodes) =? 0 then HiCap MEMKIND_ERROR_MEMTYPE_NOT_AVAILABLE (Some nodes) false else
  if match variant with NODE_VARIANT_SINGLE => 1 <? Z.of_nat (size nodes) | _ => false end
  then HiCap MEMKIND_ERROR_MEMTYPE_NOT_AVAILABLE (Some nodes) false
  else HiCap MEMKIND_SUCCESS (Some nodes) true.

(** The part of [memkind_hi_cap_finalize] before [memkind_arena_finalize];
    freeing a mask that was freed before is undefined. *)
Definition memkind_hi_cap_finalize (g : hi_cap_numanodes_t) : outcome hi_cap_numanodes_t :=
  match hc_nodes g with
  | None => Ret g
  | Some nodes => if hc_live g then Ret (HiCap (hc_init_err g) (Some nodes) false) else Stop Undefined
  end.

(** ** Memory attributes of hwloc *)

Inductive memory_attribute_t := MEM_ATTR_CAPACITY | MEM_ATTR_BANDWIDTH | MEM_ATTR_LATENCY.

(** A NUMA node of hwloc: its index, its processors and its memory. *)
Record hwloc_obj := HwlocObj { os_index : Z; cpuset : list Z; local_memory : Z }.

Definition SIZE_MAX : Z := 2 ^ 64 - 1.

Section attributes.
(** [numa_distance], and [hwloc_memattr_get_value] of an attribute for an
    initiator and a target. *)
Context (distance : Z → Z → Z).
Context (memattr : memory_attribute_t → hwloc_obj → hwloc_obj → option Z).

(** [best_mem_attr], [unpreferred_val] and the only node of [attr_loc_mask]. *)
Definition choice : Type := Z * Z * option Z.

Definition capacity_step (init_node : hwloc_obj) (c : choice) (node : hwloc_obj) : choice :=
  let '(best, unpreferred, mask) := c in
  let d := u64 (distance (os_index init_node) (os_index node)) in
  if local_memory node =? 0 then c
  else if best <? local_memory node then (local_memory node, d, Some (os_index node))
  else if (local_memory node =? best) && (unpreferred <? d) then (best, d, Some (os_index node))
  else c.

Definition bandwidth_step (init_node : hwloc_obj) (c : choice) (node : hwloc_obj) : choice :=
  let '(best, unpreferred, mask) := c in
  match memattr MEM_ATTR_BANDWIDTH init_node node with
  | None => c
  | Some mem_attr =>
      if best <? mem_attr then (mem_attr, local_memory node, Some (os_index node))
      else if (mem_attr =? best) && (local_memory node <? unpreferred)
      then (best, local_memory node, Some (os_index node))
      else c
  end.

Definition latency_step (init_node : hwloc_obj) (c : choice) (node : hwloc_obj) : choice :=
  let '(best, unpreferred, mask) := c in
  match memattr MEM_ATTR_LATENCY init_node node with
  | None => c
  | Some mem_attr =>
      if mem_attr <? best then (mem_attr, local_memory node, Some (os_index node))
      else if (mem_attr =? best) && (local_memory node <? unpreferred)
      then (best, local_memory node, Some (os_index node))
      else c
  end.

Definition choose_local (attr : memory_attribute_t) (init_node : hwloc_obj) (local_nodes : list hwloc_obj) :
    option Z :=
  (match attr with
   | MEM_ATTR_CAPACITY => foldl (capacity_step init_node) (0, 0, None) local_nodes
   | MEM_ATTR_BANDWIDTH => foldl (bandwidth_step init_node) (0, SIZE_MAX, None) local_nodes
   | MEM_ATTR_LATENCY => foldl (latency_step init_node) (INT_MAX, SIZE_MAX, None) local_nodes
   end).2.

(** What hwloc and the allocators answer: [hwloc_topology_init] and
    [hwloc_topology_load], [hwloc_bitmap_alloc], [malloc] and [calloc], and the
    conversion of the mask of a processor to a mask of libnuma. *)
Record hwloc_env := HwlocEnv {
  hw_init : bool;
  hw_load : bool;
  hw_bitmap : bool;
  hw_alloc : bool;
  hw_mask : Z → bool;
}.

(** The mask of every processor of the node, or nothing when a conversion fails. *)
Fixpoint set_masks (e : hwloc_env) (cpus : list Z) (node : Z) (nodes_mask : list (option Z)) :
    outcome (option (list (option Z))) :=
  match cpus with
  | [] => Ret (Some nodes_mask)
  | i :: cpus =>
      if (i <? 0) || (Z.of_nat (length nodes_mask) <=? i) then Stop OutOfBounds
      else if hw_mask e i then set_masks e cpus node (<[Z.to_nat i := Some node]> nodes_mask)
      else Ret None
  end.

(** The loop over the nodes of hwloc: a node whose processors all occurred
    before is skipped.  [local_objs] is [hwloc_get_local_numanode_objs]. *)
Fixpoint local_loop (e : hwloc_env) (attr : memory_attribute_t) (local_objs : hwloc_obj → option (list hwloc_obj))
    (nodes : list hwloc_obj) (node_cpus : list Z) (nodes_mask : list (option Z)) :
    outcome (Z + list (option Z)) :=
  match nodes with
  | [] => Ret (inr nodes_mask)
  | init_node :: nodes =>
      if forallb (λ c, bool_decide (c ∈ node_cpus)) (cpuset init_node)
      then local_loop e attr local_objs nodes node_cpus nodes_mask
      else
        let node_cpus := (node_cpus ++ cpuset init_node)%list in
        match local_objs init_node with
        | None => Ret (inl MEMKIND_ERROR_UNAVAILABLE)
        | Some local_nodes =>
            match choose_local attr init_node local_nodes with
            | None => Ret (inl MEMKIND_ERROR_MEMTYPE_NOT_AVAILABLE)
            | Some node =>
                let! r := set_masks e (cpuset init_node) node nodes_mask in
                match r with
                | None => Ret (inl MEMKIND_ERROR_MALLOC)
                | Some nodes_mask => local_loop e attr local_objs nodes node_cpus nodes_mask
                end
            end
        end
  end.

(** The error or the node of every processor. *)
Definition get_per_cpu_local_nodes_mask (e : hwloc_env) (attr : memory_attribute_t)
    (local_objs : hwloc_obj → option (list hwloc_obj)) (nodes : list hwloc_obj) (num_cpus : Z) :
    outcome (Z + list (option Z)) :=
  if negb (hw_init e) || negb (hw_load e) then Ret (inl MEMKIND_ERROR_UNAVAILABLE) else
  if negb (hw_alloc e) || negb (hw_bitmap e) then Ret (inl MEMKIND_ERROR_MALLOC) else
  local_loop e attr local_objs nodes [] (replicate (Z.to_nat num_cpus) None).

(** *** High bandwidth by threshold *)

Definition MEMKIND_HBW_THRESHOLD_DEFAULT : Z := 200 * 1024.

(** [strtoull] in base ten: the value, the rest and whether it overflowed. *)
Definition strtoull10 (s : string) : Z * string * bool :=
  let (_, t) := span isspace s in
  let (neg, t) :=
    match t with
    | String c t' =>
        if Ascii.eqb c "-" then (true, t') else if Ascii.eqb c "+" then (false, t') else (false, t)
    | EmptyString => (false, t)
    end in
  let '(v, any, rest) := read_digits 10 0 false t in
  if negb any then (0, s, false) else
  if ULLONG_MAX <? v then (ULLONG_MAX, rest, true) else (if neg then u64 (- v) else v, rest, false).

Definition hbw_threshold (env : option string) : option Z :=
  match env with
  | None => Some MEMKIND_HBW_THRESHOLD_DEFAULT
  | Some text =>
      let '(v, rest, erange) := strtoull10 text in
      if (UINT_MAX <? v) || negb (String.eqb rest EmptyString) || erange then None else Some v
  end.

Context (grow : Z → bool).

Fixpoint target_loop (variant : memkind_node_variant_t) (threshold : Z) (init_node : hwloc_obj)
    (targets : list hwloc_obj) (s : Z * vec) : Z * vec :=
  match targets with
  | [] => s
  | target :: targets =>
      let s :=
        match memattr MEM_ATTR_BANDWIDTH init_node target with
        | Some bandwidth =>
            if threshold <=? bandwidth
            then consider grow variant (distance (os_index init_node) (os_index target)) (os_index target) s
            else s
        | None => s
        end in
      target_loop variant threshold init_node targets s
  end.

Fixpoint fill_cpuset (cpus current : list Z) (node_arr : list vec) : outcome (list vec) :=
  match cpus with
  | [] => Ret node_arr
  | i :: cpus =>
      if (i <? 0) || (Z.of_nat (length node_arr) <=? i) then Stop OutOfBounds else
      let! v := deref (node_arr !! Z.to_nat i) in
      fill_cpuset cpus current (<[Z.to_nat i := push_nodes grow current v]> node_arr)
  end.

Fixpoint hbw_loop (variant : memkind_node_variant_t) (threshold : Z) (all nodes : list hwloc_obj)
    (node_cpus : list Z) (current : vec) (node_arr : list vec) : outcome (Z * option (list vec)) :=
  match nodes with
  | [] => Ret (MEMKIND_SUCCESS, Some node_arr)
  | init_node :: nodes =>
      if forallb (λ c, bool_decide (c ∈ node_cpus)) (cpuset init_node)
      then hbw_loop variant threshold all nodes node_cpus current node_arr
      else
        let node_cpus := (node_cpus ++ cpuset init_node)%list in
        let '(_, current) := target_loop variant threshold init_node all (INT_MAX, VEC_CLEAR current) in
        if VEC_SIZE current =? 0 then Ret (MEMKIND_ERROR_MEMTYPE_NOT_AVAILABLE, None) else
        if match variant with NODE_VARIANT_SINGLE => 1 <? VEC_SIZE current | _ => false end
        then Ret (MEMKIND_ERROR_RUNTIME, None) else
        let! node_arr := fill_cpuset (cpuset init_node) (items current) node_arr in
        hbw_loop variant threshold all nodes node_cpus current node_arr
  end.

(** The status and [*numanode]. *)
Definition set_closest_numanode_mem_attr (e : hwloc_env) (env : option string) (nodes : list hwloc_obj) (num_cpu : Z)
    (variant : memkind_node_variant_t) : outcome (Z * option (list vec)) :=
  match hbw_threshold env with
  | None => Ret (MEMKIND_ERROR_ENVIRON, None)
  | Some threshold =>
      if negb (hw_init e) || negb (hw_load e) || negb (hw_bitmap e) then Ret (MEMKIND_ERROR_UNAVAILABLE, None) else
      if negb (hw_alloc e) then Ret (MEMKIND_ERROR_MALLOC, None) else
      hbw_loop variant threshold nodes nodes [] VEC_INITIALIZER (replicate (Z.to_nat num_cpu) VEC_INITIALIZER)
  end.
End attributes.
