(* ===== verification/NumaSpec.v ===== *)
(** * The nodes that are chosen

    The nodes of a processor are the nearest destinations of the node it
    belongs to; a single node is refused exactly when two are equally near.
    Nodes of highest capacity, and nodes chosen by an attribute, are the best
    ones with the tie rule of the code. *)
From S2P Require Import CString Prelude Registry Arena Numa.
Local Open Scope Z_scope.

(** ** Filters on members *)

Lemma filter_iff_in {A} (P Q : A → Prop) `{∀ x, Decision (P x)} `{∀ x, Decision (Q x)} (l : list A) :
  (∀ x, x ∈ l → P x ↔ Q x) → filter P l = filter Q l.
Proof.
  induction l as [|x l IH]; intros Hl; [done|].
  rewrite !filter_cons, (IH (λ y Hy, Hl y (list_elem_of_further _ _ _ Hy))).
  pose proof (Hl x (list_elem_of_here _ _)). destruct (decide (P x)), (decide (Q x)); tauto.
Qed.

Lemma filter_none {A} (P : A → Prop) `{∀ x, Decision (P x)} (l : list A) :
  (∀ x, x ∈ l → ¬ P x) → filter P l = [].
Proof.
  intros Hl. rewrite (filter_iff_in P (λ _, False)); [|naive_solver].
  clear Hl. induction l as [|x l IH]; [done|]. by rewrite filter_cons_False by tauto.
Qed.

(** ** Vectors *)

Section vec.
Context (grow : Z → bool) (Hgrow : ∀ n, grow n = true).

Lemma items_push v x : items (VEC_PUSH_BACK grow v x) = items v ++ [x].
Proof using Hgrow.
  unfold VEC_PUSH_BACK, VEC_RESERVE. destruct (_ =? _); [|done].
  destruct (_ || _); [|done]. by rewrite Hgrow.
Qed.

Lemma items_push_nodes l v : items (push_nodes grow l v) = items v ++ l.
Proof using Hgrow.
  revert v. induction l as [|x l IH]; intros v; cbn; [by rewrite app_nil_r|].
  unfold push_nodes in IH. by rewrite IH, items_push, <-app_assoc.
Qed.

(** ** The search keeps the nearest candidates *)

(** A candidate is a distance and a node. *)
Definition nearest (variant : memkind_node_variant_t) (cs : list (Z * Z)) : list Z :=
  match variant with
  | NODE_VARIANT_ALL => cs.*2
  | _ => (filter (λ c, Forall (λ c', c.1 <= c'.1) cs) cs).*2
  end.

Definition consider_all (variant : memkind_node_variant_t) (cs : list (Z * Z)) (s : Z * vec) : Z * vec :=
  foldl (λ s c, consider grow variant c.1 c.2 s) s cs.

Lemma consider_all_every cs s : items (consider_all NODE_VARIANT_ALL cs s).2 = items s.2 ++ cs.*2.
Proof using Hgrow.
  revert s. induction cs as [|c cs IH]; intros [m v]; cbn; [by rewrite app_nil_r|].
  unfold consider_all in IH. rewrite IH. cbn. by rewrite items_push, <-app_assoc.
Qed.

(** After some candidates: the least distance, and those at that distance. *)
Record kept (cs : list (Z * Z)) (s : Z * vec) : Prop := {
  kept_least : ∀ c, c ∈ cs → s.1 <= c.1;
  kept_seen : s.1 = INT_MAX ∨ ∃ c, c ∈ cs ∧ c.1 = s.1;
  kept_items : items s.2 = (filter (λ c, c.1 = s.1) cs).*2;
}.

Lemma kept_step variant cs c s :
  variant ≠ NODE_VARIANT_ALL → kept cs s → kept (cs ++ [c]) (consider grow variant c.1 c.2 s).
Proof using Hgrow.
  intros Hv [Hl Hs Hi]. destruct s as [m v]. cbn [fst snd] in Hl, Hs, Hi.
  assert (Hc : consider grow variant c.1 c.2 (m, v) =
    (if c.1 <? m then (c.1, VEC_PUSH_BACK grow (VEC_CLEAR v) c.2)
     else if c.1 =? m then (m, VEC_PUSH_BACK grow v c.2) else (m, v))) by (by destruct variant).
  rewrite Hc. clear Hc. split; intros.
  - apply elem_of_app in H as [H|H%list_elem_of_singleton]; [pose proof (Hl _ H)|subst c0];
      destruct (Z.ltb_spec c.1 m); cbn; [lia| |lia|]; destruct (Z.eqb_spec c.1 m); cbn; lia.
  - destruct (Z.ltb_spec c.1 m); cbn.
    + right. exists c. split; [set_solver|done].
    + destruct (_ =? _); cbn; (destruct Hs as [?|(c' & ? & ?)]; [by left|right; exists c'; split; [set_solver|done]]).
  - rewrite filter_app, fmap_app. destruct (Z.ltb_spec c.1 m); cbn.
    + rewrite items_push. cbn. rewrite decide_True by done. cbn.
      assert (Hn : filter (λ c0 : Z * Z, c0.1 = c.1) cs = []); [|by rewrite Hn].
      apply filter_none. intros c' Hc' He. specialize (Hl _ Hc'). lia.
    + destruct (Z.eqb_spec c.1 m); cbn.
      * rewrite items_push, Hi, decide_True by done. done.
      * rewrite decide_False by done. cbn. by rewrite app_nil_r.
Qed.

Lemma kept_all variant cs v :
  variant ≠ NODE_VARIANT_ALL → items v = [] → kept cs (consider_all variant cs (INT_MAX, v)).
Proof using Hgrow.
  intros Hv Hi. induction cs as [|c cs IH] using rev_ind.
  - split; cbn; [intros c Hc; by apply elem_of_nil in Hc|by left|done].
  - unfold consider_all in *. rewrite foldl_app. cbn. by apply kept_step.
Qed.

(** [current_dest_nodes] after the loop. *)
Lemma consider_all_nearest variant cs v :
  items v = [] → Forall (λ c, c.1 <= INT_MAX) cs →
  items (consider_all variant cs (INT_MAX, v)).2 = nearest variant cs.
Proof using Hgrow.
  intros Hi Hmax. destruct (decide (variant = NODE_VARIANT_ALL)) as [->|Hv].
  { rewrite consider_all_every. cbn. by rewrite Hi. }
  destruct (kept_all variant cs v Hv Hi) as [Hl Hs ->].
  set (m := (consider_all variant cs (INT_MAX, v)).1) in *.
  transitivity ((filter (λ c, Forall (λ c', c.1 <= c'.1) cs) cs).*2); [|by destruct variant].
  f_equal. apply filter_iff_in. intros c Hc. rewrite Forall_forall in Hmax |- *.
  split.
  - intros He c' Hc'. rewrite He. by apply Hl.
  - intros Hle. pose proof (Hl _ Hc). destruct Hs as [Hs|(c' & Hc' & He)].
    + specialize (Hmax _ Hc). cbn in Hmax. lia.
    + specialize (Hle _ Hc'). cbn in Hle. lia.
Qed.
End vec.

(** ** The nodes of every processor *)

Section closest.
Context (grow : Z → bool) (Hgrow : ∀ n, grow n = true).
Context (t : topology) (dest : Z → bool) (variant : memkind_node_variant_t).
Context (Hdist : ∀ i d, numa_distance t i d <= INT_MAX).

Definition nodes_from (d : Z) (n : nat) : list Z := seqZ d (Z.of_nat n).

Definition candidates_of (init : Z) (l : list Z) : list (Z * Z) :=
  (λ d, (numa_distance t init d, d)) <$> filter (λ d, dest d = true) l.

Definition all_nodes : list Z := seqZ 0 (max_node_id t + 1).

(** The nodes chosen for the processors of one node. *)
Definition chosen (init : Z) : list Z := nearest variant (candidates_of init all_nodes).

Lemma dest_loop_eq init n d s :
  dest_loop grow t variant dest init n d s = consider_all grow variant (candidates_of init (nodes_from d n)) s.
Proof.
  revert d s. induction n as [|n IH]; intros d s; [done|].
  unfold nodes_from, candidates_of, consider_all in *. rewrite seqZ_cons by lia. cbn [dest_loop].
  replace (Z.pred (Z.of_nat (S n))) with (Z.of_nat n) by lia. rewrite IH.
  rewrite filter_cons. replace (Z.succ d) with (d + 1) by lia. case_decide as Hd.
  - rewrite Hd. cbn [fmap list_fmap foldl fst snd]. done.
  - by destruct (dest d).
Qed.

Lemma dest_loop_chosen init v :
  0 <= max_node_id t →
  items (dest_loop grow t variant dest init (Z.to_nat (max_node_id t + 1)) 0 (INT_MAX, VEC_CLEAR v)).2 = chosen init.
Proof using Hgrow Hdist.
  intros Hm. rewrite dest_loop_eq. unfold nodes_from. rewrite Z2Nat.id by lia.
  apply consider_all_nearest; [done|done|].
  apply Forall_fmap, Forall_forall. intros d _. apply Hdist.
Qed.

(** The processors a node lists; a node without any is no initiator. *)
Definition cpus_of (init : Z) : list Z := default [] (numa_node_to_cpus t init).

Definition refused (init : Z) : bool :=
  bool_decide (variant = NODE_VARIANT_SINGLE ∧ cpus_of init ≠ [] ∧ (1 < length (chosen init))%nat).

(** What the initiators add to the vector of a processor. *)
Definition added (cpu : Z) (inits : list Z) : list Z :=
  concat ((λ i, if bool_decide (cpu ∈ cpus_of i) then chosen i else []) <$> inits).

Lemma fill_cpus_lookup cpus cur c arr k v :
  arr !! k = Some v →
  fill_cpus grow cpus cur c arr !! k =
    Some (if bool_decide (c + Z.of_nat k ∈ cpus) then push_nodes grow cur v else v).
Proof.
  revert c k. induction arr as [|w arr IH]; intros c k Hk; [done|].
  destruct k as [|k]; cbn in *; [by simplify_eq; rewrite Z.add_0_r|].
  etrans; [exact (IH (c + 1) k Hk)|]. by replace (c + 1 + Z.of_nat k) with (c + Z.of_nat (S k)) by lia.
Qed.

Lemma fill_cpus_length cpus cur c arr : length (fill_cpus grow cpus cur c arr) = length arr.
Proof. revert c. induction arr; intros c; cbn; auto. Qed.

Lemma init_step n i cur arr :
  0 <= max_node_id t →
  ∃ cur', init_loop grow t variant dest (S n) i cur arr =
    if refused i then (MEMKIND_ERROR_RUNTIME, [])
    else init_loop grow t variant dest n (i + 1) cur' (fill_cpus grow (cpus_of i) (chosen i) 0 arr).
Proof using Hgrow Hdist.
  intros Hm. cbn [init_loop]. unfold refused, cpus_of.
  assert (Hskip : fill_cpus grow [] (chosen i) 0 arr = arr).
  { generalize 0. induction arr as [|w arr IH]; intros c; cbn; [done|]. by rewrite IH. }
  destruct (numa_node_to_cpus t i) as [[|c cpus]|]; cbn [default].
  - exists cur. rewrite bool_decide_false by naive_solver. cbn. by rewrite Hskip.
  - pose proof (dest_loop_chosen i cur Hm) as Hc.
    destruct (dest_loop _ _ _ _ _ _ _ _) as [m cur']. cbn [snd] in Hc. exists cur'.
    unfold VEC_SIZE. rewrite Hc. cbn [from_option id].
    assert (Hb : (match variant with NODE_VARIANT_SINGLE => 1 <? Z.of_nat (length (chosen i)) | _ => false end) =
      bool_decide (variant = NODE_VARIANT_SINGLE ∧ c :: cpus ≠ [] ∧ (1 < length (chosen i))%nat)).
    { destruct variant; [by rewrite bool_decide_false by naive_solver| |by rewrite bool_decide_false by naive_solver].
      destruct (Z.ltb_spec 1 (Z.of_nat (length (chosen i)))).
      - rewrite bool_decide_true; [done|]. repeat split; [done|lia].
      - rewrite bool_decide_false; [done|]. intros (_ & _ & ?). lia. }
    by rewrite Hb.
  - exists cur. rewrite bool_decide_false by naive_solver. cbn. by rewrite Hskip.
Qed.

(** The loop over the initiators. *)
Lemma init_loop_ok n i cur arr :
  0 <= max_node_id t →
  (∀ j, i <= j < i + Z.of_nat n → refused j = false) →
  ∃ arr', init_loop grow t variant dest n i cur arr = (MEMKIND_SUCCESS, arr') ∧ length arr' = length arr ∧
    ∀ k v, arr !! k = Some v → ∃ v', arr' !! k = Some v' ∧
      items v' = items v ++ added (Z.of_nat k) (nodes_from i n).
Proof using Hgrow Hdist.
  intros Hm. revert i cur arr. induction n as [|n IH]; intros i cur arr Hr.
  { exists arr. split; [done|]. split; [done|]. intros k v Hk. exists v.
    unfold added, nodes_from. cbn. by rewrite app_nil_r. }
  destruct (init_step n i cur arr Hm) as [cur' ->]. rewrite (Hr i) by lia.
  destruct (IH (i + 1) cur' (fill_cpus grow (cpus_of i) (chosen i) 0 arr)) as (arr' & -> & Hl & Hv).
  { intros j Hj. apply Hr. lia. }
  exists arr'. split; [done|]. rewrite Hl, fill_cpus_length. split; [done|]. intros k v Hk.
  destruct (Hv _ _ (fill_cpus_lookup (cpus_of i) (chosen i) 0 arr k v Hk)) as (v' & Hv' & Hi).
  exists v'. split; [done|]. rewrite Hi. unfold nodes_from. rewrite (seqZ_cons i) by lia.
  replace (Z.pred (Z.of_nat (S n))) with (Z.of_nat n) by lia. unfold added. cbn [fmap list_fmap concat].
  replace (Z.succ i) with (i + 1) by lia. rewrite Z.add_0_l.
  destruct (bool_decide _); [rewrite items_push_nodes by done; by rewrite <-app_assoc|done].
Qed.

Lemma init_loop_refused n i cur arr j :
  0 <= max_node_id t → i <= j < i + Z.of_nat n → refused j = true →
  init_loop grow t variant dest n i cur arr = (MEMKIND_ERROR_RUNTIME, []).
Proof using Hgrow Hdist.
  intros Hm. revert i cur arr. induction n as [|n IH]; intros i cur arr Hj Hr; [lia|].
  destruct (init_step n i cur arr Hm) as [cur' ->].
  destruct (refused i) eqn:Hi; [done|]. apply IH; [|done].
  destruct (decide (i = j)) as [->|]; [congruence|lia].
Qed.
End closest.

(** ** The mask given to [mbind] *)

(** A node of the mask that no other node of the mask is nearer than. *)
Definition near (t : topology) (dest : Z → bool) (variant : memkind_node_variant_t) (init d : Z) : Prop :=
  0 <= d <= max_node_id t ∧ dest d = true ∧
  (variant = NODE_VARIANT_ALL ∨
   ∀ d', 0 <= d' <= max_node_id t → dest d' = true → numa_distance t init d <= numa_distance t init d').

Lemma elem_of_candidates t dest init c :
  c ∈ candidates_of t dest init (all_nodes t) ↔
  0 <= c.2 <= max_node_id t ∧ dest c.2 = true ∧ c.1 = numa_distance t init c.2.
Proof.
  unfold candidates_of, all_nodes. rewrite list_elem_of_fmap. destruct c as [x d]; cbn. split.
  - intros (d' & [= -> ->] & [Hd Hin%elem_of_seqZ]%list_elem_of_filter). repeat split; [lia|lia|done].
  - intros (Hd & He & ->). exists d. split; [done|]. apply list_elem_of_filter. split; [done|]. apply elem_of_seqZ. lia.
Qed.

Lemma elem_of_chosen t dest variant init d :
  d ∈ chosen t dest variant init ↔ near t dest variant init d.
Proof.
  unfold near.
  assert (Hall : d ∈ chosen t dest NODE_VARIANT_ALL init ↔ 0 <= d <= max_node_id t ∧ dest d = true).
  { unfold chosen, nearest. rewrite list_elem_of_fmap. setoid_rewrite elem_of_candidates. split.
    - intros ([x d'] & -> & ?). cbn in *. tauto.
    - intros [Hd He]. by exists (numa_distance t init d, d). }
  assert (Hmin : d ∈ (filter (λ c, Forall (λ c', c.1 <= c'.1) (candidates_of t dest init (all_nodes t)))
                        (candidates_of t dest init (all_nodes t))).*2 ↔
    0 <= d <= max_node_id t ∧ dest d = true ∧
    ∀ d', 0 <= d' <= max_node_id t → dest d' = true → numa_distance t init d <= numa_distance t init d').
  { rewrite list_elem_of_fmap. setoid_rewrite list_elem_of_filter. setoid_rewrite Forall_forall.
    setoid_rewrite elem_of_candidates. split.
    - intros ([x d'] & -> & Hle & Hd & He & Hx). cbn in *. subst x. repeat split; [lia|lia|done|].
      intros d'' Hd'' He''. by apply (Hle (numa_distance t init d'', d'')).
    - intros (Hd & He & Hle). exists (numa_distance t init d, d). split; [done|]. split; [|done].
      intros [x d'] (Hd' & He' & Hx). cbn in *. subst x. by apply Hle. }
  destruct variant; [rewrite Hmin|rewrite Hmin|rewrite Hall]; naive_solver.
Qed.

Lemma chosen_nodup t dest variant init : NoDup (chosen t dest variant init).
Proof.
  assert (Hc : NoDup (candidates_of t dest init (all_nodes t)).*2).
  { unfold candidates_of. rewrite <-list_fmap_compose. unfold compose. cbn. rewrite list_fmap_id.
    apply NoDup_filter, NoDup_seqZ. }
  unfold chosen, nearest. destruct variant; [| |done];
    (eapply sublist_NoDup; [exact Hc|apply fmap_sublist, sublist_filter]).
Qed.

Lemma two_members {A} (l : list A) : NoDup l → ((1 < length l)%nat ↔ ∃ x y, x ≠ y ∧ x ∈ l ∧ y ∈ l).
Proof.
  intros Hl. split.
  - destruct l as [|x [|y l]]; cbn; [lia|lia|]. intros _. exists x, y. split; [|set_solver].
    intros ->. inversion Hl as [|? ? Hn]. set_solver.
  - intros (x & y & Hne & Hx & Hy). destruct l as [|a [|b l]]; cbn; [|set_solver|lia].
    by apply elem_of_nil in Hx.
Qed.

Lemma elem_of_setbits maxnode l mask d :
  d ∈ foldl (numa_bitmask_setbit maxnode) mask l ↔ d ∈ mask ∨ (d ∈ l ∧ 0 <= d < maxnode).
Proof.
  revert mask. induction l as [|x l IH]; intros mask; cbn; [set_solver|]. rewrite IH.
  rewrite elem_of_cons. unfold numa_bitmask_setbit.
  destruct (Z.leb_spec 0 x), (Z.ltb_spec x maxnode); cbn; [rewrite elem_of_union, elem_of_singleton| | |];
    (split; [intros H1; destruct_or?; destruct_and?; subst; auto 6|intros [?|[[->|?] ?]]; auto; lia]).
Qed.

Lemma elem_of_added t dest variant cpu l d :
  d ∈ added t dest variant cpu l ↔ ∃ i, i ∈ l ∧ cpu ∈ cpus_of t i ∧ near t dest variant i d.
Proof.
  unfold added. rewrite list_elem_of_In, in_concat. setoid_rewrite <-list_elem_of_In. split.
  - intros (x & (i & -> & Hi)%list_elem_of_fmap & Hd). exists i. case_bool_decide; [|by apply elem_of_nil in Hd].
    split; [done|]. split; [done|]. by apply elem_of_chosen.
  - intros (i & Hi & Hc & Hn). eexists. split; [apply list_elem_of_fmap; by exists i|].
    rewrite bool_decide_true by done. by apply elem_of_chosen.
Qed.

(** Two nodes equally near to an initiator: no single node can be preferred. *)
Definition two_nearest (t : topology) (dest : Z → bool) (variant : memkind_node_variant_t) : Prop :=
  ∃ i d d', 0 <= i <= max_node_id t ∧ cpus_of t i ≠ [] ∧ d ≠ d' ∧
    near t dest variant i d ∧ near t dest variant i d'.

Lemma refused_two t dest variant i :
  refused t dest variant i = true ↔
  variant = NODE_VARIANT_SINGLE ∧ cpus_of t i ≠ [] ∧ ∃ d d', d ≠ d' ∧ near t dest variant i d ∧ near t dest variant i d'.
Proof.
  unfold refused. rewrite bool_decide_eq_true, (two_members _ (chosen_nodup t dest variant i)).
  by setoid_rewrite elem_of_chosen.
Qed.

(** What [set_closest_numanode] stores. *)
Lemma set_closest_ok grow t dest variant :
  (∀ n, grow n = true) → (∀ i d, numa_distance t i d <= INT_MAX) →
  cpumask_ok t = true → calloc_ok t = true → 0 <= max_node_id t →
  (variant = NODE_VARIANT_SINGLE → ¬ two_nearest t dest variant) →
  ∃ arr, set_closest_numanode grow t (inr dest) variant = (MEMKIND_SUCCESS, Some arr) ∧
    length arr = Z.to_nat (num_cpu t) ∧
    ∀ cpu, 0 <= cpu < num_cpu t → ∃ v, arr !! Z.to_nat cpu = Some v ∧
      items v = added t dest variant cpu (all_nodes t).
Proof.
  intros Hg Hd Hc1 Hc2 Hm Htwo. unfold set_closest_numanode. rewrite Hc1, Hc2. cbn [negb].
  destruct (init_loop_ok grow Hg t dest variant Hd (Z.to_nat (max_node_id t + 1)) 0 VEC_INITIALIZER
              (replicate (Z.to_nat (num_cpu t)) VEC_INITIALIZER) Hm) as (arr & -> & Hl & Hv).
  { intros j Hj. apply not_true_iff_false. rewrite refused_two. intros (Hs & Hn & d & d' & Hne & H1 & H2).
    apply (Htwo Hs). exists j, d, d'. split; [lia|done]. }
  rewrite length_replicate in Hl. cbn. exists arr. split; [done|]. split; [done|]. intros cpu Hcpu.
  destruct (Hv (Z.to_nat cpu) VEC_INITIALIZER) as (v & Hv' & Hi); [apply lookup_replicate; split; [done|lia]|].
  exists v. split; [done|]. rewrite Hi, Z2Nat.id by lia. cbn. unfold nodes_from, all_nodes. by rewrite Z2Nat.id by lia.
Qed.

(** C19: When memory does not run out and [numa_distance] returns ints: the mask of
    the current processor, on the first and on every later call, holds exactly
    the nodes of the kind nearest to a node the processor belongs to (all of
    them for the ALL kinds); the kinds that want a single node fail, exactly
    when two nodes are equally near to some initiator, and then on every call. *)
Theorem nodemask_nearest grow t dest variant m maxnode cpu g :
  (∀ n, grow n = true) → (∀ i d, numa_distance t i d <= INT_MAX) →
  cpumask_ok t = true → calloc_ok t = true → 0 <= max_node_id t → 0 <= cpu < num_cpu t →
  g = None ∨ g = Some (set_closest_numanode grow t (inr dest) variant) →
  ((variant = NODE_VARIANT_SINGLE → ¬ two_nearest t dest variant) →
   ∃ mask, get_mbind_nodemask grow t (inr dest) variant (Some m) maxnode cpu g =
       Ret (MEMKIND_SUCCESS, Some mask, Some (set_closest_numanode grow t (inr dest) variant)) ∧
     ∀ d, d ∈ mask ↔ d < maxnode ∧ ∃ i, 0 <= i <= max_node_id t ∧ cpu ∈ cpus_of t i ∧ near t dest variant i d) ∧
  (variant = NODE_VARIANT_SINGLE → two_nearest t dest variant →
   get_mbind_nodemask grow t (inr dest) variant (Some m) maxnode cpu g =
     Ret (MEMKIND_ERROR_RUNTIME, Some m, Some (MEMKIND_ERROR_RUNTIME, None))).
Proof.
  intros Hg Hd Hc1 Hc2 Hm Hcpu Hst.
  assert (He : match g with Some x => x | None => set_closest_numanode grow t (inr dest) variant end =
               set_closest_numanode grow t (inr dest) variant) by (destruct Hst; by subst g).
  unfold get_mbind_nodemask. rewrite He. split.
  - intros Htwo. destruct (set_closest_ok grow t dest variant Hg Hd Hc1 Hc2 Hm Htwo) as (arr & -> & Hl & Hv).
    cbn [Z.eqb MEMKIND_SUCCESS deref obind set_bitmask_for_current_numanode].
    destruct (Hv cpu Hcpu) as (v & Hv' & Hi).
    rewrite (proj2 (Z.ltb_ge _ _)), (proj2 (Z.leb_gt _ _)) by lia. cbn [orb]. rewrite Hv'.
    cbn [deref obind]. eexists. split; [done|]. intros d. rewrite elem_of_setbits, Hi, elem_of_added.
    setoid_rewrite elem_of_seqZ. unfold near. split.
    + intros [[]%elem_of_empty|((i & Hi' & Hrest) & Hlt)]. split; [lia|]. exists i. split; [lia|done].
    + intros [Hlt (i & Hi' & Hc & Hn)]. right. split; [|lia]. exists i. split; [lia|done].
  - intros Hs (i & d & d' & Hi & Hn & Hne & H1 & H2).
    unfold set_closest_numanode. rewrite Hc1, Hc2. cbn [negb].
    rewrite (init_loop_refused grow Hg t dest variant Hd _ 0 _ _ i); [done|done|lia|].
    apply refused_two. split; [done|]. split; [done|]. by exists d, d'.
Qed.

(** ** The highest capacity *)

Definition with_memory (node_size : Z → Z) (max d : Z) : Prop := 0 <= d <= max ∧ node_size d ≠ -1.

Definition biggest (node_size : Z → Z) (max d : Z) : Prop :=
  with_memory node_size max d ∧ ∀ d', with_memory node_size max d' → node_size d' <= node_size d.

(** After the nodes below [n]: the largest size and the nodes that have it. *)
Record hi_cap_inv (node_size : Z → Z) (n best : Z) (nodes : gset Z) : Prop := {
  hi_least : 0 <= best;
  hi_bound : ∀ d, 0 <= d < n → node_size d <= best;
  hi_nodes : ∀ d, d ∈ nodes ↔ 0 <= d < n ∧ node_size d = best;
  hi_found : best = 0 ∨ ∃ d, d ∈ nodes;
}.

Lemma hi_cap_loop_inv node_size k n best nodes :
  (∀ d, -1 <= node_size d) → 0 <= n → hi_cap_inv node_size n best nodes →
  ∃ best' nodes', hi_cap_loop node_size k n best nodes = (best', nodes') ∧
    hi_cap_inv node_size (n + Z.of_nat k) best' nodes'.
Proof.
  intros Hs. revert n best nodes. induction k as [|k IH]; intros n best nodes Hn Hinv.
  { exists best, nodes. split; [done|]. by rewrite Z.add_0_r. }
  cbn [hi_cap_loop]. replace (n + Z.of_nat (S k)) with (n + 1 + Z.of_nat k) by lia.
  destruct Hinv as [H0 Hb Hm Hf].
  assert (Hstep : ∀ d, 0 <= d < n + 1 ↔ 0 <= d < n ∨ d = n) by lia.
  destruct (Z.eqb_spec (node_size n) (-1)) as [He|He].
  { apply IH; [lia|]. split; [done| | |done].
    - intros d [?| ->]%Hstep; [by apply Hb|lia].
    - intros d. rewrite Hm, Hstep. intuition; subst; lia. }
  destruct (Z.ltb_spec best (node_size n)) as [Hlt|Hge].
  - rewrite Z.eqb_refl. apply IH; [lia|]. split; [lia| | |].
    + intros d [?| ->]%Hstep; [|lia]. specialize (Hb d). lia.
    + intros d. rewrite elem_of_union, elem_of_singleton, Hstep. split.
      * intros [-> |[]%elem_of_empty]. lia.
      * intros [[Hd| ->] Hde]; [specialize (Hb d Hd); lia|by left].
    + right. exists n. set_solver.
  - apply IH; [lia|]. destruct (Z.eqb_spec (node_size n) best) as [Heq|Hne]; split; try done.
    + intros d [?| ->]%Hstep; [by apply Hb|lia].
    + intros d. rewrite elem_of_union, elem_of_singleton, Hm, Hstep. intuition; subst; auto.
    + right. exists n. set_solver.
    + intros d [?| ->]%Hstep; [by apply Hb|lia].
    + intros d. rewrite Hm, Hstep. intuition; subst; lia.
Qed.

Lemma hi_cap_inv_start node_size : hi_cap_inv node_size 0 0 ∅.
Proof. split; [done|lia| |by left]. intros d. split; [by intros []%elem_of_empty|lia]. Qed.

(** The set [memkind_hi_cap_find] ends with. *)
Lemma hi_cap_loop_biggest node_size max :
  (∀ d, -1 <= node_size d) → 0 <= max →
  ∃ best nodes, hi_cap_loop node_size (Z.to_nat (max + 1)) 0 0 ∅ = (best, nodes) ∧
    (∀ d, d ∈ nodes ↔ biggest node_size max d) ∧ (∀ d, with_memory node_size max d → ∃ d', d' ∈ nodes).
Proof.
  intros Hs Hm.
  destruct (hi_cap_loop_inv node_size (Z.to_nat (max + 1)) 0 0 ∅ Hs ltac:(lia) (hi_cap_inv_start node_size))
    as (best & nodes & -> & [H0 Hb Hn Hf]).
  rewrite Z.add_0_l, Z2Nat.id in * by lia. exists best, nodes. split; [done|]. split; cycle 1.
  { intros d [Hd He]. destruct Hf as [-> |?]; [|done]. exists d. apply Hn.
    specialize (Hb d ltac:(lia)). specialize (Hs d). lia. }
  intros d. rewrite Hn. unfold biggest, with_memory. split.
  - intros [Hd He]. split; [split; lia|]. intros d' [Hd' _]. specialize (Hb d'). lia.
  - intros [[Hd He] Hmax]. split; [lia|]. specialize (Hs d). specialize (Hb d ltac:(lia)) as Hbd.
    destruct Hf as [-> |[d' Hd']]; [lia|]. apply Hn in Hd' as [Hd' He'].
    assert (node_size d' <= node_size d) by (apply Hmax; split; lia). lia.
Qed.

Definition two_biggest (node_size : Z → Z) (max : Z) : Prop :=
  ∃ d d', d ≠ d' ∧ biggest node_size max d ∧ biggest node_size max d'.

Lemma size_two (s : gset Z) : 1 < Z.of_nat (size s) ↔ ∃ x y, x ≠ y ∧ x ∈ s ∧ y ∈ s.
Proof.
  setoid_rewrite <-elem_of_elements. rewrite <-(two_members _ (NoDup_elements s)).
  unfold size, set_size. cbn. lia.
Qed.

(** [memkind_hi_cap_find] ends with exactly the nodes of the largest memory
    among those whose size could be read, and fails exactly when no size could
    be read or when one node is wanted and several are largest; only after a
    success does the mask stay allocated for [memkind_hi_cap_finalize]. *)
Theorem hi_cap_find_correct node_size max variant :
  (∀ d, -1 <= node_size d) → 0 <= max →
  let g := memkind_hi_cap_find node_size max true variant in
  ((∃ d, with_memory node_size max d) ∧ (variant = NODE_VARIANT_SINGLE → ¬ two_biggest node_size max) →
   hc_init_err g = MEMKIND_SUCCESS ∧
   (∃ nodes, hc_nodes g = Some nodes ∧ ∀ d, d ∈ nodes ↔ biggest node_size max d) ∧
   ∃ g', memkind_hi_cap_finalize g = Ret g') ∧
  ((∀ d, ¬ with_memory node_size max d) ∨ (variant = NODE_VARIANT_SINGLE ∧ two_biggest node_size max) →
   hc_init_err g = MEMKIND_ERROR_MEMTYPE_NOT_AVAILABLE).
Proof.
  intros Hs Hm. destruct (hi_cap_loop_biggest node_size max Hs Hm) as (best & nodes & Heq & Hn & Hsome).
  unfold memkind_hi_cap_find. cbn [negb]. rewrite Heq.
  assert (Htwo : 1 < Z.of_nat (size nodes) ↔ two_biggest node_size max).
  { rewrite size_two. unfold two_biggest. by setoid_rewrite Hn. }
  split.
  - intros [[d Hd] Hsingle]. destruct (Hsome d Hd) as [d' Hd'].
    assert (Hne : Z.of_nat (size nodes) ≠ 0).
    { intros He. assert (Hemp : nodes ≡ ∅) by (apply size_empty_iff; lia). set_solver. }
    rewrite (proj2 (Z.eqb_neq _ _) Hne). destruct variant; cbn [hc_init_err]; try (by eauto 6).
    destruct (Z.ltb_spec 1 (Z.of_nat (size nodes))) as [Hlt|]; [|by eauto 6].
    by destruct (Hsingle eq_refl (proj1 Htwo Hlt)).
  - intros [Hnone|[-> H2]].
    + assert (He : nodes = ∅).
      { apply set_eq. intros d. rewrite Hn. split; [intros [Hd _]; by destruct (Hnone d)|by intros []%elem_of_empty]. }
      by rewrite He.
    + apply Htwo in H2. destruct (Z.eqb_spec (Z.of_nat (size nodes)) 0); [done|].
      by rewrite (proj2 (Z.ltb_lt _ _) H2).
Qed.

(** ** Nodes by attribute *)

Section attribute.
Context (distance : Z → Z → Z) (memattr : memory_attribute_t → hwloc_obj → hwloc_obj → option Z).

(** What a node is judged by: first the attribute, then the tie rule, both as
    "larger is better"; nothing when the node is skipped. *)
Definition merit (attr : memory_attribute_t) (init node : hwloc_obj) : option (Z * Z) :=
  match attr with
  | MEM_ATTR_CAPACITY =>
      if local_memory node =? 0 then None
      else Some (local_memory node, u64 (distance (os_index init) (os_index node)))
  | MEM_ATTR_BANDWIDTH =>
      match memattr MEM_ATTR_BANDWIDTH init node with Some b => Some (b, - local_memory node) | None => None end
  | MEM_ATTR_LATENCY =>
      match memattr MEM_ATTR_LATENCY init node with Some l => Some (- l, - local_memory node) | None => None end
  end.

Definition lex_lt (k k' : Z * Z) : Prop := k.1 < k'.1 ∨ (k.1 = k'.1 ∧ k.2 < k'.2).

(** After some nodes: the merit of the best one from [start] on. *)
Record judged (attr : memory_attribute_t) (init : hwloc_obj) (start : Z * Z) (l : list hwloc_obj)
    (k : Z * Z) (r : option Z) : Prop := {
  judged_start : ¬ lex_lt k start;
  judged_all : ∀ n k', n ∈ l → merit attr init n = Some k' → ¬ lex_lt k k';
  judged_some : ∀ d, r = Some d → ∃ n, n ∈ l ∧ os_index n = d ∧ merit attr init n = Some k;
  judged_none : r = None → k = start;
}.

(** A step that keeps the best so far and the new node when it is better. *)
Lemma judged_step attr init start l k r n k' r' :
  judged attr init start l k r →
  match merit attr init n with
  | None => k' = k ∧ r' = r
  | Some m => (lex_lt k m ∧ k' = m ∧ r' = Some (os_index n)) ∨ (¬ lex_lt k m ∧ k' = k ∧ r' = r)
  end →
  judged attr init start (l ++ [n]) k' r'.
Proof.
  intros [Hs Ha Hr Hn] Hstep. destruct (merit attr init n) as [m|] eqn:Hm.
  - destruct Hstep as [(Hlt & -> & ->)|(Hge & -> & ->)]; split.
    + unfold lex_lt in *. lia.
    + intros n' k'' [Hin| ->%list_elem_of_singleton]%elem_of_app Hk; [|rewrite Hm in Hk; injection Hk as ->; unfold lex_lt; lia].
      specialize (Ha n' k'' Hin Hk). unfold lex_lt in *. lia.
    + intros d [= <-]. exists n. split; [set_solver|done].
    + done.
    + done.
    + intros n' k'' [Hin| ->%list_elem_of_singleton]%elem_of_app Hk; [by apply (Ha n')|].
      rewrite Hm in Hk. by injection Hk as ->.
    + intros d Hd. destruct (Hr d Hd) as (n' & ? & ? & ?). exists n'. split; [set_solver|done].
    + done.
  - destruct Hstep as [-> ->]. split; [done| | |done].
    + intros n' k'' [Hin| ->%list_elem_of_singleton]%elem_of_app Hk; [by apply (Ha n')|congruence].
    + intros d Hd. destruct (Hr d Hd) as (n' & ? & ? & ?). exists n'. split; [set_solver|done].
Qed.

Lemma judged_start_ok attr init start : judged attr init start [] start None.
Proof. split; [unfold lex_lt; lia|by intros ? ? []%elem_of_nil|done|done]. Qed.

Lemma judged_capacity init l :
  judged MEM_ATTR_CAPACITY init (0, 0) l
    (foldl (capacity_step distance init) (0, 0, None) l).1
    (foldl (capacity_step distance init) (0, 0, None) l).2.
Proof.
  induction l as [|n l IH] using rev_ind; [apply judged_start_ok|]. rewrite foldl_app. cbn [foldl].
  destruct (foldl _ _ l) as [[b u] r]. cbn [fst snd] in *. eapply judged_step; [exact IH|].
  unfold capacity_step, merit, lex_lt. cbn [fst snd].
  destruct (Z.eqb_spec (local_memory n) 0); [done|]. destruct (Z.ltb_spec b (local_memory n)); [left; cbn; auto|].
  destruct (Z.eqb_spec (local_memory n) b); cbn [andb]; [|right; cbn; split; [lia|done]].
  destruct (Z.ltb_spec u (u64 (distance (os_index init) (os_index n)))); [left|right]; cbn; (split; [lia|]); subst; done.
Qed.

(** The merit of the state, whose components the code compares the other way. *)
Lemma judged_bandwidth init l :
  let c := foldl (bandwidth_step memattr init) (0, SIZE_MAX, None) l in
  judged MEM_ATTR_BANDWIDTH init (0, - SIZE_MAX) l (c.1.1, - c.1.2) c.2.
Proof.
  induction l as [|n l IH] using rev_ind; [apply judged_start_ok|]. rewrite foldl_app. cbn [foldl].
  cbv zeta in *. destruct (foldl _ _ l) as [[b u] r]. cbn [fst snd] in *. eapply judged_step; [exact IH|].
  unfold bandwidth_step, merit, lex_lt. destruct (memattr _ _ _) as [x|]; [|done]. cbn [fst snd].
  destruct (Z.ltb_spec b x); [left; cbn; auto|].
  destruct (Z.eqb_spec x b); cbn [andb]; [|right; cbn; split; [lia|done]].
  destruct (Z.ltb_spec (local_memory n) u); [left|right]; cbn; (split; [lia|]); subst; done.
Qed.

Lemma judged_latency init l :
  let c := foldl (latency_step memattr init) (INT_MAX, SIZE_MAX, None) l in
  judged MEM_ATTR_LATENCY init (- INT_MAX, - SIZE_MAX) l (- c.1.1, - c.1.2) c.2.
Proof.
  induction l as [|n l IH] using rev_ind; [apply judged_start_ok|]. rewrite foldl_app. cbn [foldl].
  cbv zeta in *. destruct (foldl _ _ l) as [[b u] r]. cbn [fst snd] in *. eapply judged_step; [exact IH|].
  unfold latency_step, merit, lex_lt. destruct (memattr _ _ _) as [x|]; [|done]. cbn [fst snd].
  destruct (Z.ltb_spec x b); [left; cbn; split; [lia|auto]|].
  destruct (Z.eqb_spec x b); cbn [andb]; [|right; cbn; split; [lia|done]].
  destruct (Z.ltb_spec (local_memory n) u); [left|right]; cbn; (split; [lia|]); subst; done.
Qed.

(** The merit a search starts from. *)
Definition merit_start (attr : memory_attribute_t) : Z * Z :=
  match attr with
  | MEM_ATTR_CAPACITY => (0, 0)
  | MEM_ATTR_BANDWIDTH => (0, - SIZE_MAX)
  | MEM_ATTR_LATENCY => (- INT_MAX, - SIZE_MAX)
  end.

Lemma choose_local_judged attr init l :
  ∃ k, judged attr init (merit_start attr) l k (choose_local distance memattr attr init l).
Proof.
  destruct attr; unfold choose_local; eexists;
    [apply judged_capacity|apply judged_bandwidth|apply judged_latency].
Qed.

(** C29: The node chosen for the processors of a node has the best attribute, and
    among those of the same attribute the larger distance (capacity) or the
    smaller memory (bandwidth, latency); there is none exactly when no local
    node reports a value better than the initial one. *)
Theorem choose_local_best attr init l :
  match choose_local distance memattr attr init l with
  | Some d => ∃ n k, n ∈ l ∧ os_index n = d ∧ merit attr init n = Some k ∧
      ∀ n' k', n' ∈ l → merit attr init n' = Some k' → ¬ lex_lt k k'
  | None => ∀ n k, n ∈ l → merit attr init n = Some k → ¬ lex_lt (merit_start attr) k
  end.
Proof.
  destruct (choose_local_judged attr init l) as [k [Hs Ha Hr Hn]].
  destruct (choose_local _ _ _ _ _) as [d|].
  - destruct (Hr d eq_refl) as (n & ? & ? & ?). by exists n, k.
  - rewrite <-(Hn eq_refl). exact Ha.
Qed.
End attribute.
