(* ===== verification/NumaDemo.v ===== *)
(** * Concrete topologies

    Two sockets with processors and two nodes without, as on machines with
    high-bandwidth memory; the theorems of [NumaSpec] applied to it, and inputs
    on which the code misbehaves. *)
From S2P Require Import CString Prelude Registry Arena Numa NumaSpec.
Local Open Scope string_scope.
Local Open Scope Z_scope.

(** Nodes 0 and 1 have two processors each; node 2 is near 0, node 3 near 1. *)
Definition flat : topology :=
  Topology 4 3
    (λ i, if i =? 0 then Some [0; 1] else if i =? 1 then Some [2; 3] else if i <=? 3 then Some [] else None)
    (λ i d, if i =? d then 10 else if d =? i + 2 then 21 else 31)
    true true.

Definition high_bandwidth (d : Z) : bool := (d =? 2) || (d =? 3).

Example flat_nearest :
  get_mbind_nodemask (λ _, true) flat (inr high_bandwidth) NODE_VARIANT_SINGLE (Some ∅) 64 2 None =
  Ret (0, Some {[3]}, Some (0, Some [Vec [2] 8; Vec [2] 8; Vec [3] 8; Vec [3] 8])).
Proof. vm_compute. reflexivity. Qed.

Lemma nodemask_nearest_witness :
  ∃ mask, get_mbind_nodemask (λ _, true) flat (inr high_bandwidth) NODE_VARIANT_MULTIPLE (Some ∅) 64 2 None =
      Ret (MEMKIND_SUCCESS, Some mask, Some (set_closest_numanode (λ _, true) flat (inr high_bandwidth) NODE_VARIANT_MULTIPLE)) ∧
    ∀ d, d ∈ mask ↔ d < 64 ∧ ∃ i, 0 <= i <= max_node_id flat ∧ 2 ∈ cpus_of flat i ∧
      near flat high_bandwidth NODE_VARIANT_MULTIPLE i d.
Proof.
  apply (nodemask_nearest (λ _, true) flat high_bandwidth NODE_VARIANT_MULTIPLE ∅ 64 2 None);
    [done| |done|done|done|done|by left|done].
  intros i d. cbn. destruct (i =? d); [done|]. by destruct (d =? i + 2).
Defined.

Definition sizes (d : Z) : Z := if d =? 0 then 64 else if d =? 1 then -1 else if d =? 2 then 512 else 512.

Lemma hi_cap_find_correct_witness :
  hc_init_err (memkind_hi_cap_find sizes 3 true NODE_VARIANT_MULTIPLE) = MEMKIND_SUCCESS ∧
  (∃ nodes, hc_nodes (memkind_hi_cap_find sizes 3 true NODE_VARIANT_MULTIPLE) = Some nodes ∧
     ∀ d, d ∈ nodes ↔ biggest sizes 3 d) ∧
  ∃ g', memkind_hi_cap_finalize (memkind_hi_cap_find sizes 3 true NODE_VARIANT_MULTIPLE) = Ret g'.
Proof.
  apply (hi_cap_find_correct sizes 3 NODE_VARIANT_MULTIPLE); [|done|split; [exists 0; split; [lia|done]|done]].
  intros d. unfold sizes. destruct (d =? 0), (d =? 1), (d =? 2); lia.
Defined.

(** ** Defects *)

(** Two nodes of the same capacity: the mask is freed by the search, its
    pointer stays, and the finalisation frees it again. *)
Example hi_cap_double_free :
  let g := memkind_hi_cap_find sizes 3 true NODE_VARIANT_SINGLE in
  hc_init_err g = MEMKIND_ERROR_MEMTYPE_NOT_AVAILABLE ∧ memkind_hi_cap_finalize g = Stop Undefined.
Proof. vm_compute. done. Qed.

(** A distance that libnuma cannot determine is reported as 0 and is smaller
    than every known one. *)
Example unknown_distance_wins :
  let t := Topology 4 3 (numa_node_to_cpus flat) (λ i d, if d =? 3 then 0 else numa_distance flat i d) true true in
  (get_mbind_nodemask (λ _, true) t (inr high_bandwidth) NODE_VARIANT_MULTIPLE (Some ∅) 64 0 None) =
  Ret (0, Some {[3]}, Some (0, Some [Vec [3] 8; Vec [3] 8; Vec [3] 8; Vec [3] 8])).
Proof. vm_compute. reflexivity. Qed.

(** A push that finds no memory is ignored: success with an empty mask. *)
Example push_failure_ignored :
  get_mbind_nodemask (λ _, false) flat (inr high_bandwidth) NODE_VARIANT_SINGLE (Some ∅) 64 2 None =
  Ret (0, Some ∅, Some (0, Some [VEC_INITIALIZER; VEC_INITIALIZER; VEC_INITIALIZER; VEC_INITIALIZER])).
Proof. vm_compute. reflexivity. Qed.

(** [sched_getcpu] may fail with -1, which is used as an index. *)
Example cpu_index_unchecked :
  get_mbind_nodemask (λ _, true) flat (inr high_bandwidth) NODE_VARIANT_SINGLE (Some ∅) 64 (-1) None = Stop OutOfBounds.
Proof. vm_compute. reflexivity. Qed.

(** The threshold accepts an empty text as 0 and a negative number that wraps. *)
Example threshold_texts :
  hbw_threshold (Some "") = Some 0 ∧ hbw_threshold (Some "-18446744073709551615") = Some 1 ∧
  hbw_threshold (Some "4294967296") = None ∧ hbw_threshold (Some "200k") = None.
Proof. vm_compute. done. Qed.

(** By bandwidth: the faster node, and of two equally fast ones the smaller. *)
Definition socket : hwloc_obj := HwlocObj 0 [0; 1] 96.
Definition fast_small : hwloc_obj := HwlocObj 2 [] 16.
Definition fast_large : hwloc_obj := HwlocObj 3 [] 32.

Example fastest_smallest :
  get_per_cpu_local_nodes_mask (λ _ _, 10)
    (λ a _ n, if os_index n =? 0 then Some 100 else Some 400)
    (HwlocEnv true true true true (λ _, true)) MEM_ATTR_BANDWIDTH
    (λ _, Some [socket; fast_large; fast_small]) [socket] 2 = Ret (inr [Some 2; Some 2]).
Proof. vm_compute. reflexivity. Qed.
