(* ===== verification/Controller.v ===== *)
(** * The controller of the DRAM share ([src/ranking_controller.c])

    A proportional-integral controller in [double], built without
    [CONTROLLER_TRANSFORM_ENABLED].  It corrects the share of DRAM that the
    ranking aims at by the error measured in the last step. *)
From S2P Require Import Prelude Float.
From Stdlib Require Import SpecFloat.
Local Open Scope Z_scope.

Record ranking_controller := RankingController {
  integrated_error : spec_float;
  proportional : spec_float;
  integral : spec_float;
  hotTierSize : spec_float;
  coldTierSize : spec_float;
}.

Definition ranking_controller_set_expected_dram_total (expected_dram_total : spec_float) (c : ranking_controller) :
    ranking_controller :=
  RankingController (integrated_error c) (proportional c) (integral c)
    expected_dram_total (F64.sub F64.one expected_dram_total).

(** The sizes of the tiers are set by the last call. *)
Definition ranking_controller_init_ranking_controller (expected_dram_total proportional_term integral_term : spec_float)
    (c : ranking_controller) : ranking_controller :=
  ranking_controller_set_expected_dram_total expected_dram_total
    (RankingController F64.zero proportional_term integral_term (hotTierSize c) (coldTierSize c)).

Definition ranking_controller_calculate_fixed_thresh (found_dram_total : spec_float) (k : ranking_controller) :
    spec_float * ranking_controller :=
  let a := coldTierSize k in
  let c := F64.sub F64.one found_dram_total in
  let e := F64.sub a c in
  let integrated := F64.add (integrated_error k) e in
  let steering_signal := F64.add (F64.mul e (proportional k)) (F64.mul integrated (integral k)) in
  let new_inv_thresh := F64.add a steering_signal in
  let out := F64.sub F64.one new_inv_thresh in
  let out := if F64.gtb out F64.one then F64.one else if F64.ltb out F64.zero then F64.zero else out in
  (out, RankingController integrated (proportional k) (integral k) (hotTierSize k) (coldTierSize k)).

(** ** The output *)

Fixpoint run (founds : list spec_float) (k : ranking_controller) : list spec_float * ranking_controller :=
  match founds with
  | [] => ([], k)
  | f :: founds =>
      let (out, k) := ranking_controller_calculate_fixed_thresh f k in
      let (outs, k) := run founds k in (out :: outs, k)
  end.

Lemma clamp_range x :
  let y := if F64.gtb x F64.one then F64.one else if F64.ltb x F64.zero then F64.zero else x in
  F64.gtb y F64.one = false ∧ F64.ltb y F64.zero = false.
Proof.
  cbv zeta. destruct (F64.gtb x F64.one) eqn:H1; [done|]. destruct (F64.ltb x F64.zero) eqn:H2; done.
Qed.

(** Whatever shares are measured, and whatever the gains are, every output
    compares neither above one nor below zero, and the gains and the sizes of
    the tiers stay as they were set. *)
Theorem controller_output_in_range founds k outs k' :
  run founds k = (outs, k') →
  Forall (λ y, F64.gtb y F64.one = false ∧ F64.ltb y F64.zero = false) outs ∧ length outs = length founds ∧
  proportional k' = proportional k ∧ integral k' = integral k ∧
  hotTierSize k' = hotTierSize k ∧ coldTierSize k' = coldTierSize k.
Proof.
  revert k outs. induction founds as [|f founds IH]; intros k outs Hrun; cbn [run] in Hrun.
  { injection Hrun as <- <-. repeat split; constructor. }
  destruct (ranking_controller_calculate_fixed_thresh f k) as [out k1] eqn:Hstep.
  destruct (run founds k1) as [outs1 k2] eqn:Hrest. injection Hrun as <- <-.
  unfold ranking_controller_calculate_fixed_thresh in Hstep. injection Hstep as <- <-.
  destruct (IH _ _ Hrest) as (HF & Hl & Hp & Hi & Hh & Hc).
  split; [constructor; [apply clamp_range|done]|]. cbn. auto.
Qed.

(** One half expected, measured shares of one half, a quarter and one: the
    output starts at one half, rises when too little was found and falls when
    too much was. *)
Example controller_follows :
  let half := F64.div F64.one (F64.of_Z 2) in
  let quarter := F64.div F64.one (F64.of_Z 4) in
  let k := ranking_controller_init_ranking_controller half F64.one F64.zero
             (RankingController F64.zero F64.zero F64.zero F64.zero F64.zero) in
  (run [half; quarter; F64.one] k).1 = [half; F64.div (F64.of_Z 3) (F64.of_Z 4); F64.zero].
Proof. vm_compute. reflexivity. Qed.

(** A gain that is not a number goes through the clamp. *)
Example controller_nan_passes :
  let half := F64.div F64.one (F64.of_Z 2) in
  let k := ranking_controller_init_ranking_controller half (S754_infinity false) F64.zero
             (RankingController F64.zero F64.zero F64.zero F64.zero F64.zero) in
  (run [half] k).1 = [S754_nan].
Proof. vm_compute. reflexivity. Qed.
