(* ===== verification/Ranking.v ===== *)
(** * The ranking of types by hotness ([src/ranking.cpp])

    The sizes of all types are kept in a weighted tree ordered by hotness, one
    entry per hotness.  A type that is touched moves its size from its old
    hotness to its new one; the threshold between hot and cold is the hotness
    at which the tree reaches the wanted share of the memory.  The build has
    neither quantification nor [CHECK_ADDED_SIZE] nor [CRASH_ON_BLOCK_NOT_FOUND];
    the ranking is used by the background thread alone, so its mutex is not
    taken. *)
From S2P Require Import Prelude Float Bigary Alloc Slab Wre WrePut WreSpec Controller Tachanka.
From Stdlib Require Import SpecFloat.
Local Open Scope Z_scope.

Record AggregatedHotness := Agg {
  agg_size : Z;
  quantifiedHotness : spec_float;
}.

(** [struct ranking]: the entries of the tree point to records of the slab
    allocator [aggHotAlloc], kept in [aggs]. *)
Record ranking_t (W : Type) := RankingT {
  hotThreshold : bool * spec_float;
  entries : wre_tree W;
  aggHotAlloc : Z;
  aggs : gmap Z AggregatedHotness;
  aggSlabs : W;
  oldWeight : spec_float;
  newWeight : spec_float;
  controller : ranking_controller;
}.
Arguments RankingT {W}. Arguments hotThreshold {W}. Arguments entries {W}. Arguments aggHotAlloc {W}.
Arguments aggs {W}. Arguments aggSlabs {W}. Arguments oldWeight {W}. Arguments newWeight {W}.
Arguments controller {W}.

Definition ranking_quantify_hotness (hotness : spec_float) : spec_float := hotness.
Definition ranking_dequantify_hotness (quantified_hotness : spec_float) : spec_float := quantified_hotness.

(** The address of the local variable [temp]; no allocator returns it. *)
Definition TEMP : Z := -1.

Definition hot_of (m : gmap Z AggregatedHotness) (p : Z) : spec_float :=
  match m !! p with Some x => quantifiedHotness x | None => F64.zero end.

(** [is_hotter_agg_hot], reading the two records from [m]; the tree only hands
    it records that are there. *)
Definition is_hotter_agg_hot (m : gmap Z AggregatedHotness) (a b : Z) : bool :=
  F64.gtb (hot_of m a) (hot_of m b).

Section ops.
Context {W : Type} `{NodeAlloc W}.
Implicit Types r : ranking_t W.

Definition set_entries (tr : wre_tree W) r : ranking_t W :=
  RankingT (hotThreshold r) tr (aggHotAlloc r) (aggs r) (aggSlabs r) (oldWeight r) (newWeight r) (controller r).
Definition set_aggs (m : gmap Z AggregatedHotness) r : ranking_t W :=
  RankingT (hotThreshold r) (entries r) (aggHotAlloc r) m (aggSlabs r) (oldWeight r) (newWeight r) (controller r).
Definition set_aggSlabs (w : W) r : ranking_t W :=
  RankingT (hotThreshold r) (entries r) (aggHotAlloc r) (aggs r) w (oldWeight r) (newWeight r) (controller r).
Definition set_threshold (t : bool * spec_float) (k : ranking_controller) r : ranking_t W :=
  RankingT t (entries r) (aggHotAlloc r) (aggs r) (aggSlabs r) (oldWeight r) (newWeight r) k.

(** ** Adding and removing sizes *)

(** [wre_remove(ranking->entries, &temp)] with [temp] of the given hotness. *)
Definition take_out (hotness : spec_float) r : outcome (Z * ranking_t W) :=
  let! (value, tr) := wre_remove (is_hotter_agg_hot (<[TEMP := Agg 0 hotness]> (aggs r))) (entries r) TEMP in
  Ret (value, set_entries tr r).

(** The record goes back into the tree with its size, or is freed when that is 0. *)
Definition put_back (value : Z) r : outcome (ranking_t W) :=
  let! v := deref (aggs r !! value) in
  if 0 <? agg_size v then
    let! tr := wre_put (is_hotter_agg_hot (aggs r)) (entries r) value (agg_size v) in
    Ret (set_entries tr r)
  else
    let! w := na_free value (aggSlabs r) in
    Ret (set_aggs (delete value (aggs r)) (set_aggSlabs w r)).

Definition ranking_add_internal r (hotness : spec_float) (size : Z) : outcome (ranking_t W) :=
  let! (value, r) := take_out (ranking_quantify_hotness hotness) r in
  if negb (value =? NULL) then
    let! v := deref (aggs r !! value) in
    put_back value (set_aggs (<[value := Agg (u64 (agg_size v + size)) (quantifiedHotness v)]> (aggs r)) r)
  else
    let! (value, w) := na_malloc (aggHotAlloc r) (aggSlabs r) in
    if value =? NULL then Stop BadDeref else
    put_back value (set_aggs (<[value := Agg size (ranking_quantify_hotness hotness)]> (aggs r)) (set_aggSlabs w r)).

(** Removing more than was added only logs a message; the size then wraps. *)
Definition ranking_remove_internal r (hotness : spec_float) (size : Z) : outcome (ranking_t W) :=
  if size =? 0 then Ret r else
  let! (removed, r) := take_out (ranking_quantify_hotness hotness) r in
  if negb (removed =? NULL) then
    let! v := deref (aggs r !! removed) in
    put_back removed (set_aggs (<[removed := Agg (u64 (agg_size v - size)) (quantifiedHotness v)]> (aggs r)) r)
  else Ret r.

(** The size that was removed, and the ranking. *)
Definition ranking_remove_internal_relaxed r (entry : ttype) : outcome (Z * ranking_t W) :=
  let! (removed, r) := take_out (ranking_quantify_hotness (f entry)) r in
  let block_size := total_size entry in
  if negb (removed =? NULL) then
    let! v := deref (aggs r !! removed) in
    let (ret, left) := if agg_size v <? block_size then (agg_size v, 0)
                       else (block_size, u64 (agg_size v - block_size)) in
    let! r := put_back removed (set_aggs (<[removed := Agg left (quantifiedHotness v)]> (aggs r)) r) in
    Ret (ret, r)
  else
    let! _ := c_assert (total_size entry =? 0) in
    Ret (0, r).

(** ** Hotness *)

(** [pow] of the C library. *)
Context (pow : spec_float → spec_float → spec_float).

(** The constants as the nearest doubles. *)
Definition EXPONENTIAL_COEFFS_VALS : list spec_float :=
  [F64.div (F64.of_Z 9) (F64.of_Z 10); F64.div (F64.of_Z 99) (F64.of_Z 100);
   F64.div (F64.of_Z 999) (F64.of_Z 1000); F64.div (F64.of_Z 9999) (F64.of_Z 10000)].
Definition EXPONENTIAL_COEFFS_CONMPENSATION_COEFFS : list spec_float :=
  [F64.one; F64.div (F64.of_Z 953899645) (F64.of_Z (10 ^ 10)); F64.div (F64.of_Z 949597036) (F64.of_Z (10 ^ 11));
   F64.div (F64.of_Z 949169617) (F64.of_Z (10 ^ 12))].

Definition MAX_DBL : spec_float := S754_finite false (2 ^ 53 - 1) 971.

(** [a + b], or the largest double when that would overflow. *)
Definition saturated (limit a b : spec_float) : spec_float :=
  if F64.gtb (F64.sub MAX_DBL limit) a then F64.add a b else MAX_DBL.

(** The loop over the coefficients: the new history and the sum. *)
Fixpoint update_coeffs_loop (seconds_diff add_hotness ret : spec_float) (vals comps history : list spec_float) :
    outcome (list spec_float * spec_float) :=
  match vals, comps, history with
  | val :: vals, comp :: comps, h :: history =>
      let temp := pow val seconds_diff in
      let! _ := c_assert (SFleb temp F64.one && SFleb F64.zero temp) in
      let h := F64.mul h temp in
      let add := F64.mul comp add_hotness in
      let! _ := c_assert (SFleb F64.zero add) in
      let h := saturated add h (F64.mul comp add_hotness) in
      let ret := if F64.gtb (F64.sub MAX_DBL ret) h then F64.add ret h else MAX_DBL in
      let! (history, ret) := update_coeffs_loop seconds_diff add_hotness ret vals comps history in
      Ret (h :: history, ret)
  | _, _, _ => Ret ([], ret)
  end.

Definition ranking_update_coeffs (history : list spec_float) (seconds_diff add_hotness : spec_float) :
    outcome (list spec_float * spec_float) :=
  let! _ := c_assert (SFleb F64.zero seconds_diff) in
  update_coeffs_loop seconds_diff add_hotness F64.zero
    EXPONENTIAL_COEFFS_VALS EXPONENTIAL_COEFFS_CONMPENSATION_COEFFS history.

Definition set_hotness (t : ttype) (t0' : Z) (history : list spec_float) (f' : spec_float) : ttype :=
  TType (hash t) (num_allocs t) (total_size t) (dram_size t) (t2 t) (t1 t) t0' (touchCb t) (touchCbArg t) f'
    (timestamp_state t) history.

(** The callback of the type, code of the program, is called before. *)
Definition ranking_touch_entry_internal (entry : ttype) (timestamp : Z) (add_hotness : spec_float) : outcome ttype :=
  let! _ := c_assert (SFleb F64.zero add_hotness) in
  let seconds_diff := F64.div (F64.of_Z (u64 (timestamp - t0 entry))) (F64.of_Z 1000000000) in
  let! _ := c_assert (SFleb F64.zero seconds_diff) in
  let! (history, f') := ranking_update_coeffs (hotness_history_coeffs entry) seconds_diff add_hotness in
  Ret (set_hotness entry timestamp history f').

Definition ranking_touch_internal r (entry : ttype) (timestamp : Z) (add_hotness : spec_float) :
    outcome (ranking_t W * ttype) :=
  let! (removed, r) := ranking_remove_internal_relaxed r entry in
  let! entry := ranking_touch_entry_internal entry timestamp add_hotness in
  let! r := ranking_add_internal r (f entry) removed in
  Ret (r, entry).

(** ** The threshold *)

#[local] Existing Instance binary64.

Definition ranking_calculate_hot_threshold_dram_total_internal r (dram_total_ratio dram_total_used_ratio : spec_float) :
    outcome (bool * spec_float * ranking_t W) :=
  let k := ranking_controller_set_expected_dram_total dram_total_ratio (controller r) in
  let (fixed_dram_total_ratio, k) := ranking_controller_calculate_fixed_thresh dram_total_used_ratio k in
  let! ret := wre_find_weighted_interpolated (entries r) fixed_dram_total_ratio in
  let! thresh :=
    if negb (ir_left ret =? NULL) && negb (ir_fallbackRequired ret) then
      let! l := deref (aggs r !! ir_left ret) in
      let hotness_left := quantifiedHotness l in
      let! hotness_right :=
        if negb (ir_right ret =? NULL) then let! x := deref (aggs r !! ir_right ret) in Ret (quantifiedHotness x)
        else Ret (F64.add hotness_left F64.one) in
      Ret (true, ranking_dequantify_hotness
                   (F64.add hotness_left (F64.mul (F64.sub hotness_right hotness_left) (ir_percentage ret))))
    else Ret (false, F64.zero) in
  Ret (thresh, set_threshold thresh k r).

(** Both ratios are computed from [dram_pmem_ratio]. *)
Definition ranking_calculate_hot_threshold_dram_pmem_internal r (dram_pmem_ratio dram_pmem_used_ratio : spec_float) :
    outcome (bool * spec_float * ranking_t W) :=
  let ratio := F64.div dram_pmem_ratio (F64.add F64.one dram_pmem_ratio) in
  let ratio_used := F64.div dram_pmem_ratio (F64.add F64.one dram_pmem_ratio) in
  ranking_calculate_hot_threshold_dram_total_internal r ratio ratio_used.

Definition ranking_is_hot_internal r (entry : ttype) : bool := F64.gtb (f entry) (hotThreshold r).2.

Definition ranking_set_callback (cb arg : Z) (t : ttype) : ttype :=
  TType (hash t) (num_allocs t) (total_size t) (dram_size t) (t2 t) (t1 t) (t0 t) cb arg (f t)
    (timestamp_state t) (hotness_history_coeffs t).

(** ** The interface that tachanka uses *)

(** A call that stops the process is remembered as such. *)
Definition real_ranking (create : spec_float → outcome (ranking_t W)) : Ranking (outcome (ranking_t W)) := {|
  ranking_create := create;
  ranking_add m hotness size := let! r := m in ranking_add_internal r hotness size;
  ranking_remove m hotness size := let! r := m in ranking_remove_internal r hotness size;
  ranking_touch m entry timestamp add_hotness :=
    match (let! r := m in ranking_touch_internal r entry timestamp add_hotness) with
    | Ret (r, entry) => (Ret r, entry)
    | Stop e => (Stop e, entry)
    end;
  ranking_set_touch_callback m cb arg entry := (m, ranking_set_callback cb arg entry);
  ranking_get_hot_threshold m := match m with Ret r => hotThreshold r | Stop _ => (false, F64.zero) end;
  ranking_calculate_hot_threshold_dram_total m desired actual :=
    let! r := m in
    let! (_, r) := ranking_calculate_hot_threshold_dram_total_internal r desired actual in
    Ret r;
|}.
End ops.

(** ** Creation *)

Definition CONTROLLER_PROPORTIONAL_GAIN : spec_float := F64.div (F64.of_Z 3) (F64.of_Z 10).
Definition CONTROLLER_INTEGRAL_GAIN : spec_float := F64.div (F64.div F64.one (F64.of_Z 10)) (F64.of_Z 10).
Definition SIZEOF_AGG : Z := 16.

(** [tree] is what [wre_create] allocates and [agg] the address of
    [aggHotAlloc]; [o1] and [o2] are the kernel's answers to the two slab
    allocators and [garbage] what memory held. *)
Definition ranking_create_internal (o1 o2 : OS) (tree garbage agg : Z) (k0 : ranking_controller) (old_weight : spec_float) :
    outcome (ranking_t slab_world) :=
  let! tr := wre_create o1 tree garbage (World ∅ ∅) in
  let! (ret, w) := @slab_alloc_init o2 agg SIZEOF_AGG 0 (World ∅ ∅) in
  let k := ranking_controller_init_ranking_controller (F64.div F64.one (F64.of_Z 2))
             CONTROLLER_PROPORTIONAL_GAIN CONTROLLER_INTEGRAL_GAIN k0 in
  let! _ := c_assert (ret =? 0) in
  Ret (RankingT (false, F64.zero) tr agg ∅ w old_weight (F64.sub F64.one old_weight) k).
