(* ===== verification/RankingSpec.v ===== *)
(** * The ranking is a table of sizes by hotness

    [amount r h] is the size the ranking holds at the hotness [h].  Adding,
    removing and touching change it as the interface says; no assertion fails
    and no size wraps as long as no more is taken out than was put in. *)
From S2P Require Import Prelude Float Bigary Alloc Slab Wre WreTree WreHeap WrePut WreRemove WreSpec Controller Tachanka TachankaSpec Ranking.
From Stdlib Require Import SpecFloat.
Local Open Scope Z_scope.

(** ** The order of doubles *)

Definition number (x : spec_float) : Prop := x ≠ S754_nan.

(** A triple that orders the numbers lexicographically. *)
Definition key (x : spec_float) : Z * Z * Z :=
  match x with
  | S754_zero _ | S754_nan => (0, 0, 0)
  | S754_infinity s => (if s then -2 else 2, 0, 0)
  | S754_finite s m e => if s then (-1, - e, Z.neg m) else (1, e, Z.pos m)
  end.

Definition key_lt (a b : Z * Z * Z) : Prop :=
  a.1.1 < b.1.1 ∨ (a.1.1 = b.1.1 ∧ (a.1.2 < b.1.2 ∨ (a.1.2 = b.1.2 ∧ a.2 < b.2))).

Lemma ltb_key x y : number x → number y → SFltb x y = true ↔ key_lt (key x) (key y).
Proof.
  unfold number, key_lt, SFltb. intros Hx Hy.
  destruct x as [[]|[]| |[] m e], y as [[]|[]| |[] m' e']; try done; cbn; try (split; [done|lia]); try (split; [lia|done]).
  all: change (PosDef.Pos.compare_cont Eq m m') with (Pos.compare m m');
    destruct (Z.compare_spec e e'); subst; cbn; try (split; [done|lia]); try (split; [lia|done]).
  all: destruct (Pos.compare_spec m m'); subst; cbn; try (split; [done|lia]); try (split; [lia|done]).
Qed.

(** Equal as doubles: both zeros are the same hotness. *)
Definition same_hot (x y : spec_float) : bool := negb (SFltb x y) && negb (SFltb y x).

Lemma same_hot_key x y : number x → number y → same_hot x y = true ↔ key x = key y.
Proof.
  intros Hx Hy. unfold same_hot. rewrite andb_true_iff, !negb_true_iff, <- !not_true_iff_false, !ltb_key by done.
  unfold key_lt. destruct (key x) as [[a b] c], (key y) as [[a' b'] c']. cbn. split.
  - intros [H1 H2]. repeat f_equal; lia.
  - intros [= -> -> ->]. lia.
Qed.

Lemma same_hot_refl x : number x → same_hot x x = true.
Proof. intros Hx. by apply same_hot_key. Qed.

Lemma same_hot_sym x y : same_hot x y = same_hot y x.
Proof. unfold same_hot. apply andb_comm. Qed.

(** Equal hotness can be exchanged. *)
Lemma same_hot_eq x y z : number x → number y → number z → same_hot x y = true → same_hot x z = same_hot y z.
Proof.
  intros Hx Hy Hz He. apply same_hot_key in He; [|done..]. apply eq_iff_eq_true.
  rewrite !same_hot_key by done. by rewrite He.
Qed.

(** ** The comparison of records *)

Definition numbers (m : gmap Z AggregatedHotness) : Prop := ∀ p x, m !! p = Some x → number (quantifiedHotness x).

Lemma hot_number m p : numbers m → number (hot_of m p).
Proof. intros Hm. unfold hot_of. destruct (m !! p) eqn:Hp; [by eapply Hm|done]. Qed.

#[export] Instance hotter_strict_weak m (Hm : numbers m) : StrictWeak (is_hotter_agg_hot m).
Proof.
  split; unfold le, is_hotter_agg_hot, F64.gtb; intros *;
    rewrite <- ?not_true_iff_false, !ltb_key by (by apply hot_number); unfold key_lt; lia.
Qed.

Lemma equiv_hot m x y :
  equiv (is_hotter_agg_hot m) x y ↔ same_hot (hot_of m x) (hot_of m y) = true.
Proof.
  unfold equiv, is_hotter_agg_hot, F64.gtb, same_hot. rewrite andb_true_iff, !negb_true_iff. tauto.
Qed.

Lemma numbers_insert m p x : numbers m → number (quantifiedHotness x) → numbers (<[p := x]> m).
Proof. intros Hm Hx q y [[<- <-]|[_ Hq]]%lookup_insert_Some; [done|by eapply Hm]. Qed.

Lemma hot_of_insert m p x : hot_of (<[p := x]> m) p = quantifiedHotness x.
Proof. unfold hot_of. by rewrite lookup_insert_eq. Qed.
Lemma hot_of_insert_ne m p q x : p ≠ q → hot_of (<[p := x]> m) q = hot_of m q.
Proof. intros Hne. unfold hot_of. by rewrite lookup_insert_ne. Qed.

(** ** Sizes by hotness *)

Definition share (h : spec_float) (x : AggregatedHotness) : Z :=
  if same_hot (quantifiedHotness x) h then agg_size x else 0.

Definition amount_of (m : gmap Z AggregatedHotness) (h : spec_float) : Z := msum (share h) m.

(** With one record per hotness, the amount is the size of that record. *)
Definition one_each (m : gmap Z AggregatedHotness) : Prop :=
  ∀ p q x y, m !! p = Some x → m !! q = Some y →
    same_hot (quantifiedHotness x) (quantifiedHotness y) = true → p = q.

Lemma amount_none m h :
  (∀ p x, m !! p = Some x → same_hot (quantifiedHotness x) h = false) → amount_of m h = 0.
Proof. intros Hm. apply msum_zero. intros p x Hp. unfold share. by rewrite (Hm p x Hp). Qed.

Lemma amount_split m p x h : m !! p = Some x → amount_of m h = share h x + amount_of (delete p m) h.
Proof. intros Hp. unfold amount_of. rewrite (msum_delete _ _ _ _ Hp). lia. Qed.

Lemma others_differ m p x h :
  numbers m → one_each m → number h → m !! p = Some x → same_hot (quantifiedHotness x) h = true →
  ∀ q y, delete p m !! q = Some y → same_hot (quantifiedHotness y) h = false.
Proof.
  intros Hn H1 Hh Hp Hs q y [Hne Hq]%lookup_delete_Some. apply not_true_iff_false. intros Hy.
  apply Hne. apply (H1 p q x y Hp Hq).
  rewrite (same_hot_eq _ h) by eauto. by rewrite same_hot_sym.
Qed.

Lemma amount_record m p x h :
  numbers m → one_each m → number h → m !! p = Some x → same_hot (quantifiedHotness x) h = true →
  amount_of m h = agg_size x.
Proof.
  intros Hn H1 Hh Hp Hs. rewrite (amount_split m p x h Hp), amount_none; [unfold share; rewrite Hs; lia|].
  by apply (others_differ m p x).
Qed.

(** ** The tree and its records *)

Lemma sorted_ext (lower lower' : Z → Z → bool) l :
  (∀ x y, x ∈ l → y ∈ l → lower x.1 y.1 = lower' x.1 y.1) → sorted lower l → sorted lower' l.
Proof.
  induction l as [|a l IH]; intros He; [constructor|]. rewrite !sorted_cons_iff. intros [Hs Ha]. split.
  - apply IH; [|done]. intros x y Hx Hy. apply He; by right.
  - intros y Hy. specialize (Ha y Hy). unfold ele, le in *. rewrite <- He; [done|by right|by left].
Qed.

Section rank.
Context {W : Type} `{NodeAllocLaws W}.
Implicit Types r : ranking_t W.

Lemma wre_rep_ext (lower lower' : Z → Z → bool) (tr : wre_tree W) es room :
  (∀ x y, x ∈ es → y ∈ es → lower x.1 y.1 = lower' x.1 y.1) →
  wre_rep lower tr es room → wre_rep lower' tr es room.
Proof.
  intros He (t & L & M & k & [] & Hk & <-). exists t, L, M, k. split; [|done]. split; try done.
  by eapply sorted_ext.
Qed.

Lemma rep_less (lower : Z → Z → bool) (tr : wre_tree W) es n n' :
  wre_rep lower tr es n → (n' <= n)%nat → wre_rep lower tr es n'.
Proof. intros (t & L & M & k & ? & ? & ?) ?. exists t, L, M, k. split_and!; [done|lia|done]. Qed.

(** [rank_at r m es n k]: the tree holds the records [m], a part of those that
    are allocated, as the entries [es]; it has room for [n] more nodes and the
    records for [k] more. *)
Record rank_at r (m : gmap Z AggregatedHotness) (es : list (Z * Z)) (n k : nat) : Prop := {
  ra_tree : wre_rep (is_hotter_agg_hot (aggs r)) (entries r) es n;
  ra_entries p w : (p, w) ∈ es ↔ ∃ x, m !! p = Some x ∧ agg_size x = w;
  ra_nodup : NoDup es.*1;
  ra_sub : m ⊆ aggs r;
  ra_alloc : ∃ M k', na_inv (aggSlabs r) M ∧ M !! aggHotAlloc r = Some (dom (aggs r), k') ∧ (k <= k')%nat;
  ra_numbers : numbers (aggs r);
  ra_address p : is_Some (aggs r !! p) → p ≠ NULL ∧ p ≠ TEMP;
  ra_pos p x : m !! p = Some x → 0 < agg_size x < 2 ^ 64;
  ra_one : one_each m;
}.

Definition rank_ok (n : nat) r : Prop := ∃ es, rank_at r (aggs r) es n n.
Definition amount r (h : spec_float) : Z := amount_of (aggs r) h.

Lemma entry_live r m es n k e : rank_at r m es n k → e ∈ es → is_Some (aggs r !! e.1).
Proof.
  intros Hr He. destruct e as [p w]. apply (ra_entries _ _ _ _ _ Hr) in He as (x & Hx & _).
  exists x. by eapply lookup_weaken; [|apply Hr].
Qed.

(** A change of a record that is not in the tree. *)
Lemma rank_at_insert r m es n k p x :
  rank_at r m es n k → m !! p = None → is_Some (aggs r !! p) → number (quantifiedHotness x) →
  rank_at (set_aggs (<[p := x]> (aggs r)) r) m es n k.
Proof.
  intros Hr Hp Hlive Hx. pose proof Hr as []. split; cbn; try done.
  - eapply wre_rep_ext; [|exact ra_tree0]. intros [a wa] [b wb] Ha Hb.
    assert (Hne : ∀ c w, (c, w) ∈ es → p ≠ c).
    { intros c w (y & Hy & _)%ra_entries0 ->. congruence. }
    unfold is_hotter_agg_hot. cbn. rewrite !hot_of_insert_ne by eauto. done.
  - by apply insert_subseteq_r.
  - destruct ra_alloc0 as (M & k' & ? & ? & ?). exists M, k'. by rewrite dom_insert_lookup_L.
  - by apply numbers_insert.
  - intros q Hq. apply ra_address0. destruct (decide (q = p)) as [->|]; [done|]. by rewrite lookup_insert_ne in Hq.
Qed.

(** A record fresh from the allocator. *)
Lemma rank_at_new r m es n k x :
  rank_at r m es n (S k) → number (quantifiedHotness x) →
  ∃ p w, na_malloc (aggHotAlloc r) (aggSlabs r) = Ret (p, w) ∧ p ≠ NULL ∧ aggs r !! p = None ∧
    rank_at (set_aggs (<[p := x]> (aggs r)) (set_aggSlabs w r)) m es n k.
Proof.
  intros Hr Hx. pose proof Hr as []. destruct ra_alloc0 as (M & [|k'] & Hw & HM & Hk); [lia|].
  destruct (na_malloc_ok _ _ _ _ _ Hw HM) as (p & w & Hrun & Hp%not_elem_of_dom & Hp0 & Hu & _ & Hw').
  assert (Hm : m !! p = None) by (by eapply lookup_weaken_None).
  exists p, w. split_and!; [done..|]. split; cbn; try done.
  - eapply wre_rep_ext; [|exact ra_tree0]. intros [a wa] [b wb] Ha Hb.
    assert (Hne : ∀ c v, (c, v) ∈ es → p ≠ c).
    { intros c v (y & Hy & _)%ra_entries0 ->. congruence. }
    unfold is_hotter_agg_hot. cbn. rewrite !hot_of_insert_ne by eauto. done.
  - by apply insert_subseteq_r.
  - eexists _, k'. split; [exact Hw'|]. rewrite lookup_insert_eq, dom_insert_L. split; [done|lia].
  - by apply numbers_insert.
  - intros q Hq. destruct (decide (q = p)) as [->|]; [split; [done|unfold TEMP, is_u64 in *; lia]|].
    apply ra_address0. by rewrite lookup_insert_ne in Hq.
Qed.

(** Taking out the record of a hotness. *)
Lemma take_out_ok r es n k h :
  rank_at r (aggs r) es n k → number h →
  (take_out h r = Ret (NULL, r) ∧ ∀ p x, aggs r !! p = Some x → same_hot (quantifiedHotness x) h = false) ∨
  ∃ p x es' r', take_out h r = Ret (p, r') ∧ aggs r !! p = Some x ∧ same_hot (quantifiedHotness x) h = true ∧
    aggs r' = aggs r ∧ rank_at r' (delete p (aggs r)) es' (S n) k.
Proof.
  intros Hr Hh. pose proof Hr as []. unfold take_out. set (m' := <[TEMP := Agg 0 h]> (aggs r)).
  assert (Hm' : numbers m') by (by apply numbers_insert). pose proof (hotter_strict_weak m' Hm') as Hsw.
  assert (Hhot : ∀ e, e ∈ es → hot_of m' e.1 = hot_of (aggs r) e.1).
  { intros e He. apply hot_of_insert_ne. destruct (ra_address0 e.1); [by eapply entry_live|done]. }
  assert (Hrep : wre_rep (is_hotter_agg_hot m') (entries r) es n).
  { eapply wre_rep_ext; [|exact ra_tree0]. intros x y Hx Hy. unfold is_hotter_agg_hot. by rewrite !Hhot. }
  assert (Ht : hot_of m' TEMP = h) by apply hot_of_insert.
  destruct (wre_remove_ok (is_hotter_agg_hot m') (entries r) es n TEMP Hrep) as
    [[-> Hno]|(l1 & [p w] & l2 & tr' & -> & Heq & -> & Hrep' & _)]; cbn [obind].
  - left. split; [by destruct r|]. intros p x Hp. apply not_true_iff_false. intros Hs.
    assert (He : (p, agg_size x) ∈ es) by (apply ra_entries0; by exists x).
    apply (Hno _ He). rewrite equiv_hot, Ht, Hhot by done. cbn. unfold hot_of. by rewrite Hp.
  - right. assert (He : (p, w) ∈ l1 ++ (p, w) :: l2) by set_solver.
    pose proof He as (x & Hx & Hw)%ra_entries0. rewrite equiv_hot, Ht, Hhot in Heq by done.
    cbn in Heq. unfold hot_of in Heq. rewrite Hx in Heq.
    rewrite fmap_app, fmap_cons in ra_nodup0. cbn in ra_nodup0.
    pose proof ra_nodup0 as (Hnd1 & Hp1 & [Hp2 Hnd2]%NoDup_cons)%NoDup_app.
    assert (Hout : ∀ v, (p, v) ∉ l1 ++ l2).
    { intros v [Hin|Hin]%elem_of_app.
      - apply (Hp1 p); [by apply (list_elem_of_fmap_2 fst _ (p, v))|by left].
      - apply Hp2. by apply (list_elem_of_fmap_2 fst _ (p, v)). }
    exists p, x, (l1 ++ l2), (set_entries tr' r). split_and!; [done..|]. split; cbn; try done.
    + eapply wre_rep_ext; [|exact Hrep']. intros a b Ha Hb. unfold is_hotter_agg_hot.
      rewrite !Hhot; [done|set_solver..].
    + intros q v. split.
      * intros Hin. assert (q ≠ p) by (intros ->; by apply (Hout v)).
        destruct (proj1 (ra_entries0 q v)) as (y & Hy & Hv); [set_solver|].
        exists y. by rewrite lookup_delete_ne.
      * intros (y & [Hne Hy]%lookup_delete_Some & Hv).
        assert (Hin : (q, v) ∈ l1 ++ (p, w) :: l2) by (apply ra_entries0; by exists y).
        apply elem_of_app in Hin as [?|[[= -> ->]|?]%elem_of_cons]; [set_solver|done|set_solver].
    + rewrite fmap_app. apply NoDup_app. split_and!; [done| |done].
      intros a Ha Hb. apply (Hp1 a Ha). by right.
    + apply delete_subseteq.
    + intros q y [_ Hy]%lookup_delete_Some. by eapply ra_pos0.
    + intros q q' y y' [_ Hy]%lookup_delete_Some [_ Hy']%lookup_delete_Some. by apply ra_one0.
Qed.

(** Putting a record back, or freeing it when nothing is left. *)
Lemma put_back_ok r m es n k p x :
  rank_at r m es (S n) k → aggs r = <[p := x]> m → m !! p = None → 0 <= agg_size x < 2 ^ 64 →
  (∀ q y, m !! q = Some y → same_hot (quantifiedHotness y) (quantifiedHotness x) = false) →
  ∃ r' es', put_back p r = Ret r' ∧ aggs r' = (if 0 <? agg_size x then <[p := x]> m else m) ∧
    rank_at r' (aggs r') es' n k.
Proof.
  intros Hr Ha Hp Hx Hne. pose proof Hr as []. unfold put_back.
  assert (Hlive : aggs r !! p = Some x) by (rewrite Ha; apply lookup_insert_eq). rewrite Hlive. cbn [deref obind].
  assert (Hfresh : ∀ v, (p, v) ∉ es) by (intros v (y & Hy & _)%ra_entries0; congruence).
  destruct (Z.ltb_spec 0 (agg_size x)) as [Hpos|Hzero].
  - pose proof (hotter_strict_weak _ ra_numbers0) as Hsw.
    destruct (put_ok (is_hotter_agg_hot (aggs r)) (entries r) es n p (agg_size x) ra_tree0) as
      (tr' & l1 & l2 & -> & -> & Hrep' & _); [done|]. cbn [obind].
    exists (set_entries tr' r), (l1 ++ (p, agg_size x) :: l2). split_and!; [done..|]. split; cbn; try done.
    + intros q v. rewrite Ha. rewrite elem_of_app, elem_of_cons. split.
      * intros Hin. destruct (decide (q = p)) as [->|Hq].
        -- exists x. rewrite lookup_insert_eq. destruct Hin as [Hin|[[= ->]|Hin]]; [|done|];
             by destruct (Hfresh v); apply elem_of_app; auto.
        -- rewrite lookup_insert_ne by done. apply ra_entries0, elem_of_app.
           destruct Hin as [?|[[= ? ?]|?]]; [by left|done|by right].
      * intros (y & [[<- <-]|[Hq Hy]]%lookup_insert_Some & Hv); [right; left; by rewrite Hv|].
        assert (Hin : (q, v) ∈ l1 ++ l2) by (apply ra_entries0; by exists y).
        apply elem_of_app in Hin as [?|?]; [by left|by right; right].
    + rewrite fmap_app in ra_nodup0 |- *. cbn. apply NoDup_app in ra_nodup0 as (H1 & H2 & H3).
      assert (Hnot : ∀ l : list (Z * Z), (∀ v, (p, v) ∉ l) → p ∉ l.*1).
      { intros l Hl ([p' v] & -> & Hin)%list_elem_of_fmap. by apply (Hl v). }
      apply NoDup_app. split_and!; [done| |].
      * intros a Ha1 [->|Ha2]%elem_of_cons; [|by apply (H2 a)]. revert Ha1. apply Hnot. intros v Hv. apply (Hfresh v). set_solver.
      * apply NoDup_cons. split; [|done]. apply Hnot. intros v Hv. apply (Hfresh v). set_solver.
    + intros q y. rewrite Ha. intros [[<- <-]|[_ Hy]]%lookup_insert_Some; [lia|by eapply ra_pos0].
    + rewrite Ha. intros q q' y y' Hy Hy' Hs.
      apply lookup_insert_Some in Hy, Hy'.
      destruct Hy as [[<- <-]|[Hq Hy]], Hy' as [[<- <-]|[Hq' Hy']]; [done| | |].
      * rewrite same_hot_sym, (Hne _ _ Hy') in Hs. done.
      * rewrite (Hne _ _ Hy) in Hs. done.
      * by apply (ra_one0 q q' y y').
  - destruct ra_alloc0 as (M & k' & Hw & HM & Hk).
    destruct (na_free_ok _ _ _ _ _ p Hw HM) as (w' & -> & Hw'); [by apply elem_of_dom|]. cbn [obind].
    assert (Hdel : delete p (aggs r) = m) by (rewrite Ha; by apply delete_insert_id).
    eexists _, es. split; [done|]. cbn. rewrite Hdel. split; [done|]. split; cbn; rewrite ?Hdel; try done.
    + eapply rep_less; [|apply Nat.le_succ_diag_r].
      eapply wre_rep_ext; [|exact ra_tree0]. intros [a wa] [b wb] Ha1 Hb1.
      assert (Hn : ∀ c v, (c, v) ∈ es → hot_of (aggs r) c = hot_of m c).
      { intros c v Hc. rewrite Ha. apply hot_of_insert_ne. intros ->. by apply (Hfresh v). }
      unfold is_hotter_agg_hot. cbn. by rewrite (Hn a wa), (Hn b wb).
    + eexists _, (S k'). split; [exact Hw'|]. rewrite lookup_insert_eq. split; [|lia].
      by rewrite <- Hdel, dom_delete_L.
    + intros q y Hy. eapply ra_numbers0. by eapply lookup_weaken; [|exact ra_sub0].
    + intros q [y Hy]. apply ra_address0. exists y. by eapply lookup_weaken; [|exact ra_sub0].
Qed.

Lemma rank_at_less r m es n k n' k' :
  rank_at r m es n k → (n' <= n)%nat → (k' <= k)%nat → rank_at r m es n' k'.
Proof.
  intros [] Hn Hk. split; try done; [by eapply rep_less|].
  destruct ra_alloc0 as (M & k0 & ? & ? & ?). exists M, k0. split_and!; [done..|lia].
Qed.

Lemma rank_ok_less n n' r : rank_ok n r → (n' <= n)%nat → rank_ok n' r.
Proof. intros [es Hr] Hn. exists es. by eapply rank_at_less. Qed.

(** The amounts after a record changed its size. *)
Lemma amount_update (m : gmap Z AggregatedHotness) p x sz h h' :
  numbers m → number h → number h' → m !! p = Some x → same_hot (quantifiedHotness x) h = true →
  amount_of (<[p := Agg sz (quantifiedHotness x)]> (delete p m)) h' =
  amount_of m h' + (if same_hot h h' then sz - agg_size x else 0).
Proof.
  intros Hm Hh Hh' Hp Hs. rewrite (amount_split m p x h' Hp). unfold amount_of at 1.
  rewrite msum_insert by apply lookup_delete_eq. fold (amount_of (delete p m) h').
  assert (Hsh : ∀ y, quantifiedHotness y = quantifiedHotness x → share h' y = if same_hot h h' then agg_size y else 0).
  { intros y Hy. unfold share. by rewrite Hy, (same_hot_eq _ h h') by eauto. }
  rewrite !Hsh by done. cbn. destruct (same_hot h h'); lia.
Qed.

Lemma amount_zero_size (m : gmap Z AggregatedHotness) p x h :
  m !! p = None → agg_size x = 0 → amount_of (<[p := x]> m) h = amount_of m h.
Proof. intros Hp Hx. unfold amount_of. rewrite msum_insert by done. unfold share at 1. destruct (same_hot _ _); lia. Qed.

(** Changing the size of the record that was taken out, and putting it back. *)
Lemma put_back_size r r' es n k p x sz h :
  rank_at r' (delete p (aggs r)) es (S n) k → aggs r' = aggs r → one_each (aggs r) → number h →
  aggs r !! p = Some x → same_hot (quantifiedHotness x) h = true → 0 <= sz < 2 ^ 64 →
  ∃ r2, put_back p (set_aggs (<[p := Agg sz (quantifiedHotness x)]> (aggs r')) r') = Ret r2 ∧
    (∃ es', rank_at r2 (aggs r2) es' n k) ∧
    ∀ h', number h' → amount r2 h' = amount r h' + (if same_hot h h' then sz - agg_size x else 0).
Proof.
  intros Hr Ha H1 Hh Hp Hs Hsz. pose proof (ra_numbers _ _ _ _ _ Hr) as Hn. rewrite Ha in Hn.
  pose proof (rank_at_insert r' _ es (S n) k p (Agg sz (quantifiedHotness x)) Hr (lookup_delete_eq _ _)) as Hins.
  rewrite Ha in Hins |- *. specialize (Hins ltac:(by eexists) (Hn p x Hp)).
  destruct (put_back_ok _ _ _ _ _ p (Agg sz (quantifiedHotness x)) Hins) as (r2 & es' & -> & Ha2 & Hr2).
  { cbn. by rewrite insert_delete_eq. }
  { apply lookup_delete_eq. }
  { done. }
  { cbn. intros q y Hq. rewrite same_hot_sym. pose proof Hq as [_ Hq']%lookup_delete_Some.
    rewrite (same_hot_eq _ h) by eauto. rewrite same_hot_sym. by eapply (others_differ (aggs r) p x). }
  exists r2. split; [done|]. split; [by exists es'|]. intros h' Hh'. unfold amount. rewrite Ha2.
  cbn [agg_size]. rewrite <- (amount_update (aggs r) p x sz h h') by done.
  destruct (Z.ltb_spec 0 sz); [done|]. symmetry. apply amount_zero_size; [apply lookup_delete_eq|cbn; lia].
Qed.

(** ** The operations *)

Lemma add_ok n r h sz :
  rank_ok (S n) r → number h → 0 <= sz → amount r h + sz < 2 ^ 64 →
  ∃ r', ranking_add_internal r h sz = Ret r' ∧ rank_ok n r' ∧
    ∀ h', number h' → amount r' h' = amount r h' + (if same_hot h h' then sz else 0).
Proof.
  intros [es Hr] Hh Hsz Hmax. unfold ranking_add_internal, ranking_quantify_hotness.
  pose proof (ra_one _ _ _ _ _ Hr) as H1. pose proof (ra_numbers _ _ _ _ _ Hr) as Hn.
  destruct (take_out_ok r es (S n) (S n) h Hr Hh) as [[-> Hno]|(p & x & es' & r' & -> & Hp & Hs & Ha & Hr')]; cbn [obind].
  - cbn [Z.eqb negb]. destruct (rank_at_new r (aggs r) es (S n) n (Agg sz h) Hr Hh) as (p & w & -> & Hp0 & Hp & Hr').
    cbn [obind]. rewrite (proj2 (Z.eqb_neq p NULL)) by done.
    assert (Hz0 : amount r h = 0) by (by apply amount_none).
    destruct (put_back_ok _ _ _ _ _ p (Agg sz h) Hr') as (r2 & es2 & -> & Ha2 & Hr2); [done..|cbn; lia| |].
    { cbn. intros q y Hq. by apply (Hno q). }
    exists r2. split; [done|]. split; [by exists es2|]. intros h' Hh'. unfold amount in *. rewrite Ha2. cbn [agg_size].
    assert (Hins : amount_of (<[p := Agg sz h]> (aggs r)) h' = amount_of (aggs r) h' + (if same_hot h h' then sz else 0)).
    { unfold amount_of. rewrite msum_insert by done. unfold share at 1. cbn. destruct (same_hot h h'); lia. }
    destruct (Z.ltb_spec 0 sz); [done|]. rewrite <- Hins. symmetry. apply amount_zero_size; [done|cbn; lia].
  - pose proof (ra_address _ _ _ _ _ Hr p ltac:(by eexists)) as [Hp0 _]. rewrite (proj2 (Z.eqb_neq p NULL)) by done.
    cbn [negb]. rewrite Ha, Hp. cbn [deref obind]. rewrite <- Ha.
    pose proof (amount_record (aggs r) p x h Hn H1 Hh Hp Hs) as Hx. unfold amount in Hmax. rewrite Hx in Hmax.
    pose proof (ra_pos _ _ _ _ _ Hr p x Hp).
    destruct (put_back_size r r' es' (S n) (S n) p x (u64 (agg_size x + sz)) h Hr' Ha H1 Hh Hp Hs) as (r2 & -> & [es2 Hr2] & Ham);
      [apply u64_range|]. exists r2. split; [done|]. split; [exists es2; eapply rank_at_less; [exact Hr2|lia|lia]|].
    intros h' Hh'. rewrite (Ham h' Hh'), u64_small by (unfold is_u64; lia). destruct (same_hot h h'); lia.
Qed.

Lemma remove_ok n r h sz :
  rank_ok n r → number h → 0 <= sz <= amount r h →
  ∃ r', ranking_remove_internal r h sz = Ret r' ∧ rank_ok n r' ∧
    ∀ h', number h' → amount r' h' = amount r h' - (if same_hot h h' then sz else 0).
Proof.
  intros [es Hr] Hh Hsz. unfold ranking_remove_internal, ranking_quantify_hotness.
  pose proof (ra_one _ _ _ _ _ Hr) as H1. pose proof (ra_numbers _ _ _ _ _ Hr) as Hn.
  destruct (Z.eqb_spec sz 0) as [->|Hz].
  { exists r. split; [done|]. split; [by exists es|]. intros h' _. destruct (same_hot h h'); lia. }
  destruct (take_out_ok r es n n h Hr Hh) as [[-> Hno]|(p & x & es' & r' & -> & Hp & Hs & Ha & Hr')]; cbn [obind].
  { unfold amount in Hsz. rewrite (amount_none _ _ Hno) in Hsz. lia. }
  pose proof (ra_address _ _ _ _ _ Hr p ltac:(by eexists)) as [Hp0 _]. rewrite (proj2 (Z.eqb_neq p NULL)) by done.
  cbn [negb]. rewrite Ha, Hp. cbn [deref obind]. rewrite <- Ha.
  pose proof (amount_record (aggs r) p x h Hn H1 Hh Hp Hs) as Hx. unfold amount in Hsz. rewrite Hx in Hsz.
  pose proof (ra_pos _ _ _ _ _ Hr p x Hp).
  destruct (put_back_size r r' es' n n p x (u64 (agg_size x - sz)) h Hr' Ha H1 Hh Hp Hs) as (r2 & -> & [es2 Hr2] & Ham);
    [apply u64_range|]. exists r2. split; [done|]. split; [by exists es2|].
  intros h' Hh'. rewrite (Ham h' Hh'), u64_small by (unfold is_u64; lia). destruct (same_hot h h'); lia.
Qed.

Lemma remove_relaxed_ok n r ty :
  rank_ok n r → number (f ty) → 0 <= total_size ty <= amount r (f ty) →
  ∃ r', ranking_remove_internal_relaxed r ty = Ret (total_size ty, r') ∧ rank_ok n r' ∧
    ∀ h', number h' → amount r' h' = amount r h' - (if same_hot (f ty) h' then total_size ty else 0).
Proof.
  intros [es Hr] Hh Hsz. unfold ranking_remove_internal_relaxed, ranking_quantify_hotness.
  pose proof (ra_one _ _ _ _ _ Hr) as H1. pose proof (ra_numbers _ _ _ _ _ Hr) as Hn.
  destruct (take_out_ok r es n n (f ty) Hr Hh) as [[-> Hno]|(p & x & es' & r' & -> & Hp & Hs & Ha & Hr')]; cbn [obind].
  { unfold amount in Hsz. rewrite (amount_none _ _ Hno) in Hsz. replace (total_size ty) with 0 by lia.
    cbn [Z.eqb negb c_assert obind]. exists r. split; [done|]. split; [by exists es|]. intros h' _. destruct (same_hot _ h'); lia. }
  pose proof (ra_address _ _ _ _ _ Hr p ltac:(by eexists)) as [Hp0 _]. rewrite (proj2 (Z.eqb_neq p NULL)) by done.
  cbn [negb]. rewrite Ha, Hp. cbn [deref obind]. rewrite <- Ha.
  pose proof (amount_record (aggs r) p x (f ty) Hn H1 Hh Hp Hs) as Hx. unfold amount in Hsz. rewrite Hx in Hsz.
  pose proof (ra_pos _ _ _ _ _ Hr p x Hp). rewrite (proj2 (Z.ltb_ge _ _)) by lia.
  destruct (put_back_size r r' es' n n p x (u64 (agg_size x - total_size ty)) (f ty) Hr' Ha H1 Hh Hp Hs) as (r2 & -> & [es2 Hr2] & Ham);
    [apply u64_range|]. exists r2. split; [done|]. split; [by exists es2|].
  intros h' Hh'. rewrite (Ham h' Hh'), u64_small by (unfold is_u64; lia). destruct (same_hot _ h'); lia.
Qed.

Lemma rank_touch_ok pow n r ty ts add ty' :
  rank_ok (S n) r → number (f ty) → 0 <= total_size ty <= amount r (f ty) →
  ranking_touch_entry_internal pow ty ts add = Ret ty' → number (f ty') →
  amount r (f ty') - (if same_hot (f ty) (f ty') then total_size ty else 0) + total_size ty < 2 ^ 64 →
  ∃ r', ranking_touch_internal pow r ty ts add = Ret (r', ty') ∧ rank_ok n r' ∧
    ∀ h, number h → amount r' h = amount r h - (if same_hot (f ty) h then total_size ty else 0)
                                  + (if same_hot (f ty') h then total_size ty else 0).
Proof.
  intros Hr Hf Hsz Hrun Hf' Hmax. unfold ranking_touch_internal.
  destruct (remove_relaxed_ok (S n) r ty Hr Hf Hsz) as (r1 & -> & Hr1 & Ha1). cbn [obind]. rewrite Hrun. cbn [obind].
  destruct (add_ok n r1 (f ty') (total_size ty) Hr1 Hf') as (r2 & -> & Hr2 & Ha2); [lia|by rewrite (Ha1 _ Hf')|].
  cbn [obind]. exists r2. split; [done|]. split; [done|]. intros h Hh. by rewrite (Ha2 h Hh), (Ha1 h Hh).
Qed.

(** ** Calls against the table *)

Inductive rcall :=
  | RAdd (h : spec_float) (sz : Z)
  | RRemove (h : spec_float) (sz : Z)
  | RTouch (ty : ttype) (ts : Z) (add : spec_float) (ty' : ttype).

Definition run_rcall (pow : spec_float → spec_float → spec_float) (x : rcall) r : outcome (ranking_t W) :=
  match x with
  | RAdd h sz => ranking_add_internal r h sz
  | RRemove h sz => ranking_remove_internal r h sz
  | RTouch ty ts add _ => let! (r, _) := ranking_touch_internal pow r ty ts add in Ret r
  end.

(** What a call does to the size at a hotness. *)
Definition spec_rcall (x : rcall) (a : spec_float → Z) (h : spec_float) : Z :=
  match x with
  | RAdd h0 sz => a h + (if same_hot h0 h then sz else 0)
  | RRemove h0 sz => a h - (if same_hot h0 h then sz else 0)
  | RTouch ty _ _ ty' => a h - (if same_hot (f ty) h then total_size ty else 0)
                             + (if same_hot (f ty') h then total_size ty else 0)
  end.

(** Numbers, no more taken than there is, and a result below [2^64]. *)
Definition rcall_pre (pow : spec_float → spec_float → spec_float) (x : rcall) (a : spec_float → Z) : Prop :=
  match x with
  | RAdd h sz => number h ∧ 0 <= sz ∧ a h + sz < 2 ^ 64
  | RRemove h sz => number h ∧ 0 <= sz <= a h
  | RTouch ty ts add ty' =>
      number (f ty) ∧ 0 <= total_size ty <= a (f ty) ∧ ranking_touch_entry_internal pow ty ts add = Ret ty' ∧
      number (f ty') ∧ spec_rcall x a (f ty') < 2 ^ 64
  end.

(** C12: The ranking refines a table from hotness to size: every call within its
    bounds returns, without a failed assertion or a bad pointer, and the tree of
    records then holds at each hotness what the table says. *)
Theorem ranking_refines_table pow n x r :
  rank_ok (S n) r → rcall_pre pow x (amount r) →
  ∃ r', run_rcall pow x r = Ret r' ∧ rank_ok n r' ∧ ∀ h, number h → amount r' h = spec_rcall x (amount r) h.
Proof.
  intros Hr Hx. destruct x as [h sz|h sz|ty ts add ty']; cbn [run_rcall rcall_pre spec_rcall] in *.
  - destruct Hx as (Hh & Hsz & Hmax). by apply add_ok.
  - destruct Hx as (Hh & Hsz). destruct (remove_ok (S n) r h sz Hr Hh Hsz) as (r' & ? & Hr' & ?).
    exists r'. split; [done|]. split; [by eapply rank_ok_less; [|apply Nat.le_succ_diag_r]|done].
  - destruct Hx as (Hf & Hsz & Hrun & Hf' & Hmax). rewrite (same_hot_refl (f ty')) in Hmax by done.
    destruct (rank_touch_ok pow n r ty ts add ty' Hr Hf Hsz Hrun Hf' Hmax) as (r' & -> & Hr' & Ha). cbn [obind]. by exists r'.
Qed.
End rank.
