(* ===== verification/RankingDemo.v ===== *)
(** * Rankings that run

    [ranking_create] over slab allocators, a concrete sequence of calls, and
    what the ranking does with a removal that it was never given. *)
From S2P Require Import Prelude Float Bigary Alloc Slab Wre WreTree WreHeap WrePut WreSpec Controller Tachanka TachankaSpec Ranking RankingSpec.
From Stdlib Require Import SpecFloat.
Local Open Scope Z_scope.

Section create.
Context (o o1 o2 : OS) (b1 b2 : Z).
Hypothesis grant1 : grants o1 b1.
Hypothesis grant2 : grants o2 b2.
Hypothesis mmap_fixed_ok : ∀ a n, @os_mmap_fixed o a n = true.
#[local] Existing Instance o.
#[local] Instance rlaws : NodeAllocLaws slab_world := slab_laws mmap_fixed_ok.

(** A new ranking is empty, with room for as many operations as a tree of
    nodes can hold. *)
Lemma create_rank_ok tree garbage agg k0 w n :
  tree ≠ NULL → Z.of_nat n <= WRE_ROOM →
  ∃ r, ranking_create_internal o1 o2 tree garbage agg k0 w = Ret r ∧ rank_ok n r ∧ ∀ h, amount r h = 0.
Proof using grant1 grant2.
  intros Ht Hn. unfold ranking_create_internal.
  destruct (create_ok (is_hotter_agg_hot ∅) o o1 b1 grant1 mmap_fixed_ok tree garbage n Ht Hn) as (tr & -> & Hrep).
  cbn [obind]. destruct (slab_init_default o2 b2 (World ∅ ∅) ∅ agg SIZEOF_AGG) as (w1 & -> & Hw1 & _); try done.
  cbn [obind Z.eqb c_assert]. eexists. split; [done|]. split; [|done].
  exists []. split; cbn; try done.
  - intros p v. split; [by intros []%elem_of_nil|by intros (x & Hx & _)].
  - by apply NoDup_nil_2.
  - eexists _, _. split; [exact Hw1|]. rewrite lookup_insert_eq. split; [done|].
    assert (Hle : WRE_ROOM <= BIGARY_DEFAULT_MAX / (SIZEOF_META + SIZEOF_AGG)) by done. lia.
  - by intros p [x Hx].
Qed.
End create.

#[local] Existing Instance kernel.
#[local] Instance demo_rank_laws : NodeAllocLaws slab_world := rlaws kernel (λ _ _, eq_refl).

Definition no_controller : ranking_controller := RankingController F64.zero F64.zero F64.zero F64.zero F64.zero.

#[local] Abbreviation demo_ranking :=
  (ranking_create_internal (kernel_at (2 ^ 40)) (kernel_at (2 ^ 41)) 8192 7 8200 no_controller F64.one).

Lemma demo_ranking_ok n : Z.of_nat n <= WRE_ROOM → ∃ r, demo_ranking = Ret r ∧ rank_ok n r ∧ ∀ h, amount r h = 0.
Proof.
  intros Hn. apply (create_rank_ok kernel _ _ (2 ^ 40) (2 ^ 41)); try done; by apply kernel_grants.
Qed.

Lemma ranking_refines_table_witness :
  ∃ r r', demo_ranking = Ret r ∧ run_rcall (λ x _, x) (RAdd F64.one 64) r = Ret r' ∧ rank_ok 4 r' ∧
    ∀ h, number h → amount r' h = spec_rcall (RAdd F64.one 64) (amount r) h.
Proof.
  destruct (demo_ranking_ok 5 ltac:(done)) as (r & Hnew & Hr & Ha).
  destruct (ranking_refines_table (λ x _, x) 4 (RAdd F64.one 64) r Hr) as (r' & Hrun & Hr' & Ha').
  - split; [done|]. by rewrite Ha.
  - by exists r, r'.
Defined.

(** Ten bytes at hotness 1, twenty at 2; a type of five bytes moves from 1 to
    the hotness its first touch gives it. *)
Definition sizes_by_hotness (r : ranking_t slab_world) : list (Z * spec_float) :=
  (λ x, (agg_size x, quantifiedHotness x)) <$> (map_to_list (aggs r)).*2.

Definition five_bytes : ttype :=
  TType 7 1 5 0 0 0 0 NULL NULL F64.one TIMESTAMP_NOT_SET (replicate 4 F64.zero).

Example ranking_run :
  (let! r := demo_ranking in
   let! r := ranking_add_internal r F64.one 10 in
   let! r := ranking_add_internal r (F64.of_Z 2) 20 in
   let! (r, ty) := ranking_touch_internal (λ _ _, F64.zero) r five_bytes 1000000000 (F64.of_Z 4) in
   let! r := ranking_remove_internal r F64.one 5 in
   Ret (list_to_set (sizes_by_hotness r).*1 : gset Z, f ty)) =
  Ret ({[20; 5]}, F64.add (F64.add (F64.add (F64.of_Z 4) (F64.mul (F64.div (F64.of_Z 953899645) (F64.of_Z (10 ^ 10))) (F64.of_Z 4)))
    (F64.mul (F64.div (F64.of_Z 949597036) (F64.of_Z (10 ^ 11))) (F64.of_Z 4)))
    (F64.mul (F64.div (F64.of_Z 949169617) (F64.of_Z (10 ^ 12))) (F64.of_Z 4))).
Proof. vm_compute. reflexivity. Qed.

(** ** Defects *)

(** Removing more than was added logs a message and wraps the size. *)
Example remove_too_much_wraps :
  (let! r := demo_ranking in
   let! r := ranking_add_internal r F64.one 10 in
   let! r := ranking_remove_internal r F64.one 11 in
   Ret (sizes_by_hotness r)) = Ret [(2 ^ 64 - 1, F64.one)].
Proof. vm_compute. reflexivity. Qed.

(** The used ratio is computed from the wanted one: it has no influence. *)
Example used_ratio_ignored (W : Type) (r : ranking_t W) ratio used used' :
  ranking_calculate_hot_threshold_dram_pmem_internal r ratio used =
  ranking_calculate_hot_threshold_dram_pmem_internal r ratio used'.
Proof. unfold ranking_calculate_hot_threshold_dram_pmem_internal. cbv zeta. exact eq_refl. Qed.

(** A timestamp before the last one gives a difference of almost [2^64]
    nanoseconds, not a failed assertion. *)
Example backward_timestamp_decays :
  (let! ty := ranking_touch_entry_internal (λ _ d, if F64.gtb d (F64.of_Z 1000000) then F64.zero else F64.one)
                (TType 7 1 5 0 0 0 1000 NULL NULL F64.one TIMESTAMP_NOT_SET (replicate 4 F64.one)) 999 F64.zero in
   Ret (f ty)) = Ret F64.zero.
Proof. vm_compute. reflexivity. Qed.
