(* ===== verification/RankingBooks.v ===== *)
(** * The ranking follows the types

    tachanka over the real ranking: at every hotness the ranking holds the sum
    of the sizes of the types of that hotness.  So the removals that the event
    handler asks for are always covered, the assertion of
    [ranking_remove_internal_relaxed] never fails and no size wraps. *)
From S2P Require Import Prelude Float Alloc Critnib CritnibRead Index Queue QueueSafe QueueInv QueueSpec Events Tachanka TachankaSpec Ranking RankingSpec.
From Stdlib Require Import SpecFloat.
Local Open Scope Z_scope.

Section books.
Context {C W W2 : Type} `{AddrIndexLaws C} `{NodeAllocLaws W} `{NodeAllocLaws W2}.
Context (pow : spec_float → spec_float → spec_float) (create : spec_float → outcome (ranking_t W2)).
#[local] Instance the_ranking : Ranking (outcome (ranking_t W2)) := real_ranking pow create.

(** Touching and callbacks leave identity and counters of a type alone. *)
#[local] Instance the_ranking_laws : RankingLaws (outcome (ranking_t W2)).
Proof.
  split; cbn.
  - intros m ty ts h. unfold ranking_touch_internal, ranking_touch_entry_internal.
    destruct m as [r|]; [|done]. cbn [obind]. destruct (ranking_remove_internal_relaxed r ty) as [[n r1]|]; [|done].
    cbn [obind]. destruct (c_assert _); [|done]. cbn [obind]. destruct (c_assert _); [|done]. cbn [obind].
    destruct (ranking_update_coeffs _ _ _ _) as [[hs f']|]; [|done]. cbn [obind].
    by destruct (ranking_add_internal _ _ _).
  - done.
Qed.

Implicit Types s : tachanka C W (outcome (ranking_t W2)).

Definition size_at (h : spec_float) (ty : ttype) : Z := if same_hot (f ty) h then total_size ty else 0.
Definition all_sizes (typs : gmap Z ttype) : Z := msum total_size typs.

(** [follows n typs blks m]: the types hold the exact sizes of their blocks, and
    the ranking [m] holds at every hotness the sizes of the types of that
    hotness, with room for [n] more operations. *)
Record follows (n : nat) (typs : gmap Z ttype) (blks : gmap Z tblock) (m : outcome (ranking_t W2)) : Prop := {
  fo_sizes q b : blks !! q = Some b → 0 <= bsize b;
  fo_typed q b : blks !! q = Some b → is_Some (typs !! type b);
  fo_exact p ty : typs !! p = Some ty → total_size ty = msum (w_size p) blks;
  fo_numbers p ty : typs !! p = Some ty → number (f ty);
  fo_all : all_sizes typs < 2 ^ 64;
  fo_ranking : ∃ r, m = Ret r ∧ rank_ok n r ∧ ∀ h, number h → amount r h = msum (size_at h) typs;
}.

(** Every block is found by its own address. *)
Definition indexed s : Prop := ∀ q b, blocks s !! q = Some b → ix_get (addr_to_block s) (addr b) = Ret q.

Definition rbooks (n : nat) s : Prop := tinv n s ∧ indexed s ∧ follows n (types s) (blocks s) (ranking s).

(** ** Sums over types *)

Lemma msum_nonneg {V} (g : V → Z) (m : gmap Z V) : (∀ i x, m !! i = Some x → 0 <= g x) → 0 <= msum g m.
Proof. intros Hg. rewrite <- (msum_zero (λ _ : V, 0) m) by done. by apply msum_mono. Qed.

Lemma msum_update {V} (g : V → Z) m p x y : m !! p = Some x → msum g (<[p := y]> m) = msum g m - g x + g y.
Proof.
  intros Hp. rewrite <- (insert_delete_eq m p y), msum_insert by apply lookup_delete_eq.
  rewrite (msum_delete _ _ _ _ Hp). lia.
Qed.

Lemma msum_member {V} (g : V → Z) m p x :
  (∀ i y, m !! i = Some y → 0 <= g y) → m !! p = Some x → g x <= msum g m.
Proof.
  intros Hg Hp. pose proof (msum_delete g _ _ _ Hp).
  assert (0 <= msum g (delete p m)); [|lia]. apply msum_nonneg. intros i y [_ Hi]%lookup_delete_Some. eauto.
Qed.

Section fol.
Context (n : nat) (typs : gmap Z ttype) (blks : gmap Z tblock) (m : outcome (ranking_t W2)).
Hypothesis Hf : follows n typs blks m.

Lemma w_size_nonneg p q b : blks !! q = Some b → 0 <= w_size p b.
Proof. intros Hq%(fo_sizes _ _ _ _ Hf). unfold w_size. destruct (_ =? _); lia. Qed.

Lemma type_size_nonneg p ty : typs !! p = Some ty → 0 <= total_size ty.
Proof.
  intros Hp. rewrite (fo_exact _ _ _ _ Hf p ty Hp). apply msum_nonneg. eauto using w_size_nonneg.
Qed.

Lemma size_at_nonneg h p ty : typs !! p = Some ty → 0 <= size_at h ty.
Proof. intros Hp%type_size_nonneg. unfold size_at. destruct (same_hot _ _); lia. Qed.

Lemma block_in_type q b ty : blks !! q = Some b → typs !! type b = Some ty → bsize b <= total_size ty.
Proof.
  intros Hq Hty. rewrite (fo_exact _ _ _ _ Hf _ ty Hty).
  pose proof (msum_member (w_size (type b)) blks q b (w_size_nonneg (type b)) Hq) as Hle.
  unfold w_size at 1 in Hle. by rewrite Z.eqb_refl in Hle.
Qed.

Lemma type_in_all p ty : typs !! p = Some ty → total_size ty <= all_sizes typs.
Proof. intros Hp. by eapply msum_member; [apply type_size_nonneg|]. Qed.

Lemma size_at_all h : msum (size_at h) typs <= all_sizes typs.
Proof.
  apply msum_mono. intros q x Hq. unfold size_at. pose proof (type_size_nonneg q x Hq). destruct (same_hot _ _); lia.
Qed.

Lemma type_in_ranking (r : ranking_t W2) p ty :
  (∀ h, number h → amount r h = msum (size_at h) typs) → typs !! p = Some ty → total_size ty <= amount r (f ty).
Proof.
  intros Ha Hp. pose proof (fo_numbers _ _ _ _ Hf p ty Hp) as Hn. rewrite (Ha _ Hn).
  pose proof (msum_member (size_at (f ty)) typs p ty (size_at_nonneg (f ty)) Hp) as Hle.
  unfold size_at at 1 in Hle. by rewrite same_hot_refl in Hle.
Qed.
End fol.

Lemma follows_less n n' typs blks m : (n' <= n)%nat → follows n typs blks m → follows n' typs blks m.
Proof.
  intros Hle []. split; try done. destruct fo_ranking0 as (r & ? & ? & ?).
  exists r. split; [done|]. split; [by eapply rank_ok_less|done].
Qed.

Lemma rbooks_less n n' s : (n' <= n)%nat → rbooks n s → rbooks n' s.
Proof. intros Hle (Hi & Hix & Hf). split; [by eapply tinv_mono|]. split; [done|by eapply follows_less]. Qed.

(** ** One step at a time *)

(** The sizes at [h] after one type has changed. *)
Lemma size_at_update typs p ty ty' h :
  typs !! p = Some ty →
  msum (size_at h) (<[p := ty']> typs) = msum (size_at h) typs
    - (if same_hot (f ty) h then total_size ty else 0) + (if same_hot (f ty') h then total_size ty' else 0).
Proof. intros Hp. by rewrite (msum_update _ _ _ _ _ Hp). Qed.

(** A type that no block has yet. *)
Lemma follows_new n typs blks m p h :
  follows n typs blks m → typs !! p = None →
  follows n (<[p := set_f (new_ttype h) HOTNESS_INITIAL]> typs) blks m.
Proof.
  intros [] Hp. unfold all_sizes in *. split.
  - done.
  - intros q b Hq. destruct (fo_typed0 q b Hq) as [ty Hty]. rewrite lookup_insert_ne by congruence. by eexists.
  - intros q ty Hq. apply lookup_insert_Some in Hq as [[<- <-]|[_ Hq]]; [|eauto].
    symmetry. apply msum_zero. intros q b Hq. unfold w_size. destruct (Z.eqb_spec (type b) p) as [<-|]; [|done].
    destruct (fo_typed0 q b Hq). congruence.
  - intros q ty Hq. apply lookup_insert_Some in Hq as [[<- <-]|[_ Hq]]; [done|eauto].
  - unfold all_sizes. by rewrite msum_insert.
  - destruct fo_ranking0 as (r & Hr & Hok & Ha). exists r. split; [done|]. split; [done|]. intros h' Hh'.
    rewrite msum_insert by done. rewrite (Ha h' Hh'). unfold size_at at 2. cbn. by destruct (same_hot _ _).
Qed.

(** A type, its hotness, its size and the blocks under it change together. *)
Lemma follows_change n n' typs blks blks' m m' p ty ty' :
  follows n typs blks m → typs !! p = Some ty → number (f ty') →
  (∀ q b, blks' !! q = Some b → 0 <= bsize b ∧ (blks !! q = Some b ∨ type b = p)) →
  (∀ q, q ≠ p → msum (w_size q) blks' = msum (w_size q) blks) → total_size ty' = msum (w_size p) blks' →
  all_sizes typs - total_size ty + total_size ty' < 2 ^ 64 →
  (∀ r, m = Ret r → rank_ok n r → (∀ h, number h → amount r h = msum (size_at h) typs) →
    ∃ r', m' = Ret r' ∧ rank_ok n' r' ∧ ∀ h, number h → amount r' h = amount r h
      - (if same_hot (f ty) h then total_size ty else 0) + (if same_hot (f ty') h then total_size ty' else 0)) →
  follows n' (<[p := ty']> typs) blks' m'.
Proof.
  intros [] Hp Hn' Hbl Hoth Hex Hall Hrk. split.
  - intros q b Hq. by apply (Hbl q).
  - intros q b Hq. destruct (decide (type b = p)) as [->|]; [rewrite lookup_insert_eq; by eexists|].
    rewrite lookup_insert_ne by done. destruct (Hbl q b Hq) as [_ [|]]; [eauto|done].
  - intros q x Hq. apply lookup_insert_Some in Hq as [[<- <-]|[Hne Hq]]; [done|]. rewrite Hoth by done. eauto.
  - intros q x Hq. apply lookup_insert_Some in Hq as [[<- <-]|[Hne Hq]]; [done|eauto].
  - unfold all_sizes in *. rewrite (msum_update _ _ _ _ _ Hp). lia.
  - destruct fo_ranking0 as (r & Hr & Hok & Ha). destruct (Hrk r Hr Hok Ha) as (r' & Hr' & Hok' & Ha').
    exists r'. split; [done|]. split; [done|]. intros h Hh. by rewrite (Ha' h Hh), (Ha h Hh), (size_at_update _ _ _ _ _ Hp).
Qed.

(** A new block of [sz] bytes under the type [p]. *)
Lemma follows_add n typs blks m p ty q a sz hot k d :
  follows (S n) typs blks m → typs !! p = Some ty → blks !! q = None → 0 <= sz → all_sizes typs + sz < 2 ^ 64 →
  follows n (<[p := set_counts ty k (u64 (total_size ty + sz)) d]> typs) (<[q := TBlock a sz p hot]> blks)
    (ranking_add m (f ty) sz).
Proof.
  intros Hf Hp Hq Hsz Hall. pose proof (type_size_nonneg _ _ _ _ Hf p ty Hp). pose proof (type_in_all _ _ _ _ Hf p ty Hp).
  pose proof (fo_numbers _ _ _ _ Hf p ty Hp) as Hn.
  rewrite u64_small by (unfold is_u64; lia). apply (follows_change (S n) n typs blks _ m _ p ty); try done; cbn.
  - intros q' b Hq'. apply lookup_insert_Some in Hq' as [[<- <-]|[_ Hq']]; [by auto|].
    split; [by eapply (fo_sizes _ _ _ _ Hf)|by left].
  - intros q' Hne. rewrite msum_insert by done. unfold w_size at 1. cbn. by rewrite (proj2 (Z.eqb_neq p q')).
  - rewrite msum_insert by done. unfold w_size at 1. cbn. rewrite Z.eqb_refl, <- (fo_exact _ _ _ _ Hf p ty Hp). lia.
  - lia.
  - intros r -> Hr Ha. pose proof (size_at_all _ _ _ _ Hf (f ty)).
    destruct (add_ok n r (f ty) sz Hr Hn Hsz) as (r' & Hrun & Hr' & Ha'); [rewrite (Ha _ Hn); lia|].
    exists r'. split; [done|]. split; [done|]. intros h Hh. rewrite (Ha' h Hh). destruct (same_hot _ _); lia.
Qed.

(** A block goes. *)
Lemma follows_remove n typs blks m ty q b k d :
  follows n typs blks m → blks !! q = Some b → typs !! type b = Some ty →
  follows n (<[type b := set_counts ty k (u64 (total_size ty - bsize b)) d]> typs) (delete q blks)
    (ranking_remove m (f ty) (bsize b)).
Proof.
  intros Hf Hq Hp. pose proof (block_in_type _ _ _ _ Hf q b ty Hq Hp). pose proof (type_in_all _ _ _ _ Hf _ ty Hp).
  pose proof (fo_numbers _ _ _ _ Hf _ ty Hp) as Hn. pose proof (fo_sizes _ _ _ _ Hf q b Hq). pose proof (fo_all _ _ _ _ Hf).
  rewrite u64_small by (unfold is_u64; lia). apply (follows_change n n typs blks _ m _ (type b) ty); try done; cbn.
  - intros q' b' [_ Hq']%lookup_delete_Some. split; [by eapply (fo_sizes _ _ _ _ Hf)|by left].
  - intros q' Hne. rewrite (msum_delete _ _ _ _ Hq). unfold w_size at 2. rewrite (proj2 (Z.eqb_neq _ q')) by done. lia.
  - rewrite (msum_delete _ _ _ _ Hq). unfold w_size at 2. rewrite Z.eqb_refl, <- (fo_exact _ _ _ _ Hf _ ty Hp). lia.
  - lia.
  - intros r -> Hr Ha. pose proof (type_in_ranking _ _ _ _ Hf r _ ty Ha Hp).
    destruct (remove_ok n r (f ty) (bsize b) Hr Hn) as (r' & Hrun & Hr' & Ha'); [lia|].
    exists r'. split; [done|]. split; [done|]. intros h Hh. rewrite (Ha' h Hh). destruct (same_hot _ _); lia.
Qed.

(** The size of a type moves to its new hotness. *)
Lemma follows_touch n typs blks m p ty ty' ts add :
  follows (S n) typs blks m → typs !! p = Some ty →
  ranking_touch_entry_internal pow ty ts add = Ret ty' → number (f ty') →
  ∃ m', ranking_touch m ty ts add = (m', ty') ∧ follows n (<[p := ty']> typs) blks m'.
Proof.
  intros Hf Hp Hrun Hn'. pose proof (type_size_nonneg _ _ _ _ Hf p ty Hp) as H0'. pose proof (fo_numbers _ _ _ _ Hf p ty Hp) as Hn.
  assert (Hsize : total_size ty' = total_size ty).
  { unfold ranking_touch_entry_internal in Hrun. run_inv. done. }
  destruct (fo_ranking _ _ _ _ Hf) as (r & -> & Hr & Ha). pose proof (type_in_ranking _ _ _ _ Hf r p ty Ha Hp) as Hle.
  assert (Hroom : amount r (f ty') - (if same_hot (f ty) (f ty') then total_size ty else 0) + total_size ty < 2 ^ 64).
  { apply (Z.le_lt_trans _ (all_sizes typs)); [|by apply (fo_all _ _ _ _ Hf)]. rewrite (Ha _ Hn').
    pose proof (msum_delete (size_at (f ty')) _ _ _ Hp) as Hd1. unfold size_at at 3 in Hd1.
    pose proof (msum_delete total_size _ _ _ Hp) as Hd2. unfold all_sizes.
    assert (msum (size_at (f ty')) (delete p typs) <= msum total_size (delete p typs)); [|lia].
    apply msum_mono. intros q x [_ Hq]%lookup_delete_Some. unfold size_at.
    pose proof (type_size_nonneg _ _ _ _ Hf q x Hq). destruct (same_hot (f x) (f ty')); lia. }
  destruct (rank_touch_ok pow n r ty ts add ty' Hr Hn) as (r' & Hrun' & Hr' & Ha'); [lia|done..|].
  exists (Ret r'). split; [cbn; by rewrite Hrun'|].
  apply (follows_change (S n) n typs blks blks (Ret r) _ p ty); try done.
  - intros q b Hq. split; [by eapply (fo_sizes _ _ _ _ Hf)|by left].
  - rewrite Hsize. by apply (fo_exact _ _ _ _ Hf).
  - pose proof (fo_all _ _ _ _ Hf). lia.
  - intros r0 [= <-] _ _. exists r'. rewrite Hsize. done.
Qed.

(** A new callback moves nothing. *)
Lemma follows_callback n typs blks m p ty cb arg :
  follows n typs blks m → typs !! p = Some ty → follows n (<[p := ranking_set_callback cb arg ty]> typs) blks m.
Proof.
  intros Hf Hp. apply (follows_change n n typs blks blks m m p ty); try done; cbn.
  - by apply (fo_numbers _ _ _ _ Hf p).
  - intros q b Hq. split; [by eapply (fo_sizes _ _ _ _ Hf)|by left].
  - by apply (fo_exact _ _ _ _ Hf).
  - pose proof (fo_all _ _ _ _ Hf). lia.
  - intros r -> Hr Ha. exists r. split; [done|]. split; [done|]. intros h Hh. lia.
Qed.

(** ** The handlers *)

Lemma rbooks_register n s h a sz hot :
  rbooks (S (S (S n))) s → is_u64 h → is_u64 a → is_u64 sz → unused a s → all_sizes (types s) + sz < 2 ^ 64 →
  ∃ s', (let! s := register_block h a sz hot s in register_block_in_ranking a sz s) = Ret s' ∧ rbooks n s'.
Proof.
  intros (Hi & Hix & Hf) Hh Ha Hsz Hun Hall.
  destruct (register_block_ok (S n) s h a sz hot Hi Hh Ha)
    as (s1 & -> & Hi1 & p & ty & q & typs & Hadd & Hty & Hp & Hq & Ht1 & Hfree & Hb1 & Hrk & Hfind). cbn [obind].
  destruct (Hfind Hun) as [Hle Hget]. apply (follows_less _ (S n)) in Hf; [|lia].
  assert (follows (S n) typs (blocks s) (ranking s) ∧ all_sizes typs = all_sizes (types s)) as [Hf1 Hsame].
  { destruct Hadd as [->|[Hnone ->]]; [done|].
    split; [by apply follows_new|]. unfold all_sizes. by rewrite msum_insert. }
  destruct (register_in_ranking_ok (S n) s1 a sz Hi1 Ha) as (s2 & Hrun & Hi2). rewrite Hrun.
  exists s2. split; [done|]. split; [by apply (tinv_mono (S n)); [lia|]|].
  unfold register_block_in_ranking in Hrun. rewrite Hle in Hrun. cbn [obind] in Hrun.
  rewrite (proj2 (Z.eqb_neq q 0)) in Hrun by done. unfold get_block, get_type in Hrun.
  rewrite Hb1, lookup_insert_eq in Hrun. cbn [deref obind type] in Hrun.
  rewrite (proj2 (Z.eqb_neq p 0)), Ht1, lookup_insert_eq in Hrun by done. cbn in Hrun.
  injection Hrun as <-. unfold indexed. cbn. rewrite Ht1, Hb1, Hrk. split.
  - intros q' b Hq'. rewrite Hget. apply lookup_insert_Some in Hq' as [[<- <-]|[_ Hq']]; [by rewrite decide_True|].
    rewrite decide_False by eauto. eauto.
  - apply (follows_add n typs); try done; [apply Hsz|by rewrite Hsame].
Qed.

(** After the removal the address is free. *)
Lemma rbooks_unregister n s a a' :
  rbooks (S n) s → a' = a ∨ unused a' s →
  ∃ s', unregister_block a s = Ret s' ∧ rbooks n s' ∧ unused a' s' ∧ all_sizes (types s') <= all_sizes (types s).
Proof.
  intros (Hi & Hix & Hf) Ha'. destruct (unregister_block_ok n s a Hi) as (s' & -> & Hi' & Hget & Hcase).
  exists s'. split; [done|]. apply (follows_less _ n) in Hf; [|lia].
  destruct Hcase as [(Hno & Ht & Hb & Hr)|(q & b & ty & Hwas & Hq & <- & Hty & Ht & Hb & Hr)].
  - assert (Hfree : unused a s).
    { intros q b Hq <-. rewrite (Hix q b Hq) in Hno. injection Hno as ->.
      destruct Hi as (Hm & Bm & Ht0). destruct (ti_null _ _ _ _ _ _ _ _ Ht0). congruence. }
    unfold rbooks, indexed, unused. rewrite Ht, Hb, Hr. split_and!; try done.
    + intros q b Hq. rewrite Hget, decide_False by eauto. eauto.
    + by destruct Ha' as [->|].
  - assert (Hone : ∀ q' b', delete q (blocks s) !! q' = Some b' → blocks s !! q' = Some b' ∧ addr b' ≠ addr b).
    { intros q' b' [Hne Hq']%lookup_delete_Some. split; [done|]. intros Heq.
      pose proof (Hix q' b' Hq') as Hg. rewrite Heq, Hwas in Hg. congruence. }
    unfold rbooks, indexed, unused. rewrite Ht, Hb, Hr. split_and!; try done.
    + intros q' b' [Hq' Hne]%Hone. rewrite Hget, decide_False by done. eauto.
    + by apply follows_remove.
    + intros q' b' [Hq' Hne]%Hone. destruct Ha' as [->|Hun]; [done|eauto].
    + pose proof (block_in_type _ _ _ _ Hf q b ty Hq Hty). pose proof (fo_sizes _ _ _ _ Hf q b Hq).
      pose proof (type_in_all _ _ _ _ Hf _ ty Hty). pose proof (fo_all _ _ _ _ Hf).
      unfold all_sizes in *. rewrite (msum_update _ _ _ _ _ Hty). cbn. rewrite u64_small by (unfold is_u64; lia). lia.
Qed.

(** The hotness that [touch] adds. *)
Definition touch_hotness (total : Z) (ty : ttype) : spec_float :=
  F64.div (F64.mul HOTNESS_TOUCH_SINGLE_VALUE (F64.of_Z total)) (F64.of_Z (total_size ty)).

Lemma rbooks_touch n s a ts total :
  rbooks (S n) s → is_u64 a →
  (∀ p ty, types s !! p = Some ty → 0 < total_size ty →
    ∃ ty', ranking_touch_entry_internal pow ty ts (touch_hotness total ty) = Ret ty' ∧ number (f ty')) →
  ∃ s', touch a ts 0 total s = Ret s' ∧ rbooks n s'.
Proof.
  intros (Hi & Hix & Hf) Ha Hup. destruct (touch_ok (S n) s a ts total Hi Ha) as (s' & Hrun & Hi').
  exists s'. split; [done|]. split; [by apply (tinv_mono (S n)); [lia|]|].
  pose proof (follows_less _ n _ _ _ (Nat.le_succ_diag_r n) Hf) as Hf0.
  unfold touch in Hrun. destruct (find_block_ok (S n) s a Hi Ha) as [Hno|(q & b & ty & Hle & Hq & Hb & _ & Hz & Hty)].
  { rewrite Hno in Hrun. cbn in Hrun. by injection Hrun as <-. }
  rewrite Hle in Hrun. cbn [obind] in Hrun. rewrite (proj2 (Z.eqb_neq q 0)) in Hrun by done.
  unfold get_block, get_type in Hrun. rewrite Hb in Hrun. cbn [deref obind] in Hrun.
  destruct (_ <=? a); [cbn in Hrun; by injection Hrun as <-|]. rewrite Hty in Hrun. cbn [deref obind] in Hrun.
  destruct (Z.ltb_spec 0 (total_size ty)); [|by injection Hrun as <-]. cbn [Z.eqb negb] in Hrun. fold (touch_hotness total ty) in Hrun.
  destruct (Hup _ _ Hty) as (ty' & Hent & Hn'); [done|].
  destruct (follows_touch n _ _ _ _ ty ty' ts _ Hf Hty Hent Hn') as (m' & Hm' & Hf').
  rewrite Hm' in Hrun. injection Hrun as <-. done.
Qed.

Lemma rbooks_callback n s a cb arg :
  rbooks n s → is_u64 a → ∃ ret s', tachanka_set_touch_callback a cb arg s = Ret (ret, s') ∧ rbooks n s'.
Proof.
  intros (Hi & Hix & Hf) Ha. destruct (set_callback_ok n s a cb arg Hi Ha) as (ret & s' & Hrun & Hi').
  exists ret, s'. split; [done|]. split; [done|]. unfold tachanka_set_touch_callback in Hrun.
  destruct (find_block_ok n s a Hi Ha) as [Hno|(q & b & ty & Hle & Hq & Hb & _ & Hz & Hty)].
  { rewrite Hno in Hrun. cbn in Hrun. by injection Hrun as _ <-. }
  rewrite Hle in Hrun. cbn [obind] in Hrun. rewrite (proj2 (Z.eqb_neq q 0)) in Hrun by done.
  unfold get_block, get_type in Hrun. rewrite Hb in Hrun. cbn [deref obind] in Hrun.
  rewrite (proj2 (Z.eqb_neq (type b) 0)) in Hrun by done. cbn [negb c_assert obind] in Hrun. rewrite Hty in Hrun.
  cbn in Hrun. injection Hrun as _ <-. split; [done|]. by apply follows_callback.
Qed.

(** ** Every event *)

(** A registered address is unused and its size fits; the new hotness of a
    touched type is computed and a number. *)
Definition event_fits (total : Z) (e : EventEntry) s : Prop :=
  match e with
  | CreateAdd _ a sz _ => unused a s ∧ all_sizes (types s) + sz < 2 ^ 64
  | Realloc ao an _ sn _ => (an = ao ∨ unused an s) ∧ all_sizes (types s) + sn < 2 ^ 64
  | Touch _ ts => ∀ p ty, types s !! p = Some ty → 0 < total_size ty →
      ∃ ty', ranking_touch_entry_internal pow ty ts (touch_hotness total ty) = Ret ty' ∧ number (f ty')
  | _ => True
  end.

End books.
