(* ===== verification/RankingRun.v ===== *)
(** * The event handler over the real ranking

    A first event on critnibs, slabs and the ranking tree; and an address that
    is registered twice, after which the ranking no longer follows the types. *)
From S2P Require Import Prelude Float Bigary Alloc Slab Critnib CritnibSpec Index Queue Events Tachanka TachankaSpec TachankaDemo Wre WreSpec Controller Ranking RankingSpec RankingDemo RankingBooks.
From Stdlib Require Import SpecFloat.
Local Open Scope Z_scope.

#[local] Existing Instance kernel.
#[local] Instance run_laws : NodeAllocLaws slab_world := CritnibSpec.laws kernel (λ _ _, eq_refl).

#[local] Abbreviation still := (λ _ _ : spec_float, F64.zero).
#[local] Abbreviation new_ranking :=
  (ranking_create_internal (kernel_at (2 ^ 40)) (kernel_at (2 ^ 41)) 8192 7 8200 no_controller).
#[local] Instance run_ranking : Ranking (outcome (ranking_t slab_world)) := the_ranking still new_ranking.

Lemma demo_rbooks :
  ∃ s : tachanka (critnib slab_world) slab_world (outcome (ranking_t slab_world)), rbooks 5 s ∧ types s = ∅ ∧ blocks s = ∅.
Proof.
  destruct (demo_ranking_ok 5 ltac:(done)) as (r & _ & Hr & Ha).
  destruct (demo_state (Ret r) (LqBuffer [] [] 0 0 0 0 0 0)) as (s & Hs & Ht & Hb & Hrk & _). exists s.
  split; [|done]. split; [by apply (tinv_mono 100); [lia|]|]. unfold indexed. rewrite Ht, Hb, Hrk. split; [done|].
  split; try done. exists r. split; [done|]. split; [done|]. intros h _. by rewrite Ha.
Qed.


(** ** An address registered twice *)

(** Finite maps as indexes, for evaluation. *)
Definition ranked_start : outcome (tachanka (gmap Z Z) slab_world (outcome (ranking_t slab_world))) :=
  let! (_, w) := @slab_alloc_init (kernel_at (2 ^ 42)) TTYPE_ALLOC SIZEOF_TTYPE (2 ^ 21) (World ∅ ∅) in
  let! (_, w) := @slab_alloc_init (kernel_at (2 ^ 43)) TBLOCK_ALLOC SIZEOF_TBLOCK (2 ^ 21) w in
  Ret (Tachanka ∅ ∅ ∅ ∅ w (new_ranking F64.one) (LqBuffer [] [] 0 0 0 0 0 0) true).

(** Per hotness: what the ranking holds and what the types have. *)
Definition held_and_due (hs : list spec_float) (s : tachanka (gmap Z Z) slab_world (outcome (ranking_t slab_world))) :
    outcome (list (Z * Z)) :=
  let! r := ranking s in
  Ret ((λ h, (amount r h, msum (size_at h) (types s))) <$> hs).

(** The block at 4096 is touched, its removal is lost (the queue was full), and
    the address is given out again to another type: its 32 bytes are counted
    under the new type, but are ranked at the hotness of the old one. *)
Example lost_removal_misranks :
  (let! s := ranked_start in
   let! s := handle_event 64 (Some (CreateAdd 7 4096 64 true)) s in
   let! s := handle_event 64 (Some (Touch 4096 1000)) s in
   let! s := handle_event 64 (Some (CreateAdd 8 4096 32 true)) s in
   let! after := held_and_due [HOTNESS_INITIAL] s in
   Ret after) = Ret [(0, 32)].
Proof. vm_compute. reflexivity. Qed.
