(* ===== verification/Pebs.v ===== *)
(** * The background thread and its hardware samples ([src/pebs.c])

    [pebs_monitor] wakes up once per period, drains the event queue, reads the
    samples that the kernel left in the perf ring buffer, touches the types of
    the sampled addresses and moves the threshold.  The kernel fills the ring
    while it is read: [obs k] is what the [k]-th read of the page sees.

    [PRINT_*], [PEBS_LOG_TO_FILE], [CHECK_ADDED_SIZE] and [RANKING_TOUCH_ALL]
    are 0 in the build; the [g_queue_*] counters are only logged. *)
From S2P Require Import Prelude Float Alloc Index Queue Events Tachanka.
From Stdlib Require Import SpecFloat.
Local Open Scope Z_scope.

(** ** Time *)

(** Both fields are signed 64-bit integers. *)
Record timespec := Timespec { tv_sec : Z; tv_nsec : Z }.

Definition S_TO_NS : Z := 1000000000.

(** A signed addition, undefined when it overflows. *)
Definition s64_add (a b : Z) : outcome Z :=
  if (- 2 ^ 63 <=? a + b) && (a + b <? 2 ^ 63) then Ret (a + b) else Stop Undefined.

(** Division and remainder are unsigned, as [S_TO_NS] is. *)
Definition timespec_add (modified toadd : timespec) : outcome timespec :=
  let! sec := s64_add (tv_sec modified) (tv_sec toadd) in
  let! nsec := s64_add (tv_nsec modified) (tv_nsec toadd) in
  let sec := i64 (u64 sec + u64 nsec / S_TO_NS) in
  Ret (Timespec sec (i64 (u64 nsec mod S_TO_NS))).

Definition timespec_millis_to_timespec (millis : spec_float) : outcome timespec :=
  let! sec := to_size (F64.div millis (F64.of_Z 1000)) in
  let sec := i64 sec in
  let ms_to_convert := F64.sub millis (F64.of_Z (sec * 1000)) in
  let! nsec := to_size (F64.mul ms_to_convert (F64.of_Z 1000000)) in
  Ret (Timespec sec (i64 nsec)).

Definition timespec_is_he (tv1 tv2 : timespec) : bool :=
  (tv_sec tv2 <? tv_sec tv1) || ((tv_sec tv1 =? tv_sec tv2) && (tv_nsec tv2 <? tv_nsec tv1)).

(** ** Samples *)

Definition MMAP_DATA_SIZE : Z := 8.
Definition PERF_RECORD_SAMPLE : Z := 9.
Definition SIZEOF_HEADER : Z := 8.

(** What the shared pages show: the head and the [MMAP_DATA_SIZE] pages of data. *)
Record perf_page := PerfPage { data_head : Z; ring_data : list Z }.

(** A load of [n] bytes; the mapping ends with the data pages. *)
Definition load (l : list Z) (off : Z) (n : nat) : outcome Z :=
  if off + Z.of_nat n <=? Z.of_nat (length l) then Ret (le_val (take n (drop (Z.to_nat off) l))) else Stop BadDeref.

Section monitor.
Context {C W R : Type} `{AddrIndex C} `{NodeAlloc W} `{Ranking R}.
Implicit Types s : tachanka C W R.

(** [getpagesize()], [shouldProcessTouches], the reads of the page and the
    results of [memtier_kind_get_total_size]. *)
Context (pagesize : Z) (shouldProcessTouches : bool) (obs : nat → perf_page) (total : nat → Z).

(** One record: type at offset 0 and size at offset 6 of the header, then the
    time and the address. *)
Definition process_record (k : nat) (last_head : Z) s : outcome (Z * tachanka C W R) :=
  let data_mmap := last_head mod (MMAP_DATA_SIZE * pagesize) in
  let ring := ring_data (obs k) in
  let! ty := load ring data_mmap 4 in
  let! s :=
    if ty =? PERF_RECORD_SAMPLE then
      let! timestamp := load ring (data_mmap + SIZEOF_HEADER) 8 in
      let! addr := load ring (data_mmap + SIZEOF_HEADER + 8) 8 in
      if shouldProcessTouches then touch addr timestamp 0 (total k) s else Ret s
    else Ret s in
  let! size := load ring (data_mmap + 6) 2 in
  Ret (u64 (last_head + size), s).

(** The inner [while]; the number of reads, the position and the state. *)
Fixpoint sample_loop (fuel k : nat) (last_head : Z) s : outcome (nat * Z * tachanka C W R) :=
  match fuel with
  | O => Stop OutOfFuel
  | S fuel =>
      if last_head <? data_head (obs k) then
        let! (last_head, s) := process_record k last_head s in
        sample_loop fuel (S k) last_head s
      else Ret (S k, last_head, s)
  end.

(** [g_dramToTotalDesiredRatio] and [g_dramToTotalActualRatio]. *)
Context (desired actual : spec_float).

(** The number of events per cycle: [MAX_RANKING_EVENTS_PER_NOMINAL_SECOND]
    over the frequency. *)
Definition HOTNESS_RANKING_EVENT_ITERATIONS_PER_CYCLE : nat := Z.to_nat 200000.

(** One turn of the outer loop up to the sleep; the new [last_head] and
    [data_tail].  The head is read again for each of them. *)
Definition pebs_cycle (events fuel : nat) (total0 last_head : Z) s : outcome (Z * Z * tachanka C W R) :=
  let! (_, s) := drain_events total0 events None s in
  let! (k, s) :=
    if last_head <? data_head (obs 0) then
      let! (k, _, s) := sample_loop fuel 1 last_head s in Ret (k, s)
    else Ret (1%nat, s) in
  let last_head := data_head (obs k) in
  let data_tail := data_head (obs (S k)) in
  Ret (last_head, data_tail, tachanka_update_threshold desired actual s).
End monitor.

(** ** The thread *)

Inductive ThreadState_t := THREAD_INIT | THREAD_RUNNING | THREAD_FINISHED.

(** The variables of the file, and what the process holds: descriptors,
    mappings and monitor threads. *)
Record pebs := Pebs {
  thread_state : ThreadState_t;
  pebs_fd : Z;
  pebs_mmap : Z;
  pebs_thread : Z;
  open_fds : gset Z;
  mappings : gset Z;
  monitors : gset Z;
}.

(** What is asked of [perf_event_open]. *)
Record perf_event_attr := PerfAttr { pe_type : Z; pe_config : Z; sample_period : Z; sample_type : Z }.

(** [PERF_SAMPLE_ADDR | PERF_SAMPLE_TIME]. *)
Definition SAMPLE_TYPE : Z := Z.lor (Z.shiftl 1 3) (Z.shiftl 1 2).
Definition PFM_SUCCESS : Z := 0.

(** The kernel and libpfm, by their answers. *)
Record perf_os := PerfOS {
  pfm_initialize : Z;
  pfm_get_os_event_encoding : option (Z * Z);
  perf_event_open : perf_event_attr → Z → Z;
  perf_mmap : Z → Z;
  new_thread : Z;
}.

Definition pebs_init (os : perf_os) (sampling_interval : spec_float) (pid : Z) (p : pebs) : outcome pebs :=
  if negb (pfm_initialize os =? PFM_SUCCESS) then Stop Exited else
  let (ty, config) := match pfm_get_os_event_encoding os with Some x => x | None => (4, 5316817) end in
  let! period := to_size sampling_interval in
  let fd := perf_event_open os (PerfAttr ty config period SAMPLE_TYPE) pid in
  if negb (fd =? -1) then
    let map := perf_mmap os fd in
    Ret (Pebs THREAD_RUNNING fd map (new_thread os) ({[fd]} ∪ open_fds p) ({[map]} ∪ mappings p)
           ({[new_thread os]} ∪ monitors p))
  else Ret (Pebs (thread_state p) fd (pebs_mmap p) (pebs_thread p) (open_fds p) (mappings p) (monitors p)).

Definition pebs_fini (p : pebs) : pebs :=
  match thread_state p with
  | THREAD_RUNNING =>
      Pebs THREAD_FINISHED (pebs_fd p) 0 (pebs_thread p) (open_fds p ∖ {[pebs_fd p]})
        (mappings p ∖ {[pebs_mmap p]}) (monitors p ∖ {[pebs_thread p]})
  | _ => p
  end.

Definition pebs_fork (os : perf_os) (sampling_interval : spec_float) (pid : Z) (p : pebs) : outcome pebs :=
  pebs_init os sampling_interval pid p.

(** [fork] of [tiering/memtier.c], after the system call returned [pid]: both
    processes run this. *)
Definition fork (os : perf_os) (sampling_interval : spec_float) (current_memory pid : Z) (p : pebs) :
    outcome (Z * pebs) :=
  if negb (current_memory =? 0) then
    let! p := pebs_fork os sampling_interval pid p in Ret (pid, p)
  else Ret (pid, p).
