(* ===== verification/PebsSpec.v ===== *)
(** * What the background thread does in one cycle

    The records of the ring are read in the order in which the kernel wrote
    them, each sample touching its type once; deadlines do not drift; and the
    thread's resources are given back. *)
From S2P Require Import Prelude Float Alloc Index Queue Events Tachanka TachankaSpec Pebs.
From Stdlib Require Import SpecFloat.
Local Open Scope Z_scope.

(** ** Time *)

Definition normal (t : timespec) : Prop := 0 <= tv_sec t < 2 ^ 62 ∧ 0 <= tv_nsec t < S_TO_NS.
Definition nanoseconds (t : timespec) : Z := tv_sec t * S_TO_NS + tv_nsec t.

Lemma timespec_add_ok a b :
  normal a → normal b → nanoseconds a + nanoseconds b < 2 ^ 62 * S_TO_NS →
  ∃ c, timespec_add a b = Ret c ∧ normal c ∧ nanoseconds c = nanoseconds a + nanoseconds b.
Proof.
  unfold normal, nanoseconds, timespec_add, s64_add, S_TO_NS in *. intros [Ha1 Ha2] [Hb1 Hb2] Hsum.
  rewrite (proj2 (Z.leb_le _ _)), (proj2 (Z.ltb_lt _ _)) by lia. cbn [andb obind].
  rewrite (proj2 (Z.leb_le _ _)), (proj2 (Z.ltb_lt _ _)) by lia. cbn [andb obind].
  rewrite !(u64_small) by (unfold is_u64; lia).
  set (n := tv_nsec a + tv_nsec b) in *. pose proof (Z.div_mod n 1000000000 ltac:(lia)).
  pose proof (Z.mod_pos_bound n 1000000000 ltac:(lia)).
  assert (0 <= n / 1000000000) by (apply Z.div_pos; lia).
  rewrite !i64_small by lia. eexists. split; [done|]. cbn. lia.
Qed.

(** [n] cycles of the loop add the period [n] times to the deadline. *)
Fixpoint deadlines (n : nat) (period ntime : timespec) : outcome timespec :=
  match n with
  | O => Ret ntime
  | S n => let! ntime := timespec_add ntime period in deadlines n period ntime
  end.

(** C28: The deadlines do not drift: whatever a cycle took, the thread's wake-up
    after [n] more cycles is exactly [n] periods later, and its nanoseconds stay
    below a second. *)
Theorem deadlines_do_not_drift n period ntime :
  normal period → normal ntime →
  nanoseconds ntime + Z.of_nat n * nanoseconds period < 2 ^ 62 * S_TO_NS →
  ∃ t, deadlines n period ntime = Ret t ∧ normal t ∧ nanoseconds t = nanoseconds ntime + Z.of_nat n * nanoseconds period.
Proof.
  intros Hp. revert ntime. induction n as [|n IH]; intros ntime Hn Hmax; cbn [deadlines].
  - exists ntime. split_and!; try done. lia.
  - assert (0 <= nanoseconds period) by (unfold nanoseconds, normal, S_TO_NS in *; lia).
    assert (0 <= Z.of_nat n * nanoseconds period) by nia.
    destruct (timespec_add_ok ntime period Hn Hp) as (c & -> & Hc & Hv); [lia|]. cbn [obind].
    destruct (IH c Hc) as (t & -> & Ht & Hv'); [lia|]. exists t. split_and!; try done. lia.
Qed.

Definition tenth : timespec := Timespec 0 100000000.

Lemma deadlines_do_not_drift_witness :
  ∃ t, deadlines 25 tenth (Timespec 1000 950000000) = Ret t ∧ normal t ∧ nanoseconds t = 1003450000000.
Proof.
  destruct (deadlines_do_not_drift 25 tenth (Timespec 1000 950000000)) as (t & Hrun & Ht & Hv);
    [unfold normal, nanoseconds, S_TO_NS; cbn; lia..|].
  exists t. split; [exact Hrun|]. split; [exact Ht|]. rewrite Hv. reflexivity.
Defined.

(** The default frequency gives a tenth of a second. *)
Example default_period :
  timespec_millis_to_timespec (F64.div (F64.of_Z 1000) (F64.of_Z 10)) = Ret tenth.
Proof. vm_compute. reflexivity. Qed.

(** A negative frequency, which only the test for 0 lets through, makes the
    conversion undefined. *)
Example negative_frequency_undefined :
  timespec_millis_to_timespec (F64.div (F64.of_Z 1000) (F64.of_Z (-10))) = Stop Undefined.
Proof. vm_compute. reflexivity. Qed.

(** ** Records *)

(** A record as the kernel writes it: type, flags and the bytes after the header. *)
Record precord := PRecord { rtype : Z; rmisc : Z; payload : list Z }.

Definition rsize (r : precord) : Z := SIZEOF_HEADER + Z.of_nat (length (payload r)).
Definition rbytes (r : precord) : list Z :=
  le_bytes 4 (rtype r) ++ le_bytes 2 (rmisc r) ++ le_bytes 2 (rsize r) ++ payload r.

(** The time and the address of a sample. *)
Definition sample_of (r : precord) : option (Z * Z) :=
  if rtype r =? PERF_RECORD_SAMPLE then Some (le_val (take 8 (payload r)), le_val (take 8 (drop 8 (payload r)))) else None.

(** The size fits its field, and a sample has its two words. *)
Record record_ok (r : precord) : Prop := {
  ro_type : 0 <= rtype r < 2 ^ 32;
  ro_size : rsize r < 2 ^ 16;
  ro_sample ts a : sample_of r = Some (ts, a) → (16 <= length (payload r))%nat ∧ is_u64 a;
}.

Definition sizes (rs : list precord) : Z := foldr (λ r, Z.add (rsize r)) 0 rs.

Lemma sizes_app l1 l2 : sizes (l1 ++ l2) = sizes l1 + sizes l2.
Proof. induction l1 as [|r l1 IH]; cbn; [done|]. fold (sizes l1). fold (sizes (l1 ++ l2)). lia. Qed.

Lemma rsize_pos r : 8 <= rsize r.
Proof. unfold rsize, SIZEOF_HEADER. lia. Qed.

Lemma sizes_nonneg rs : 0 <= sizes rs.
Proof. induction rs as [|r rs IH]; cbn; [done|]. fold (sizes rs). pose proof (rsize_pos r). lia. Qed.

Lemma rbytes_length r : Z.of_nat (length (rbytes r)) = rsize r.
Proof. unfold rbytes, rsize, SIZEOF_HEADER. rewrite !length_app, !length_le_bytes. lia. Qed.

Section ring.
Context (N : Z).

(** The records [rs] lie in the ring from the position [pos] on, none of them
    across its end. *)
Fixpoint holds (ring : list Z) (pos : Z) (rs : list precord) : Prop :=
  match rs with
  | [] => True
  | r :: rs =>
      pos mod N + rsize r <= N ∧ take (Z.to_nat (rsize r)) (drop (Z.to_nat (pos mod N)) ring) = rbytes r ∧
      holds ring (pos + rsize r) rs
  end.

Lemma holds_nth ring pos rs j r :
  holds ring pos rs → rs !! j = Some r →
  let p := pos + sizes (take j rs) in
  p mod N + rsize r <= N ∧ take (Z.to_nat (rsize r)) (drop (Z.to_nat (p mod N)) ring) = rbytes r.
Proof.
  revert pos j. induction rs as [|r0 rs IH]; intros pos j Hh Hj; [done|]. destruct Hh as (Hfit & Hbytes & Hrest).
  destruct j as [|j]; cbn in *.
  - injection Hj as ->. by rewrite Z.add_0_r.
  - fold (sizes (take j rs)). rewrite Z.add_assoc. by apply IH.
Qed.
End ring.

(** A field of a record that lies in the ring. *)
Lemma load_field ring off r o n :
  0 <= off → 0 <= o → off + rsize r <= Z.of_nat (length ring) → o + Z.of_nat n <= rsize r →
  take (Z.to_nat (rsize r)) (drop (Z.to_nat off) ring) = rbytes r →
  load ring (off + o) n = Ret (le_val (take n (drop (Z.to_nat o) (rbytes r)))).
Proof.
  intros Hoff Ho Hlen Hn Hr. unfold load. rewrite (proj2 (Z.leb_le _ _)) by lia. do 2 f_equal.
  rewrite <- Hr, skipn_firstn_comm, take_take, drop_drop. f_equal; [lia|f_equal; lia].
Qed.

Lemma load_header ring off r :
  0 <= off → off + rsize r <= Z.of_nat (length ring) → record_ok r →
  take (Z.to_nat (rsize r)) (drop (Z.to_nat off) ring) = rbytes r →
  load ring off 4 = Ret (rtype r) ∧ load ring (off + 6) 2 = Ret (rsize r).
Proof.
  intros Hoff Hlen [Ht Hs _] Hr. pose proof (rsize_pos r). split.
  - rewrite <- (Z.add_0_r off). rewrite (load_field ring off r 0 4) by (done || lia). unfold rbytes.
    rewrite drop_0, take_app_le, take_ge by (rewrite length_le_bytes; lia). by rewrite (le_val_bytes 4).
  - rewrite (load_field ring off r 6 2) by (done || lia). unfold rbytes. rewrite app_assoc.
    rewrite drop_app_ge by (rewrite length_app, !length_le_bytes; lia).
    rewrite length_app, !length_le_bytes. change (Z.to_nat 6 - (4 + 2))%nat with 0%nat. rewrite drop_0, take_app_le, take_ge by (rewrite length_le_bytes; lia).
    by rewrite (le_val_bytes 2) by lia.
Qed.

Lemma load_sample ring off r ts a :
  0 <= off → off + rsize r <= Z.of_nat (length ring) → record_ok r → sample_of r = Some (ts, a) →
  take (Z.to_nat (rsize r)) (drop (Z.to_nat off) ring) = rbytes r →
  load ring (off + SIZEOF_HEADER) 8 = Ret ts ∧ load ring (off + SIZEOF_HEADER + 8) 8 = Ret a.
Proof.
  intros Hoff Hlen [_ _ Hs] Hsam Hr. destruct (Hs _ _ Hsam) as [Hpay _]. unfold sample_of in Hsam.
  destruct (_ =? _); [|done]. injection Hsam as <- <-. unfold SIZEOF_HEADER.
  assert (Hd : ∀ k, drop (8 + k) (rbytes r) = drop k (payload r)).
  { intros k. unfold rbytes. rewrite !app_assoc, drop_app_ge by (rewrite !length_app, !length_le_bytes; lia).
    rewrite !length_app, !length_le_bytes. f_equal. lia. }
  rewrite <- Z.add_assoc. change (8 + 8) with 16. unfold rsize, SIZEOF_HEADER in *. split.
  - rewrite (load_field ring off r 8 8) by (done || unfold rsize, SIZEOF_HEADER; lia).
    change (Z.to_nat 8) with (8 + 0)%nat. by rewrite (Hd 0%nat), drop_0.
  - rewrite (load_field ring off r 16 8) by (done || unfold rsize, SIZEOF_HEADER; lia).
    change (Z.to_nat 16) with (8 + 8)%nat. by rewrite (Hd 8%nat).
Qed.

(** ** The loop over the samples *)
Section samples.
Context {C W R : Type} `{AddrIndexLaws C} `{NodeAllocLaws W} `{RankingLaws R}.
Implicit Types s : tachanka C W R.
Context (pagesize : Z) (process : bool) (obs : nat → perf_page) (total : nat → Z).

#[local] Abbreviation N := (MMAP_DATA_SIZE * pagesize).

(** What the records ask for, one touch per sample in their order. *)
Fixpoint touch_all (rs : list precord) (k : nat) s : outcome (tachanka C W R) :=
  match rs with
  | [] => Ret s
  | r :: rs =>
      let! s := match sample_of r with
                | Some (ts, a) => if process then touch a ts 0 (total k) s else Ret s
                | None => Ret s
                end in
      touch_all rs (S k) s
  end.

(** The kernel while it is read: it has [rs] to tell from the position [pos] on,
    at the [k]-th read [m k] of them are in the ring. *)
Record kernel_tells (pos : Z) (rs : list precord) (m : nat → nat) : Prop := {
  kt_pos : 0 <= pos;
  kt_end : pos + sizes rs < 2 ^ 64;
  kt_records : Forall record_ok rs;
  kt_mono k : (m k <= m (S k))%nat;
  kt_bound k : (m k <= length rs)%nat;
  kt_head k : data_head (obs k) = pos + sizes (take (m k) rs);
  kt_length k : Z.of_nat (length (ring_data (obs k))) = N;
  kt_ring k : holds N (ring_data (obs k)) pos (take (m k) rs);
}.

Lemma sizes_take_lt rs j j' : (j < j')%nat → (j' <= length rs)%nat → sizes (take j rs) < sizes (take j' rs).
Proof.
  intros Hj Hj'. rewrite <- (take_drop j (take j' rs)), take_take, sizes_app. replace (j `min` j')%nat with j by lia.
  destruct (drop j (take j' rs)) as [|r l] eqn:E.
  - apply (f_equal length) in E. rewrite length_drop, length_take in E. cbn in E. lia.
  - cbn. fold (sizes l). pose proof (rsize_pos r). pose proof (sizes_nonneg l). lia.
Qed.

Lemma sizes_take_S rs j r : rs !! j = Some r → sizes (take (S j) rs) = sizes (take j rs) + rsize r.
Proof. intros Hj. rewrite (take_S_r _ _ _ Hj), sizes_app. cbn. lia. Qed.

Lemma process_record_ok pos rs m k j r s :
  0 < pagesize → kernel_tells pos rs m → (j < m k)%nat → rs !! j = Some r →
  process_record pagesize process obs total k (pos + sizes (take j rs)) s =
  (let! s := match sample_of r with
             | Some (ts, a) => if process then touch a ts 0 (total k) s else Ret s
             | None => Ret s
             end in Ret (pos + sizes (take (S j) rs), s)).
Proof.
  intros Hpg [] Hj Hr. assert (HN : 0 < N) by (unfold MMAP_DATA_SIZE; lia).
  pose proof (proj1 (Forall_lookup _ _) kt_records0 j r Hr) as Hok. unfold process_record.
  assert (Hin : take (m k) rs !! j = Some r) by (by rewrite lookup_take_lt).
  destruct (holds_nth N _ _ _ _ _ (kt_ring0 k) Hin) as [Hfit Hbytes]. rewrite take_take in Hfit, Hbytes.
  replace (j `min` m k)%nat with j in Hfit, Hbytes by lia.
  set (p := pos + sizes (take j rs)) in *. pose proof (Z.mod_pos_bound p N HN).
  assert (Hlen : p mod N + rsize r <= Z.of_nat (length (ring_data (obs k)))) by (rewrite kt_length0; lia).
  destruct (load_header _ (p mod N) r ltac:(lia) Hlen Hok Hbytes) as [-> ->]. cbn [obind].
  rewrite (sizes_take_S _ _ _ Hr), Z.add_assoc. fold p. rewrite (u64_small (p + rsize r)).
  - unfold sample_of. destruct (rtype r =? PERF_RECORD_SAMPLE) eqn:Et; [|done].
    destruct (load_sample _ (p mod N) r _ _ ltac:(lia) Hlen Hok ltac:(unfold sample_of; by rewrite Et) Hbytes) as [-> ->].
    cbn [obind]. destruct process; [|done]. by destruct (touch _ _ _ _ _).
  - unfold is_u64, p. rewrite <- Z.add_assoc, <- (sizes_take_S _ _ _ Hr).
    pose proof (sizes_nonneg (take (S j) rs)). pose proof (sizes_nonneg (drop (S j) rs)).
    rewrite <- (take_drop (S j) rs), sizes_app in kt_end0. lia.
Qed.

(** From the [j]-th record on, the loop goes through the records that are there
    when it gets to them, and stops after the last one it sees. *)
Lemma sample_loop_reads pos rs m k0 d j :
  0 < pagesize → kernel_tells pos rs m → (j <= m (k0 + j))%nat → (length rs <= j + d)%nat →
  ∃ j', (j <= j')%nat ∧ m (k0 + j')%nat = j' ∧ ∀ s,
    sample_loop pagesize process obs total (S d) (k0 + j) (pos + sizes (take j rs)) s =
    (let! s := touch_all (drop j (take j' rs)) (k0 + j) s in
     Ret (S (k0 + j'), pos + sizes (take j' rs), s)).
Proof.
  intros Hpg Hk. revert j. induction d as [|d IH]; intros j Hj Hd;
    pose proof (kt_bound _ _ _ Hk (k0 + j)) as Hb;
    (destruct (decide (m (k0 + j)%nat = j)) as [He|Hne];
      [exists j; split; [done|]; split; [done|]; intros s; cbn [sample_loop];
       rewrite (kt_head _ _ _ Hk), He, (proj2 (Z.ltb_ge _ _)) by lia;
       by rewrite drop_ge by (rewrite length_take; lia)|]).
  - lia.
  - pose proof (sizes_take_lt rs j (m (k0 + j)%nat) ltac:(lia) Hb).
    destruct (lookup_lt_is_Some_2 rs j ltac:(lia)) as [r Hr].
    pose proof (kt_mono _ _ _ Hk (k0 + j)) as Hm. rewrite <- Nat.add_succ_r in Hm.
    destruct (IH (S j)) as (j' & Hj' & Hmj & Hrest); [lia..|]. exists j'. split; [lia|]. split; [done|]. intros s.
    rewrite (drop_S (take j' rs) r j) by (rewrite lookup_take_lt by lia; done). cbn [touch_all].
    remember (S d) as d'. cbn [sample_loop]. rewrite (kt_head _ _ _ Hk), (proj2 (Z.ltb_lt _ _)) by lia.
    rewrite (process_record_ok pos rs m (k0 + j) j r s Hpg Hk ltac:(lia) Hr). rewrite <- Nat.add_succ_r.
    destruct (sample_of r) as [[ts a]|]; [destruct process|]; [|apply Hrest..].
    destruct (touch _ _ _ _ _) as [s1|]; [apply Hrest|done].
Qed.

(** The touches of valid records never fail. *)
Lemma touch_all_ok rs k n s :
  Forall record_ok rs → tinv n s → ∃ s', touch_all rs k s = Ret s' ∧ tinv n s'.
Proof.
  intros Hrs. revert k s. induction Hrs as [|r rs [_ _ Hsam] _ IH]; intros k s Hs; cbn [touch_all]; [eauto|].
  destruct (sample_of r) as [[ts a]|]; [|apply (IH (S k) s Hs)].
  destruct process; [|apply (IH (S k) s Hs)].
  destruct (touch_ok n s a ts (total k) Hs) as (s1 & -> & Hs1); [by apply (Hsam ts)|]. cbn [obind]. auto.
Qed.

(** They leave the queue alone. *)
Lemma touch_all_frame rs k s s' :
  touch_all rs k s = Ret s' → ranking_event_buff s' = ranking_event_buff s ∧ initialized s' = initialized s.
Proof.
  revert k s. induction rs as [|r rs IH]; intros k s Hrun; cbn [touch_all] in Hrun; [by injection Hrun as <-|].
  destruct (sample_of r) as [[ts a]|]; [destruct process|]; [|by apply (IH (S k) s)..].
  destruct (touch a ts 0 (total k) s) as [s1|] eqn:Ht; [|done].
  destruct (handle_event_frame (total k) (Some (Touch a ts)) s s1 Ht) as [<- <-]. by apply (IH (S k) s1).
Qed.

Lemma samples_read pos rs m k0 n s :
  0 < pagesize → kernel_tells pos rs m → tinv n s →
  ∃ j s', m (k0 + j)%nat = j ∧
    sample_loop pagesize process obs total (S (length rs)) k0 pos s = Ret (S (k0 + j), pos + sizes (take j rs), s') ∧
    touch_all (take j rs) k0 s = Ret s' ∧ tinv n s'.
Proof.
  intros Hpg Hk Hs. destruct (sample_loop_reads pos rs m k0 (length rs) 0 Hpg Hk) as (j & _ & Hj & Hrun); [lia..|].
  destruct (touch_all_ok (take j rs) k0 n s) as (s' & Ht & Hs'); [by apply Forall_take, (kt_records _ _ _ Hk)|done|].
  exists j, s'. split_and!; try done. specialize (Hrun s). rewrite Nat.add_0_r in Hrun. cbn [take sizes foldr] in Hrun.
  by rewrite Z.add_0_r, drop_0, Ht in Hrun.
Qed.

(** The samples are read in order: whatever the kernel adds meanwhile, the loop
    over the ring returns, has touched the address of each sample among the
    first [j] records exactly once and in the order of the records, ends at the
    position after the [j]-th record, which is all that its last read of the
    head showed, and keeps the books of the types. *)
Theorem samples_in_order pos rs m k0 n s :
  0 < pagesize → kernel_tells pos rs m → tinv n s →
  ∃ j s', m (k0 + j)%nat = j ∧
    sample_loop pagesize process obs total (S (length rs)) k0 pos s = Ret (S (k0 + j), pos + sizes (take j rs), s') ∧
    touch_all (take j rs) k0 s = Ret s' ∧ tinv n s'.
Proof. apply samples_read. Qed.

End samples.

(** ** The thread's resources *)

(** The thread starts and stops cleanly: unless a thread runs already, all that
    [pebs_init] opens, maps and starts is gone after [pebs_fini], also when the
    kernel refuses the event. *)
Theorem init_then_fini os interval pid p p' :
  pebs_init os interval pid p = Ret p' → thread_state p ≠ THREAD_RUNNING →
  pebs_fd p' ∉ open_fds p → pebs_mmap p' ∉ mappings p → pebs_thread p' ∉ monitors p →
  let q := pebs_fini p' in
  open_fds q = open_fds p ∧ mappings q = mappings p ∧ monitors q = monitors p ∧ thread_state q ≠ THREAD_RUNNING.
Proof.
  unfold pebs_init. intros Hrun Hst Hfd Hmap Hth.
  destruct (negb _); [done|]. destruct (match pfm_get_os_event_encoding os with Some x => x | None => _ end) as [ty config].
  destruct (to_size interval) as [period|]; [|done]. cbn [obind] in Hrun.
  destruct (negb _) in Hrun; injection Hrun as <-; cbn in *.
  - split_and!; [set_solver..|done].
  - unfold pebs_fini. cbn. destruct (thread_state p); done.
Qed.
