(* ===== verification/PebsDemo.v ===== *)
(** * Runs of the background thread

    A cycle over a small ring; samples that are lost, a record at the end of
    the ring, and the second reader that [fork] starts. *)
From S2P Require Import Prelude Float Bigary Alloc Slab Critnib CritnibSpec Index Queue QueueSpec Events Tachanka TachankaSpec TachankaDemo Pebs PebsSpec.
From Stdlib Require Import SpecFloat.
Local Open Scope Z_scope.

(** ** The thread's resources *)

Definition demo_os : perf_os := PerfOS 0 (Some (4, 5316817)) (λ _ _, 7) (λ _, 4096) 1.
Definition no_pebs : pebs := Pebs THREAD_INIT 0 0 0 ∅ ∅ ∅.

Lemma init_then_fini_witness :
  ∃ p, pebs_init demo_os (F64.of_Z 1000) 1 no_pebs = Ret p ∧ thread_state p = THREAD_RUNNING ∧
    open_fds (pebs_fini p) = ∅ ∧ mappings (pebs_fini p) = ∅ ∧ monitors (pebs_fini p) = ∅.
Proof.
  destruct (pebs_init demo_os (F64.of_Z 1000) 1 no_pebs) as [p|] eqn:Hrun; [|by vm_compute in Hrun].
  pose proof Hrun as Hp. vm_compute in Hp. injection Hp as Hp.
  destruct (init_then_fini demo_os (F64.of_Z 1000) 1 no_pebs p Hrun) as (H1 & H2 & H3 & _); [by intros|set_solver..|].
  exists p. subst p. done.
Defined.

(** [fork] calls [pebs_fork] in the parent as well: a second thread then pops
    from the queue that allows a single reader, and [pebs_fini] ends only the
    second one and unmaps only the second mapping. *)
Example fork_starts_second_reader :
  (let! p := pebs_init demo_os (F64.of_Z 1000) 1 no_pebs in
   let! (pid, p) := fork (PerfOS 0 None (λ _ _, 8) (λ _, 8192) 2) (F64.of_Z 1000) 1 4242 p in
   Ret (bool_decide (monitors p = {[1; 2]}), bool_decide (monitors (pebs_fini p) = {[1]}),
        bool_decide (mappings (pebs_fini p) = {[4096]}))) = Ret (true, true, true).
Proof. vm_compute. reflexivity. Qed.

(** ** A ring of 64 bytes *)

Definition ring_of (rs : list precord) (n : nat) : list Z :=
  let l := concat (rbytes <$> rs) in (l ++ replicate (n - length l) 0)%list.

Definition a_sample (ts a : Z) : precord := PRecord PERF_RECORD_SAMPLE 2 (le_bytes 8 ts ++ le_bytes 8 a)%list.
Definition a_throttle : precord := PRecord 5 0 [].

Definition demo_records : list precord := [a_sample 5 4100; a_throttle].
Definition demo_page : perf_page := PerfPage 32 (ring_of demo_records 64).

Lemma demo_tells : kernel_tells 8 (λ _, demo_page) 0 demo_records (λ _, 2%nat).
Proof.
  split; try done.
  - apply Forall_cons. split; [|apply Forall_cons; split; [|done]]; split; try done.
    intros ts a [= <- <-]. split; [cbn; lia|done].
Qed.

#[local] Existing Instance kernel.
#[local] Instance pebs_demo_laws : NodeAllocLaws slab_world := CritnibSpec.laws kernel (λ _ _, eq_refl).

(** A ranking that remembers nothing. *)
#[local] Instance blind_ranking : Ranking unit := {
  ranking_create _ := ();
  ranking_add _ _ _ := ();
  ranking_remove _ _ _ := ();
  ranking_touch _ ty _ _ := ((), ty);
  ranking_set_touch_callback _ _ _ ty := ((), ty);
  ranking_get_hot_threshold _ := (false, F64.zero);
  ranking_calculate_hot_threshold_dram_total _ _ _ := ();
}.
#[local] Instance blind_ranking_laws : RankingLaws unit.
Proof. by split. Qed.

Lemma samples_in_order_witness :
  ∃ s s' : tachanka (critnib slab_world) slab_world unit,
    sample_loop 8 true (λ _, demo_page) (λ _, 100) 3 0 0 s = Ret (3%nat, 32, s') ∧ tinv 100 s'.
Proof.
  destruct (demo_state () (LqBuffer [] [] 0 0 0 0 0 0)) as (s & Hs & _).
  destruct (samples_in_order 8 true (λ _, demo_page) (λ _, 100) 0 demo_records (λ _, 2%nat) 0 100 s)
    as (j & s' & Hj & Hrun & _ & Hs'); [done|exact demo_tells|done|]. subst j. by exists s, s'.
Defined.


(** ** Defects of the reader *)

(** Two samples of 24 bytes fill a ring of 64 bytes but for 16: the third lies
    across the end, where the kernel goes on at the start of the ring; the
    reader takes its address from behind the mapping. *)
Example record_across_the_end (s : tachanka (gmap Z Z) slab_world unit) total :
  process_record 8 true (λ _, PerfPage 72 (drop 64 (concat (rbytes <$> [a_sample 5 4100; a_sample 6 4100; a_sample 7 4100]))
                                            ++ drop 8 (take 64 (concat (rbytes <$> [a_sample 5 4100; a_sample 6 4100; a_sample 7 4100]))))%list)
    total 0 48 s = Stop BadDeref.
Proof. vm_compute. reflexivity. Qed.

(** The kernel adds a second sample after the loop has looked for the last
    time: [last_head] and [data_tail] move past it, and no later cycle reads it. *)
Definition late_obs (k : nat) : perf_page :=
  if (k <? 3)%nat then PerfPage 24 (ring_of [a_sample 5 4100] 64)
  else PerfPage 48 (ring_of [a_sample 5 4100; a_sample 6 8192] 64).

(** A ranking that keeps the times of the touches. *)
#[local] Instance touch_log : Ranking (list Z) := {
  ranking_create _ := [];
  ranking_add r _ _ := r;
  ranking_remove r _ _ := r;
  ranking_touch r ty ts _ := (ts :: r, ty);
  ranking_set_touch_callback r _ _ ty := (r, ty);
  ranking_get_hot_threshold _ := (false, F64.zero);
  ranking_calculate_hot_threshold_dram_total r _ _ := r;
}.

Definition two_blocks : tachanka (gmap Z Z) slab_world (list Z) :=
  Tachanka {[1 := TType 7 2 200 0 0 0 0 NULL NULL F64.one TIMESTAMP_NOT_SET (replicate 4 F64.zero)]}
    {[2 := TBlock 4096 100 1 false; 3 := TBlock 8192 100 1 false]} {[7 := 1]} {[4096 := 2; 8192 := 3]} (World ∅ ∅) []
    (LqBuffer [] [] 0 0 0 0 0 0) true.

Example late_sample_lost :
  (let! (head, tail, s) := pebs_cycle 8 true late_obs (λ _, 200) F64.one F64.one 0 3 200 0 two_blocks in
   let! (head, tail, s) := pebs_cycle 8 true (λ _, late_obs 3) (λ _, 200) F64.one F64.one 0 3 200 head s in
   Ret (head, tail, ranking s)) = Ret (48, 48, [5]).
Proof. vm_compute. reflexivity. Qed.
