(* ===== verification/Hugetlb.v ===== *)
(** * Huge pages ([src/memkind_hugetlb.c])

    On first use the library reads from sysfs, for every size of huge pages, how
    many pages each node has and how many more the system may hand out; a kind
    with huge pages is available when there are any on its nodes.  The heap is
    modelled by its live blocks, so that what is freed is checked. *)
From S2P Require Import CString Prelude Counters Registry.
Local Open Scope string_scope.
Local Open Scope Z_scope.

Definition MEMKIND_ERROR_HUGETLB : Z := -18.

(** ** The heap *)

(** The live blocks, the next address, and the answers to the next requests; a
    request with no answer left is granted. *)
Record cheap := CHeap { live : gset Z; next_block : Z; answers : list bool }.

Definition c_malloc (h : cheap) : Z * cheap :=
  match answers h with
  | false :: l => (NULL, CHeap (live h) (next_block h) l)
  | l => (next_block h, CHeap ({[next_block h]} ∪ live h) (next_block h + 1) (tl l))
  end.

(** A pointer that [malloc] has not returned cannot be freed. *)
Definition c_free (p : Z) (h : cheap) : outcome cheap :=
  if p =? NULL then Ret h
  else if bool_decide (p ∈ live h) then Ret (CHeap (live h ∖ {[p]}) (next_block h) (answers h))
  else Stop Undefined.

(** ** What sysfs says *)

(** A file of sysfs: not there, without anything to read, not a number, or a number. *)
Inductive sysfs_file := Absent | Empty | NotNumber | Number (n : Z).

(** [fscanf] returns [EOF], which is not 0, on an empty file: the variable that
    was never written is returned. *)
Definition get_sysfs_entry_value (file : sysfs_file) : outcome Z :=
  match file with
  | Absent | NotNumber => Ret 0
  | Empty => Stop Undefined
  | Number n => Ret n
  end.

Record hugepage_size_info := HugepageSizeInfo {
  hsize : Z;
  nr_hugepages_per_node_array : list Z;
  nr_overcommit : Z;
  info_block : Z;
  array_block : Z;
}.

(** [nr_overcommit_hugepages] of a size, [nr_hugepages] of a node and a size,
    both by size in kB; all paths fit their buffer. *)
Record sysfs := Sysfs { overcommit_file : Z → sysfs_file; node_file : Z → Z → sysfs_file }.

Section config.
(** The number of nodes that libnuma is compiled for. *)
Context (NUMA_NUM_NODES : nat).

Definition allocate_hugepage_size_info (h : cheap) : outcome (option hugepage_size_info * cheap) :=
  let (p, h) := c_malloc h in
  if p =? NULL then Ret (None, h) else
  let (a, h) := c_malloc h in
  if a =? NULL then let! h := c_free p h in Ret (None, h)
  else Ret (Some (HugepageSizeInfo 0 (replicate NUMA_NUM_NODES 0) 0 p a), h).

(** The values of the nodes [node], [node + 1], ... *)
Fixpoint read_nodes (fs : sysfs) (pagesize_kb node : Z) (n : nat) : outcome (list Z) :=
  match n with
  | O => Ret []
  | S n =>
      let! v := get_sysfs_entry_value (node_file fs node pagesize_kb) in
      let! l := read_nodes fs pagesize_kb (node + 1) n in
      Ret (v :: l)
  end.

Definition init_hugepage_size_info (fs : sysfs) (pagesize : Z) (newInfo : hugepage_size_info) : outcome hugepage_size_info :=
  let pagesize_kb := Z.shiftr pagesize 10 in
  let! over := get_sysfs_entry_value (overcommit_file fs pagesize_kb) in
  let! nodes := read_nodes fs pagesize_kb 0 NUMA_NUM_NODES in
  Ret (HugepageSizeInfo pagesize nodes over (info_block newInfo) (array_block newInfo)).

(** [%zu]: blanks, a sign, decimal digits. *)
Definition scan_size (s : string) : option Z :=
  let (_, s) := span isspace s in
  let (neg, s) :=
    match s with
    | String c s' =>
        if Ascii.eqb c "-" then (true, s') else if Ascii.eqb c "+" then (false, s') else (false, s)
    | EmptyString => (false, s)
    end in
  let '(v, any, _) := read_digits 10 0 false s in
  if any then Some (if ULLONG_MAX <? v then ULLONG_MAX else if neg then u64 (- v) else v) else None.

(** What follows the number is not looked at: [sscanf] has counted it already. *)
Definition parse_pagesize_from_sysfs_entry (entry : string) : option Z :=
  match literal "hugepages-" entry with
  | Some s => match scan_size s with Some pagesize => Some (u64 (Z.shiftl pagesize 10)) | None => None end
  | None => None
  end.

(** ** Reading the configuration *)

Record memkind_hugepages_config_t := HugepagesConfig {
  hugepages_info_array : list hugepage_size_info;
  array_at : Z;
  err : Z;
}.

(** The loop over the directory: [infos] are the entries of the array so far,
    [arr] its block and [len] its length. *)
Fixpoint read_dir (fs : sysfs) (dir : list (bool * string)) (infos : list hugepage_size_info) (arr : Z) (len : nat) (h : cheap) :
    outcome (list hugepage_size_info * Z * Z * cheap) :=
  match dir with
  | [] => Ret (infos, arr, 0, h)
  | (is_dir, name) :: dir =>
      match (if is_dir then parse_pagesize_from_sysfs_entry name else None) with
      | None => read_dir fs dir infos arr len h
      | Some pagesize =>
          let! (info, h) := allocate_hugepage_size_info h in
          match info with
          | None => Ret (infos, arr, MEMKIND_ERROR_MALLOC, h)
          | Some info =>
              let! info := init_hugepage_size_info fs pagesize info in
              let! (stop, arr, len, h) :=
                if (length infos =? len)%nat then
                  let (p, h) := c_malloc h in
                  if p =? NULL then
                    let! h := c_free (info_block info) h in Ret (true, arr, (2 * len)%nat, h)
                  else
                    let! h := c_free arr h in Ret (false, p, (2 * len)%nat, h)
                else Ret (false, arr, len, h) in
              if (stop : bool) then Ret (infos, arr, MEMKIND_ERROR_MALLOC, h) else
              if (length infos <? len)%nat then read_dir fs dir (infos ++ [info])%list arr len h
              else Stop OutOfBounds
          end
      end
  end.

(** The clean-up frees [hugepages_info_array[i]], one past the last entry, as
    often as there are entries; [garbage] is what that place holds. *)
Fixpoint free_entries (n : nat) (garbage : Z) (h : cheap) : outcome cheap :=
  match n with
  | O => Ret h
  | S n => let! h := c_free garbage h in free_entries n garbage h
  end.

(** [opendir] gives the entries: whether each is a directory, and its name. *)
Definition hugepages_config_init_once (fs : sysfs) (hugepages_sysfs : option (list (bool * string))) (garbage : Z) (h : cheap) :
    outcome (memkind_hugepages_config_t * cheap) :=
  match hugepages_sysfs with
  | None => Ret (HugepagesConfig [] NULL MEMKIND_ERROR_HUGETLB, h)
  | Some dir =>
      let (arr, h) := c_malloc h in
      if arr =? NULL then Ret (HugepagesConfig [] NULL MEMKIND_ERROR_MALLOC, h) else
      let! (infos, arr, e, h) := read_dir fs dir [] arr 2 h in
      if e =? 0 then Ret (HugepagesConfig infos arr 0, h)
      else
        let! h := free_entries (length infos) garbage h in
        let! h := c_free arr h in
        Ret (HugepagesConfig [] NULL e, h)
  end.

End config.

(** The arrays of the entries are not freed. *)
Fixpoint destroy_infos (infos : list hugepage_size_info) (h : cheap) : outcome cheap :=
  match infos with
  | [] => Ret h
  | i :: infos => let! h := c_free (info_block i) h in destroy_infos infos h
  end.

Definition destroy_hugepages_per_node (c : memkind_hugepages_config_t) (h : cheap) : outcome cheap :=
  let! h := destroy_infos (hugepages_info_array c) h in
  c_free (array_at c) h.

(** ** Availability *)

Definition get_hugepage_info_for_pagesize (c : memkind_hugepages_config_t) (pagesize : Z) : option hugepage_size_info :=
  list_find (λ i, hsize i = pagesize) (hugepages_info_array c) ≫= λ x, Some x.2.

Fixpoint sum_nodes (nodemask : Z → bool) (a : list Z) (i : Z) (n : nat) (nr_hugepages : Z) : outcome Z :=
  match n with
  | O => Ret nr_hugepages
  | S n =>
      let! nr_hugepages :=
        if nodemask i then let! v := deref (a !! Z.to_nat i) in Ret (u64 (nr_hugepages + v)) else Ret nr_hugepages in
      sum_nodes nodemask a (i + 1) n nr_hugepages
  end.

(** The error, or [*out]; [num_node] is [numa_num_configured_nodes()]. *)
Definition get_nr_hugepages_cached (c : memkind_hugepages_config_t) (num_node : nat) (pagesize : Z) (nodemask : Z → bool) :
    outcome (Z + Z) :=
  if negb (err c =? 0) then Ret (inl (err c)) else
  match get_hugepage_info_for_pagesize c pagesize with
  | None => Ret (inl MEMKIND_ERROR_HUGETLB)
  | Some info => let! n := sum_nodes nodemask (nr_hugepages_per_node_array info) 0 num_node 0 in Ret (inr n)
  end.

Definition get_nr_overcommit_hugepages_cached (c : memkind_hugepages_config_t) (pagesize : Z) : Z + Z :=
  if negb (err c =? 0) then inl (err c) else
  match get_hugepage_info_for_pagesize c pagesize with
  | None => inl MEMKIND_ERROR_HUGETLB
  | Some info => inr (nr_overcommit info)
  end.

(** [get_mbind_nodemask] of the kind gives the mask and a status that is not
    looked at; without it all nodes are taken. *)
Definition memkind_hugetlb_check_available (c : memkind_hugepages_config_t) (num_node : nat)
    (get_mbind_nodemask : option (Z * (Z → bool))) (huge_size : Z) : outcome Z :=
  let huge_size := if huge_size =? 0 then 2097152 else huge_size in
  let nodemask := match get_mbind_nodemask with Some (_, mask) => mask | None => λ _, true end in
  let! r := get_nr_hugepages_cached c num_node huge_size nodemask in
  match r with
  | inl e => Ret e
  | inr nr_persistent =>
      match get_nr_overcommit_hugepages_cached c huge_size with
      | inl e => Ret e
      | inr nr_over => Ret (if (nr_over =? 0) && (nr_persistent =? 0) then MEMKIND_ERROR_HUGETLB else 0)
      end
  end.

Definition memkind_hugetlb_check_available_2mb (c : memkind_hugepages_config_t) (num_node : nat)
    (get_mbind_nodemask : option (Z * (Z → bool))) : outcome Z :=
  memkind_hugetlb_check_available c num_node get_mbind_nodemask 2097152.

(** [MAP_PRIVATE | MAP_ANONYMOUS | MAP_HUGETLB | MAP_HUGE_2MB]. *)
Definition memkind_hugetlb_get_mmap_flags : Z :=
  Z.lor (Z.lor 2 32) (Z.lor 262144 (Z.shiftl 21 26)).
