(* ===== verification/HugetlbSpec.v ===== *)
(** * Reading and freeing the huge page configuration

    When every request for memory is granted, the configuration lists the sizes
    of sysfs with their numbers, whatever their number, and its destructor frees
    each block once.  A kind is available exactly when there are pages for it. *)
From S2P Require Import CString Prelude Counters Registry Hugetlb.
Local Open Scope string_scope.
Local Open Scope Z_scope.

(** ** Availability *)

(** The pages on the nodes of the mask, of the nodes [i], [i + 1], ... *)
Fixpoint pages_on (nodemask : Z → bool) (a : list Z) (i : Z) : Z :=
  match a with
  | [] => 0
  | v :: a => (if nodemask i then v else 0) + pages_on nodemask a (i + 1)
  end.

Lemma pages_nonneg mask a i : Forall (λ v, 0 <= v) a → 0 <= pages_on mask a i.
Proof. intros Ha. revert i. induction Ha as [|v a Hv _ IH]; intros i; cbn; [done|]. specialize (IH (i + 1)). destruct (mask i); lia. Qed.

Lemma sum_nodes_ok mask a i n acc :
  (i + n <= length a)%nat → 0 <= acc → Forall (λ v, 0 <= v) a →
  acc + pages_on mask (take n (drop i a)) (Z.of_nat i) < 2 ^ 64 →
  sum_nodes mask a (Z.of_nat i) n acc = Ret (acc + pages_on mask (take n (drop i a)) (Z.of_nat i)).
Proof.
  revert i acc. induction n as [|n IH]; intros i acc Hlen Hacc Ha Hmax; cbn [sum_nodes]; [by rewrite take_0, Z.add_0_r|].
  destruct (lookup_lt_is_Some_2 a i ltac:(lia)) as [v Hv]. rewrite (drop_S _ _ _ Hv) in Hmax |- *. cbn [firstn pages_on] in Hmax |- *.
  pose proof (proj1 (Forall_lookup _ _) Ha i v Hv) as Hv0. cbn in Hv0.
  pose proof (pages_nonneg mask (take n (drop (S i) a)) (Z.of_nat i + 1) ltac:(by apply Forall_take, Forall_drop)).
  replace (Z.of_nat i + 1) with (Z.of_nat (S i)) in * by lia.
  destruct (mask (Z.of_nat i)); cbn [obind].
  - rewrite Nat2Z.id, Hv. cbn [deref obind]. rewrite u64_small by (unfold is_u64; lia).
    rewrite IH by (done || lia). f_equal. lia.
  - rewrite IH by (done || lia). f_equal.
Qed.


Definition demo_config : memkind_hugepages_config_t :=
  HugepagesConfig [HugepageSizeInfo 1073741824 [0; 0] 0 1 2; HugepageSizeInfo 2097152 [0; 5] 0 3 4] 5 0.


(** ** The heap *)

(** Every request is granted, and live blocks have been handed out. *)
Definition granting (h : cheap) : Prop := answers h = [] ∧ 0 < next_block h ∧ ∀ p, p ∈ live h → 0 < p < next_block h.

Lemma c_malloc_ok h :
  granting h → ∃ p h', c_malloc h = (p, h') ∧ p ≠ NULL ∧ (p ∉ live h) ∧ (live h' = {[p]} ∪ live h) ∧ granting h'.
Proof.
  intros (Ha & Hn & Hl). unfold c_malloc. rewrite Ha. eexists _, _. split; [done|]. cbn. unfold granting. cbn.
  split; [lia|]. split; [intros Hin%Hl; lia|]. split; [done|]. split; [done|]. split; [lia|].
  intros p [->%elem_of_singleton|Hp%Hl]%elem_of_union; lia.
Qed.

Lemma c_free_ok p h :
  granting h → p ∈ live h → ∃ h', c_free p h = Ret h' ∧ live h' = live h ∖ {[p]} ∧ granting h'.
Proof.
  intros (Ha & Hn & Hl) Hp. unfold c_free. rewrite (proj2 (Z.eqb_neq p NULL)) by (specialize (Hl p Hp); lia).
  rewrite bool_decide_true by done. eexists. split; [done|]. split; [done|]. split_and!; try done. set_solver.
Qed.

(** ** Reading *)

Definition readable (f : sysfs_file) : Prop := f ≠ Empty.
Definition file_value (f : sysfs_file) : Z := match f with Number n => n | _ => 0 end.

Lemma readable_value f : readable f → get_sysfs_entry_value f = Ret (file_value f).
Proof. by destruct f. Qed.

Section read.
Context (nodes : nat) (fs : sysfs).
Hypothesis over_readable : ∀ kb, readable (overcommit_file fs kb).
Hypothesis nodes_readable : ∀ i kb, readable (node_file fs i kb).

Lemma read_nodes_ok kb i n :
  read_nodes fs kb i n = Ret ((λ k, file_value (node_file fs (i + Z.of_nat k) kb)) <$> seq 0 n).
Proof using nodes_readable.
  revert i. induction n as [|n IH]; intros i; cbn [read_nodes]; [done|].
  rewrite readable_value by done. cbn [obind]. rewrite IH. cbn [obind seq fmap list_fmap]. rewrite Z.add_0_r. do 2 f_equal.
  rewrite <- fmap_S_seq, <- list_fmap_compose. apply list_fmap_ext. intros k x _. cbn. do 2 f_equal. lia.
Qed.

(** The entry for a size of pages. *)
Definition entry_for (pagesize : Z) (i : hugepage_size_info) : Prop :=
  hsize i = pagesize ∧ nr_overcommit i = file_value (overcommit_file fs (Z.shiftr pagesize 10)) ∧
  nr_hugepages_per_node_array i =
    (λ k, file_value (node_file fs (Z.of_nat k) (Z.shiftr pagesize 10))) <$> seq 0 nodes.

Definition sizes_in (dir : list (bool * string)) : list Z :=
  omap (λ x : bool * string, if x.1 then parse_pagesize_from_sysfs_entry x.2 else None) dir.

Definition blocks_of (infos : list hugepage_size_info) : list Z := (info_block <$> infos) ++ (array_block <$> infos).

(** The entries and the array own distinct blocks, beside those of [base]. *)
Record owns (base : gset Z) (infos : list hugepage_size_info) (arr : Z) (h : cheap) : Prop := {
  ow_granting : granting h;
  ow_live : live h = base ∪ list_to_set (arr :: blocks_of infos);
  ow_distinct : NoDup (arr :: blocks_of infos);
  ow_base p : p ∈ arr :: blocks_of infos → p ∉ base;
}.

Lemma blocks_of_snoc infos i : blocks_of (infos ++ [i])%list ≡ₚ info_block i :: array_block i :: blocks_of infos.
Proof. unfold blocks_of. rewrite !fmap_app. cbn. solve_Permutation. Qed.

(** Two blocks for a new entry. *)
Lemma allocate_ok base infos arr h :
  owns base infos arr h →
  ∃ i h', allocate_hugepage_size_info nodes h = Ret (Some i, h') ∧
    ∀ i', info_block i' = info_block i → array_block i' = array_block i → owns base (infos ++ [i'])%list arr h'.
Proof.
  intros [Hg Hl Hd Hb]. unfold allocate_hugepage_size_info.
  destruct (c_malloc_ok h Hg) as (p & h1 & -> & Hp & Hpf & Hl1 & Hg1). rewrite (proj2 (Z.eqb_neq p NULL)) by done.
  destruct (c_malloc_ok h1 Hg1) as (a & h2 & -> & Ha & Haf & Hl2 & Hg2). rewrite (proj2 (Z.eqb_neq a NULL)) by done.
  eexists _, _. split; [done|]. cbn. intros i' Hi1 Hi2.
  assert (Hperm : arr :: blocks_of (infos ++ [i'])%list ≡ₚ p :: a :: arr :: blocks_of infos).
  { rewrite blocks_of_snoc, Hi1, Hi2. solve_Permutation. }
  rewrite Hl, not_elem_of_union, elem_of_list_to_set in Hpf. destruct Hpf as [Hpf1 Hpf2].
  rewrite Hl1, Hl, !not_elem_of_union, elem_of_list_to_set, not_elem_of_singleton in Haf. destruct Haf as (Hap & Haf1 & Haf2).
  split; [done|..].
  - rewrite (list_to_set_perm_L _ _ Hperm), Hl2, Hl1, Hl. rewrite !(list_to_set_cons p), !(list_to_set_cons a).
    clear. set_solver.
  - rewrite Hperm. apply NoDup_cons. split; [by rewrite not_elem_of_cons|by apply NoDup_cons].
  - intros q. rewrite Hperm, elem_of_cons, elem_of_cons. by intros [->|[->|Hq%Hb]].
Qed.

(** A larger array in place of the old one. *)
Lemma grow_ok base infos arr h :
  owns base infos arr h →
  ∃ p h1 h2, c_malloc h = (p, h1) ∧ p ≠ NULL ∧ c_free arr h1 = Ret h2 ∧ owns base infos p h2.
Proof.
  intros [Hg Hl Hd Hb]. destruct (c_malloc_ok h Hg) as (p & h1 & -> & Hp & Hpf & Hl1 & Hg1).
  destruct (c_free_ok arr h1 Hg1) as (h2 & Hfree & Hl2 & Hg2).
  { rewrite Hl1, Hl, list_to_set_cons. clear. set_solver. }
  exists p, h1, h2. split_and!; try done. rewrite Hl in Hpf. apply NoDup_cons in Hd as [Ha Hd].
  assert (Hab : arr ∉ base) by (apply Hb, elem_of_cons; by left).
  split; [done|..].
  - rewrite Hl2, Hl1, Hl, !list_to_set_cons. rewrite list_to_set_cons in Hpf.
    assert (arr ∉ (list_to_set (blocks_of infos) : gset Z)) by (by rewrite elem_of_list_to_set).
    clear -Hpf Hab H. set_solver.
  - apply NoDup_cons. split; [|done]. intros Hin. apply Hpf, elem_of_union. right. apply elem_of_list_to_set, elem_of_cons. by right.
  - intros q [->|Hq]%elem_of_cons; [|apply Hb, elem_of_cons; by right]. intros Hin. apply Hpf, elem_of_union. by left.
Qed.

Lemma init_info_ok pagesize i :
  ∃ i', init_hugepage_size_info nodes fs pagesize i = Ret i' ∧ entry_for pagesize i' ∧
    info_block i' = info_block i ∧ array_block i' = array_block i.
Proof using over_readable nodes_readable.
  unfold init_hugepage_size_info. rewrite readable_value by done. cbn [obind]. rewrite read_nodes_ok. cbn [obind].
  eexists. split; [done|]. done.
Qed.

Lemma read_dir_ok base dir infos arr len h :
  owns base infos arr h → (length infos <= len)%nat → (2 <= len)%nat →
  ∃ infos' arr' h', read_dir nodes fs dir infos arr len h = Ret ((infos ++ infos')%list, arr', 0, h') ∧
    Forall2 entry_for (sizes_in dir) infos' ∧ owns base (infos ++ infos')%list arr' h'.
Proof using over_readable nodes_readable.
  revert infos arr len h. induction dir as [|[is_dir name] dir IH]; intros infos arr len h Ho Hlen H2; cbn [read_dir].
  { exists [], arr, h. by rewrite app_nil_r. }
  unfold sizes_in. cbn [omap list_omap fst snd].
  destruct (if is_dir then parse_pagesize_from_sysfs_entry name else None) as [pagesize|]; [|by apply IH].
  destruct (allocate_ok base infos arr h Ho) as (i & h1 & -> & Ho1). cbn [obind].
  destruct (init_info_ok pagesize i) as (i' & -> & Hent & Hi1 & Hi2). cbn [obind]. specialize (Ho1 i' Hi1 Hi2).
  assert (Hgo : ∃ arr' len' h', (if (length infos =? len)%nat then
      let (p, h) := c_malloc h1 in
      if p =? NULL then let! h := c_free (info_block i') h in Ret (true, arr, (2 * len)%nat, h)
      else let! h := c_free arr h in Ret (false, p, (2 * len)%nat, h)
    else Ret (false, arr, len, h1)) = Ret (false, arr', len', h') ∧
    owns base (infos ++ [i'])%list arr' h' ∧ (S (length infos) <= len')%nat ∧ (2 <= len')%nat).
  { destruct (Nat.eqb_spec (length infos) len) as [<-|]; [|exists arr, len, h1; split_and!; done || lia].
    destruct (grow_ok _ _ _ _ Ho1) as (p & h2 & h3 & -> & Hp & Hfree & Ho3). rewrite (proj2 (Z.eqb_neq p NULL)) by done.
    rewrite Hfree. cbn [obind]. exists p, (2 * length infos)%nat, h3. split_and!; done || lia. }
  destruct Hgo as (arr' & len' & h' & -> & Ho' & Hlen' & H2'). cbn [obind]. rewrite (proj2 (Nat.ltb_lt _ _)) by lia.
  destruct (IH (infos ++ [i'])%list arr' len' h' Ho') as (rest & arr2 & h2 & -> & Hrest & Ho2); [rewrite length_app; cbn; lia|done|].
  exists (i' :: rest), arr2, h2. rewrite <- app_assoc in Ho2 |- *. split; [done|]. split; [by constructor|done].
Qed.

Lemma destroy_infos_ok infos h :
  granting h → NoDup (info_block <$> infos) → (∀ p, p ∈ info_block <$> infos → p ∈ live h) →
  ∃ h', destroy_infos infos h = Ret h' ∧ live h' = live h ∖ list_to_set (info_block <$> infos) ∧ granting h'.
Proof.
  revert h. induction infos as [|i infos IH]; intros h Hg Hd Hl; cbn [destroy_infos].
  { exists h. split_and!; try done. cbn. set_solver. }
  cbn in Hd, Hl. apply NoDup_cons in Hd as [Hi Hd].
  destruct (c_free_ok (info_block i) h Hg) as (h1 & -> & Hl1 & Hg1); [apply Hl, elem_of_cons; by left|]. cbn [obind].
  destruct (IH h1 Hg1 Hd) as (h2 & -> & Hl2 & Hg2).
  { intros p Hp. rewrite Hl1. apply elem_of_difference. split; [apply Hl, elem_of_cons; by right|].
    rewrite not_elem_of_singleton. intros ->. done. }
  exists h2. split; [done|]. split; [|done]. rewrite Hl2, Hl1. cbn. clear. set_solver.
Qed.

End read.

(** ** Runs *)

Definition demo_sysfs : sysfs :=
  Sysfs (λ kb, if kb =? 2048 then Number 3 else Absent) (λ i kb, if (i =? 1) && (kb =? 2048) then Number 5 else Absent).
Definition demo_dir : list (bool * string) :=
  [(true, "."); (true, "hugepages-1048576kB"); (false, "hugepages-64kB"); (true, "hugepages-2048kB"); (true, "hugepages-32kB")].
Definition empty_heap : cheap := CHeap ∅ 1 [].

Example demo_sizes : sizes_in demo_dir = [1073741824; 2097152; 32768].
Proof. reflexivity. Qed.


(** When the memory for the second entry is refused, the clean-up frees the
    place after the last entry, which was never written. *)
Example clean_up_frees_garbage :
  hugepages_config_init_once 2 demo_sysfs (Some demo_dir) 77 (CHeap ∅ 1 [true; true; true; false]) = Stop Undefined.
Proof. reflexivity. Qed.

(** A file with nothing to read: [fscanf] reports the end of the file, and the
    value that was not read is used. *)
Example empty_file_read :
  hugepages_config_init_once 2 (Sysfs (λ _, Empty) (λ _ _, Absent)) (Some demo_dir) 77 empty_heap = Stop Undefined.
Proof. reflexivity. Qed.

(** The suffix of a directory's name is not checked. *)
Example suffix_not_checked : parse_pagesize_from_sysfs_entry "hugepages-4MB" = Some 4096.
Proof. reflexivity. Qed.
