(* ===== verification/KindMmap.v ===== *)
(** * How a kind maps memory ([src/memkind_default.c], [src/memkind_gbtlb.c])

    [kind_mmap] maps with the flags of the kind, binds the range to its nodes
    and advises the kernel, each through the kind's own operation if it has one.
    The extents of the arenas rely on the promise [mmap_law] of it. *)
From S2P Require Import CString Prelude Counters Registry Extent.
Local Open Scope Z_scope.

Definition MEMKIND_ERROR_MBIND : Z := -2.
Definition EINVAL_ERR : Z := 22.

(** ** [mmap] and what follows it *)

(** An address, or [None] for [MAP_FAILED]. *)
Abbreviation addr_t := (option Z).

(** The operations of a kind; each returns 0 or an error. *)
Record map_ops := MapOps {
  mo_mmap : option (Z → Z → vmem → addr_t * vmem);
  mo_get_mmap_flags : option (Z * Z);
  mo_mbind : option (addr_t → Z → Z);
  mo_madvise : option (addr_t → Z → Z);
}.

(** [MAP_PRIVATE | MAP_ANONYMOUS]. *)
Definition memkind_default_get_mmap_flags : Z * Z := (0, Z.lor 2 32).

(** Unmapping [MAP_FAILED] is refused by the kernel. *)
Definition munmap_result (result : addr_t) (size : Z) (m : vmem) : vmem :=
  match result with Some a => munmap a size m | None => m end.

Section ops.
(** The system call, with its flags. *)
Context (sys_mmap : Z → Z → Z → vmem → addr_t * vmem).

(** An operation on the range: an error gives the range back. *)
Definition checked (op : option (addr_t → Z → Z)) (size : Z) (x : addr_t * vmem) : addr_t * vmem :=
  match op with
  | Some f => if negb (f x.1 size =? 0) then (None, munmap_result x.1 size x.2) else x
  | None => x
  end.

Definition memkind_default_mmap (k : map_ops) (addr size : Z) (m : vmem) : addr_t * vmem :=
  let (err, flags) := match mo_get_mmap_flags k with Some x => x | None => memkind_default_get_mmap_flags end in
  let rest x := checked (mo_madvise k) size (checked (mo_mbind k) size x) in
  if err =? 0 then
    let (result, m) := sys_mmap addr size flags m in
    match result with
    | None => (None, m)
    | Some _ => rest (result, m)
    end
  else rest (None, m).

Definition kind_mmap (k : map_ops) (addr size : Z) (m : vmem) : addr_t * vmem :=
  match mo_mmap k with
  | None => memkind_default_mmap k addr size m
  | Some f => f addr size m
  end.

(** ** Gigabyte pages *)

Definition ONE_GB : Z := 1073741824.

Definition memkind_gbtlb_ceil_size (size : Z) : Z :=
  if negb (size mod ONE_GB =? 0) then u64 ((size / ONE_GB + 1) * ONE_GB) else size.

Definition gbtlb_mmap (k : map_ops) (addr size : Z) (m : vmem) : addr_t * vmem :=
  memkind_default_mmap k addr (memkind_gbtlb_ceil_size size) m.
End ops.

(** ** Binding and advice *)

(** [mbind] of a kind: the operations that give the mask and the mode, and the
    system call. *)
Definition memkind_default_mbind {M : Type} (get_mbind_nodemask : option (Z * M)) (get_mbind_mode : option (Z * Z))
    (sys_mbind : addr_t → Z → Z → M → Z) (ptr : addr_t) (size : Z) : Z :=
  match get_mbind_nodemask, get_mbind_mode with
  | Some (err, nodemask), Some (err', mode) =>
      if negb (err =? 0) then err
      else if negb (err' =? 0) then err'
      else if negb (sys_mbind ptr size mode nodemask =? 0) then MEMKIND_ERROR_MBIND
      else 0
  | _, _ => MEMKIND_ERROR_BADOPS
  end.

(** [madvise(addr, size, MADV_NOHUGEPAGE)] returned [err]. *)
Definition memkind_nohugepage_madvise (err addr size : Z) : Z :=
  if (err =? EINVAL_ERR) && (Z.land addr 4095 =? 0) && (0 <? size) then 0 else err.

(** ** The promise *)

Lemma checked_ok op size x :
  checked op size x = x ∧ (∀ f, op = Some f → f x.1 size = 0) ∨
  checked op size x = (None, munmap_result x.1 size x.2).
Proof.
  unfold checked. destruct op as [f|]; [|by left]. destruct (Z.eqb_spec (f x.1 size) 0); [|by right].
  left. split; [done|]. by intros f' [= <-].
Qed.

(** [memkind_default_mmap] keeps the promise of [mmap], whatever the operations
    of the kind answer: a failure leaves nothing mapped, also when the binding or
    the advice fails after the mapping was made. *)
Lemma default_mmap_law sys_mmap k :
  (∀ flags, mmap_law (λ addr n m, sys_mmap addr n flags m)) → mmap_law (memkind_default_mmap sys_mmap k).
Proof.
  intros Hsys addr n m Hn. unfold memkind_default_mmap.
  destruct (match mo_get_mmap_flags k with Some x => x | None => _ end) as [err flags]. case_if.
  - pose proof (Hsys flags addr n m Hn) as Hm. cbn in Hm. destruct (sys_mmap addr n flags m) as [[a|] m1]; [|done].
    destruct Hm as (Ha & Hhi & Hfree & Hm1). pose proof (map_unmap a n m m1 Hfree Hm1) as Hun.
    destruct (checked_ok (mo_mbind k) n (Some a, m1)) as [[-> _]| ->].
    + by destruct (checked_ok (mo_madvise k) n (Some a, m1)) as [[-> _]| ->].
    + cbn [munmap_result fst snd]. by destruct (checked_ok (mo_madvise k) n (None, munmap a n m1)) as [[-> _]| ->].
  - destruct (checked_ok (mo_mbind k) n (None, m)) as [[-> _]| ->]; cbn [munmap_result fst snd];
      by destruct (checked_ok (mo_madvise k) n (None, m)) as [[-> _]| ->].
Qed.

(** C23: The extents of a kind's arenas: for every kind that maps with
    [memkind_default_mmap], whatever its own operations answer, an extent that
    jemalloc gets is aligned, lies in addresses that were free, is at the address
    asked for if there was one, and is all that is newly mapped; when it gets
    none, nothing is left mapped. *)
Theorem kind_extent_aligned sys_mmap k available new_addr size e m :
  (∀ flags, mmap_law (λ addr n m, sys_mmap addr n flags m)) → mo_mmap k = None →
  0 < size → 0 <= e < 62 → size + 2 ^ e < 2 ^ 63 → (new_addr ≠ NULL → new_addr mod 2 ^ e = 0) →
  let (p, m') := arena_extent_alloc (kind_mmap sys_mmap k) available new_addr size (2 ^ e) m in
  extent_post size (2 ^ e) m p m' ∧ (new_addr ≠ NULL → p = NULL ∨ p = new_addr).
Proof.
  intros Hsys Hk. apply extent_alloc_aligned. unfold mmap_law, kind_mmap. rewrite Hk. by apply default_mmap_law.
Qed.

(** A kind whose binding fails on the range of 4 bytes only, at address 2. *)
Definition picky : map_ops :=
  MapOps None None (Some (λ a n, if bool_decide (a = Some 2) && (n =? 4) then MEMKIND_ERROR_MBIND else 0)) None.

Lemma kind_extent_aligned_witness :
  let (p, m') := arena_extent_alloc (kind_mmap (λ a n _ m, mmap_at 2 a n m) picky) 0 NULL 4 (2 ^ 3) (λ _, false) in
  extent_post 4 (2 ^ 3) (λ _, false) p m' ∧ (NULL ≠ NULL → p = NULL ∨ p = NULL).
Proof.
  refine (kind_extent_aligned (λ a n _ m, mmap_at 2 a n m) picky 0 NULL 4 3 (λ _, false) _ _ _ _ _ _); try done.
  intros flags. apply mmap_at_law.
Defined.

(** The least multiple of a gigabyte that is not smaller. *)
Lemma gbtlb_ceil_least size :
  0 <= size <= 2 ^ 64 - ONE_GB →
  memkind_gbtlb_ceil_size size mod ONE_GB = 0 ∧ size <= memkind_gbtlb_ceil_size size < size + ONE_GB.
Proof.
  unfold memkind_gbtlb_ceil_size, ONE_GB. intros Hs. pose proof (Z.div_mod size 1073741824 ltac:(lia)).
  pose proof (Z.mod_pos_bound size 1073741824 ltac:(lia)).
  destruct (Z.eqb_spec (size mod 1073741824) 0); cbn [negb]; [split; [done|lia]|].
  rewrite u64_small by (unfold is_u64; lia). split; [apply Z_mod_mult|lia].
Qed.

(** ** Defects *)

(** Gigabyte kinds map whole gigabytes, but the caller unmaps only what it asked
    for: a mapping that is not at the wanted address stays behind but for the
    first bytes.  Here at 3 GB instead of 1 GB. *)
Example gbtlb_leaves_mapping :
  let (p, m) := arena_extent_alloc (gbtlb_mmap (λ _ n _ m, (Some (3 * ONE_GB), λ x, m x || in_range (3 * ONE_GB) n x)) (MapOps None None None None))
                  0 ONE_GB 4096 4096 (λ _, false) in
  p = NULL ∧ m (3 * ONE_GB + 4096) = true.
Proof. split; reflexivity. Qed.

(** [madvise] reports an error by -1 and [errno]: the tolerance for kernels
    without transparent huge pages, which compares the result with [EINVAL],
    never applies. *)
Lemma nohugepage_tolerance_dead err addr size :
  err = 0 ∨ err = -1 → memkind_nohugepage_madvise err addr size = err.
Proof. by intros [-> | ->]. Qed.
