(* ===== verification/ArenaStats.v ===== *)
(** * Statistics of a kind's arenas ([src/memkind_arena.c])

    The numbers of a kind are the sums over its arenas of what jemalloc's
    [mallctl] reports; the options of the printed statistics become the letters
    that jemalloc takes. *)
From S2P Require Import CString Prelude Counters Registry.
Local Open Scope string_scope.
Local Open Scope Z_scope.

Inductive memkind_stat_type := MEMKIND_STAT_TYPE_RESIDENT | MEMKIND_STAT_TYPE_ACTIVE | MEMKIND_STAT_TYPE_ALLOCATED.

Definition PAGE_2_BYTES (x : Z) : Z := u64 (Z.shiftl x 12).

(** The names before and after the number of the arena. *)
Definition arena_stats (stat : memkind_stat_type) : list (string * string) :=
  match stat with
  | MEMKIND_STAT_TYPE_RESIDENT => [("stats.arenas.", ".resident")]
  | MEMKIND_STAT_TYPE_ACTIVE => [("stats.arenas.", ".pactive")]
  | MEMKIND_STAT_TYPE_ALLOCATED => [("stats.arenas.", ".small.allocated"); ("stats.arenas.", ".large.allocated")]
  end.

Definition global_stats (stat : memkind_stat_type) : string :=
  match stat with
  | MEMKIND_STAT_TYPE_RESIDENT => "stats.resident"
  | MEMKIND_STAT_TYPE_ACTIVE => "stats.active"
  | MEMKIND_STAT_TYPE_ALLOCATED => "stats.allocated"
  end.

Definition command (name : string * string) (arena : Z) : string := name.1 ++ print_int arena ++ name.2.

Section stats.
(** [jemk_mallctl] on a name: an error, or the value; flags are 0 and 1. *)
Context (jemk_mallctl : string → Z + Z).

(** The loop over the names of one arena; the status and [*value]. *)
Fixpoint add_stats (names : list (string * string)) (arena value : Z) : Z * Z :=
  match names with
  | [] => (MEMKIND_SUCCESS, value)
  | name :: names =>
      match jemk_mallctl (command name arena) with
      | inl _ => (MEMKIND_ERROR_INVALID, value)
      | inr temp_stat => add_stats names arena (u64 (value + temp_stat))
      end
  end.

(** The loop over [n] arenas from [arena] on. *)
Fixpoint memkind_arena_get_stat (stat : memkind_stat_type) (check_init : bool) (n : nat) (arena value : Z) : Z * Z :=
  match n with
  | O => (MEMKIND_SUCCESS, value)
  | S n =>
      match (if check_init then jemk_mallctl (command ("arena.", ".initialized") arena) else inr 1) with
      | inl _ => (MEMKIND_ERROR_INVALID, value)
      | inr is_init =>
          if is_init =? 0 then memkind_arena_get_stat stat check_init n (u32 (arena + 1)) value else
          let (err, value) := add_stats (arena_stats stat) arena value in
          if negb (err =? MEMKIND_SUCCESS) then (err, value)
          else memkind_arena_get_stat stat check_init n (u32 (arena + 1)) value
      end
  end.

(** Active pages are counted in pages. *)
Definition memkind_arena_get_stat_with_check_init (arena_zero : Z) (arena_map_len : nat) (stat : memkind_stat_type)
    (check_init : bool) : Z * Z :=
  let (status, value) := memkind_arena_get_stat stat check_init arena_map_len arena_zero 0 in
  match stat with
  | MEMKIND_STAT_TYPE_ACTIVE => (status, PAGE_2_BYTES value)
  | _ => (status, value)
  end.

Definition memkind_arena_get_kind_stat (arena_zero : Z) (arena_map_len : nat) (stat : memkind_stat_type) : Z * Z :=
  memkind_arena_get_stat_with_check_init arena_zero arena_map_len stat false.

Definition memkind_arena_get_global_stat (stat : memkind_stat_type) : Z + Z :=
  match jemk_mallctl (global_stats stat) with
  | inl _ => inl MEMKIND_ERROR_INVALID
  | inr value => inr value
  end.

(** ** The sums *)

(** What one arena has, and the arenas of the kind. *)
Definition arena_total (value : string → Z) (stat : memkind_stat_type) (arena : Z) : Z :=
  foldr (λ name acc, value (command name arena) + acc) 0 (arena_stats stat).

Lemma add_stats_ok (value : string → Z) names arena acc :
  (∀ c, jemk_mallctl c = inr (value c)) → (∀ c, 0 <= value c) → 0 <= acc →
  acc + foldr (λ name acc, value (command name arena) + acc) 0 names < 2 ^ 64 →
  add_stats names arena acc = (MEMKIND_SUCCESS, acc + foldr (λ name acc, value (command name arena) + acc) 0 names).
Proof.
  intros Hv H0. revert acc. induction names as [|name names IH]; intros acc Hacc Hmax; cbn in *; [by rewrite Z.add_0_r|].
  rewrite Hv. specialize (H0 (command name arena)) as H0'.
  assert (0 <= foldr (λ name acc, value (command name arena) + acc) 0 names).
  { clear -H0. induction names as [|x l IH]; cbn; [done|]. specialize (H0 (command x arena)). lia. }
  rewrite u64_small by (unfold is_u64; lia). rewrite IH by lia. f_equal. lia.
Qed.

(** The sum over the arenas [arena], [arena + 1], ... that count. *)
Fixpoint kind_total (value : string → Z) (counts : Z → bool) (stat : memkind_stat_type) (n : nat) (arena : Z) : Z :=
  match n with
  | O => 0
  | S n => (if counts arena then arena_total value stat arena else 0) + kind_total value counts stat n (arena + 1)
  end.

Lemma arena_total_nonneg value stat arena : (∀ c, 0 <= value c) → 0 <= arena_total value stat arena.
Proof. intros H0. unfold arena_total. induction (arena_stats stat) as [|x l IH]; cbn; [done|]. specialize (H0 (command x arena)). lia. Qed.

Lemma kind_total_nonneg value counts stat n arena : (∀ c, 0 <= value c) → 0 <= kind_total value counts stat n arena.
Proof.
  intros H0. revert arena. induction n as [|n IH]; intros arena; cbn; [done|]. specialize (IH (arena + 1)).
  pose proof (arena_total_nonneg value stat arena H0). destruct (counts arena); lia.
Qed.

Lemma get_stat_ok (value : string → Z) stat check n arena acc :
  (∀ c, jemk_mallctl c = inr (value c)) → (∀ c, 0 <= value c) → 0 <= acc → 0 <= arena → arena + Z.of_nat n < 2 ^ 32 →
  let counts a := negb check || negb (value (command ("arena.", ".initialized") a) =? 0) in
  acc + kind_total value counts stat n arena < 2 ^ 64 →
  memkind_arena_get_stat stat check n arena acc = (MEMKIND_SUCCESS, acc + kind_total value counts stat n arena).
Proof.
  intros Hv H0 Hacc Ha Hn counts. revert arena acc Hacc Ha Hn. induction n as [|n IH]; intros arena acc Hacc Ha Hn Hmax; cbn in Hmax |- *.
  { by rewrite Z.add_0_r. }
  pose proof (kind_total_nonneg value counts stat n (arena + 1) H0). pose proof (arena_total_nonneg value stat arena H0).
  assert (Hu : u32 (arena + 1) = arena + 1) by (unfold u32; apply Z.mod_small; lia).
  assert (∃ v, (if check then jemk_mallctl (command ("arena.", ".initialized") arena) else inr 1) = inr v ∧
    (v =? 0) = negb (counts arena)) as (v & -> & ->).
  { destruct check; [|by exists 1]. eexists. split; [apply Hv|]. unfold counts. cbn [negb orb]. by rewrite negb_involutive. }
  destruct (counts arena); cbn [negb].
  - rewrite (add_stats_ok value) by (done || unfold arena_total in *; lia). fold (arena_total value stat arena).
    cbn [negb Z.eqb]. rewrite Hu, IH by lia. f_equal. lia.
  - rewrite Hu, IH by lia. f_equal.
Qed.

(** C26: The statistics of a kind: when jemalloc answers, the result is success and
    the sum over the arenas of the kind, or over those that are initialized if
    that is asked for; allocated bytes are the small and the large ones, active
    bytes the active pages times 4096. *)
Theorem kind_stat_is_sum (value : string → Z) stat check n arena_zero :
  (∀ c, jemk_mallctl c = inr (value c)) → (∀ c, 0 <= value c) → 0 <= arena_zero → arena_zero + Z.of_nat n < 2 ^ 32 →
  let counts a := negb check || negb (value (command ("arena.", ".initialized") a) =? 0) in
  let total := kind_total value counts stat n arena_zero in
  total * 4096 < 2 ^ 64 →
  memkind_arena_get_stat_with_check_init arena_zero n stat check =
  (MEMKIND_SUCCESS, match stat with MEMKIND_STAT_TYPE_ACTIVE => total * 4096 | _ => total end).
Proof.
  intros Hv H0 Ha Hn counts total Hmax. unfold memkind_arena_get_stat_with_check_init.
  pose proof (kind_total_nonneg value counts stat n arena_zero H0) as Hnn. fold total in Hnn.
  pose proof (get_stat_ok value stat check n arena_zero 0 Hv H0 (Z.le_refl 0) Ha Hn) as Hg. cbv zeta in Hg.
  fold counts in Hg. fold total in Hg. rewrite Hg by lia. rewrite Z.add_0_l. destruct stat; try done.
  unfold PAGE_2_BYTES. rewrite Z.shiftl_mul_pow2 by lia. change (2 ^ 12) with 4096. by rewrite u64_small by (unfold is_u64; lia).
Qed.
End stats.

Lemma kind_stat_is_sum_witness :
  memkind_arena_get_stat_with_check_init (λ c, inr (if String.eqb c "stats.arenas.3.large.allocated" then 64 else 16)) 2 2
    MEMKIND_STAT_TYPE_ALLOCATED false = (MEMKIND_SUCCESS, 112).
Proof.
  rewrite (kind_stat_is_sum _ (λ c, if String.eqb c "stats.arenas.3.large.allocated" then 64 else 16)); try done.
  intros c. by destruct (String.eqb _ _).
Defined.

(** ** Printing *)

Definition MEMKIND_STAT_PRINT_ALL : Z := 0.

(** The options and their letters, in the order of the code. *)
Definition print_letters : list (Z * string) :=
  [(1, "J"); (2, "g"); (4, "m"); (8, "d"); (16, "a"); (32, "b"); (64, "l"); (128, "x"); (256, "e")].

Definition is_stats_print_opts_valid (opts : Z) : bool :=
  foldl (λ opts l, CLEAR_BIT opts l.1) opts print_letters =? 0.

(** The letters that are set, as [strcat] appends them. *)
Definition letters_of (opts : Z) (ls : list (Z * string)) : string :=
  foldr (λ l s, (if negb (Z.land opts l.1 =? 0) then l.2 else "") ++ s) "" ls.

(** The status and, on success, what is passed to [jemk_malloc_stats_print]:
    [None] is the null pointer.  [temp] has 12 bytes. *)
Definition memkind_arena_stats_print (opts : Z) : outcome (Z * option (option string)) :=
  if negb (is_stats_print_opts_valid opts) then Ret (MEMKIND_ERROR_INVALID, None) else
  if opts =? MEMKIND_STAT_PRINT_ALL then Ret (MEMKIND_SUCCESS, Some None) else
  let temp := letters_of opts print_letters in
  if slen temp <? 12 then Ret (MEMKIND_SUCCESS, Some (Some temp)) else Stop OutOfBounds.

(** The option that a letter stands for. *)
Definition letter_opt (c : Ascii.ascii) : Z :=
  foldr (λ l acc, match l.2 with String c' _ => if Ascii.eqb c c' then l.1 else acc | _ => acc end) 0 print_letters.

Fixpoint options_of (s : string) : Z :=
  match s with
  | EmptyString => 0
  | String c s => Z.lor (letter_opt c) (options_of s)
  end.

Lemma valid_options opts : is_stats_print_opts_valid opts = true → 0 <= opts < 512.
Proof.
  unfold is_stats_print_opts_valid, CLEAR_BIT. cbn [foldl print_letters fst]. intros Hv. apply Z.eqb_eq in Hv.
  rewrite <- !Z.land_assoc in Hv.
  change (Z.land (Z.lnot 1) (Z.land (Z.lnot 2) (Z.land (Z.lnot 4) (Z.land (Z.lnot 8) (Z.land (Z.lnot 16)
    (Z.land (Z.lnot 32) (Z.land (Z.lnot 64) (Z.land (Z.lnot 128) (Z.lnot 256))))))))) with (Z.lnot (Z.ones 9)) in Hv.
  rewrite <- Z.ldiff_land, Z.ldiff_ones_r in Hv by lia. rewrite Z.shiftl_mul_pow2, Z.shiftr_div_pow2 in Hv by lia.
  change (2 ^ 9) with 512 in Hv. pose proof (Z.div_mod opts 512 ltac:(lia)). pose proof (Z.mod_pos_bound opts 512 ltac:(lia)). lia.
Qed.

Definition print_ok (opts : Z) : bool :=
  match memkind_arena_stats_print opts with
  | Ret (st, Some None) => (st =? 0) && (opts =? 0)
  | Ret (st, Some (Some s)) => (st =? 0) && (options_of s =? opts)
  | _ => false
  end.

Lemma all_options_ok : forallb print_ok (Z.of_nat <$> seq 0 512) = true.
Proof. vm_compute. reflexivity. Qed.


(** ** Background threads *)

(** [err] is what [mallctl] returns. *)
Definition memkind_arena_set_max_bg_threads (err threads_limit : Z) : Z :=
  if negb (threads_limit =? 0) then if negb (err =? 0) then MEMKIND_ERROR_INVALID else err
  else MEMKIND_ERROR_INVALID.

Definition memkind_arena_set_bg_threads (err : Z) : Z := if negb (err =? 0) then MEMKIND_ERROR_INVALID else err.
